(* ===== verification/_CoqProject ===== *)
-Q . S2P
Prelude.v
NetBuffer.v
NetByteStream.v
NetReceiveBuffer.v
NetSendBuffer.v
NetBufferHeap.v
NetBufferOwners.v
BaseWatcher.v
BasePoller.v
BaseLifetime.v
NetSocket.v
NetTcpConnection.v
NetLoop.v
NetPipe.v
NetConnector.v
BaseEventLoop.v
BaseTimerQueue.v
BaseTimerLoop.v
BaseThreads.v
UtilMonitors.v
UtilSingleton.v
LogStreams.v
LogMessages.v
LogAsync.v
NetServer.v
NetSystem.v
NetClient.v
NetClientSystem.v
ChatCodec.v
ExampleEcho.v
ExampleRally.v
ExamplePingPong.v
UtilFile.v
