(* ===== verification/Prelude.v ===== *)
(** * A verification library for nutty

    nutty is an event-driven network library in C++: event loops on top of
    [poll] or [epoll], timers, TCP connections, servers and clients, some
    thread utilities and a log module. This library translates its sources
    ([src/nutty/] and [src/examples/]) into Rocq definitions and proves what
    they guarantee - and, where the code does not do what it means to, what goes
    wrong.

    ** The parts and how they interact

    An [EventLoop] runs on one thread: it polls, dispatches events to
    [Watcher]s, then runs the functors other threads have queued. Watchers
    register with a [Poller]. Timers, the acceptor, the connector and the
    connections each own a watcher and act in its callbacks. A [TcpServer] owns
    an acceptor, a pool of loop threads and its connections, a [TcpClient] a
    connector and one connection. A connection reads into a [ReceiveBuffer] and
    keeps what the kernel did not take in a [SendBuffer]; both are queues of
    [Buffer]s. The utilities and the log module stand alone. The example
    programs are clients of all this: a chat protocol, echo servers and a
    ping-pong benchmark.

    The files, in dependency order; a Module has the name of the class it
    models, a definition that of the method, and a record that of the fields:

    - [Prelude]: machine integers, lists measured in [Z], raw memory ([ptr],
      [load], [memcpy]), reachability, tactics and hints.
    - [NetBuffer] ([net/Buffer.*]), [NetReceiveBuffer] ([net/ReceiveBuffer.*]),
      [NetSendBuffer] ([net/SendBuffer.*]): the byte queues. [NetByteStream] is
      the interface (class [ByteStream]) that a queue of bytes promises to its
      clients; receive and send buffers are instances. [NetBufferHeap] is the
      same code with the pointers it has: the deques hold addresses of [Buffer]
      objects on a heap, which [new] and [delete] extend and shrink. It
      simulates the models by value; [NetBufferOwners] shows for programs over
      any number of buffers who owns which object.
    - [BaseWatcher] ([base/Watcher.*], [base/Poller.h]): watchers, the class
      [Poller] that states what a poller promises, and the dispatch of events.
      [BasePoller] ([base/poller/*]): both pollers, instances of it.
      [BaseLifetime]: the constructors and destructors of [EventLoop],
      [TimerQueue] and poller, and the descriptors they own.
    - [BaseEventLoop] ([base/EventLoop.*]), [BaseTimerQueue] ([base/Timer.*],
      [base/TimerQueue.*]), [BaseTimerLoop] (the timer queue in the rounds of
      its loop, with the clock and the timerfd), [BaseThreads]
      ([base/EventLoopThread*], [base/Thread.*]).
    - [NetSocket] ([net/Socket.*], [net/InetAddress.*]): system calls and the
      ownership of descriptors.
    - [NetTcpConnection] ([net/TcpConnection.*]), [NetConnector]
      ([net/Connector.*]), [NetServer] ([net/Acceptor.*], [net/TcpServer.*]),
      [NetClient] ([net/TcpClient.*]). The first three are proved against the
      [Poller] interface, hence for both pollers.
    - [NetLoop]: one [EventLoop] with any number of connections on its one
      poller and its one queue of functors, round by round ([loop],
      [doPendingFunctors]). [NetPipe]: two connections joined by a network, each
      the other's peer.
    - [NetSystem]: the state machine of a [TcpServer] composed with those of its
      connections. [NetClientSystem]: a [TcpClient] composed with its connector
      and its connections, in the rounds of their loop.
    - [UtilMonitors] ([util/]: the two queues, [Semaphore], [CountDownLatch]),
      [UtilSingleton] ([util/Singleton.h]), [UtilFile] ([util/FileUtil.*]).
    - [LogStreams] ([log/LogStream.*], [log/LogBuffer.*], [log/LogFormat.*]),
      [LogMessages] ([log/LogMessage.*]), [LogAsync] ([log/AsyncLogger.*],
      [log/AsyncLogging.*]).
    - [ChatCodec] ([examples/chat/]), [ExampleEcho] ([examples/simple/echo/],
      the callbacks of [examples/pingpong/]), [ExampleRally] (the two ping-pong
      programs at the ends of one connection), [ExamplePingPong] (the
      bookkeeping of [examples/pingpong/client.cpp]).

    ** Conventions

    Operations are total functions or, where the C++ code could make an access
    that it may not make (out of bounds, a null or dangling pointer), functions
    into [option] with [None] for such an access: a theorem that a run is [Some]
    is a memory-safety theorem. [size_t] and [uint32_t] wrap ([u64], [u32]),
    conversions to [int] and [short] too ([i32], [i16]). Times are unbounded
    integers.

    What is outside of the sources is a parameter. The kernel's answers and the
    code of callbacks are functions of everything that happened before (a record
    [env], or a [body]), so theorems hold for every kernel and every user; the
    few assumptions about them are named ([env_ok], [input_ok], [op_ok]) and say
    what the manual pages say: [write] takes at most what it is offered, a
    descriptor just opened is not registered, and so on. Four conditions go
    further and exclude runs that the code itself does not exclude; each is
    shown to be needed. [TcpConnection.revents_ok]: no hang-up is reported
    together with urgent data and without [POLLIN]
    ([hangup_with_urgent_data_closes_twice]). [ConnectionLoop.event_ok]: a
    connection is destroyed when it is not registered and no functor is bound to
    it ([destroyed_in_batch_is_undefined]). [ClientSystem.event_ok]: no
    [connect()] and no retry while an old connection or watcher is on its way
    out ([impatient_client_is_undefined]). [EventLoop.reached false]: the loop's
    own thread queues nothing before [loop()]
    ([functor_queued_before_loop_waits]). And two things are taken to succeed
    although their results are ignored: adding a descriptor to epoll, and
    [epoll_create1]. All callbacks a connection invokes unconditionally are
    taken to be set. Histories ([tr], [log], [calls], [queued], [ran], [put_],
    [taken], [accepted]) record what happened and influence nothing.

    Concurrency is interleaving. Where several threads meet ([BaseEventLoop],
    [BaseThreads], [UtilMonitors], [UtilSingleton], [LogAsync], [ClientThreads]
    in [NetClient]) the model has one step per access to shared state or per
    critical section, spurious wake-ups included, and the theorems are
    invariants of the reachable states. Elsewhere all state belongs to one loop
    thread, and a sequence of inputs says what happens in which order; calls
    from other threads put functors into the queue the model holds.

    ** What is shown

    - Data: [Buffer], [ReceiveBuffer] and [SendBuffer] implement byte queues;
      received bytes are appended, sent ones removed, no access leaves a buffer.
      With pointers they do the same, and no [Buffer] object is leaked, shared,
      used after its deletion or deleted twice.
    - Registration: watchers and poller always agree; both pollers report
      exactly the ready watchers, and are interchangeable as long as epoll's
      array has room.
    - Loop: functors run exactly once, in order, and no wake-up is lost once
      [loop()] runs; timers fire in order, are armed, and stay canceled from the
      end of the operation that canceled them; a timer that is due when the loop
      polls runs in that round, if this poll reports the timerfd (a full epoll
      array may put it off to a later poll), and a repeating one runs for each
      of its times, without drift. A loop is constructed and destroyed without
      an undefined step, and closes what it opened.
    - Connections: the life of a connection and the order of its bytes in both
      directions, for every order of events; that every step keeps the state
      well-formed; what each send and each writable event does. A loop with many
      connections is a refinement of each of them alone, so all of this holds of
      every connection of a loop, whatever the others do. The two ends of a
      connection are a reliable pipe in each direction, and the pipe drains.
    - Client and server: the connector keeps at most one attempt or retry and
      its delays double, in whatever way its attempts fail; the server owns
      exactly its open connections, spreads them round robin and leaks no
      descriptor; together with the connections' own state machines, each closed
      connection is let go exactly once; the client keeps one connection, and
      its connector is switched the way the thread that calls [connect] and
      [disconnect] decides, if only one does; together with its connector and
      connections it keeps trying while it is started, and connects as soon as
      the network lets it; a descriptor has one owner.
    - Monitors: queues are first-in first-out, semaphore and latch count, and
      wake-ups are not lost; a singleton is constructed once and, unless its
      type says otherwise, destroyed at the exit, after which it may not be
      used; a file reader terminates and reads a prefix of its file.
    - Log: numbers read back as themselves, a line is the concatenation of its
      items, cached time stamps are current (where messages have one), and the
      asynchronous logger loses and reorders nothing while it runs.
    - Examples: the chat codec implements a reference decoder, a message whose
      frame is alone in each buffer makes the round trip from one client to the
      others, the ping-pong ends send back exactly what they receive, keep
      exactly one message between them until one of them shuts down and never
      more, and the benchmark reports the true totals.
    - The remaining theorems are counterexamples: a deferred shutdown that never
      happens, sends that are dropped, lost or written after a shutdown, stale
      functors that destroy a live watcher, handlers called on objects that an
      earlier handler of the same round destroyed, calls of [quit], [cancel],
      [stop] that are lost, wrong peeks, dangling pointers, an echo that repeats
      itself and a codec that eats the next header.

    ** Fuel

    Loops over a list recurse over it. Those that shrink a queue ([drain_loop],
    [hasSent_loop]) have the number of buffers as fuel, since every round but
    the last removes one, and their theorems show that they return. The codec's
    loop has the size of the receive buffer as fuel and the file reader's the
    bytes still wanted: each round but the last takes or adds some. The digit
    loops have 20 decimal and 16 hexadecimal rounds, the most that 64 bits need.

    ** What is not modelled

    The C library's formatting of floating-point numbers and of the user's
    formats, the clock and [localtime_r] (parameters of [LogStreams] and
    [LogMessages]); socket options and addresses where connections and acceptors
    set or report them; destructors that only free memory, other than those of
    the buffers; where [NetBufferHeap] allocates, the allocator is a parameter
    that returns an unused address and does not fail; the [main] functions and
    [TcpNoDelay] calls of the examples; the tests. A connection, the connector
    and the acceptor are first modelled with a poller of their own; for
    connections [NetLoop] shows that this is without loss. There an address or a
    descriptor may be used again when its object is gone, elsewhere the
    addresses of watchers are fresh. *)

From Stdlib Require Export ZArith Lia.
From Stdlib Require Strings.Byte.
From stdpp Require Export base numbers list gmap relations option.



(** ** Notations *)

Open Scope Z_scope.

Abbreviation byte := Byte.byte.
Abbreviation last := list.last.

#[export] Instance byte_eq_dec : EqDecision byte := Byte.byte_eq_dec.

(** ** Machine-width integers *)

(** [size_t], [uint64_t] and [uintptr_t] on the x86-64 Linux targets the
    code is written for: arithmetic modulo 2^64. *)
Definition u64 (x : Z) : Z := x `mod` 18446744073709551616.

(** [uint32_t]: arithmetic modulo 2^32. *)
Definition u32 (x : Z) : Z := x `mod` 4294967296.

(** Conversion to the signed 32-bit [int]. *)
Definition i32 (x : Z) : Z := (x + 2147483648) `mod` 4294967296 - 2147483648.

Definition in_u64 (x : Z) : Prop := 0 <= x < 18446744073709551616.

Lemma u64_range x : in_u64 (u64 x).
Proof. unfold in_u64, u64. apply Z.mod_pos_bound. lia. Qed.

Lemma u64_small x : in_u64 x -> u64 x = x.
Proof. unfold in_u64, u64. apply Z.mod_small. Qed.

Lemma u64_add_l x y : u64 (u64 x + y) = u64 (x + y).
Proof. unfold u64. apply Zplus_mod_idemp_l. Qed.

Lemma u64_add_r x y : u64 (x + u64 y) = u64 (x + y).
Proof. unfold u64. apply Zplus_mod_idemp_r. Qed.

Lemma u64_sub_l x y : u64 (u64 x - y) = u64 (x - y).
Proof. unfold u64. apply Zminus_mod_idemp_l. Qed.

Lemma u64_sub_r x y : u64 (x - u64 y) = u64 (x - y).
Proof. unfold u64. apply Zminus_mod_idemp_r. Qed.

(** ** Lists measured in Z *)

Definition zlen {A} (l : list A) : Z := Z.of_nat (length l).
Definition ztake {A} (n : Z) (l : list A) : list A := take (Z.to_nat n) l.
Definition zdrop {A} (n : Z) (l : list A) : list A := drop (Z.to_nat n) l.

(** The [n] elements of [l] from offset [off] on. *)
Definition slice {A} (off n : Z) (l : list A) : list A := ztake n (zdrop off l).

(** [dst] with [src] written over it at offset [off]. *)
Definition splice {A} (off : Z) (src dst : list A) : list A :=
  ztake off dst ++ src ++ zdrop (off + zlen src) dst.

Section ZLists.
Context {A : Type}.
Implicit Types l k : list A.

Lemma zlen_nonneg l : 0 <= zlen l.
Proof. unfold zlen. lia. Qed.

Lemma zlen_nil : zlen (@nil A) = 0.
Proof. reflexivity. Qed.

Lemma zlen_cons x l : zlen (x :: l) = 1 + zlen l.
Proof. unfold zlen. simpl. lia. Qed.

Lemma zlen_app l k : zlen (l ++ k) = zlen l + zlen k.
Proof. unfold zlen. rewrite length_app. lia. Qed.

Lemma zlen_prefix l k : l `prefix_of` k -> zlen l <= zlen k.
Proof. intros [j ->]. rewrite zlen_app. pose proof (zlen_nonneg j). lia. Qed.

Lemma zlen_0_nil l : zlen l <= 0 -> l = [].
Proof. unfold zlen. destruct l; simpl; [done | lia]. Qed.

Lemma zlen_ztake n l : zlen (ztake n l) = Z.max 0 (Z.min n (zlen l)).
Proof. unfold zlen, ztake. rewrite length_take. lia. Qed.

Lemma zlen_zdrop n l : zlen (zdrop n l) = zlen l - Z.max 0 (Z.min n (zlen l)).
Proof. unfold zlen, zdrop. rewrite length_drop. lia. Qed.

Lemma zlen_replicate n (x : A) : zlen (replicate n x) = Z.of_nat n.
Proof. unfold zlen. by rewrite length_replicate. Qed.

Lemma zlen_slice off n l :
  0 <= off -> 0 <= n -> off + n <= zlen l -> zlen (slice off n l) = n.
Proof. intros. unfold slice. rewrite zlen_ztake, zlen_zdrop. lia. Qed.

Lemma zlen_splice off src l :
  0 <= off -> off + zlen src <= zlen l -> zlen (splice off src l) = zlen l.
Proof.
  intros. pose proof (zlen_nonneg src). unfold splice.
  rewrite !zlen_app, zlen_ztake, zlen_zdrop. lia.
Qed.

Lemma ztake_0 l : ztake 0 l = [].
Proof. reflexivity. Qed.

Lemma zdrop_0 l : zdrop 0 l = l.
Proof. reflexivity. Qed.

Lemma ztake_nonpos n l : n <= 0 -> ztake n l = [].
Proof. intros. unfold ztake. by replace (Z.to_nat n) with O by lia. Qed.

Lemma zdrop_nonpos n l : n <= 0 -> zdrop n l = l.
Proof. intros. unfold zdrop. by replace (Z.to_nat n) with O by lia. Qed.

Lemma ztake_nil n : ztake n (@nil A) = [].
Proof. unfold ztake. by rewrite take_nil. Qed.

Lemma zdrop_nil n : zdrop n (@nil A) = [].
Proof. unfold zdrop. by rewrite drop_nil. Qed.

Lemma ztake_all n l : zlen l <= n -> ztake n l = l.
Proof. unfold zlen, ztake. intros. apply take_ge. lia. Qed.

Lemma zdrop_all n l : zlen l <= n -> zdrop n l = [].
Proof. unfold zlen, zdrop. intros. apply drop_ge. lia. Qed.

Lemma ztake_zdrop n l : ztake n l ++ zdrop n l = l.
Proof. apply take_drop. Qed.

(** Cutting a concatenation after, respectively before, the seam. *)
Lemma ztake_app_ge n l k : zlen l <= n -> ztake n (l ++ k) = l ++ ztake (n - zlen l) k.
Proof.
  unfold zlen, ztake. intros.
  rewrite take_app_ge by lia. do 2 f_equal. lia.
Qed.

Lemma ztake_app_le n l k : n <= zlen l -> ztake n (l ++ k) = ztake n l.
Proof. unfold zlen, ztake. intros. apply take_app_le. lia. Qed.

Lemma zdrop_app_ge n l k : zlen l <= n -> zdrop n (l ++ k) = zdrop (n - zlen l) k.
Proof.
  unfold zlen, zdrop. intros. rewrite drop_app_ge by lia. f_equal. lia.
Qed.

Lemma zdrop_app_le n l k : n <= zlen l -> zdrop n (l ++ k) = zdrop n l ++ k.
Proof. unfold zlen, zdrop. intros. apply drop_app_le. lia. Qed.

Lemma zdrop_zdrop n m l : 0 <= n -> 0 <= m -> zdrop n (zdrop m l) = zdrop (m + n) l.
Proof. intros. unfold zdrop. rewrite drop_drop. f_equal. lia. Qed.

Lemma ztake_ztake n m l : ztake n (ztake m l) = ztake (Z.min n m) l.
Proof. unfold ztake. rewrite take_take. f_equal. lia. Qed.

Lemma zdrop_ztake n m l : 0 <= n -> zdrop n (ztake m l) = ztake (m - n) (zdrop n l).
Proof.
  intros. unfold zdrop, ztake. destruct (decide (n <= m)).
  - rewrite take_drop_commute. do 2 f_equal. lia.
  - rewrite drop_ge by (rewrite length_take; lia).
    by replace (Z.to_nat (m - n)) with O by lia.
Qed.
End ZLists.

(** ** Memory

    A pointer into a block of storage is the block and an offset. [memcpy]
    is undefined ([None]) when the source or the destination range leaves
    its block; otherwise the destination block is overwritten. *)
Abbreviation ptr := (list byte * Z)%type.

Definition memcpy (dst : list byte) (doff : Z) (src : ptr) (n : Z) : option (list byte) :=
  let '(blk, soff) := src in
  if (0 <=? n) && (0 <=? doff) && (doff + n <=? zlen dst)
     && (0 <=? soff) && (soff + n <=? zlen blk)
  then Some (splice doff (slice soff n blk) dst)
  else None.

(** The [n] bytes a pointer designates, as [std::string::append(p, n)] reads
    them. *)
Definition load (src : ptr) (n : Z) : option (list byte) :=
  let '(blk, soff) := src in
  if (0 <=? n) && (0 <=? soff) && (soff + n <=? zlen blk)
  then Some (slice soff n blk)
  else None.

Lemma memcpy_ok dst doff blk soff n :
  0 <= n -> 0 <= doff -> doff + n <= zlen dst -> 0 <= soff -> soff + n <= zlen blk ->
  memcpy dst doff (blk, soff) n = Some (splice doff (slice soff n blk) dst).
Proof.
  intros. unfold memcpy.
  rewrite !(proj2 (Z.leb_le _ _)) by lia. done.
Qed.

Lemma load_ok blk soff n :
  0 <= n -> 0 <= soff -> soff + n <= zlen blk ->
  load (blk, soff) n = Some (slice soff n blk).
Proof.
  intros. unfold load.
  rewrite !(proj2 (Z.leb_le _ _)) by lia. done.
Qed.

(** The C string that starts at a byte: up to the first NUL. *)
Fixpoint c_str (bytes : list byte) : list byte :=
  match bytes with
  | [] => []
  | b :: rest => if decide (b = Byte.x00) then [] else b :: c_str rest
  end.

Lemma c_str_nul bytes rest : Byte.x00 ∉ bytes -> c_str (bytes ++ Byte.x00 :: rest) = bytes.
Proof.
  induction bytes as [|b bytes IH]; [done|]. intros [Hne Hn]%not_elem_of_cons. cbn.
  rewrite decide_False by done. by rewrite IH.
Qed.

Section Slices.
Context {A : Type}.
Implicit Types l k : list A.

Lemma slice_0 off l : slice off 0 l = [].
Proof. reflexivity. Qed.

Lemma slice_all l : slice 0 (zlen l) l = l.
Proof. unfold slice. rewrite zdrop_0. apply ztake_all. lia. Qed.

Lemma ztake_sublist n l : ztake n l `sublist_of` l.
Proof. apply sublist_take. Qed.

Lemma zdrop_sublist n l : zdrop n l `sublist_of` l.
Proof. apply sublist_drop. Qed.

(** A prefix and a suffix of a slice are slices. *)
Lemma ztake_slice n off m l : n <= m -> ztake n (slice off m l) = slice off n l.
Proof. intros. unfold slice. rewrite ztake_ztake. f_equal. lia. Qed.

Lemma zdrop_slice n off m l :
  0 <= n -> 0 <= off -> zdrop n (slice off m l) = slice (off + n) (m - n) l.
Proof.
  intros. unfold slice. rewrite zdrop_ztake by done. by rewrite zdrop_zdrop.
Qed.

(** Writing [s2] right after [s1] is writing [s1 ++ s2]. *)
Lemma splice_splice off s1 s2 l :
  0 <= off -> off + zlen s1 + zlen s2 <= zlen l ->
  splice (off + zlen s1) s2 (splice off s1 l) = splice off (s1 ++ s2) l.
Proof.
  intros. pose proof (zlen_nonneg s1). pose proof (zlen_nonneg s2).
  unfold splice at 1. unfold splice at 1 2 3.
  assert (zlen (ztake off l) = off) as Ht by (rewrite zlen_ztake; lia).
  rewrite ztake_app_ge by lia. rewrite Ht.
  replace (off + zlen s1 - off) with (zlen s1) by lia.
  rewrite ztake_app_le, (ztake_all (zlen s1)) by lia.
  rewrite (zdrop_app_ge _ (ztake off l)) by lia. rewrite Ht.
  rewrite zdrop_app_ge by lia. rewrite zdrop_zdrop by lia.
  rewrite <- !app_assoc, zlen_app. do 3 f_equal. f_equal. lia.
Qed.

Lemma splice_nil off l : splice off [] l = l.
Proof.
  unfold splice. rewrite zlen_nil, Z.add_0_r. simpl. apply ztake_zdrop.
Qed.

Lemma splice_all s l : zlen s = zlen l -> splice 0 s l = s.
Proof.
  intros. unfold splice. rewrite ztake_0, zdrop_all by lia. by rewrite app_nil_r.
Qed.

Lemma slice_splice_same off s l :
  0 <= off -> off + zlen s <= zlen l -> slice off (zlen s) (splice off s l) = s.
Proof.
  intros. pose proof (zlen_nonneg s). unfold slice, splice.
  assert (zlen (ztake off l) = off) as Ht by (rewrite zlen_ztake; lia).
  rewrite zdrop_app_ge by lia. rewrite Ht, Z.sub_diag, zdrop_0.
  rewrite ztake_app_le by lia. by apply ztake_all.
Qed.

Lemma slice_splice_below off n m s l :
  0 <= off -> 0 <= n -> off + n <= m -> m <= zlen l ->
  slice off n (splice m s l) = slice off n l.
Proof.
  intros. unfold slice, splice.
  assert (zlen (ztake m l) = m) as Ht by (rewrite zlen_ztake; lia).
  rewrite zdrop_app_le by lia.
  rewrite zdrop_ztake by lia.
  rewrite ztake_app_le by (rewrite zlen_ztake, zlen_zdrop; lia).
  rewrite ztake_ztake. f_equal. lia.
Qed.

Lemma slice_app off n m l :
  0 <= off -> 0 <= n -> 0 <= m ->
  slice off n l ++ slice (off + n) m l = slice off (n + m) l.
Proof.
  intros. rewrite <- (ztake_zdrop n (slice off (n + m) l)).
  rewrite ztake_slice, zdrop_slice by lia. do 2 f_equal. lia.
Qed.
End Slices.

Lemma if_same {A} (b : bool) (x : A) : (if b then x else x) = x.
Proof. by destruct b. Qed.

Lemma Forall_snoc {A} (P : A -> Prop) l x : Forall P l -> P x -> Forall P (l ++ [x]).
Proof. intros. apply Forall_app. split; [done | by constructor]. Qed.

Lemma list_filter_all {A} (P : A -> Prop) `{!forall x, Decision (P x)} l :
  Forall P l -> filter P l = l.
Proof. induction 1; [done|]. rewrite filter_cons_True by done. by f_equal. Qed.

Lemma list_filter_none {A} (P : A -> Prop) `{!forall x, Decision (P x)} l :
  Forall (fun x => ~ P x) l -> filter P l = [].
Proof. induction 1; [done|]. by rewrite filter_cons_False. Qed.

(** A list is empty or ends with an element. *)
Lemma exists_last_dec {A} (l : list A) : l = [] \/ exists l' x, l = l' ++ [x].
Proof. destruct l using rev_ind; [by left|right; eauto]. Qed.

(** ** Reachability and inductive invariants *)

Definition reachable {S : Type} (init : S -> Prop) (step : relation S) (s : S) : Prop :=
  exists s0, init s0 /\ rtc step s0 s.

Lemma reachable_ind_inv {S : Type} (init : S -> Prop) (step : relation S) (I : S -> Prop) :
  (forall s, init s -> I s) ->
  (forall s s', I s -> step s s' -> I s') ->
  forall s, reachable init step s -> I s.
Proof.
  intros Hi Hs s (s0 & H0 & Hr). apply Hi in H0. clear Hi.
  induction Hr as [|x y z Hxy _ IH]; [done|]. apply IH. by eapply Hs.
Qed.

Lemma reachable_init {S : Type} (init : S -> Prop) (step : relation S) s :
  init s -> reachable init step s.
Proof. intros. exists s. by split; [|apply rtc_refl]. Qed.

Lemma reachable_step {S : Type} (init : S -> Prop) (step : relation S) s s' :
  reachable init step s -> step s s' -> reachable init step s'.
Proof. intros (s0 & ? & ?) ?. exists s0. split; [done|]. by eapply rtc_r. Qed.

(** ** Automation *)

Create HintDb nutty discriminated.
#[export] Hint Constants Opaque : nutty.
#[export] Hint Resolve u64_range zlen_nonneg reachable_init : nutty.

Create Rewrite HintDb zlist.
#[export] Hint Rewrite @zlen_nil @zlen_cons @zlen_app @zlen_ztake @zlen_zdrop
  @zlen_replicate : zlist.

(** Linear arithmetic after normalising list lengths. *)
Ltac zlia :=
  unfold in_u64 in *;
  autorewrite with zlist in *;
  repeat match goal with
  | |- context [zlen ?l] =>
      lazymatch goal with
      | _ : 0 <= zlen l |- _ => fail
      | _ => pose proof (zlen_nonneg l)
      end
  | _ : context [zlen ?l] |- _ =>
      lazymatch goal with
      | _ : 0 <= zlen l |- _ => fail
      | _ => pose proof (zlen_nonneg l)
      end
  end; try lia.

(** Replace a [u64] of an in-range value by the value. *)
Ltac u64_simpl :=
  repeat match goal with
  | |- context [u64 ?x] => rewrite (u64_small x) by zlia
  | H : context [u64 ?x] |- _ => rewrite (u64_small x) in H by zlia
  end.

(** Turn boolean tests of [Z] and [bool] into propositions. *)
Ltac zbool :=
  repeat match goal with
  | H : (_ && _) = true |- _ => apply andb_prop in H; destruct H
  | H : (_ <? _) = true |- _ => apply Z.ltb_lt in H
  | H : (_ <? _) = false |- _ => apply Z.ltb_ge in H
  | H : (_ <=? _) = true |- _ => apply Z.leb_le in H
  | H : (_ <=? _) = false |- _ => apply Z.leb_gt in H
  | H : (_ =? _) = true |- _ => apply Z.eqb_eq in H
  | H : (_ =? _) = false |- _ => apply Z.eqb_neq in H
  | H : negb _ = true |- _ => apply negb_true_iff in H
  | H : negb _ = false |- _ => apply negb_false_iff in H
  end.

(** Split an equation between optional tuples into its components. *)
Ltac tuple_eq :=
  repeat match goal with
  | |- Some _ = Some _ => f_equal
  | |- (_, _) = (_, _) => f_equal
  end.

(** Case analysis on the boolean test of the goal's next [if]. *)
Ltac case_if :=
  match goal with
  | |- context [if ?b then _ else _] => destruct b eqn:?; zbool
  end.
