(* ===== verification/NetBuffer.v ===== *)
(** The fixed-capacity byte buffer of [nutty/net/Buffer.h] and [Buffer.cpp]:
    a block of storage with a read and a write position. [Module Buffer]
    follows the class member by member; [Buffer.readable] is its abstraction,
    the bytes written and not yet read. *)

From S2P Require Import Prelude.

Module Buffer.

(** [buffer_] is the vector's storage: [capacity()] is its length (libstdc++
    allocates exactly the requested number of elements for the two
    constructors, and the vector never grows). *)
Record t := mk {
  buffer_ : list byte;
  rpos_ : Z;
  wpos_ : Z
}.

(** [Buffer::Buffer(size_t capacity)] *)
Definition make (capacity : Z) : t :=
  mk (replicate (Z.to_nat capacity) Byte.x00) 0 0.

(** [Buffer::Buffer(const void* buf, size_t count)] *)
Definition make_from (buf : ptr) (count : Z) : option t :=
  storage ← memcpy (replicate (Z.to_nat count) Byte.x00) 0 buf count;
  Some (mk storage 0 count).

(** [Buffer::Buffer(Buffer&& buffer)]: the new object and the moved-from one,
    whose vector is left empty. *)
Definition make_move (buffer : t) : t * t :=
  (mk (buffer_ buffer) (rpos_ buffer) (wpos_ buffer), mk [] 0 0).

Definition data (b : t) : ptr := (buffer_ b, 0).
Definition dataRead (b : t) : ptr := (buffer_ b, rpos_ b).
Definition dataWrite (b : t) : ptr := (buffer_ b, wpos_ b).

Definition capacity (b : t) : Z := zlen (buffer_ b).
Definition readableSize (b : t) : Z := u64 (wpos_ b - rpos_ b).
Definition writableSize (b : t) : Z := u64 (capacity b - wpos_ b).

Definition hasRead (count : Z) (b : t) : t :=
  mk (buffer_ b) (u64 (rpos_ b + count)) (wpos_ b).
Definition hasWritten (count : Z) (b : t) : t :=
  mk (buffer_ b) (rpos_ b) (u64 (wpos_ b + count)).
Definition reset (b : t) : t := mk (buffer_ b) 0 0.
Definition empty (b : t) : bool := rpos_ b =? wpos_ b.
Definition full (b : t) : bool := wpos_ b =? capacity b.

(** Storing through a pointer obtained from [data()] or [dataWrite()]. *)
Definition store (off : Z) (bytes : list byte) (b : t) : option t :=
  storage ← memcpy (buffer_ b) off (bytes, 0) (zlen bytes);
  Some (mk storage (rpos_ b) (wpos_ b)).

#[global] Arguments store : simpl never.
#[global] Arguments make : simpl never.

(** ** Invariant and abstraction *)

Definition wf (b : t) : Prop :=
  0 <= rpos_ b <= wpos_ b /\ wpos_ b <= capacity b /\ in_u64 (capacity b).

Definition readable (b : t) : list byte :=
  slice (rpos_ b) (wpos_ b - rpos_ b) (buffer_ b).

(** ** Properties *)

Ltac unfold_buffer :=
  unfold wf, readable, empty, full, reset, hasRead, hasWritten,
    readableSize, writableSize, capacity, data, dataRead, dataWrite in *;
  cbn [buffer_ rpos_ wpos_] in *.

Lemma buffer_wf_make n : in_u64 n -> wf (make n).
Proof. intros. unfold make. unfold_buffer. zlia. Qed.

Lemma readable_make n : readable (make n) = [].
Proof. reflexivity. Qed.

Lemma capacity_make n : 0 <= n -> capacity (make n) = n.
Proof. intros. unfold make. unfold_buffer. zlia. Qed.

Lemma readableSize_zlen b : wf b -> readableSize b = zlen (readable b).
Proof.
  intros. unfold_buffer. u64_simpl. rewrite zlen_slice; zlia.
Qed.

Lemma readableSize_range b : wf b -> 0 <= readableSize b <= capacity b.
Proof. intros. unfold_buffer. u64_simpl. zlia. Qed.

Lemma writableSize_eq b : wf b -> writableSize b = capacity b - wpos_ b.
Proof. intros. unfold_buffer. by u64_simpl. Qed.

Lemma empty_readable b : wf b -> empty b = true <-> readable b = [].
Proof.
  intros Hwf. unfold_buffer. rewrite Z.eqb_eq. split; intros E.
  - rewrite E, Z.sub_diag. apply slice_0.
  - apply (f_equal zlen) in E. rewrite zlen_slice in E; zlia.
Qed.

Lemma empty_false_readable b : wf b -> empty b = false <-> readable b <> [].
Proof. intros. rewrite <- empty_readable by done. destruct (empty b); naive_solver. Qed.

(** Reading the front of the readable bytes through [dataRead()]. *)
Lemma load_dataRead n b :
  wf b -> 0 <= n <= readableSize b ->
  load (dataRead b) n = Some (ztake n (readable b)).
Proof.
  intros. unfold_buffer. u64_simpl. rewrite load_ok by zlia.
  by rewrite ztake_slice by zlia.
Qed.

Lemma memcpy_dataRead dst doff n b :
  wf b -> 0 <= n <= readableSize b -> 0 <= doff -> doff + n <= zlen dst ->
  memcpy dst doff (dataRead b) n = Some (splice doff (ztake n (readable b)) dst).
Proof.
  intros. unfold_buffer. u64_simpl. rewrite memcpy_ok by zlia.
  by rewrite ztake_slice by zlia.
Qed.

(** [hasRead] consumes a prefix, keeping the invariant. *)
Lemma hasRead_spec n b :
  wf b -> 0 <= n <= readableSize b ->
  wf (hasRead n b) /\ readable (hasRead n b) = zdrop n (readable b).
Proof.
  intros Hwf Hn. unfold_buffer. u64_simpl. split; [zlia|].
  rewrite zdrop_slice by zlia. f_equal. zlia.
Qed.

Lemma capacity_hasRead n b : capacity (hasRead n b) = capacity b.
Proof. reflexivity. Qed.

Lemma wf_reset b : wf b -> wf (reset b).
Proof. intros. unfold_buffer. zlia. Qed.

Lemma make_from_spec bytes count :
  in_u64 count -> count <= zlen bytes ->
  make_from (bytes, 0) count = Some (mk (ztake count bytes) 0 count).
Proof.
  intros. unfold make_from. rewrite memcpy_ok by zlia. cbn.
  rewrite splice_all by (rewrite zlen_slice; zlia). done.
Qed.

(** Writing [bytes] at the write position and calling [hasWritten] appends
    them to the readable bytes. *)
Lemma store_hasWritten bytes b :
  wf b -> zlen bytes <= writableSize b ->
  exists b', store (wpos_ b) bytes b = Some b' /\
    wf (hasWritten (zlen bytes) b') /\
    readable (hasWritten (zlen bytes) b') = readable b ++ bytes /\
    capacity b' = capacity b /\ rpos_ b' = rpos_ b /\ wpos_ b' = wpos_ b.
Proof.
  intros Hwf Hn. unfold store. unfold_buffer. u64_simpl.
  rewrite memcpy_ok by zlia. rewrite slice_all.
  eexists. split; [reflexivity|]. cbn [buffer_ rpos_ wpos_].
  rewrite zlen_splice by zlia.
  assert (u64 (wpos_ b + zlen bytes) = wpos_ b + zlen bytes) as -> by (apply u64_small; zlia).
  split; [zlia|]. split; [|done].
  replace (wpos_ b + zlen bytes - rpos_ b)
    with ((wpos_ b - rpos_ b) + zlen bytes) by lia.
  rewrite <- slice_app by zlia.
  rewrite slice_splice_below by zlia.
  replace (rpos_ b + (wpos_ b - rpos_ b)) with (wpos_ b) by lia.
  rewrite slice_splice_same by zlia. done.
Qed.

(** The unread bytes of a sequence of buffers, oldest first. *)
Definition contents_of (bs : list t) : list byte := mjoin (readable <$> bs).

Lemma contents_of_cons b bs : contents_of (b :: bs) = readable b ++ contents_of bs.
Proof. reflexivity. Qed.

Lemma contents_of_app bs1 bs2 : contents_of (bs1 ++ bs2) = contents_of bs1 ++ contents_of bs2.
Proof.
  induction bs1 as [|b bs1 IH]; [done|].
  rewrite <- app_comm_cons, !contents_of_cons, IH. by rewrite app_assoc.
Qed.

Lemma contents_of_snoc bs b : contents_of (bs ++ [b]) = contents_of bs ++ readable b.
Proof. rewrite contents_of_app, contents_of_cons. cbn. by rewrite app_nil_r. Qed.

(** The abstract contract of a buffer as one statement: reading [n]
    bytes through [dataRead] returns the oldest [n] unread bytes, [hasRead]
    then removes exactly those, and writing [w] through [dataWrite] followed
    by [hasWritten] appends [w], all inside the storage and preserving the
    position invariant [0 <= rpos_ <= wpos_ <= capacity]. *)
Theorem buffer_is_byte_queue (b : t) (n : Z) (w : list byte)
  (Hwf : wf b) (Hn : 0 <= n <= readableSize b) (Hw : zlen w <= writableSize b) :
  (load (dataRead b) n = Some (ztake n (readable b)) /\
   wf (hasRead n b) /\ readable (hasRead n b) = zdrop n (readable b)) /\
  (exists b', store (wpos_ b) w b = Some b' /\
     wf (hasWritten (zlen w) b') /\
     readable (hasWritten (zlen w) b') = readable b ++ w).
Proof.
  split.
  - split; [by apply load_dataRead | by apply hasRead_spec].
  - destruct (store_hasWritten w b) as (b' & ? & ? & ? & _); eauto.
Qed.

Definition sample : t := mk [Byte.x61; Byte.x62; Byte.x63; Byte.x00; Byte.x00] 1 3.

Lemma buffer_is_byte_queue_witness :
  wf sample /\
  load (dataRead sample) 1 = Some [Byte.x62] /\
  readable (hasRead 1 sample) = [Byte.x63] /\
  exists b', store 3 [Byte.x7a] sample = Some b' /\
    readable (hasWritten 1 b') = [Byte.x62; Byte.x63; Byte.x7a].
Proof.
  assert (wf sample) as Hwf by (vm_compute; intuition discriminate).
  destruct (buffer_is_byte_queue sample 1 [Byte.x7a] Hwf) as ((H1 & _ & H2) & (b' & H3 & _ & H4));
    [vm_compute; intuition discriminate | vm_compute; discriminate |].
  split; [exact Hwf|]. split; [exact H1|]. split; [exact H2|].
  exists b'. split; [exact H3 | exact H4].
Defined.

End Buffer.
