(* ===== verification/NetByteStream.v ===== *)
(** The interface between the segmented buffers and their clients: a byte
    stream that is consumed from the front. [ReceiveBuffer] and [SendBuffer]
    implement it; [TcpConnection] and the chat codec rely on it only. *)

From S2P Require Import Prelude.

(** [stream_consume n b] is [retrieve(n)] of a receive buffer and [hasSent(n)]
    of a send buffer; [stream_contents] is the abstract state, the bytes still
    in the stream. *)
Class ByteStream (B : Type) := {
  stream_wf : B -> Prop;
  stream_contents : B -> list byte;
  stream_size : B -> Z;
  stream_consume : Z -> B -> option B;
  stream_size_ok b :
    stream_wf b -> stream_size b = u64 (zlen (stream_contents b));
  stream_consume_ok n b :
    stream_wf b -> in_u64 n ->
    exists b', stream_consume n b = Some b' /\ stream_wf b' /\
      stream_contents b' = zdrop n (stream_contents b)
}.

Section Clients.
Context {B : Type} `{!ByteStream B}.

(** Consuming in pieces: what the kernel does to a send buffer, one partial
    write after the other. [None] if a piece cannot be consumed. *)
Fixpoint consume_all (pieces : list Z) (b : B) : option B :=
  match pieces with
  | [] => Some b
  | n :: rest => b' ← stream_consume n b; consume_all rest b'
  end.

Lemma consume_all_ok pieces b :
  stream_wf b -> Forall in_u64 pieces ->
  exists b', consume_all pieces b = Some b' /\ stream_wf b' /\
    stream_contents b' = zdrop (foldr Z.add 0 pieces) (stream_contents b).
Proof.
  intros Hwf Hp. revert b Hwf.
  induction Hp as [|n rest Hn Hrest IH]; intros b Hwf; cbn [consume_all foldr].
  - exists b. by rewrite zdrop_0.
  - destruct (stream_consume_ok n b Hwf Hn) as (b1 & -> & Hwf1 & Hc1).
    destruct (IH b1 Hwf1) as (b2 & E & Hwf2 & Hc2). cbn. rewrite E.
    exists b2. split; [done|]. split; [done|]. rewrite Hc2, Hc1.
    assert (0 <= foldr Z.add 0 rest) as Hs.
    { clear -Hrest. induction Hrest as [|m ms Hm _ IH]; cbn; [lia|].
      unfold in_u64 in Hm. lia. }
    unfold in_u64 in Hn. by rewrite zdrop_zdrop by lia.
Qed.

(** A stream whose pieces add up to its contents ends empty. *)
Lemma consume_all_drains pieces b :
  stream_wf b -> Forall in_u64 pieces ->
  zlen (stream_contents b) <= foldr Z.add 0 pieces ->
  exists b', consume_all pieces b = Some b' /\ stream_wf b' /\
    stream_contents b' = [] /\ stream_size b' = 0.
Proof.
  intros Hwf Hp Hlen. destruct (consume_all_ok pieces b Hwf Hp) as (b' & E & Hwf' & Hc).
  exists b'. rewrite zdrop_all in Hc by done. split; [done|]. split; [done|].
  split; [done|]. by rewrite stream_size_ok, Hc by done.
Qed.
End Clients.
