(* ===== verification/NetReceiveBuffer.v ===== *)
(** The segmented input buffer of [nutty/net/ReceiveBuffer.h] and
    [ReceiveBuffer.cpp]: two deques of fixed-size buffers, those holding unread
    bytes ([buffers_]) and empty ones kept for reuse ([extendBuffers_]).
    [ReceiveBuffer.contents] is the abstraction, the byte string not yet read.

    The [while]/[for] loops of [read], [peek] and [retrieve] are the same loops
    over three kinds of destination (raw memory, a [std::string], none); the
    loop is written once over a [copy] step and the class [CopySpec] states
    what a destination promises to it. *)

From S2P Require Import Prelude NetBuffer NetByteStream.

(** ** Destinations of the copy loops *)

(** [copy d nread p n] stores the [n] bytes at [p] as bytes [nread..] of the
    destination [d]; [None] is an out-of-range access. *)
Class CopySpec {D : Type} (copy : D -> Z -> ptr -> Z -> option D) := {
  room : D -> Z -> Prop;
  put : D -> Z -> list byte -> D;
  room_le d m m' : room d m -> m' <= m -> room d m';
  room_put d m nread s :
    room d m -> 0 <= nread -> nread + zlen s <= m -> room (put d nread s) m;
  copy_range d nread blk soff n :
    0 <= n -> 0 <= nread -> 0 <= soff -> soff + n <= zlen blk -> room d (nread + n) ->
    copy d nread (blk, soff) n = Some (put d nread (slice soff n blk));
  put_nil d nread : put d nread [] = d;
  put_put d nread s1 s2 :
    0 <= nread -> room d (nread + zlen s1 + zlen s2) ->
    put (put d nread s1) (nread + zlen s1) s2 = put d nread (s1 ++ s2)
}.

(** Raw memory, written with [std::memcpy(static_cast<char*>(buf) + nread, ...)]. *)
Definition copy_mem (dst : list byte) (nread : Z) (src : ptr) (n : Z) : option (list byte) :=
  memcpy dst nread src n.

(** A [std::string], extended with [buf.append(src, n)]. *)
Definition copy_string (dst : list byte) (nread : Z) (src : ptr) (n : Z) : option (list byte) :=
  bytes ← load src n; Some (dst ++ bytes).

(** [retrieve] copies nowhere. *)
Definition copy_none (dst : unit) (nread : Z) (src : ptr) (n : Z) : option unit := Some tt.

#[export] Program Instance copy_mem_spec : CopySpec copy_mem := {
  room dst m := m <= zlen dst;
  put dst nread s := splice nread s dst
}.
Next Obligation. zlia. Qed.
Next Obligation. intros. cbn in *. rewrite zlen_splice; zlia. Qed.
Next Obligation. intros. cbn in *. by apply memcpy_ok. Qed.
Next Obligation. intros. apply splice_nil. Qed.
Next Obligation. intros. apply splice_splice; cbn in *; zlia. Qed.

#[export] Program Instance copy_string_spec : CopySpec copy_string := {
  room _ _ := True;
  put dst _ s := dst ++ s
}.
Next Obligation. done. Qed.
Next Obligation. done. Qed.
Next Obligation. intros. unfold copy_string. by rewrite load_ok. Qed.
Next Obligation. intros. apply app_nil_r. Qed.
Next Obligation. intros. cbn. by rewrite app_assoc. Qed.

#[export] Program Instance copy_none_spec : CopySpec copy_none := {
  room _ _ := True;
  put _ _ _ := tt
}.
Next Obligation. done. Qed.
Next Obligation. done. Qed.
Next Obligation. done. Qed.
Next Obligation. by intros []. Qed.
Next Obligation. done. Qed.

Module ReceiveBuffer.

Abbreviation contents_of := Buffer.contents_of.
Abbreviation contents_of_cons := Buffer.contents_of_cons.
Abbreviation contents_of_snoc := Buffer.contents_of_snoc.

Record t := mk {
  buffers_ : list Buffer.t;
  extendBuffers_ : list Buffer.t;
  size_ : Z
}.

Definition kReceiveSize : Z := 8 * 1024.

(** [ReceiveBuffer::ReceiveBuffer()] *)
Definition make : t := mk [] [] 0.

Definition size (rb : t) : Z := size_ rb.
Definition buffersSize (rb : t) : Z := zlen (buffers_ rb).

(** *** Consuming loops: both [read]s and [retrieve] *)

Section Loops.
Context {D : Type} (copy : D -> Z -> ptr -> Z -> option D).

(** [while (nread < count && !buffers_.empty()) { ... }]. The fuel bounds the
    number of iterations; running out of it is [None]. *)
Fixpoint drain_loop (fuel : nat) (dst : D) (count nread : Z) (bs ext : list Buffer.t)
  : option (D * Z * list Buffer.t * list Buffer.t) :=
  match bs with
  | [] => Some (dst, nread, [], ext)
  | buffer :: rest =>
      if nread <? count then
        match fuel with
        | O => None
        | S fuel' =>
            let readableSize := Z.min (Buffer.readableSize buffer) (u64 (count - nread)) in
            dst' ← copy dst nread (Buffer.dataRead buffer) readableSize;
            let buffer' := Buffer.hasRead readableSize buffer in
            let nread' := u64 (nread + readableSize) in
            if Buffer.empty buffer'
            then drain_loop fuel' dst' count nread' rest (ext ++ [Buffer.reset buffer'])
            else drain_loop fuel' dst' count nread' (buffer' :: rest) ext
        end
      else Some (dst, nread, bs, ext)
  end.

Definition drain (dst : D) (count : Z) (rb : t) : option (D * t) :=
  '(dst', nread, bs, ext) ←
    drain_loop (length (buffers_ rb)) dst count 0 (buffers_ rb) (extendBuffers_ rb);
  Some (dst', mk bs ext (u64 (size_ rb - nread))).

(** [for (Buffer* buffer : buffers_) { if (nread >= count) break; ... }] of
    the two-argument [peek]s. *)
Fixpoint peek_loop (dst : D) (count nread : Z) (bs : list Buffer.t) : option D :=
  match bs with
  | [] => Some dst
  | buffer :: rest =>
      if count <=? nread then Some dst
      else
        let readableSize := Z.min (Buffer.readableSize buffer) (u64 (count - nread)) in
        dst' ← copy dst nread (Buffer.dataRead buffer) readableSize;
        peek_loop dst' count (u64 (nread + readableSize)) rest
  end.

(** The loop of the [peek]s with an offset. *)
Fixpoint peek_at_loop (dst : D) (offset count nread : Z) (bs : list Buffer.t) : option D :=
  match bs with
  | [] => Some dst
  | buffer :: rest =>
      if count <=? nread then Some dst
      else
        let readableSize := Z.min (Buffer.readableSize buffer) (u64 (count - nread)) in
        if 0 <? offset then
          if offset <? readableSize then
            let readableSize' := u64 (readableSize - offset) in
            let '(blk, off) := Buffer.dataRead buffer in
            dst' ← copy dst nread (blk, off + offset) readableSize';
            peek_at_loop dst' 0 count (u64 (nread + readableSize')) rest
          else
            peek_at_loop dst (u64 (offset - readableSize)) count nread rest
        else
          dst' ← copy dst nread (Buffer.dataRead buffer) readableSize;
          peek_at_loop dst' offset count (u64 (nread + readableSize)) rest
  end.
End Loops.

(** [read(void* buf, size_t count)] *)
Definition read (buf : list byte) (count : Z) (rb : t) : option (list byte * t) :=
  drain copy_mem buf count rb.

(** [read(std::string& buf, size_t count)] *)
Definition read_string (buf : list byte) (count : Z) (rb : t) : option (list byte * t) :=
  drain copy_string buf count rb.

(** [retrieve(size_t count)] *)
Definition retrieve (count : Z) (rb : t) : option t :=
  '(_, rb') ← drain copy_none tt count rb; Some rb'.

(** [peek(void* buf, size_t count) const] *)
Definition peek (buf : list byte) (count : Z) (rb : t) : option (list byte) :=
  peek_loop copy_mem buf count 0 (buffers_ rb).

(** [peek(std::string& buf, size_t count) const] *)
Definition peek_string (buf : list byte) (count : Z) (rb : t) : option (list byte) :=
  peek_loop copy_string buf count 0 (buffers_ rb).

(** [peek(void* buf, size_t offset, size_t count) const] *)
Definition peek_at (buf : list byte) (offset count : Z) (rb : t) : option (list byte) :=
  peek_at_loop copy_mem buf offset count 0 (buffers_ rb).

(** [peek(std::string& buf, size_t offset, size_t count) const] *)
Definition peek_at_string (buf : list byte) (offset count : Z) (rb : t) : option (list byte) :=
  peek_at_loop copy_string buf offset count 0 (buffers_ rb).

(** [retrieveAll()] *)
Fixpoint retrieveAll_loop (bs ext : list Buffer.t) : list Buffer.t :=
  match bs with
  | [] => ext
  | buffer :: rest => retrieveAll_loop rest (ext ++ [Buffer.reset buffer])
  end.

Definition retrieveAll (rb : t) : t :=
  mk [] (retrieveAll_loop (buffers_ rb) (extendBuffers_ rb)) 0.

(** *** Receiving: [prepareReceive], the stores of [readv], [hasReceived] *)

(** Where an [iovec] handed to [readv] points: into the last data buffer, or
    into the first spare one. *)
Inductive slot := Back | Extend.

Record iovec := mk_iovec { iov_base : slot * Z; iov_len : Z }.

(** [if (extendBuffers_.empty()) { ... push_back(new Buffer(kReceiveSize * 2)) }] *)
Definition with_spare (ext : list Buffer.t) : list Buffer.t :=
  match ext with [] => [Buffer.make (kReceiveSize * 2)] | _ => ext end.

(** The two [if]s of [prepareReceive]: the free tail of the last buffer, then
    a spare buffer when that tail is shorter than [kReceiveSize]. *)
Definition prepareReceive (rb : t) : t * list iovec :=
  let '(iov, nwrote) :=
    match last (buffers_ rb) with
    | Some buffer =>
        let writableSize := Buffer.writableSize buffer in
        if 0 <? writableSize
        then ([mk_iovec (Back, Buffer.wpos_ buffer) writableSize], writableSize)
        else ([], 0)
    | None => ([], 0)
    end in
  if nwrote <? kReceiveSize then
    let ext := with_spare (extendBuffers_ rb) in
    let tail :=
      match ext with
      | buffer :: _ => [mk_iovec (Extend, 0) (Buffer.capacity buffer)]
      | [] => []
      end in
    (mk (buffers_ rb) ext (size_ rb), iov ++ tail)
  else (rb, iov).

(** Applying a fallible update to [back()], respectively [front()]; [None]
    on an empty deque. *)
Fixpoint update_back {A} (f : A -> option A) (l : list A) : option (list A) :=
  match l with
  | [] => None
  | [x] => y ← f x; Some [y]
  | x :: rest => rest' ← update_back f rest; Some (x :: rest')
  end.

Definition update_front {A} (f : A -> option A) (l : list A) : option (list A) :=
  match l with
  | [] => None
  | x :: rest => y ← f x; Some (y :: rest)
  end.

Definition store_slot (p : slot * Z) (bytes : list byte) (rb : t) : option t :=
  match p with
  | (Back, off) =>
      bs ← update_back (Buffer.store off bytes) (buffers_ rb);
      Some (mk bs (extendBuffers_ rb) (size_ rb))
  | (Extend, off) =>
      ext ← update_front (Buffer.store off bytes) (extendBuffers_ rb);
      Some (mk (buffers_ rb) ext (size_ rb))
  end.

(** What [readv] delivering [bytes] does to the process's memory: the
    [iovec]s are filled in order, each one completely before the next. *)
Fixpoint scatter (iov : list iovec) (bytes : list byte) (rb : t) : option t :=
  match iov with
  | [] => match bytes with [] => Some rb | _ => None end
  | v :: rest =>
      let n := Z.min (iov_len v) (zlen bytes) in
      rb' ← store_slot (iov_base v) (ztake n bytes) rb;
      scatter rest (zdrop n bytes) rb'
  end.

(** [hasReceived(size_t count)] *)
Definition hasReceived (count : Z) (rb : t) : option t :=
  '(bs, nwrote) ←
    match last (buffers_ rb) with
    | Some buffer =>
        let writableSize := Z.min (Buffer.writableSize buffer) count in
        if 0 <? writableSize then
          bs ← update_back (fun b => Some (Buffer.hasWritten writableSize b)) (buffers_ rb);
          Some (bs, writableSize)
        else Some (buffers_ rb, 0)
    | None => Some ([], 0)
    end;
  match extendBuffers_ rb with
  | buffer :: ext' =>
      if nwrote <? count then
        let writableSize := Z.min (Buffer.writableSize buffer) (u64 (count - nwrote)) in
        Some (mk (bs ++ [Buffer.hasWritten writableSize buffer]) ext'
                 (u64 (size_ rb + u64 (nwrote + writableSize))))
      else Some (mk bs (buffer :: ext') (u64 (size_ rb + nwrote)))
  | [] => Some (mk bs [] (u64 (size_ rb + nwrote)))
  end.

(** [prepareSend(struct iovec* iov, int& iovcnt) const]: one entry per data
    buffer, as a pointer and a length. *)
Definition prepareSend (rb : t) : list (ptr * Z) :=
  (fun buffer => (Buffer.dataRead buffer, Buffer.readableSize buffer)) <$> buffers_ rb.

(** ** Invariant and abstraction *)

Definition contents (rb : t) : list byte := contents_of (buffers_ rb).

(** A buffer of [buffers_]: allocated by [prepareReceive], with unread bytes. *)
Definition live (b : Buffer.t) : Prop :=
  Buffer.wf b /\ Buffer.readable b <> [] /\ Buffer.capacity b = kReceiveSize * 2.

(** A buffer of [extendBuffers_]: allocated by [prepareReceive], and reset. *)
Definition spare (b : Buffer.t) : Prop :=
  Buffer.rpos_ b = 0 /\ Buffer.wpos_ b = 0 /\ Buffer.capacity b = kReceiveSize * 2.

Definition wf (rb : t) : Prop :=
  Forall live (buffers_ rb) /\ Forall spare (extendBuffers_ rb) /\
  size_ rb = u64 (zlen (contents rb)).

(** ** Generic facts *)

Lemma rb_wf_make : wf make.
Proof. repeat split; constructor. Qed.

Lemma wf_of_live b : live b -> Buffer.wf b.
Proof. by intros [? _]. Qed.

Lemma spare_wf b : spare b -> Buffer.wf b.
Proof.
  intros (Hr & Hw & Hc). unfold Buffer.wf. rewrite Hr, Hw, Hc.
  unfold kReceiveSize, in_u64. lia.
Qed.

Lemma spare_reset b : live b -> spare (Buffer.reset b).
Proof. intros (_ & _ & Hc). repeat split; done. Qed.

Lemma live_hasRead n b :
  live b -> 0 <= n < Buffer.readableSize b -> live (Buffer.hasRead n b).
Proof.
  intros (Hwf & Hne & Hc) Hn. rewrite Buffer.readableSize_zlen in Hn by done.
  destruct (Buffer.hasRead_spec n b) as [Hwf' Hr]; [done | |].
  { rewrite Buffer.readableSize_zlen by done. lia. }
  split; [done|]. split; [|done]. rewrite Hr.
  intros E%(f_equal zlen). autorewrite with zlist in E. lia.
Qed.

Lemma size_after n m : u64 (u64 n - m) = u64 (n - m).
Proof. apply u64_sub_l. Qed.

(** ** The consuming loops *)

Section DrainSpec.
Context {D : Type} (copy : D -> Z -> ptr -> Z -> option D) `{!CopySpec copy}.

Lemma copy_dataRead dst nread n b :
  Buffer.wf b -> 0 <= n <= Buffer.readableSize b -> 0 <= nread -> room dst (nread + n) ->
  copy dst nread (Buffer.dataRead b) n = Some (put dst nread (ztake n (Buffer.readable b))).
Proof.
  intros Hwf Hn Hr Hroom. unfold Buffer.dataRead, Buffer.readable.
  rewrite Buffer.readableSize_zlen in Hn by done.
  unfold Buffer.wf, Buffer.capacity in Hwf. unfold Buffer.readable in Hn.
  rewrite zlen_slice in Hn by lia.
  rewrite copy_range by (try done; lia). by rewrite ztake_slice by lia.
Qed.

(** One iteration: the copied prefix of the front buffer, which is then
    either exhausted and moved to the spare buffers, or still live with
    [count] reached. *)
Lemma drain_loop_iter fuel dst count nread b bs ext :
  live b -> 0 <= nread < count -> in_u64 count ->
  room dst (Z.min count (nread + zlen (Buffer.readable b))) ->
  let n := Z.min (zlen (Buffer.readable b)) (count - nread) in
  let b' := Buffer.hasRead n b in
  let dst' := put dst nread (ztake n (Buffer.readable b)) in
  drain_loop copy (S fuel) dst count nread (b :: bs) ext =
    (if Buffer.empty b'
     then drain_loop copy fuel dst' count (nread + n) bs (ext ++ [Buffer.reset b'])
     else Some (dst', count, b' :: bs, ext)) /\
  (if Buffer.empty b'
   then n = zlen (Buffer.readable b)
   else n = count - nread /\ live b' /\ Buffer.readable b' = zdrop n (Buffer.readable b)).
Proof.
  intros (Hwf & Hne & Hcap) Hnread Hcount Hroom n b' dst'.
  assert (0 <= n <= Buffer.readableSize b) as Hn.
  { rewrite Buffer.readableSize_zlen by done. zlia. }
  destruct (Buffer.hasRead_spec n b Hwf Hn) as [Hwf' Hread'].
  cbn [drain_loop]. rewrite (proj2 (Z.ltb_lt nread count)) by lia.
  rewrite Buffer.readableSize_zlen by done. u64_simpl. fold n b'.
  rewrite copy_dataRead; [|done|done|lia|eapply room_le; [exact Hroom|zlia]].
  cbn. fold dst'. destruct (Buffer.empty b') eqn:E.
  - split; [done|]. apply Buffer.empty_readable in E; [|done]. unfold b' in E.
    rewrite Hread' in E. apply (f_equal zlen) in E. zlia.
  - apply Buffer.empty_false_readable in E; [|done].
    assert (n = count - nread) as Hnc.
    { destruct (decide (n = zlen (Buffer.readable b))); [|lia].
      exfalso. apply E. unfold b'. rewrite Hread'. apply zdrop_all. lia. }
    replace (nread + n) with count by lia. split; [|done].
    destruct fuel; cbn [drain_loop]; by rewrite Z.ltb_irrefl.
Qed.

Lemma drain_loop_spec fuel dst count nread bs ext :
  (length bs <= fuel)%nat -> 0 <= nread <= count -> in_u64 count ->
  Forall live bs -> Forall spare ext ->
  room dst (Z.min count (nread + zlen (contents_of bs))) ->
  exists bs' ext',
    drain_loop copy fuel dst count nread bs ext =
      Some (put dst nread (ztake (count - nread) (contents_of bs)),
            Z.min count (nread + zlen (contents_of bs)), bs', ext') /\
    Forall live bs' /\ Forall spare ext' /\
    contents_of bs' = zdrop (count - nread) (contents_of bs).
Proof.
  revert fuel dst nread ext. induction bs as [|b bs IH];
    intros fuel dst nread ext Hfuel Hnread Hcount Hbs Hext Hroom.
  - exists [], ext. change (contents_of []) with (@nil byte).
    rewrite ztake_nil, zdrop_nil, put_nil, zlen_nil. split; [|done].
    replace (Z.min count (nread + 0)) with nread by lia. by destruct fuel.
  - apply Forall_cons_1 in Hbs as [Hb Hbs]. rewrite contents_of_cons in *.
    destruct fuel as [|fuel]; [cbn in Hfuel; lia|].
    destruct (decide (nread = count)) as [->|Hlt].
    { exists (b :: bs), ext. cbn [drain_loop]. rewrite Z.ltb_irrefl, Z.sub_diag.
      rewrite ztake_0, zdrop_0, put_nil. split; [|by auto]. tuple_eq. zlia. }
    destruct (drain_loop_iter fuel dst count nread b bs ext) as [-> Hcase];
      [done|lia|done|eapply room_le; [exact Hroom|zlia]|].
    set (n := Z.min _ (count - nread)) in *. destruct (Buffer.empty _).
    + destruct (IH fuel (put dst nread (ztake n (Buffer.readable b))) (nread + n)
                  (ext ++ [Buffer.reset (Buffer.hasRead n b)]))
        as (bs' & ext' & -> & Hbs' & Hext' & Hc); [cbn in Hfuel; lia|zlia|done|done| | |].
      { apply Forall_app. split; [done|]. constructor; [|constructor].
        repeat split. apply Hb. }
      { apply room_put; [eapply room_le; [exact Hroom|zlia] | lia | zlia]. }
      exists bs', ext'. rewrite Hc, (ztake_all n) by lia.
      rewrite ztake_app_ge, zdrop_app_ge by zlia.
      replace (count - (nread + n)) with (count - nread - zlen (Buffer.readable b)) by lia.
      split; [|done]. rewrite Hcase, put_put; [|lia|eapply room_le; [exact Hroom|zlia]].
      tuple_eq. zlia.
    + destruct Hcase as (Hnc & Hlive & Hread').
      exists (Buffer.hasRead n b :: bs), ext. rewrite <- Hnc, contents_of_cons, Hread'.
      rewrite ztake_app_le, zdrop_app_le by lia.
      split; [tuple_eq; zlia|]. split; [by constructor|done].
Qed.

(** Reading [count] bytes: the destination receives the oldest
    [min(count, size)] unread bytes, which are removed. *)
Lemma drain_spec dst count rb :
  wf rb -> in_u64 count -> room dst (Z.min count (zlen (contents rb))) ->
  exists rb', drain copy dst count rb = Some (put dst 0 (ztake count (contents rb)), rb') /\
    wf rb' /\ contents rb' = zdrop count (contents rb).
Proof.
  intros (Hbs & Hext & Hsize) Hcount Hroom. unfold drain, contents in *.
  destruct (drain_loop_spec (length (buffers_ rb)) dst count 0 (buffers_ rb) (extendBuffers_ rb))
    as (bs' & ext' & -> & Hbs' & Hext' & Hc); auto; [unfold in_u64 in *; lia|].
  cbn [mbind option_bind]. rewrite Z.sub_0_r, Z.add_0_l in *. eexists. split; [reflexivity|].
  split; [|exact Hc]. split; [done|]. split; [done|]. unfold contents. cbn [buffers_ size_].
  rewrite Hsize, Hc, size_after. f_equal. zlia.
Qed.

Lemma peek_loop_spec bs dst count nread :
  0 <= nread -> in_u64 count -> Forall Buffer.wf bs ->
  room dst (Z.min count (nread + zlen (contents_of bs))) ->
  peek_loop copy dst count nread bs =
    Some (put dst nread (ztake (count - nread) (contents_of bs))).
Proof.
  revert dst nread. induction bs as [|b bs IH]; intros dst nread Hnread Hcount Hbs Hroom.
  - cbn. by rewrite ztake_nil, put_nil.
  - apply Forall_cons_1 in Hbs as [Hb Hbs]. cbn [peek_loop].
    rewrite contents_of_cons in *. case_if.
    { by rewrite ztake_nonpos, put_nil by lia. }
    rewrite Buffer.readableSize_zlen by done. u64_simpl.
    set (n := Z.min (zlen (Buffer.readable b)) (count - nread)).
    rewrite copy_dataRead; [|done| |lia|eapply room_le; [exact Hroom|zlia]]; cycle 1.
    { rewrite Buffer.readableSize_zlen by done. zlia. }
    cbn.
    rewrite IH; [|zlia|done|done|].
    2:{ apply room_put; [eapply room_le; [exact Hroom|zlia]|lia|zlia]. }
    assert (zlen (ztake n (Buffer.readable b)) = n) as Hzn by zlia.
    rewrite <- Hzn at 2. rewrite put_put; [|lia|eapply room_le; [exact Hroom|zlia]].
    do 2 f_equal. destruct (decide (n = zlen (Buffer.readable b))) as [E|E].
    + rewrite ztake_app_ge, (ztake_all n) by lia. do 2 f_equal. lia.
    + rewrite (ztake_nonpos (count - (nread + n))), ztake_app_le, app_nil_r by lia.
      f_equal. lia.
Qed.
End DrainSpec.

(** ** The operations *)

Section Operations.
Context (rb : t) (count : Z) (Hwf : wf rb) (Hcount : in_u64 count).

Lemma read_spec buf :
  Z.min count (zlen (contents rb)) <= zlen buf ->
  exists rb', read buf count rb = Some (splice 0 (ztake count (contents rb)) buf, rb') /\
    wf rb' /\ contents rb' = zdrop count (contents rb).
Proof.
  intros. destruct (drain_spec copy_mem buf count rb) as (rb' & ? & ?); [done..|].
  by exists rb'.
Qed.

Lemma read_string_spec buf :
  exists rb', read_string buf count rb = Some (buf ++ ztake count (contents rb), rb') /\
    wf rb' /\ contents rb' = zdrop count (contents rb).
Proof.
  destruct (drain_spec copy_string buf count rb) as (rb' & ? & ?); [done..|].
  by exists rb'.
Qed.

Lemma retrieve_spec :
  exists rb', retrieve count rb = Some rb' /\
    wf rb' /\ contents rb' = zdrop count (contents rb).
Proof.
  unfold retrieve.
  destruct (drain_spec copy_none tt count rb) as (rb' & -> & ? & ?); [done..|].
  by exists rb'.
Qed.

Lemma live_all_wf : Forall Buffer.wf (buffers_ rb).
Proof. destruct Hwf as [H _]. eapply Forall_impl; [|exact H]; apply wf_of_live. Qed.

Lemma peek_spec buf :
  Z.min count (zlen (contents rb)) <= zlen buf ->
  peek buf count rb = Some (splice 0 (ztake count (contents rb)) buf).
Proof.
  intros. unfold peek. rewrite (peek_loop_spec copy_mem);
    [by rewrite Z.sub_0_r|lia|done|apply live_all_wf|by rewrite Z.add_0_l].
Qed.

Lemma peek_string_spec buf :
  peek_string buf count rb = Some (buf ++ ztake count (contents rb)).
Proof.
  unfold peek_string. rewrite (peek_loop_spec copy_string);
    [by rewrite Z.sub_0_r|lia|done|apply live_all_wf|done].
Qed.
End Operations.

Lemma retrieveAll_loop_spare bs ext :
  Forall live bs -> Forall spare ext -> Forall spare (retrieveAll_loop bs ext).
Proof.
  revert ext. induction bs as [|b bs IH]; intros ext Hbs Hext; [done|].
  apply Forall_cons_1 in Hbs as [Hb Hbs]. apply IH; [done|].
  apply Forall_app. split; [done|]. constructor; [by apply spare_reset | constructor].
Qed.

Lemma retrieveAll_spec rb : wf rb -> wf (retrieveAll rb) /\ contents (retrieveAll rb) = [].
Proof.
  intros (Hbs & Hext & _). split; [|done].
  split; [constructor|]. split; [by apply retrieveAll_loop_spare | done].
Qed.

(** ** Receiving *)

Definition iov_total (iov : list iovec) : Z := foldr Z.add 0 (iov_len <$> iov).

(** The [nread > 0] path of [TcpConnection::handleRead]: prepare the
    [iovec]s, let [readv] deliver what they can hold of the available bytes,
    account for it. Returns the bytes delivered. *)
Definition receive (avail : list byte) (rb : t) : option (list byte * t) :=
  let '(rb1, iov) := prepareReceive rb in
  let bytes := ztake (iov_total iov) avail in
  rb2 ← scatter iov bytes rb1;
  rb3 ← hasReceived (u32 (zlen bytes)) rb2;
  Some (bytes, rb3).

Lemma update_back_snoc {A} (f : A -> option A) l x :
  update_back f (l ++ [x]) = (y ← f x; Some (l ++ [y])).
Proof.
  induction l as [|a l IH]; [done|]. cbn [update_back app].
  rewrite IH. destruct (l ++ [x]) eqn:E; [by destruct l|]. by destruct (f x).
Qed.

Lemma live_write b w :
  live b -> zlen w <= Buffer.writableSize b ->
  exists b', Buffer.store (Buffer.wpos_ b) w b = Some b' /\
    Buffer.writableSize b' = Buffer.writableSize b /\
    live (Buffer.hasWritten (zlen w) b') /\
    Buffer.readable (Buffer.hasWritten (zlen w) b') = Buffer.readable b ++ w.
Proof.
  intros (Hwf & Hne & Hcap) Hw.
  destruct (Buffer.store_hasWritten w b Hwf Hw) as (b' & -> & Hwf' & Hr & Hc & Hrp & Hwp).
  exists b'. split; [done|]. split; [unfold Buffer.writableSize; congruence|].
  split; [|done]. split; [done|]. split; [|by rewrite <- Hcap, <- Hc].
  rewrite Hr. by destruct (Buffer.readable b).
Qed.

Lemma spare_write e w :
  spare e -> zlen w <= kReceiveSize * 2 ->
  exists e', Buffer.store 0 w e = Some e' /\ spare e' /\
    Buffer.writableSize e' = kReceiveSize * 2 /\
    (w <> [] -> live (Buffer.hasWritten (zlen w) e')) /\
    Buffer.readable (Buffer.hasWritten (zlen w) e') = w.
Proof.
  intros Hs Hw. pose proof (spare_wf e Hs) as Hwf. destruct Hs as (Hr & Hp & Hc).
  assert (Buffer.writableSize e = kReceiveSize * 2) as Hws.
  { rewrite Buffer.writableSize_eq by done. rewrite Hp, Hc. lia. }
  destruct (Buffer.store_hasWritten w e Hwf) as (e' & Hst & Hwf' & Hrd & Hc' & Hr' & Hp'); [lia|].
  rewrite Hp in Hst. exists e'.
  assert (Buffer.readable (Buffer.hasWritten (zlen w) e') = w) as Hrw.
  { rewrite Hrd. unfold Buffer.readable. rewrite Hr, Hp. done. }
  split; [done|]. split; [repeat split; congruence|].
  split; [unfold Buffer.writableSize in *; congruence|].
  split; [|done]. intros Hne. split; [done|]. rewrite Hrw. split; [done|].
  rewrite <- Hc, <- Hc'. done.
Qed.

Lemma spare_make : spare (Buffer.make (kReceiveSize * 2)).
Proof. split; [done|]. split; [done|]. by apply Buffer.capacity_make. Qed.

Lemma with_spare_cons ext :
  Forall spare ext -> exists e ext', with_spare ext = e :: ext' /\ spare e /\ Forall spare ext'.
Proof.
  intros H. destruct ext as [|e ext'].
  - exists (Buffer.make (kReceiveSize * 2)), []. split; [done|].
    split; [apply spare_make | constructor].
  - apply Forall_cons_1 in H as [? ?]. by exists e, ext'.
Qed.

Lemma live_writable b :
  live b -> Buffer.writableSize b = Buffer.capacity b - Buffer.wpos_ b /\
    0 <= Buffer.writableSize b < kReceiveSize * 2.
Proof.
  intros (Hwf & Hne & Hc). pose proof (Buffer.writableSize_eq b Hwf) as E.
  destruct Hwf as (? & ? & ?). split; [done|]. rewrite E.
  assert (0 < Buffer.wpos_ b); [|lia].
  destruct (decide (Buffer.wpos_ b = 0)); [|lia]. exfalso. apply Hne.
  unfold Buffer.readable. by replace (Buffer.wpos_ b - Buffer.rpos_ b) with 0 by lia.
Qed.

(** The three shapes of what [prepareReceive] offers. *)
Inductive offer (rb : t) : t -> list iovec -> Prop :=
  | offer_spare e ext' :
      with_spare (extendBuffers_ rb) = e :: ext' ->
      match last (buffers_ rb) with Some b => Buffer.writableSize b = 0 | None => True end ->
      offer rb (mk (buffers_ rb) (e :: ext') (size_ rb))
        [mk_iovec (Extend, 0) (kReceiveSize * 2)]
  | offer_both l b e ext' :
      buffers_ rb = l ++ [b] -> 0 < Buffer.writableSize b < kReceiveSize ->
      with_spare (extendBuffers_ rb) = e :: ext' ->
      offer rb (mk (l ++ [b]) (e :: ext') (size_ rb))
        [mk_iovec (Back, Buffer.wpos_ b) (Buffer.writableSize b);
         mk_iovec (Extend, 0) (kReceiveSize * 2)]
  | offer_back l b :
      buffers_ rb = l ++ [b] -> kReceiveSize <= Buffer.writableSize b ->
      offer rb rb [mk_iovec (Back, Buffer.wpos_ b) (Buffer.writableSize b)].

Lemma prepareReceive_offer rb :
  wf rb -> offer rb (prepareReceive rb).1 (prepareReceive rb).2.
Proof.
  intros (Hbs & Hext & _).
  destruct (with_spare_cons _ Hext) as (e & ext' & He & Hse & _).
  pose proof Hse as (_ & _ & Hcap).
  unfold prepareReceive. destruct (last (buffers_ rb)) as [b|] eqn:El.
  - apply last_Some in El as [l El]. rewrite El in Hbs.
    apply Forall_app in Hbs as [_ [Hb _]%Forall_cons_1].
    pose proof (live_writable b Hb) as [_ Hw].
    destruct (0 <? Buffer.writableSize b) eqn:E0; zbool.
    + destruct (Buffer.writableSize b <? kReceiveSize) eqn:E1; zbool.
      * rewrite He, Hcap, El. cbn. by apply offer_both.
      * by eapply offer_back.
    + rewrite He, Hcap. cbn. apply offer_spare; [done|].
      rewrite El, last_snoc. lia.
  - rewrite He, Hcap. cbn. apply offer_spare; [done|]. by rewrite El.
Qed.

(** At least [kReceiveSize] bytes can be received, through at most two
    [iovec]s (the size of the array in [TcpConnection::handleRead]). *)
Lemma prepareReceive_bounds rb :
  wf rb ->
  kReceiveSize <= iov_total (prepareReceive rb).2 < kReceiveSize * 3 /\
  1 <= zlen (prepareReceive rb).2 <= 2.
Proof.
  intros Hwf. pose proof (prepareReceive_offer rb Hwf) as Hof.
  destruct Hwf as (Hbs & _). unfold iov_total.
  destruct Hof as [e ext' He Hl|l b e ext' Hl Hw He|l b Hl Hw]; cbn.
  - unfold kReceiveSize. zlia.
  - unfold kReceiveSize in *. zlia.
  - rewrite Hl in Hbs. apply Forall_app in Hbs as [_ [Hb _]%Forall_cons_1].
    apply live_writable in Hb as [_ Hb]. unfold kReceiveSize in *. zlia.
Qed.

Ltac run_scatter :=
  cbn [scatter store_slot update_front buffers_ extendBuffers_ size_ mbind option_bind
       iov_base iov_len].

(** Delivering [bytes] into the spare buffer only. *)
Lemma receive_into_spare bs e ext' sz bytes :
  Forall live bs -> spare e -> Forall spare ext' ->
  sz = u64 (zlen (contents_of bs)) ->
  match last bs with Some b => Buffer.writableSize b = 0 | None => True end ->
  zlen bytes <= kReceiveSize * 2 ->
  exists rb2 rb3,
    scatter [mk_iovec (Extend, 0) (kReceiveSize * 2)] bytes (mk bs (e :: ext') sz) = Some rb2 /\
    hasReceived (zlen bytes) rb2 = Some rb3 /\
    wf rb3 /\ contents rb3 = contents_of bs ++ bytes.
Proof.
  intros Hbs He Hext Hsz Hl Hlen.
  destruct (spare_write e bytes He Hlen) as (e' & Hst & He' & Hws & Hlive & Hrd).
  exists (mk bs (e' :: ext') sz). cbn -[kReceiveSize].
  rewrite Z.min_r, ztake_all, zdrop_all by lia. rewrite Hst. cbn -[kReceiveSize].
  unfold hasReceived. cbn -[kReceiveSize].
  assert ((match last bs with
     | Some buffer =>
         if 0 <? Z.min (Buffer.writableSize buffer) (zlen bytes) then
           bs0 ← update_back (fun b => Some (Buffer.hasWritten
                   (Z.min (Buffer.writableSize buffer) (zlen bytes)) b)) bs;
           Some (bs0, Z.min (Buffer.writableSize buffer) (zlen bytes))
         else Some (bs, 0)
     | None => Some ([], 0)
     end) = Some (bs, 0)) as ->.
  { destruct (last bs) as [b|] eqn:El; [|by apply last_None in El as ->].
    rewrite Hl. replace (Z.min 0 (zlen bytes)) with 0 by zlia. done. }
  cbn -[kReceiveSize]. destruct (0 <? zlen bytes) eqn:E; zbool.
  - rewrite Hws, Z.sub_0_r, Z.add_0_l. unfold kReceiveSize in Hlen |- *. u64_simpl.
    rewrite Z.min_r by lia. u64_simpl. eexists. split; [done|]. split; [done|].
    assert (bytes <> []) as Hne by (intros ->; done).
    unfold wf, contents. cbn [buffers_ extendBuffers_ size_].
    rewrite contents_of_snoc, Hrd, Hsz, u64_add_l, zlen_app.
    split; [|done]. split; [apply Forall_snoc; auto|]. by split.
  - apply zlen_0_nil in E as ->.
    eexists. split; [done|]. split; [done|].
    unfold wf, contents. cbn [buffers_ extendBuffers_ size_].
    rewrite app_nil_r, Z.add_0_r. split; [|done].
    split; [done|]. split; [by constructor|]. rewrite Hsz. apply u64_small, u64_range.
Qed.

(** Delivering [bytes] into the free tail of the last buffer. *)
Lemma receive_into_back l b ext sz iov bytes :
  Forall live (l ++ [b]) -> Forall spare ext ->
  sz = u64 (zlen (contents_of (l ++ [b]))) ->
  0 < Buffer.writableSize b ->
  exists b', let w := Z.min (Buffer.writableSize b) (zlen bytes) in
    scatter (mk_iovec (Back, Buffer.wpos_ b) (Buffer.writableSize b) :: iov) bytes
        (mk (l ++ [b]) ext sz)
      = scatter iov (zdrop w bytes) (mk (l ++ [b']) ext sz) /\
    Buffer.writableSize b' = Buffer.writableSize b /\
    Forall live (l ++ [Buffer.hasWritten w b']) /\
    contents_of (l ++ [Buffer.hasWritten w b']) = contents_of (l ++ [b]) ++ ztake w bytes.
Proof.
  intros Hbs Hext Hsz Hpos. apply Forall_app in Hbs as [Hl [Hb _]%Forall_cons_1].
  set (w := Z.min (Buffer.writableSize b) (zlen bytes)).
  assert (zlen (ztake w bytes) = w) as Hw by zlia.
  destruct (live_write b (ztake w bytes) Hb) as (b' & Hst & Hws & Hlive & Hrd); [zlia|].
  rewrite Hw in Hlive, Hrd. exists b'. cbn zeta. split.
  { cbn -[kReceiveSize]. fold w. rewrite update_back_snoc, Hst. done. }
  split; [done|]. split; [by apply Forall_snoc|].
  rewrite !contents_of_snoc, Hrd. by rewrite app_assoc.
Qed.

(** [hasReceived] once the last buffer [b] has room: the first
    [min(writableSize, count)] bytes are accounted to it. *)
Lemma hasReceived_back l b ext sz count :
  0 < Buffer.writableSize b -> 0 < count ->
  let w := Z.min (Buffer.writableSize b) count in
  hasReceived count (mk (l ++ [b]) ext sz) =
    if w <? count then
      match ext with
      | e :: ext' =>
          let w2 := Z.min (Buffer.writableSize e) (u64 (count - w)) in
          Some (mk ((l ++ [Buffer.hasWritten w b]) ++ [Buffer.hasWritten w2 e]) ext'
                  (u64 (sz + u64 (w + w2))))
      | [] => Some (mk (l ++ [Buffer.hasWritten w b]) [] (u64 (sz + w)))
      end
    else Some (mk (l ++ [Buffer.hasWritten w b]) ext (u64 (sz + w))).
Proof.
  intros Hpos Hcount w. unfold hasReceived. cbn [buffers_ extendBuffers_ size_].
  rewrite last_snoc, update_back_snoc. fold w.
  rewrite (proj2 (Z.ltb_lt 0 w)) by lia. cbn.
  destruct ext; [by destruct (w <? count) | done].
Qed.

Lemma receive_both l b e ext' sz bytes :
  Forall live (l ++ [b]) -> spare e -> Forall spare ext' ->
  sz = u64 (zlen (contents_of (l ++ [b]))) ->
  0 < Buffer.writableSize b -> 0 < zlen bytes ->
  zlen bytes <= Buffer.writableSize b + kReceiveSize * 2 ->
  exists rb2 rb3,
    scatter [mk_iovec (Back, Buffer.wpos_ b) (Buffer.writableSize b);
             mk_iovec (Extend, 0) (kReceiveSize * 2)] bytes
      (mk (l ++ [b]) (e :: ext') sz) = Some rb2 /\
    hasReceived (zlen bytes) rb2 = Some rb3 /\
    wf rb3 /\ contents rb3 = contents_of (l ++ [b]) ++ bytes.
Proof.
  intros Hbs He Hext Hsz Hpos Hne Hlen.
  assert (Buffer.writableSize b < kReceiveSize * 2) as Hlt.
  { apply Forall_app in Hbs as [_ [Hb _]%Forall_cons_1]. apply live_writable in Hb as [_ ?]. lia. }
  destruct (receive_into_back l b (e :: ext') sz
      [mk_iovec (Extend, 0) (kReceiveSize * 2)] bytes) as (b' & -> & Hws & Hlive & Hc);
    [done|by constructor|done|done|].
  set (w := Z.min (Buffer.writableSize b) (zlen bytes)) in *.
  destruct (spare_write e (zdrop w bytes) He) as (e' & Hst & He' & Hws' & Hlive' & Hrd); [zlia|].
  exists (mk (l ++ [b']) (e' :: ext') sz).
  assert (zlen (zdrop w bytes) = zlen bytes - w) as Hz by zlia.
  run_scatter. rewrite Z.min_r, ztake_all, zdrop_all by zlia. rewrite Hst. run_scatter.
  rewrite hasReceived_back by (rewrite ?Hws; done). rewrite Hws. fold w.
  unfold kReceiveSize in *. rewrite Hws'. u64_simpl. cbn -[Z.mul].
  rewrite Hz in Hlive', Hrd.
  destruct (w <? zlen bytes) eqn:E; zbool; (eexists; split; [done|]; split; [done|]);
    unfold wf, contents; cbn [buffers_ extendBuffers_ size_].
  - rewrite Z.min_r by lia. u64_simpl. rewrite contents_of_snoc, Hc, Hrd, Hsz, u64_add_l.
    rewrite <- (app_assoc (contents_of _)), ztake_zdrop, zlen_app. split; [|done].
    split; [apply Forall_snoc; [done|]|split; [done|f_equal; lia]].
    apply Hlive'. intros Hnil. rewrite Hnil in Hz. change (zlen (@nil byte)) with 0 in Hz. lia.
  - rewrite Hc, (ztake_all w), Hsz, u64_add_l, zlen_app by lia. split; [|done].
    split; [done|]. split; [by constructor|f_equal; lia].
Qed.

Lemma receive_back_only l b ext sz bytes :
  Forall live (l ++ [b]) -> Forall spare ext ->
  sz = u64 (zlen (contents_of (l ++ [b]))) ->
  0 < zlen bytes <= Buffer.writableSize b ->
  exists rb2 rb3,
    scatter [mk_iovec (Back, Buffer.wpos_ b) (Buffer.writableSize b)] bytes
      (mk (l ++ [b]) ext sz) = Some rb2 /\
    hasReceived (zlen bytes) rb2 = Some rb3 /\
    wf rb3 /\ contents rb3 = contents_of (l ++ [b]) ++ bytes.
Proof.
  intros Hbs Hext Hsz Hlen.
  destruct (receive_into_back l b ext sz [] bytes) as (b' & -> & Hws & Hlive & Hc);
    [done|done|done|lia|].
  rewrite Z.min_r, zdrop_all in * by lia. exists (mk (l ++ [b']) ext sz).
  cbn [scatter]. rewrite hasReceived_back by (rewrite ?Hws; lia). rewrite Hws, Z.min_r by lia.
  rewrite Z.ltb_irrefl. eexists. split; [done|]. split; [done|].
  unfold wf, contents. cbn [buffers_ extendBuffers_ size_].
  rewrite Hc, ztake_all, Hsz, u64_add_l, zlen_app by lia. done.
Qed.

(** Whatever was offered, the delivered bytes are appended. *)
Lemma receive_offer rb rb1 iov bytes :
  wf rb -> offer rb rb1 iov -> 0 < zlen bytes <= iov_total iov ->
  exists rb2 rb3, scatter iov bytes rb1 = Some rb2 /\
    hasReceived (zlen bytes) rb2 = Some rb3 /\
    wf rb3 /\ contents rb3 = contents rb ++ bytes.
Proof.
  intros (Hbs & Hext & Hsz) Hof Hlen. unfold contents in *.
  assert (forall e ext', with_spare (extendBuffers_ rb) = e :: ext' ->
    spare e /\ Forall spare ext') as Hsp.
  { intros e ext' E. destruct (with_spare_cons _ Hext) as (e0 & ext0 & E0 & ? & ?).
    rewrite E in E0. by simplify_eq. }
  unfold iov_total in Hlen.
  destruct Hof as [e ext' [? ?]%Hsp Hl|l b e ext' Hl Hw [? ?]%Hsp|l b Hl Hw];
    cbn -[kReceiveSize Z.mul] in Hlen.
  - apply receive_into_spare; auto; lia.
  - rewrite Hl in *. apply receive_both; auto; lia.
  - destruct rb as [bs ext sz]. cbn in *. subst bs.
    apply receive_back_only; auto; lia.
Qed.

Lemma receive_accepts (rb : t) (avail : list byte) (Hwf : wf rb) (Hne : avail <> []) :
  let accepted := ztake (iov_total (prepareReceive rb).2) avail in
  exists rb', receive avail rb = Some (accepted, rb') /\
    wf rb' /\ contents rb' = contents rb ++ accepted /\
    Z.min kReceiveSize (zlen avail) <= zlen accepted.
Proof.
  intros accepted. pose proof (prepareReceive_bounds rb Hwf) as [Hb _].
  assert (0 < zlen avail) by (destruct avail; [done|zlia]).
  assert (zlen accepted = Z.min (iov_total (prepareReceive rb).2) (zlen avail)) as Hl.
  { unfold accepted. rewrite zlen_ztake. unfold kReceiveSize in Hb. lia. }
  unfold kReceiveSize in Hb.
  destruct (receive_offer rb (prepareReceive rb).1 (prepareReceive rb).2 accepted)
    as (rb2 & rb3 & H1 & H2 & H3 & H4); [done|by apply prepareReceive_offer|lia|].
  exists rb3. split; [|split; [done|split; [done|unfold kReceiveSize; lia]]].
  unfold receive. destruct (prepareReceive rb) as [rb1 iov]. cbn [fst snd] in *.
  fold accepted. rewrite H1. cbn [mbind option_bind].
  assert (u32 (zlen accepted) = zlen accepted) as -> by (unfold u32; apply Z.mod_small; lia).
  by rewrite H2.
Qed.

(** [prepareReceive], [readv] and [hasReceived] together append exactly
    the delivered bytes to the unread ones and keep the invariant; no store
    leaves a buffer, at most two [iovec]s are used and at least [kReceiveSize]
    of the available bytes are taken. *)
Theorem receive_appends (rb : t) (avail : list byte) (Hwf : wf rb) (Hne : avail <> []) :
  1 <= zlen (prepareReceive rb).2 <= 2 /\
  exists accepted rb', receive avail rb = Some (accepted, rb') /\
    accepted = ztake (zlen accepted) avail /\
    Z.min kReceiveSize (zlen avail) <= zlen accepted /\
    wf rb' /\ contents rb' = contents rb ++ accepted.
Proof.
  split; [by apply prepareReceive_bounds|].
  destruct (receive_accepts rb avail Hwf Hne) as (rb' & H & ? & ? & ?).
  do 2 eexists. split; [exact H|]. split; [|done].
  pose proof (prepareReceive_bounds rb Hwf) as [Hb _]. unfold kReceiveSize in Hb.
  rewrite zlen_ztake. destruct (decide (zlen avail <= iov_total (prepareReceive rb).2)).
  - rewrite !ztake_all by zlia. done.
  - f_equal. zlia.
Qed.

(** ** Peeking at an offset *)

(** The buffers the offset loop skips, and the one the offset falls in, hold at
    most [count] bytes: then no [min(readableSize, count - nread)] cuts a
    skipped buffer short. *)
Fixpoint fits (offset count : Z) (bs : list Buffer.t) : Prop :=
  match bs with
  | [] => True
  | b :: rest =>
      0 < offset ->
      zlen (Buffer.readable b) <= count /\
      fits (offset - zlen (Buffer.readable b)) count rest
  end.

Section PeekAt.
Context {D : Type} (copy : D -> Z -> ptr -> Z -> option D) `{!CopySpec copy}.

(** Copying what follows the first [offset] unread bytes of a buffer. *)
Lemma copy_dataRead_at dst offset b :
  Buffer.wf b -> 0 <= offset <= zlen (Buffer.readable b) ->
  room dst (zlen (Buffer.readable b) - offset) ->
  copy dst 0 (Buffer.buffer_ b, Buffer.rpos_ b + offset)
    (zlen (Buffer.readable b) - offset) =
  Some (put dst 0 (zdrop offset (Buffer.readable b))).
Proof.
  intros Hwf Hoff Hroom. pose proof Hwf as (? & ? & ?).
  unfold Buffer.readable, Buffer.capacity in *. rewrite zlen_slice in * by lia.
  rewrite copy_range by (rewrite ?Z.add_0_l; (done || lia)).
  by rewrite zdrop_slice by lia.
Qed.

Lemma peek_at_loop_0 bs dst count nread :
  peek_at_loop copy dst 0 count nread bs = peek_loop copy dst count nread bs.
Proof.
  revert dst nread. induction bs as [|b bs IH]; intros dst nread; [done|].
  cbn. destruct (count <=? nread); [done|]. destruct (copy _ _ _ _); cbn; [apply IH | done].
Qed.

Lemma peek_at_loop_spec bs dst offset count :
  0 <= offset -> in_u64 offset -> in_u64 count -> 0 < count ->
  Forall Buffer.wf bs -> fits offset count bs ->
  room dst (Z.min count (zlen (zdrop offset (contents_of bs)))) ->
  peek_at_loop copy dst offset count 0 bs =
    Some (put dst 0 (ztake count (zdrop offset (contents_of bs)))).
Proof.
  revert offset. induction bs as [|b bs IH]; intros offset Hoff Hoff64 Hcount Hpos Hbs Hfits Hroom.
  { cbn. by rewrite zdrop_nil, ztake_nil, (put_nil (copy := copy)). }
  destruct (decide (offset = 0)) as [->|Hne].
  { rewrite zdrop_0 in *. rewrite peek_at_loop_0.
    rewrite (peek_loop_spec copy); [by rewrite Z.sub_0_r|lia|done|done|by rewrite Z.add_0_l]. }
  apply Forall_cons_1 in Hbs as [Hb Hbs]. rewrite contents_of_cons in *.
  destruct Hfits as [Hfit Hfits]; [lia|]. cbn [peek_at_loop].
  rewrite (proj2 (Z.leb_gt count 0)), (proj2 (Z.ltb_lt 0 offset)) by lia.
  rewrite Buffer.readableSize_zlen by done.
  rewrite Z.sub_0_r, (u64_small count), Z.min_l by done.
  pose proof (Buffer.readableSize_zlen b Hb) as Hrs.
  case_if.
  - unfold Buffer.dataRead. u64_simpl. cbv zeta.
    rewrite zdrop_app_le in * by lia.
    rewrite copy_dataRead_at; [|done|lia|eapply room_le; [exact Hroom|zlia]].
    cbn. rewrite Z.add_0_l. u64_simpl. rewrite peek_at_loop_0.
    assert (zlen (zdrop offset (Buffer.readable b)) = zlen (Buffer.readable b) - offset)
      as Hz by zlia.
    rewrite (peek_loop_spec copy); [|zlia|done|done|].
    2:{ apply room_put; [eapply room_le; [exact Hroom|zlia]|lia|zlia]. }
    rewrite <- Hz. rewrite <- (Z.add_0_l (zlen (zdrop _ _))) at 1.
    rewrite put_put; [|lia|eapply room_le; [exact Hroom|zlia]].
    rewrite ztake_app_ge by zlia. done.
  - u64_simpl. rewrite zdrop_app_ge in * by lia.
    apply IH; try done; zlia.
Qed.

(** In general it finds some of the bytes after the offset, in their order. *)
Lemma peek_at_loop_some bs dst offset count nread :
  Forall Buffer.wf bs -> in_u64 offset -> in_u64 count -> 0 <= nread <= count -> room dst count ->
  exists w, peek_at_loop copy dst offset count nread bs = Some (put dst nread w) /\
    w `sublist_of` zdrop offset (contents_of bs) /\ nread + zlen w <= count.
Proof.
  intros Hbs. revert dst offset nread. induction Hbs as [|b bs Hb Hbs IH]; intros dst offset nread Ho Hc Hn Hroom.
  { exists []. cbn [peek_at_loop]. rewrite (put_nil (copy := copy)).
    split; [done|]. split; [apply sublist_nil_l|rewrite zlen_nil; lia]. }
  cbn [peek_at_loop]. rewrite contents_of_cons.
  case_if; [exists []; rewrite (put_nil (copy := copy)); split; [done|]; split; [apply sublist_nil_l|rewrite zlen_nil; lia]|].
  rewrite Buffer.readableSize_zlen by done. unfold in_u64 in Ho, Hc. u64_simpl.
  set (m := Z.min (zlen (Buffer.readable b)) (count - nread)).
  pose proof (zlen_nonneg (Buffer.readable b)).
  assert (0 <= m <= zlen (Buffer.readable b) /\ m <= count - nread) as [Hm Hmc] by lia.
  assert (forall o piece, 0 <= o <= m -> piece = ztake (m - o) (zdrop o (Buffer.readable b)) ->
    copy dst nread (Buffer.buffer_ b, Buffer.rpos_ b + o) (m - o) = Some (put dst nread piece) /\
    exists w, peek_at_loop copy (put dst nread piece) 0 count (nread + (m - o)) bs = Some (put dst nread (piece ++ w)) /\
      piece ++ w `sublist_of` zdrop o (Buffer.readable b ++ contents_of bs) /\ nread + zlen (piece ++ w) <= count) as Hcopy.
  { intros o piece Ho' Hpiece. assert (zlen piece = m - o) as Hz by (subst piece; zlia). split.
    - clearbody m. pose proof Hb as (? & ? & ?). unfold Buffer.readable, Buffer.capacity in *. rewrite zlen_slice in * by lia.
      rewrite copy_range; [|lia|lia|lia|lia|eapply room_le; [exact Hroom|lia]].
      subst piece. rewrite zdrop_slice, ztake_slice by lia. do 3 f_equal; lia.
    - destruct (IH (put dst nread piece) 0 (nread + (m - o))) as (w & E & Hsub & Hw);
        [unfold in_u64; lia|done|lia|apply room_put; [done|lia|lia]|].
      exists w. rewrite E, <- Hz. rewrite put_put; [|lia|eapply room_le; [exact Hroom|lia]].
      split; [done|]. rewrite zdrop_0 in Hsub. split; [|rewrite zlen_app; lia].
      rewrite zdrop_app_le by lia. apply sublist_app; [|done]. subst piece. apply ztake_sublist. }
  case_if; [case_if|].
  - unfold Buffer.dataRead. u64_simpl. cbv zeta.
    destruct (Hcopy offset _ ltac:(lia) eq_refl) as (-> & w & E & Hsub & Hw). cbn [mbind option_bind].
    u64_simpl. rewrite E. eauto.
  - u64_simpl. destruct (IH dst (offset - m) nread) as (w & E & Hsub & Hw); [unfold in_u64; lia|done|lia|done|].
    exists w. split; [done|]. split; [|done]. etrans; [exact Hsub|].
    destruct (decide (offset < zlen (Buffer.readable b))).
    + rewrite zdrop_app_le by lia. etrans; [apply zdrop_sublist|]. by apply sublist_inserts_l.
    + rewrite zdrop_app_ge by lia. replace (offset - m) with
        ((offset - zlen (Buffer.readable b)) + (zlen (Buffer.readable b) - m)) by lia.
      rewrite <- zdrop_zdrop by lia. apply zdrop_sublist.
  - assert (offset = 0) as -> by lia. unfold Buffer.dataRead.
    destruct (Hcopy 0 _ ltac:(lia) eq_refl) as (E1 & w & E & Hsub & Hw).
    rewrite Z.add_0_r, Z.sub_0_r in *. rewrite E1. cbn [mbind option_bind]. u64_simpl. rewrite E. eauto.
Qed.
End PeekAt.

(** A [peek] at an offset into raw memory returns the bytes after the
    first [offset] unread ones, provided no buffer up to the one the offset
    falls in holds more than [count] bytes. *)
Theorem peek_at_exact (rb : t) (buf : list byte) (offset count : Z)
  (Hwf : wf rb) (Hoff : in_u64 offset) (Hcount : in_u64 count) (Hpos : 0 < count)
  (Hfits : fits offset count (buffers_ rb))
  (Hroom : Z.min count (zlen (zdrop offset (contents rb))) <= zlen buf) :
  peek_at buf offset count rb =
    Some (splice 0 (ztake count (zdrop offset (contents rb))) buf) /\
  peek_at_string buf offset count rb =
    Some (buf ++ ztake count (zdrop offset (contents rb))).
Proof.
  pose proof (live_all_wf rb Hwf) as Hbs. unfold in_u64 in Hoff. split.
  - unfold peek_at. by rewrite (peek_at_loop_spec copy_mem) by (done || lia).
  - unfold peek_at_string. by rewrite (peek_at_loop_spec copy_string) by (done || lia).
Qed.

(** Without that proviso the offset [peek] loses bytes. Asked for
    everything after [offset] in a buffer that holds all the unread bytes, it
    returns [size - 2 * offset] bytes instead of [size - offset]: the cut
    [min(readableSize, count - nread)] is taken before the offset is skipped. *)
Theorem peek_at_tail_short (rb : t) (b : Buffer.t) (offset : Z)
  (Hwf : wf rb) (Hone : buffers_ rb = [b]) (Hoff : 0 < offset < size rb) :
  peek_at_string [] offset (u64 (size rb - offset)) rb =
    Some (ztake (size rb - 2 * offset) (zdrop offset (contents rb))).
Proof.
  destruct Hwf as (Hbs & _ & Hsz). unfold peek_at_string, size, contents in *.
  rewrite Hone in *. apply Forall_cons_1 in Hbs as [(Hb & Hne & Hc) _].
  assert (contents_of [b] = Buffer.readable b) as Hcb by apply app_nil_r.
  rewrite Hcb in *. pose proof (Buffer.readableSize_zlen b Hb) as Hrs.
  pose proof (Buffer.readableSize_range b Hb) as Hrange. rewrite Hc in Hrange.
  unfold kReceiveSize in Hrange. rewrite u64_small in Hsz by zlia. rewrite Hsz in *.
  u64_simpl. cbn [peek_at_loop].
  rewrite (proj2 (Z.leb_gt _ _)), (proj2 (Z.ltb_lt 0 offset)) by lia.
  rewrite Z.sub_0_r, Hrs. u64_simpl. rewrite Z.min_r by lia. case_if.
  - unfold Buffer.dataRead, copy_string.
    pose proof Hb as (? & ? & ?). unfold Buffer.readable, Buffer.capacity in *.
    rewrite zlen_slice in * by lia. cbv zeta. u64_simpl.
    rewrite load_ok by lia. cbn. rewrite zdrop_slice, ztake_slice by lia.
    do 2 f_equal. lia.
  - by rewrite ztake_nonpos by lia.
Qed.

(** Short or not, the offset [peek] into raw memory stays inside the buffers
    and inside a destination of [count] bytes. *)
Lemma peek_at_loop_total bs dst offset count nread :
  Forall Buffer.wf bs -> 0 <= nread <= count -> in_u64 count -> count <= zlen dst -> in_u64 offset ->
  exists dst', peek_at_loop copy_mem dst offset count nread bs = Some dst' /\
    zlen dst' = zlen dst.
Proof.
  intros Hbs Hn Hc Hd Ho.
  destruct (peek_at_loop_some copy_mem bs dst offset count nread) as (w & -> & _ & Hw); [done..|].
  eexists. split; [done|]. cbn. apply zlen_splice; [lia|]. pose proof (zlen_nonneg w). lia.
Qed.

(** [prepareReceive] alone, when nothing is received, changes no contents. *)
Lemma prepareReceive_wf rb :
  wf rb -> wf (prepareReceive rb).1 /\ contents (prepareReceive rb).1 = contents rb.
Proof.
  intros Hwf. pose proof (prepareReceive_offer rb Hwf) as Hof.
  destruct Hwf as (Hbs & Hext & Hsz).
  destruct (with_spare_cons _ Hext) as (e0 & ext0 & E0 & ? & ?).
  destruct Hof as [e ext' He _|l b e ext' Hl _ He|l b _ _]; [| |done].
  - rewrite E0 in He. injection He as <- <-. split; [|done]. split; [done|].
    split; [by constructor|done].
  - rewrite E0 in He. injection He as <- <-. unfold wf, contents in *. rewrite Hl in *.
    split; [|done]. split; [done|]. split; [by constructor|done].
Qed.

(** A receive buffer is a byte stream consumed by [retrieve]. *)
#[export] Program Instance receive_stream : ByteStream t := {
  stream_wf := wf;
  stream_contents := contents;
  stream_size := size;
  stream_consume := retrieve
}.
Next Obligation. by intros rb (_ & _ & ?). Qed.
Next Obligation. intros. by apply retrieve_spec. Qed.

(** ** Refinement of a byte queue *)

Inductive op :=
  | ORead (count : Z)                                   (* [read(std::string&, count)] *)
  | OReadInto (buf : list byte) (count : Z)             (* [read(void*, count)] *)
  | OPeek (count : Z)                                   (* [peek(std::string&, count)] *)
  | OPeekInto (buf : list byte) (count : Z)             (* [peek(void*, count)] *)
  | OPeekAt (offset count : Z)                          (* [peek(std::string&, offset, count)] *)
  | OPeekAtInto (buf : list byte) (offset count : Z)    (* [peek(void*, offset, count)] *)
  | ORetrieve (count : Z)
  | ORetrieveAll
  | OReceive (avail : list byte).                       (* a successful [readv] *)

(** One operation of the implementation, with the bytes it hands over: those
    it appends to an empty string, or the caller's memory afterwards. *)
Definition exec (o : op) (rb : t) : option (list byte * t) :=
  match o with
  | ORead n => read_string [] n rb
  | OReadInto buf n => read buf n rb
  | OPeek n => out ← peek_string [] n rb; Some (out, rb)
  | OPeekInto buf n => out ← peek buf n rb; Some (out, rb)
  | OPeekAt offset n => out ← peek_at_string [] offset n rb; Some (out, rb)
  | OPeekAtInto buf offset n => out ← peek_at buf offset n rb; Some (out, rb)
  | ORetrieve n => rb' ← retrieve n rb; Some ([], rb')
  | ORetrieveAll => Some ([], retrieveAll rb)
  | OReceive avail => receive avail rb
  end.

(** The abstract queue: a byte string. Receiving may accept any prefix of the
    available bytes as long as [kReceiveSize] of them are taken; a [peek] at an
    offset finds some of the bytes after it ([peek_at_exact] says when it finds
    all it should, [peek_at_tail_short] that it may not). *)
Inductive spec_step (s : list byte) : op -> list byte -> list byte -> Prop :=
  | spec_read n : spec_step s (ORead n) (ztake n s) (zdrop n s)
  | spec_read_into buf n : spec_step s (OReadInto buf n) (splice 0 (ztake n s) buf) (zdrop n s)
  | spec_peek n : spec_step s (OPeek n) (ztake n s) s
  | spec_peek_into buf n : spec_step s (OPeekInto buf n) (splice 0 (ztake n s) buf) s
  | spec_peek_at offset n out :
      out `sublist_of` zdrop offset s -> zlen out <= n -> spec_step s (OPeekAt offset n) out s
  | spec_peek_at_into buf offset n out :
      out `sublist_of` zdrop offset s -> zlen out <= n ->
      spec_step s (OPeekAtInto buf offset n) (splice 0 out buf) s
  | spec_retrieve n : spec_step s (ORetrieve n) [] (zdrop n s)
  | spec_retrieveAll : spec_step s ORetrieveAll [] []
  | spec_receive avail k :
      Z.min kReceiveSize (zlen avail) <= zlen (ztake k avail) ->
      spec_step s (OReceive avail) (ztake k avail) (s ++ ztake k avail).

Fixpoint run (ops : list op) (rb : t) : option (list (list byte) * t) :=
  match ops with
  | [] => Some ([], rb)
  | o :: ops' =>
      '(out, rb') ← exec o rb;
      '(outs, rb'') ← run ops' rb';
      Some (out :: outs, rb'')
  end.

Inductive spec_run : list byte -> list op -> list (list byte) -> list byte -> Prop :=
  | spec_run_nil s : spec_run s [] [] s
  | spec_run_cons s o out s' ops outs s'' :
      spec_step s o out s' -> spec_run s' ops outs s'' ->
      spec_run s (o :: ops) (out :: outs) s''.

(** The arguments are in the range of their types, and the caller's memory is as
    long as it says. *)
Definition valid_op (o : op) : Prop :=
  match o with
  | ORead n | OPeek n | ORetrieve n => in_u64 n
  | OReadInto buf n | OPeekInto buf n => in_u64 n /\ n <= zlen buf
  | OPeekAt offset n => in_u64 offset /\ in_u64 n
  | OPeekAtInto buf offset n => in_u64 offset /\ in_u64 n /\ n <= zlen buf
  | ORetrieveAll => True
  | OReceive avail => avail <> []
  end.

(** Every operation is defined and simulates its abstract counterpart. *)
Lemma exec_refines o rb :
  wf rb -> valid_op o ->
  exists out rb', exec o rb = Some (out, rb') /\ wf rb' /\
    spec_step (contents rb) o out (contents rb').
Proof.
  intros Hwf Hv. pose proof (live_all_wf rb Hwf) as Hbs.
  destruct o as [n|buf n|n|buf n|off n|buf off n|n| |avail]; cbn [exec valid_op] in *.
  - destruct (read_string_spec rb n Hwf Hv []) as (rb' & -> & ? & Hc).
    exists (ztake n (contents rb)), rb'. rewrite Hc. auto using spec_step.
  - destruct Hv as [Hn Hlen]. destruct (read_spec rb n Hwf Hn buf) as (rb' & -> & ? & Hc); [lia|].
    eexists _, rb'. rewrite Hc. auto using spec_step.
  - rewrite peek_string_spec by done.
    exists (ztake n (contents rb)), rb. auto using spec_step.
  - destruct Hv as [Hn Hlen]. rewrite peek_spec by (done || lia). eexists _, rb. auto using spec_step.
  - destruct Hv as [Hoff Hn]. unfold peek_at_string.
    destruct (peek_at_loop_some copy_string (buffers_ rb) [] off n 0) as (w & -> & ? & ?);
      try done; [unfold in_u64 in Hn; lia|]. cbn. eexists _, rb. split; [done|]. split; [done|]. by constructor.
  - destruct Hv as (Hoff & Hn & Hlen). unfold peek_at.
    destruct (peek_at_loop_some copy_mem (buffers_ rb) buf off n 0) as (w & -> & ? & ?);
      try done; [unfold in_u64 in Hn; lia|]. cbn. eexists _, rb. split; [done|]. split; [done|]. by constructor.
  - destruct (retrieve_spec rb n Hwf Hv) as (rb' & -> & ? & Hc).
    exists [], rb'. rewrite Hc. auto using spec_step.
  - destruct (retrieveAll_spec rb Hwf) as [? Hc].
    exists [], (retrieveAll rb). rewrite Hc. auto using spec_step.
  - destruct (receive_accepts rb avail Hwf Hv) as (rb' & -> & ? & Hc & ?).
    do 2 eexists. rewrite Hc. auto using spec_step.
Qed.

(** C11: every sequence of operations on a fresh [ReceiveBuffer], with memory of
    the caller as long as the counts say, runs without an out-of-range access
    and produces the outputs of an abstract byte queue, whose state is the
    buffer's contents at the end; [size()] is the number of unread bytes. A
    [peek] at an offset is only said to find bytes after the offset, in order,
    at most as many as asked for, and to change nothing; it may find too few
    ([peek_at_tail_short]). *)
Theorem receive_buffer_refines_queue (ops : list op) (Hops : Forall valid_op ops) :
  exists outs rb, run ops make = Some (outs, rb) /\
    spec_run [] ops outs (contents rb) /\ wf rb /\ size rb = u64 (zlen (contents rb)).
Proof.
  change (@nil byte) with (contents make). generalize rb_wf_make. generalize make.
  induction Hops as [|o ops Ho Hops IH]; intros rb Hwf.
  - exists [], rb. repeat split; try apply Hwf. constructor.
  - destruct (exec_refines o rb Hwf Ho) as (out & rb' & E & Hwf' & Hstep).
    destruct (IH rb' Hwf') as (outs & rb'' & Er & Hr & ? & ?).
    exists (out :: outs), rb''. cbn [run]. rewrite E. cbn. rewrite Er.
    split; [done|]. split; [by econstructor|done].
Qed.

(** ** Witnesses *)

Definition abcdef : list byte :=
  [Byte.x61; Byte.x62; Byte.x63; Byte.x64; Byte.x65; Byte.x66].

(** A fresh buffer that received six bytes. *)
Definition sample : t :=
  match receive abcdef make with Some (_, rb) => rb | None => make end.

Lemma sample_facts :
  wf sample /\ contents sample = abcdef /\
  exists b, buffers_ sample = [b] /\ Buffer.readable b = abcdef.
Proof.
  destruct (receive_accepts make abcdef rb_wf_make) as (rb' & E & Hwf & _); [done|].
  assert (sample = rb') as Es by (unfold sample; by rewrite E).
  assert (contents sample = abcdef) as Hc by (vm_compute; reflexivity).
  assert (length (buffers_ sample) = 1%nat) as Hl by (vm_compute; reflexivity).
  split; [by rewrite Es|]. split; [done|]. unfold contents in Hc.
  destruct (buffers_ sample) as [|b [|]]; [done| |done]. exists b. split; [done|].
  rewrite contents_of_cons in Hc. by rewrite app_nil_r in Hc.
Qed.

Lemma receive_appends_witness :
  exists accepted rb', receive abcdef make = Some (accepted, rb') /\
    6 <= zlen accepted /\ contents rb' = accepted.
Proof.
  destruct (receive_appends make abcdef rb_wf_make) as [_ (acc & rb' & H1 & _ & H2 & _ & H3)];
    [discriminate|].
  exists acc, rb'. split; [exact H1|]. split; [exact H2|exact H3].
Defined.

Lemma peek_at_exact_witness :
  fits 2 6 (buffers_ sample) /\
  peek_at (replicate 4 Byte.x00) 2 6 sample =
    Some [Byte.x63; Byte.x64; Byte.x65; Byte.x66].
Proof.
  destruct sample_facts as (Hwf & Hc & b & Hb & Hr).
  assert (fits 2 6 (buffers_ sample)) as Hf.
  { rewrite Hb. cbn. intros _. rewrite Hr. split; [vm_compute; discriminate|exact I]. }
  split; [exact Hf|].
  destruct (peek_at_exact sample (replicate 4 Byte.x00) 2 6 Hwf) as [H _];
    [unfold in_u64; lia | unfold in_u64; lia | lia | exact Hf
    | rewrite Hc; vm_compute; discriminate |].
  rewrite H, Hc. reflexivity.
Defined.

Lemma peek_at_tail_short_witness :
  peek_at_string [] 2 4 sample = Some [Byte.x63; Byte.x64] /\
  ztake 4 (zdrop 2 (contents sample)) = [Byte.x63; Byte.x64; Byte.x65; Byte.x66].
Proof.
  destruct sample_facts as (Hwf & Hc & b & Hb & _).
  pose proof (peek_at_tail_short sample b 2 Hwf Hb) as H.
  assert (size sample = 6) as Hs by (vm_compute; reflexivity).
  rewrite Hs, Hc in H. split; [apply H; lia | rewrite Hc; reflexivity].
Defined.

Lemma receive_buffer_refines_queue_witness :
  let ops := [OReceive abcdef; OPeek 2; OPeekInto abcdef 2; OPeekAt 2 4; ORetrieve 1; ORead 2;
              OReadInto abcdef 1; ORetrieveAll; ORead 1] in
  Forall valid_op ops /\ exists outs rb, run ops make = Some (outs, rb) /\
    spec_run [] ops outs (contents rb).
Proof.
  intros ops. assert (Forall valid_op ops) as Hv.
  { repeat constructor; vm_compute; intuition discriminate. }
  split; [exact Hv|].
  destruct (receive_buffer_refines_queue ops Hv) as (outs & rb & H1 & H2 & _).
  exists outs, rb. split; [exact H1 | exact H2].
Defined.

End ReceiveBuffer.
