(* ===== verification/NetSendBuffer.v ===== *)
(** The segmented output buffer of [nutty/net/SendBuffer.h] and
    [SendBuffer.cpp]: a deque of buffers of exactly the size of what was
    appended, sent with [writev] and released as the kernel takes the bytes. *)

From S2P Require Import Prelude NetBuffer NetByteStream NetReceiveBuffer.

Module SendBuffer.

Record t := mk { buffers_ : list Buffer.t; size_ : Z }.

Definition kSendSize : Z := 16 * 1024.

(** [SendBuffer::SendBuffer()] *)
Definition make : t := mk [] 0.

Definition size (sb : t) : Z := size_ sb.
Definition buffersSize (sb : t) : Z := zlen (buffers_ sb).

(** [append(const void* buf, size_t count)] *)
Definition append (buf : ptr) (count : Z) (sb : t) : option t :=
  buffer ← Buffer.make_from buf count;
  Some (mk (buffers_ sb ++ [buffer]) (u64 (size_ sb + count))).

(** [append(Buffer&& buf)]: the new state and the moved-from buffer. *)
Definition append_buffer (buf : Buffer.t) (sb : t) : t * Buffer.t :=
  let '(buffer, buf') := Buffer.make_move buf in
  (mk (buffers_ sb ++ [buffer]) (u64 (size_ sb + Buffer.readableSize buffer)), buf').

(** [append(const ReceiveBuffer& receiveBuffer)]: the bytes are peeked into
    the storage, the write position stays where the constructor put it. *)
Definition append_receive (receiveBuffer : ReceiveBuffer.t) (sb : t) : option t :=
  let buffer := Buffer.make (ReceiveBuffer.size receiveBuffer) in
  storage ← ReceiveBuffer.peek (Buffer.buffer_ buffer) (Buffer.capacity buffer) receiveBuffer;
  let buffer' := Buffer.mk storage (Buffer.rpos_ buffer) (Buffer.wpos_ buffer) in
  Some (mk (buffers_ sb ++ [buffer']) (u64 (size_ sb + Buffer.capacity buffer'))).

(** [append(const ReceiveBuffer& receiveBuffer, size_t offset)] *)
Definition append_receive_at (receiveBuffer : ReceiveBuffer.t) (offset : Z) (sb : t) : option t :=
  let buffer := Buffer.make (u64 (ReceiveBuffer.size receiveBuffer - offset)) in
  storage ← ReceiveBuffer.peek_at (Buffer.buffer_ buffer) offset (Buffer.capacity buffer)
              receiveBuffer;
  let buffer' := Buffer.mk storage (Buffer.rpos_ buffer) (Buffer.wpos_ buffer) in
  Some (mk (buffers_ sb ++ [buffer']) (u64 (size_ sb + Buffer.capacity buffer'))).

(** [prepareSend(struct iovec* iov, int& iovcnt) const]: an [iovec] per
    buffer until [kSendSize] bytes are covered. *)
Fixpoint prepareSend_loop (nread : Z) (bs : list Buffer.t) : list (ptr * Z) :=
  match bs with
  | [] => []
  | buffer :: rest =>
      if kSendSize <=? nread then []
      else
        let readableSize := Buffer.readableSize buffer in
        (Buffer.dataRead buffer, readableSize)
          :: prepareSend_loop (u64 (nread + readableSize)) rest
  end.

Definition prepareSend (sb : t) : list (ptr * Z) := prepareSend_loop 0 (buffers_ sb).

(** [hasSent(size_t count)]: the [while] loop deletes exhausted buffers. *)
Fixpoint hasSent_loop (fuel : nat) (count nread : Z) (bs : list Buffer.t)
  : option (Z * list Buffer.t) :=
  match bs with
  | [] => Some (nread, [])
  | buffer :: rest =>
      if nread <? count then
        match fuel with
        | O => None
        | S fuel' =>
            let readableSize := Z.min (Buffer.readableSize buffer) (u64 (count - nread)) in
            let buffer' := Buffer.hasRead readableSize buffer in
            let nread' := u64 (nread + readableSize) in
            if Buffer.empty buffer'
            then hasSent_loop fuel' count nread' rest
            else hasSent_loop fuel' count nread' (buffer' :: rest)
        end
      else Some (nread, bs)
  end.

Definition hasSent (count : Z) (sb : t) : option t :=
  '(nread, bs) ← hasSent_loop (length (buffers_ sb)) count 0 (buffers_ sb);
  Some (mk bs (u64 (size_ sb - nread))).

(** ** Invariant and abstraction *)

Definition contents (sb : t) : list byte := Buffer.contents_of (buffers_ sb).

Definition unsent (b : Buffer.t) : Prop := Buffer.wf b /\ Buffer.readable b <> [].

Definition wf (sb : t) : Prop :=
  Forall unsent (buffers_ sb) /\ size_ sb = u64 (zlen (contents sb)).

(** The bytes the [iovec]s designate, in order: what [writev] is asked to
    send. *)
Fixpoint gather (iov : list (ptr * Z)) : option (list byte) :=
  match iov with
  | [] => Some []
  | (p, n) :: rest => bytes ← load p n; more ← gather rest; Some (bytes ++ more)
  end.

(** ** Appending *)

Lemma sb_wf_make : wf make.
Proof. by repeat constructor. Qed.

Lemma append_unsent b sb n :
  wf sb -> unsent b -> n = zlen (Buffer.readable b) ->
  let sb' := mk (buffers_ sb ++ [b]) (u64 (size_ sb + n)) in
  wf sb' /\ contents sb' = contents sb ++ Buffer.readable b.
Proof.
  intros (Hbs & Hsz) Hb -> sb'. unfold wf, contents, sb' in *. cbn [buffers_ size_].
  rewrite Buffer.contents_of_snoc, Hsz, u64_add_l, zlen_app. split; [|done].
  split; [by apply Forall_snoc | done].
Qed.

Lemma send_buffer_append_spec bytes count sb :
  wf sb -> in_u64 count -> 0 < count <= zlen bytes ->
  exists sb', append (bytes, 0) count sb = Some sb' /\ wf sb' /\
    contents sb' = contents sb ++ ztake count bytes.
Proof.
  intros Hwf Hc Hn. unfold append. rewrite Buffer.make_from_spec by (done || lia).
  cbn [mbind option_bind]. set (b := Buffer.mk (ztake count bytes) 0 count).
  assert (zlen (ztake count bytes) = count) as Hz by zlia.
  assert (Buffer.readable b = ztake count bytes) as Hr.
  { unfold Buffer.readable, b. cbn. rewrite Z.sub_0_r. rewrite <- Hz at 1. apply slice_all. }
  assert (unsent b) as Hu.
  { split; [unfold b, Buffer.wf, Buffer.capacity; cbn; zlia|].
    rewrite Hr. intros E. rewrite E in Hz. change (zlen (@nil byte)) with 0 in Hz. lia. }
  eexists. split; [done|]. rewrite <- Hr. apply append_unsent; [done|done|by rewrite Hr].
Qed.

Lemma append_buffer_spec b sb :
  wf sb -> unsent b ->
  wf (append_buffer b sb).1 /\ contents (append_buffer b sb).1 = contents sb ++ Buffer.readable b /\
  Buffer.readable (append_buffer b sb).2 = [].
Proof.
  intros Hwf Hb. destruct b as [d r w]. cbn. pose proof (proj1 Hb) as Hbw.
  destruct (append_unsent (Buffer.mk d r w) sb (zlen (Buffer.readable (Buffer.mk d r w)))) as [? ?];
    [done|done|done|].
  unfold append_buffer. cbn [Buffer.make_move Buffer.buffer_ Buffer.rpos_ Buffer.wpos_ fst].
  by rewrite Buffer.readableSize_zlen by done.
Qed.

(** ** Sending *)

Section HasSent.
Context (count : Z) (Hcount : in_u64 count).

Lemma hasSent_loop_spec fuel nread bs :
  (length bs <= fuel)%nat -> 0 <= nread <= count -> Forall unsent bs ->
  exists bs', hasSent_loop fuel count nread bs =
      Some (Z.min count (nread + zlen (Buffer.contents_of bs)), bs') /\
    Forall unsent bs' /\
    Buffer.contents_of bs' = zdrop (count - nread) (Buffer.contents_of bs).
Proof.
  revert fuel nread. induction bs as [|b bs IH]; intros fuel nread Hfuel Hnread Hbs.
  { exists []. change (Buffer.contents_of []) with (@nil byte).
    rewrite zdrop_nil, zlen_nil, Z.add_0_r, Z.min_r by lia. by destruct fuel. }
  apply Forall_cons_1 in Hbs as [Hb Hbs]. rewrite Buffer.contents_of_cons.
  destruct fuel as [|fuel]; [cbn in Hfuel; lia|]. cbn [hasSent_loop].
  case_if; [|exists (b :: bs)]; cycle 1.
  { replace (count - nread) with 0 by lia. rewrite zdrop_0.
    split; [tuple_eq; zlia|by split; [constructor|]]. }
  destruct Hb as [Hwf Hne].
  rewrite Buffer.readableSize_zlen by done. u64_simpl.
  set (n := Z.min (zlen (Buffer.readable b)) (count - nread)).
  destruct (Buffer.hasRead_spec n b Hwf) as [Hwf' Hr].
  { rewrite Buffer.readableSize_zlen by done. zlia. }
  destruct (Buffer.empty (Buffer.hasRead n b)) eqn:E.
  - apply Buffer.empty_readable in E; [|done]. rewrite Hr in E.
    apply (f_equal zlen) in E. assert (n = zlen (Buffer.readable b)) as Hn by zlia.
    destruct (IH fuel (nread + n)) as (bs' & -> & ? & Hc); [cbn in Hfuel; lia|zlia|done|].
    exists bs'. split; [tuple_eq; zlia|]. split; [done|].
    rewrite Hc, zdrop_app_ge by lia. f_equal. lia.
  - apply Buffer.empty_false_readable in E; [|done].
    assert (n = count - nread) as Hn.
    { destruct (decide (n = zlen (Buffer.readable b))); [|lia].
      exfalso. apply E. rewrite Hr. apply zdrop_all. lia. }
    exists (Buffer.hasRead n b :: bs).
    replace (nread + n) with count by lia.
    split; [destruct fuel; cbn [hasSent_loop]; rewrite Z.ltb_irrefl; tuple_eq; zlia|].
    split; [by constructor|].
    rewrite Buffer.contents_of_cons, Hr, <- Hn, zdrop_app_le by lia. done.
Qed.

Lemma hasSent_spec sb :
  wf sb ->
  exists sb', hasSent count sb = Some sb' /\ wf sb' /\ contents sb' = zdrop count (contents sb).
Proof.
  intros (Hbs & Hsz). unfold hasSent, contents in *.
  destruct (hasSent_loop_spec (length (buffers_ sb)) 0 (buffers_ sb)) as (bs' & -> & Hbs' & Hc);
    [done|unfold in_u64 in *; lia|done|].
  cbn [mbind option_bind]. rewrite Z.sub_0_r, Z.add_0_l in *. eexists. split; [done|].
  split; [|exact Hc]. split; [done|]. unfold contents. cbn [buffers_ size_].
  rewrite Hsz, Hc, u64_sub_l. f_equal. zlia.
Qed.
End HasSent.

(** A send buffer is a byte stream consumed by [hasSent]. *)
#[export] Program Instance send_stream : ByteStream t := {
  stream_wf := wf;
  stream_contents := contents;
  stream_size := size;
  stream_consume := hasSent
}.
Next Obligation. by intros sb (_ & ?). Qed.
Next Obligation. intros. by apply hasSent_spec. Qed.

Lemma prepareSend_loop_spec bs nread :
  0 <= nread -> in_u64 (nread + zlen (Buffer.contents_of bs)) -> Forall unsent bs ->
  exists bytes rest, gather (prepareSend_loop nread bs) = Some bytes /\
    Buffer.contents_of bs = bytes ++ rest /\
    (rest = [] \/ kSendSize <= nread + zlen bytes) /\
    zlen (prepareSend_loop nread bs) <= zlen bs /\
    zlen (prepareSend_loop nread bs) <= zlen bytes.
Proof.
  revert nread. induction bs as [|b bs IH]; intros nread Hnread H64 Hbs.
  { exists [], []. repeat split; try done. by left. }
  apply Forall_cons_1 in Hbs as [[Hb Hne] Hbs]. rewrite Buffer.contents_of_cons in *.
  cbn [prepareSend_loop]. case_if.
  { exists [], (Buffer.readable b ++ Buffer.contents_of bs).
    split; [done|]. split; [done|]. split; [right; zlia|cbn; zlia]. }
  assert (0 < zlen (Buffer.readable b)) as Hpos by (destruct (Buffer.readable b); [done|zlia]).
  rewrite Buffer.readableSize_zlen by done. u64_simpl.
  destruct (IH (nread + zlen (Buffer.readable b))) as (bytes & rest & E & Hc & Hr & Hl1 & Hl2);
    [lia|zlia|done|].
  exists (Buffer.readable b ++ bytes), rest. cbn [gather].
  rewrite Buffer.load_dataRead by (rewrite ?Buffer.readableSize_zlen by done; (done || lia)).
  rewrite ztake_all by lia. cbn [mbind option_bind]. rewrite E, Hc. split; [done|].
  split; [by rewrite app_assoc|]. split; [destruct Hr; [by left|right; zlia]|zlia].
Qed.

(** C13: [prepareSend] designates the oldest unsent bytes, in order: a prefix
    of the contents which is everything or at least [kSendSize] bytes, through
    at most [buffersSize()] non-empty [iovec]s (the length of the array its
    callers allocate). If the kernel then takes the first [n] of them,
    [hasSent(n)] leaves exactly the remaining contents. *)
Theorem prepareSend_hasSent (sb : t) (n : Z) (Hwf : wf sb) (H64 : in_u64 (zlen (contents sb))) :
  exists bytes rest, gather (prepareSend sb) = Some bytes /\
    contents sb = bytes ++ rest /\ (rest = [] \/ kSendSize <= zlen bytes) /\
    zlen (prepareSend sb) <= buffersSize sb /\
    (0 <= n <= zlen bytes ->
     exists sb', hasSent n sb = Some sb' /\ wf sb' /\
       contents sb' = zdrop n bytes ++ rest /\ size sb' = zlen bytes - n + zlen rest).
Proof.
  pose proof Hwf as (Hbs & Hsz).
  destruct (prepareSend_loop_spec (buffers_ sb) 0) as (bytes & rest & E & Hc & Hr & Hl & _);
    [lia|done|done|].
  exists bytes, rest. split; [done|]. split; [done|].
  split; [destruct Hr; [by left|by right]|]. split; [done|]. intros Hn.
  fold (contents sb) in Hc. rewrite Hc in H64.
  destruct (hasSent_spec n ltac:(zlia) sb Hwf) as (sb' & Es & Hwf' & Hc').
  exists sb'. rewrite Hc', Hc, zdrop_app_le by lia. split; [done|]. split; [done|]. split; [done|].
  destruct Hwf' as [_ Hs']. unfold size. rewrite Hs', Hc', Hc, zdrop_app_le by lia.
  u64_simpl. zlia.
Qed.

(** ** Appending a receive buffer *)

(** What [ReceiveBuffer::prepareSend] designates. *)
Lemma gather_receive rb :
  ReceiveBuffer.wf rb -> gather (ReceiveBuffer.prepareSend rb) = Some (ReceiveBuffer.contents rb).
Proof.
  intros Hwf. pose proof (ReceiveBuffer.live_all_wf rb Hwf) as Hbs.
  unfold ReceiveBuffer.prepareSend, ReceiveBuffer.contents.
  induction Hbs as [|b bs Hb _ IH]; [done|]. cbn [fmap list_fmap gather]. cbn in IH.
  pose proof (Buffer.readableSize_range b Hb).
  rewrite Buffer.load_dataRead by (done || lia). cbn. rewrite IH. cbn.
  rewrite ztake_all by (rewrite Buffer.readableSize_zlen by done; lia).
  done.
Qed.

(** A buffer whose write position was never advanced has no readable bytes. *)
Lemma readable_unwritten storage : Buffer.readable (Buffer.mk storage 0 0) = [].
Proof. reflexivity. Qed.

(** [append(const ReceiveBuffer&)] copies the bytes into a buffer without
    calling [hasWritten] on it: whatever was received, none of it becomes part
    of what will be sent, while [size()] grows by the full amount, so the
    invariant [size() = unsent bytes] is lost. *)
Theorem append_receive_sends_nothing (rb : ReceiveBuffer.t) (sb : t)
  (Hrb : ReceiveBuffer.wf rb) (Hsb : wf sb)
  (H64 : in_u64 (zlen (contents sb) + zlen (ReceiveBuffer.contents rb)))
  (Hne : ReceiveBuffer.contents rb <> []) :
  exists sb', append_receive rb sb = Some sb' /\
    contents sb' = contents sb /\
    size sb' = size sb + zlen (ReceiveBuffer.contents rb) /\
    ~ wf sb'.
Proof.
  pose proof Hrb as (_ & _ & Hrs). pose proof Hsb as (_ & Hss).
  unfold append_receive, ReceiveBuffer.size. rewrite u64_small in Hrs by zlia.
  rewrite u64_small in Hss by zlia.
  set (n := ReceiveBuffer.size_ rb) in *.
  assert (0 < n) as Hn.
  { rewrite Hrs. destruct (ReceiveBuffer.contents rb); [done|zlia]. }
  assert (Buffer.capacity (Buffer.make n) = n) as Hcap by (apply Buffer.capacity_make; lia).
  rewrite ReceiveBuffer.peek_spec; [|done|rewrite Hcap; zlia|].
  2:{ change (zlen (Buffer.buffer_ (Buffer.make n))) with (Buffer.capacity (Buffer.make n)). lia. }
  cbn [mbind option_bind]. rewrite Hcap.
  set (st := splice 0 _ _).
  assert (zlen st = n) as Hst.
  { unfold st. unfold Buffer.capacity in Hcap. rewrite zlen_splice; rewrite ?Hcap; zlia. }
  eexists. split; [done|].
  unfold wf, contents, size, Buffer.capacity, Buffer.make in *. cbn [buffers_ size_ Buffer.buffer_ Buffer.rpos_ Buffer.wpos_].
  rewrite Buffer.contents_of_snoc, readable_unwritten, app_nil_r, Hst.
  split; [done|]. split; [u64_simpl; lia|].
  intros [Hall _]. apply Forall_app in Hall as [_ [[_ Hb] _]%Forall_cons_1]. by apply Hb.
Qed.

(** ** Witnesses *)

Definition sample : t := mk [Buffer.mk [Byte.x61; Byte.x62; Byte.x63] 1 3;
                             Buffer.mk [Byte.x64; Byte.x65] 0 2] 4.

Lemma sample_wf : wf sample.
Proof.
  split; [|reflexivity].
  repeat constructor; try discriminate; vm_compute; try discriminate; done.
Qed.

Lemma prepareSend_hasSent_witness :
  gather (prepareSend sample) = Some [Byte.x62; Byte.x63; Byte.x64; Byte.x65] /\
  exists sb', hasSent 3 sample = Some sb' /\ contents sb' = [Byte.x65] /\ size sb' = 1.
Proof.
  destruct (prepareSend_hasSent sample 3 sample_wf) as (bytes & rest & H1 & H2 & _ & _ & H3);
    [vm_compute; split; [discriminate|reflexivity]|].
  assert (gather (prepareSend sample) = Some [Byte.x62; Byte.x63; Byte.x64; Byte.x65]) as Hg
    by (vm_compute; reflexivity).
  rewrite Hg in H1. injection H1 as <-.
  assert (rest = []) as -> by (vm_compute in H2; by injection H2).
  split; [exact Hg|].
  destruct H3 as (sb' & E & _ & Hc & Hs); [vm_compute; split; discriminate|].
  exists sb'. split; [exact E|]. split; [exact Hc|exact Hs].
Defined.

Lemma append_receive_sends_nothing_witness :
  exists sb', append_receive ReceiveBuffer.sample sample = Some sb' /\
    contents sb' = contents sample /\ size sb' = 10.
Proof.
  destruct ReceiveBuffer.sample_facts as (Hwf & Hc & _).
  destruct (append_receive_sends_nothing ReceiveBuffer.sample sample Hwf sample_wf)
    as (sb' & H1 & H2 & H3 & _).
  - rewrite Hc. vm_compute. split; [discriminate|reflexivity].
  - rewrite Hc. discriminate.
  - exists sb'. split; [exact H1|]. split; [exact H2|]. rewrite H3, Hc. reflexivity.
Defined.

End SendBuffer.
