(* ===== verification/NetBufferHeap.v ===== *)
(** The [Buffer] objects of [ReceiveBuffer] and [SendBuffer] on the heap. In
    [NetReceiveBuffer] and [NetSendBuffer] a deque holds buffers; in the code it
    holds pointers to them, made with [new], shared by the loops' local
    variables and released with [delete]. Here the two classes are written with
    pointers, over a heap that all objects of the program share. *)

From S2P Require Import Prelude NetBuffer NetByteStream NetReceiveBuffer NetSendBuffer.

(** ** The heap *)

Module Heap.

(** The live [Buffer] objects by address. *)
Abbreviation heap := (gmap Z Buffer.t).

(** [None]: an access to an object that does not exist. *)
Definition M (A : Type) : Type := heap -> option (A * heap).

#[export] Instance heap_ret : MRet M := fun A a h => Some (a, h).
#[export] Instance heap_bind : MBind M := fun A B f m h => '(a, h') ← m h; f a h'.

Definition lift {A} (x : option A) : M A := fun h => a ← x; Some (a, h).

(** [*p] *)
Definition deref (p : Z) : M Buffer.t := fun h => b ← h !! p; Some (b, h).

(** A method that changes [*p]. *)
Definition update (p : Z) (f : Buffer.t -> option Buffer.t) : M unit :=
  fun h => b ← h !! p; b' ← f b; Some (tt, <[p := b']> h).

(** [delete p] *)
Definition delete (p : Z) : M unit := fun h => _ ← h !! p; Some (tt, base.delete p h).

Section New.
Context (malloc : heap -> Z).

(** [new Buffer(...)] *)
Definition new (b : Buffer.t) : M Z := fun h => let p := malloc h in Some (p, <[p := b]> h).
End New.

(** ** What a computation may touch *)

(** From [h] to [h'] an owner of [O] has come to own [O']: what it did not own
    before nor after is unchanged, what is new was not in use, and what it gave
    up is released. *)
Definition evolves (O : gset Z) (h : heap) (O' : gset Z) (h' : heap) : Prop :=
  forall x, (x ∉ O -> x ∉ O' -> h' !! x = h !! x) /\
    (x ∉ O -> x ∈ O' -> h !! x = None) /\
    (x ∈ O -> x ∉ O' -> h' !! x = None).

Lemma evolves_refl O h : evolves O h O h.
Proof. by intros x. Qed.

Lemma evolves_trans O1 h1 O2 h2 O3 h3 :
  evolves O1 h1 O2 h2 -> evolves O2 h2 O3 h3 -> evolves O1 h1 O3 h3.
Proof.
  intros H12 H23 x. specialize (H12 x) as (A1 & A2 & A3). specialize (H23 x) as (B1 & B2 & B3).
  destruct (decide (x ∈ O1)), (decide (x ∈ O2)), (decide (x ∈ O3)); naive_solver congruence.
Qed.

(** [m] is defined on [h], and its result satisfies [Q]. *)
Definition runs {A} (m : M A) (O : gset Z) (h : heap) (Q : A -> gset Z -> heap -> Prop) : Prop :=
  exists a O' h', m h = Some (a, h') /\ evolves O h O' h' /\ Q a O' h'.

Lemma runs_ret {A} (a : A) O h (Q : A -> gset Z -> heap -> Prop) : Q a O h -> runs (mret a) O h Q.
Proof. intros H. exists a, O, h. split; [done|]. split; [apply evolves_refl|done]. Qed.

Lemma runs_bind {A B} (m : M A) (f : A -> M B) O h Q :
  runs m O h (fun a O' h' => runs (f a) O' h' Q) -> runs (m ≫= f) O h Q.
Proof.
  intros (a & O1 & h1 & E1 & H1 & b & O2 & h2 & E2 & H2 & HQ). exists b, O2, h2.
  split; [by unfold mbind, heap_bind; rewrite E1|]. split; [by eapply evolves_trans|done].
Qed.

Lemma runs_mono {A} (m : M A) O h (Q Q' : A -> gset Z -> heap -> Prop) :
  runs m O h Q -> (forall a O' h', Q a O' h' -> Q' a O' h') -> runs m O h Q'.
Proof. intros (a & O1 & h1 & E1 & H1 & HQ) HQQ. exists a, O1, h1. auto. Qed.

Lemma runs_lift {A} (x : option A) a O h (Q : A -> gset Z -> heap -> Prop) :
  x = Some a -> Q a O h -> runs (lift x) O h Q.
Proof. intros -> H. exists a, O, h. split; [done|]. split; [apply evolves_refl|done]. Qed.

Lemma runs_deref p b O h (Q : Buffer.t -> gset Z -> heap -> Prop) :
  h !! p = Some b -> Q b O h -> runs (deref p) O h Q.
Proof.
  intros E H. exists b, O, h. unfold deref. rewrite E. split; [done|]. split; [apply evolves_refl|done].
Qed.

Lemma runs_update p f b b' O h (Q : unit -> gset Z -> heap -> Prop) :
  h !! p = Some b -> f b = Some b' -> p ∈ O -> Q tt O (<[p := b']> h) -> runs (update p f) O h Q.
Proof.
  intros E Ef Hp H. exists tt, O, (<[p := b']> h). unfold update. rewrite E. cbn. rewrite Ef.
  split; [done|]. split; [|done]. intros x. split; [|by split].
  intros Hx _. rewrite lookup_insert_ne; [done|]. by intros ->.
Qed.

Lemma runs_delete p b O h (Q : unit -> gset Z -> heap -> Prop) :
  h !! p = Some b -> p ∈ O -> Q tt (O ∖ {[p]}) (base.delete p h) -> runs (delete p) O h Q.
Proof.
  intros E Hp H. exists tt, (O ∖ {[p]}), (base.delete p h). unfold delete. rewrite E.
  split; [done|]. split; [|done]. intros x. rewrite lookup_delete. case_decide as Hx.
  - subst x. split; [done|]. split; [set_solver|done].
  - split; [done|]. split; set_solver.
Qed.

Lemma runs_new (malloc : heap -> Z) (Hmalloc : forall h, h !! malloc h = None) b O h
    (Q : Z -> gset Z -> heap -> Prop) :
  malloc h ∉ O -> Q (malloc h) ({[malloc h]} ∪ O) (<[malloc h := b]> h) -> runs (new malloc b) O h Q.
Proof.
  intros Hp H. exists (malloc h), ({[malloc h]} ∪ O), (<[malloc h := b]> h).
  split; [done|]. split; [|done]. intros x. rewrite lookup_insert. case_decide as Hx.
  - subst x. split; [set_solver|]. split; [done|set_solver].
  - split; [done|]. split; set_solver.
Qed.

(** ** Deques of pointers *)

(** The objects [bs] at the addresses [ps]. *)
Definition points (h : heap) (ps : list Z) (bs : list Buffer.t) : Prop :=
  Forall2 (fun p b => h !! p = Some b) ps bs.

Lemma points_insert h ps bs p b : p ∉ ps -> points h ps bs -> points (<[p := b]> h) ps bs.
Proof.
  intros Hp Hps. induction Hps as [|q c ps bs Hq Hps IH]; [constructor|].
  apply not_elem_of_cons in Hp as [Hne Hp]. constructor; [by rewrite lookup_insert_ne|by apply IH].
Qed.

Lemma points_delete h ps bs p : p ∉ ps -> points h ps bs -> points (base.delete p h) ps bs.
Proof.
  intros Hp Hps. induction Hps as [|q c ps bs Hq Hps IH]; [constructor|].
  apply not_elem_of_cons in Hp as [Hne Hp]. constructor; [by rewrite lookup_delete_ne|by apply IH].
Qed.

Lemma points_Some h ps bs p : points h ps bs -> p ∈ ps -> is_Some (h !! p).
Proof.
  intros H [i Hi]%list_elem_of_lookup. destruct (Forall2_lookup_l _ _ _ _ _ H Hi) as (b & _ & E). by eexists.
Qed.

Lemma points_snoc h ps bs p b : points h ps bs -> h !! p = Some b -> points h (ps ++ [p]) (bs ++ [b]).
Proof. intros. apply Forall2_app; [done|]. by constructor. Qed.

End Heap.
Import Heap.

(** ** [ReceiveBuffer], with pointers *)

Module ReceiveBufferHeap.

Abbreviation kReceiveSize := ReceiveBuffer.kReceiveSize.

Record t := mk {
  buffers_ : list Z;
  extendBuffers_ : list Z;
  size_ : Z
}.

Definition make : t := mk [] [] 0.

Section Loops.
Context {D : Type} (copy : D -> Z -> ptr -> Z -> option D).

(** The [while] loop of [read] and [retrieve]. *)
Fixpoint drain_loop (fuel : nat) (dst : D) (count nread : Z) (buffers extendBuffers : list Z)
  : M (D * Z * list Z * list Z) :=
  match buffers with
  | [] => mret (dst, nread, [], extendBuffers)
  | buffer :: rest =>
      if nread <? count then
        match fuel with
        | O => lift None
        | S fuel' =>
            b ← deref buffer;
            let readableSize := Z.min (Buffer.readableSize b) (u64 (count - nread)) in
            dst' ← lift (copy dst nread (Buffer.dataRead b) readableSize);
            _ ← update buffer (fun b => Some (Buffer.hasRead readableSize b));
            let nread' := u64 (nread + readableSize) in
            b' ← deref buffer;
            if Buffer.empty b' then
              _ ← update buffer (fun b => Some (Buffer.reset b));
              drain_loop fuel' dst' count nread' rest (extendBuffers ++ [buffer])
            else drain_loop fuel' dst' count nread' buffers extendBuffers
        end
      else mret (dst, nread, buffers, extendBuffers)
  end.

Definition drain (dst : D) (count : Z) (rb : t) : M (D * t) :=
  '(dst', nread, bs, ext) ←
    drain_loop (length (buffers_ rb)) dst count 0 (buffers_ rb) (extendBuffers_ rb);
  mret (dst', mk bs ext (u64 (size_ rb - nread))).

(** The [for] loops of [peek]. *)
Fixpoint peek_loop (dst : D) (count nread : Z) (buffers : list Z) : M D :=
  match buffers with
  | [] => mret dst
  | buffer :: rest =>
      if count <=? nread then mret dst
      else
        b ← deref buffer;
        let readableSize := Z.min (Buffer.readableSize b) (u64 (count - nread)) in
        dst' ← lift (copy dst nread (Buffer.dataRead b) readableSize);
        peek_loop dst' count (u64 (nread + readableSize)) rest
  end.

Fixpoint peek_at_loop (dst : D) (offset count nread : Z) (buffers : list Z) : M D :=
  match buffers with
  | [] => mret dst
  | buffer :: rest =>
      if count <=? nread then mret dst
      else
        b ← deref buffer;
        let readableSize := Z.min (Buffer.readableSize b) (u64 (count - nread)) in
        if 0 <? offset then
          if offset <? readableSize then
            let readableSize' := u64 (readableSize - offset) in
            let '(blk, off) := Buffer.dataRead b in
            dst' ← lift (copy dst nread (blk, off + offset) readableSize');
            peek_at_loop dst' 0 count (u64 (nread + readableSize')) rest
          else
            peek_at_loop dst (u64 (offset - readableSize)) count nread rest
        else
          dst' ← lift (copy dst nread (Buffer.dataRead b) readableSize);
          peek_at_loop dst' offset count (u64 (nread + readableSize)) rest
  end.
End Loops.

Definition read (buf : list byte) (count : Z) (rb : t) : M (list byte * t) := drain copy_mem buf count rb.
Definition read_string (buf : list byte) (count : Z) (rb : t) : M (list byte * t) := drain copy_string buf count rb.
Definition retrieve (count : Z) (rb : t) : M t := '(_, rb') ← drain copy_none tt count rb; mret rb'.

Definition peek (buf : list byte) (count : Z) (rb : t) : M (list byte) :=
  peek_loop copy_mem buf count 0 (buffers_ rb).
Definition peek_string (buf : list byte) (count : Z) (rb : t) : M (list byte) :=
  peek_loop copy_string buf count 0 (buffers_ rb).
Definition peek_at (buf : list byte) (offset count : Z) (rb : t) : M (list byte) :=
  peek_at_loop copy_mem buf offset count 0 (buffers_ rb).
Definition peek_at_string (buf : list byte) (offset count : Z) (rb : t) : M (list byte) :=
  peek_at_loop copy_string buf offset count 0 (buffers_ rb).

Fixpoint retrieveAll_loop (buffers extendBuffers : list Z) : M (list Z) :=
  match buffers with
  | [] => mret extendBuffers
  | buffer :: rest =>
      _ ← update buffer (fun b => Some (Buffer.reset b));
      retrieveAll_loop rest (extendBuffers ++ [buffer])
  end.

Definition retrieveAll (rb : t) : M t :=
  ext ← retrieveAll_loop (buffers_ rb) (extendBuffers_ rb); mret (mk [] ext 0).

(** An [iovec] points into the storage of the object at an address. *)
Record iovec := mk_iovec { iov_base : Z * Z; iov_len : Z }.

Section Receive.
Context (malloc : heap -> Z).

Definition prepareReceive (rb : t) : M (t * list iovec) :=
  '(iov, nwrote) ←
    match last (buffers_ rb) with
    | Some buffer =>
        b ← deref buffer;
        let writableSize := Buffer.writableSize b in
        if 0 <? writableSize
        then mret ([mk_iovec (buffer, Buffer.wpos_ b) writableSize], writableSize)
        else mret ([], 0)
    | None => mret ([], 0)
    end;
  if nwrote <? kReceiveSize then
    ext ← match extendBuffers_ rb with
          | [] => buffer ← new malloc (Buffer.make (kReceiveSize * 2)); mret [buffer]
          | ext => mret ext
          end;
    match ext with
    | buffer :: _ =>
        b ← deref buffer;
        mret (mk (buffers_ rb) ext (size_ rb), iov ++ [mk_iovec (buffer, 0) (Buffer.capacity b)])
    | [] => lift None
    end
  else mret (rb, iov).
End Receive.

(** What [readv] does with the [iovec]s. *)
Fixpoint scatter (iov : list iovec) (bytes : list byte) : M unit :=
  match iov with
  | [] => match bytes with [] => mret tt | _ => lift None end
  | v :: rest =>
      let n := Z.min (iov_len v) (zlen bytes) in
      _ ← update (iov_base v).1 (Buffer.store (iov_base v).2 (ztake n bytes));
      scatter rest (zdrop n bytes)
  end.

Definition hasReceived (count : Z) (rb : t) : M t :=
  nwrote ←
    match last (buffers_ rb) with
    | Some buffer =>
        b ← deref buffer;
        let writableSize := Z.min (Buffer.writableSize b) count in
        if 0 <? writableSize then
          _ ← update buffer (fun b => Some (Buffer.hasWritten writableSize b));
          mret writableSize
        else mret 0
    | None => mret 0
    end;
  match extendBuffers_ rb with
  | buffer :: ext' =>
      if nwrote <? count then
        b ← deref buffer;
        let writableSize := Z.min (Buffer.writableSize b) (u64 (count - nwrote)) in
        _ ← update buffer (fun b => Some (Buffer.hasWritten writableSize b));
        mret (mk (buffers_ rb ++ [buffer]) ext' (u64 (size_ rb + u64 (nwrote + writableSize))))
      else mret (mk (buffers_ rb) (buffer :: ext') (u64 (size_ rb + nwrote)))
  | [] => mret (mk (buffers_ rb) [] (u64 (size_ rb + nwrote)))
  end.

(** The receive path of [TcpConnection::handleRead]. *)
Definition receive (malloc : heap -> Z) (avail : list byte) (rb : t) : M (list byte * t) :=
  '(rb1, iov) ← prepareReceive malloc rb;
  let bytes := ztake (foldr Z.add 0 (iov_len <$> iov)) avail in
  _ ← scatter iov bytes;
  rb2 ← hasReceived (u32 (zlen bytes)) rb1;
  mret (bytes, rb2).

(** [for (Buffer*& buffer : buffers) delete buffer;] *)
Fixpoint delete_all (buffers : list Z) : M unit :=
  match buffers with
  | [] => mret tt
  | buffer :: rest => _ ← delete buffer; delete_all rest
  end.

(** [ReceiveBuffer::~ReceiveBuffer] *)
Definition destroy (rb : t) : M unit :=
  _ ← delete_all (buffers_ rb); delete_all (extendBuffers_ rb).

End ReceiveBufferHeap.

(** ** [SendBuffer], with pointers *)

Module SendBufferHeap.

Record t := mk { buffers_ : list Z; size_ : Z }.

Definition make : t := mk [] 0.

Section Append.
Context (malloc : heap -> Z).

Definition append (buf : ptr) (count : Z) (sb : t) : M t :=
  b ← lift (Buffer.make_from buf count);
  buffer ← new malloc b;
  mret (mk (buffers_ sb ++ [buffer]) (u64 (size_ sb + count))).

Definition append_buffer (buf : Buffer.t) (sb : t) : M (t * Buffer.t) :=
  let '(b, buf') := Buffer.make_move buf in
  buffer ← new malloc b;
  b ← deref buffer;
  mret (mk (buffers_ sb ++ [buffer]) (u64 (size_ sb + Buffer.readableSize b)), buf').

(** [peek] writes into [buffer->data()]. *)
Definition store_data (buffer : Z) (storage : list byte) : M unit :=
  update buffer (fun b => Some (Buffer.mk storage (Buffer.rpos_ b) (Buffer.wpos_ b))).

Definition append_receive (receiveBuffer : ReceiveBufferHeap.t) (sb : t) : M t :=
  buffer ← new malloc (Buffer.make (ReceiveBufferHeap.size_ receiveBuffer));
  b ← deref buffer;
  storage ← ReceiveBufferHeap.peek (Buffer.buffer_ b) (Buffer.capacity b) receiveBuffer;
  _ ← store_data buffer storage;
  b ← deref buffer;
  mret (mk (buffers_ sb ++ [buffer]) (u64 (size_ sb + Buffer.capacity b))).

Definition append_receive_at (receiveBuffer : ReceiveBufferHeap.t) (offset : Z) (sb : t) : M t :=
  buffer ← new malloc (Buffer.make (u64 (ReceiveBufferHeap.size_ receiveBuffer - offset)));
  b ← deref buffer;
  storage ← ReceiveBufferHeap.peek_at (Buffer.buffer_ b) offset (Buffer.capacity b) receiveBuffer;
  _ ← store_data buffer storage;
  b ← deref buffer;
  mret (mk (buffers_ sb ++ [buffer]) (u64 (size_ sb + Buffer.capacity b))).
End Append.

(** [prepareSend]: an [iovec] is an object's address, an offset into its
    storage, and a length. *)
Fixpoint prepareSend_loop (nread : Z) (buffers : list Z) : M (list (Z * Z * Z)) :=
  match buffers with
  | [] => mret []
  | buffer :: rest =>
      if SendBuffer.kSendSize <=? nread then mret []
      else
        b ← deref buffer;
        let readableSize := Buffer.readableSize b in
        iov ← prepareSend_loop (u64 (nread + readableSize)) rest;
        mret ((buffer, Buffer.rpos_ b, readableSize) :: iov)
  end.

Definition prepareSend (sb : t) : M (list (Z * Z * Z)) := prepareSend_loop 0 (buffers_ sb).

(** [ReceiveBuffer::prepareSend] *)
Fixpoint prepareSend_receive (buffers : list Z) : M (list (Z * Z * Z)) :=
  match buffers with
  | [] => mret []
  | buffer :: rest =>
      b ← deref buffer;
      iov ← prepareSend_receive rest;
      mret ((buffer, Buffer.rpos_ b, Buffer.readableSize b) :: iov)
  end.

(** What [writev] reads through the [iovec]s. *)
Fixpoint gather (iov : list (Z * Z * Z)) : M (list byte) :=
  match iov with
  | [] => mret []
  | (p, off, n) :: rest =>
      b ← deref p;
      bytes ← lift (load (Buffer.buffer_ b, off) n);
      more ← gather rest;
      mret (bytes ++ more)
  end.

(** The [while] loop of [hasSent]. *)
Fixpoint hasSent_loop (fuel : nat) (count nread : Z) (buffers : list Z) : M (Z * list Z) :=
  match buffers with
  | [] => mret (nread, [])
  | buffer :: rest =>
      if nread <? count then
        match fuel with
        | O => lift None
        | S fuel' =>
            b ← deref buffer;
            let readableSize := Z.min (Buffer.readableSize b) (u64 (count - nread)) in
            _ ← update buffer (fun b => Some (Buffer.hasRead readableSize b));
            let nread' := u64 (nread + readableSize) in
            b' ← deref buffer;
            if Buffer.empty b' then
              _ ← delete buffer;
              hasSent_loop fuel' count nread' rest
            else hasSent_loop fuel' count nread' buffers
        end
      else mret (nread, buffers)
  end.

Definition hasSent (count : Z) (sb : t) : M t :=
  '(nread, bs) ← hasSent_loop (length (buffers_ sb)) count 0 (buffers_ sb);
  mret (mk bs (u64 (size_ sb - nread))).

(** [SendBuffer::~SendBuffer] *)
Definition destroy (sb : t) : M unit := ReceiveBufferHeap.delete_all (buffers_ sb).

End SendBufferHeap.

(** ** Each operation does what its counterpart on values does *)

Module HeapSim.

(** A computation on the objects of one deque, which keeps the set of
    addresses. *)
Ltac step_ret := apply runs_ret.
Ltac step_lift E := apply runs_bind; eapply runs_lift; [first [exact E | reflexivity]|cbv beta iota].
Ltac step_deref E := apply runs_bind; eapply runs_deref; [exact E|cbv beta iota].
Ltac step_update E := apply runs_bind; eapply runs_update; [exact E|reflexivity|set_solver|cbv beta iota].

Section Deques.
Implicit Types (h : heap) (ps es : list Z) (bs ext : list Buffer.t).

(** Two deques with separate objects. *)
Record deques (O : gset Z) h ps es bs ext : Prop := {
  deque_front : points h ps bs;
  deque_spare : points h es ext;
  deque_NoDup : NoDup (ps ++ es);
  deque_owned : list_to_set (ps ++ es) = O
}.

Lemma deques_cons O h p ps es b bs ext :
  deques O h (p :: ps) es (b :: bs) ext ->
  h !! p = Some b /\ p ∈ O /\ p ∉ ps ++ es /\ points h ps bs /\ points h es ext /\ NoDup (ps ++ es).
Proof.
  intros [Hps0 Hes [Hnp Hnd]%list.NoDup_cons HO]. apply Forall2_cons_1 in Hps0 as [Hp Hps]. subst O.
  split; [done|]. split; [cbn; set_solver|done].
Qed.

(** A change of the first object. *)
Lemma deques_update O h p ps es b b' bs ext :
  deques O h (p :: ps) es (b :: bs) ext -> deques O (<[p := b']> h) (p :: ps) es (b' :: bs) ext.
Proof.
  intros Hd. destruct (deques_cons _ _ _ _ _ _ _ _ Hd) as (Hp & _ & Hn & Hps & Hes & Hnd).
  apply not_elem_of_app in Hn as [Hn1 Hn2]. constructor; try apply Hd; [|by apply points_insert].
  constructor; [by rewrite lookup_insert_eq|by apply points_insert].
Qed.

(** The first object moves to the other deque. *)
Lemma deques_move O h p ps es b bs ext :
  deques O h (p :: ps) es (b :: bs) ext -> deques O h ps (es ++ [p]) bs (ext ++ [b]).
Proof.
  intros Hd. destruct (deques_cons _ _ _ _ _ _ _ _ Hd) as (Hp & HpO & Hn & Hps & Hes & Hnd).
  constructor; [done|by apply points_snoc| |].
  - rewrite app_assoc. apply list.NoDup_app. split; [done|]. split; [|by apply list.NoDup_singleton].
    intros x Hx ->%list_elem_of_singleton. done.
  - rewrite <- (deque_owned _ _ _ _ _ _ Hd), !list_to_set_app_L. cbn. set_solver.
Qed.

Section Drain.
Context {D : Type} (copy : D -> Z -> ptr -> Z -> option D).

Lemma drain_loop_sim fuel dst count nread O h ps es bs ext dst' nread' bs' ext' :
  ReceiveBuffer.drain_loop copy fuel dst count nread bs ext = Some (dst', nread', bs', ext') ->
  deques O h ps es bs ext ->
  runs (ReceiveBufferHeap.drain_loop copy fuel dst count nread ps es) O h
    (fun r O' h' => O' = O /\ exists ps' es', r = (dst', nread', ps', es') /\ deques O h' ps' es' bs' ext').
Proof.
  revert dst nread h ps es bs ext. induction fuel as [|fuel IH]; intros dst nread h ps es bs ext E Hd;
    destruct ps as [|p ps]; destruct bs as [|b bs]; try (by apply deque_front in Hd; inversion Hd);
    cbn [ReceiveBufferHeap.drain_loop ReceiveBuffer.drain_loop] in *.
  1,3: injection E as <- <- <- <-; step_ret; eauto.
  - destruct (nread <? count); [done|]. injection E as <- <- <- <-. step_ret; eauto.
  - destruct (nread <? count); [|injection E as <- <- <- <-; step_ret; eauto].
    destruct (deques_cons _ _ _ _ _ _ _ _ Hd) as (Hp & HpO & _).
    step_deref Hp. destruct (copy _ _ _ _) as [d1|] eqn:Ec; [|done]. cbn [mbind option_bind] in E.
    step_lift Ec. set (b1 := Buffer.hasRead _ b) in *. step_update Hp.
    apply (deques_update _ _ _ _ _ _ b1) in Hd.
    assert ((<[p := b1]> h : heap) !! p = Some b1) as Hp1 by apply lookup_insert_eq.
    step_deref Hp1. destruct (Buffer.empty b1).
    + step_update Hp1. eapply IH; [exact E|]. apply deques_move. by eapply deques_update.
    + eapply IH; [exact E|done].
Qed.

Lemma peek_loop_sim dst count nread O h ps bs dst' :
  ReceiveBuffer.peek_loop copy dst count nread bs = Some dst' -> points h ps bs ->
  runs (ReceiveBufferHeap.peek_loop copy dst count nread ps) O h (fun r O' h' => r = dst' /\ O' = O /\ h' = h).
Proof.
  intros E Hps. revert dst nread E. induction Hps as [|p b ps bs Hp Hps IH]; intros dst nread E;
    cbn [ReceiveBufferHeap.peek_loop ReceiveBuffer.peek_loop] in *; [injection E as <-; by step_ret|].
  destruct (count <=? nread); [injection E as <-; by step_ret|]. step_deref Hp.
  destruct (copy _ _ _ _) as [d1|] eqn:Ec; [|done]. step_lift Ec. by apply IH.
Qed.

Lemma peek_at_loop_sim dst offset count nread O h ps bs dst' :
  ReceiveBuffer.peek_at_loop copy dst offset count nread bs = Some dst' -> points h ps bs ->
  runs (ReceiveBufferHeap.peek_at_loop copy dst offset count nread ps) O h
    (fun r O' h' => r = dst' /\ O' = O /\ h' = h).
Proof.
  intros E Hps. revert dst offset nread E. induction Hps as [|p b ps bs Hp Hps IH]; intros dst offset nread E;
    cbn [ReceiveBufferHeap.peek_at_loop ReceiveBuffer.peek_at_loop] in *; [injection E as <-; by step_ret|].
  destruct (count <=? nread); [injection E as <-; by step_ret|]. step_deref Hp. cbn [Buffer.dataRead] in *.
  repeat case_match; try (by apply IH); try done;
    (destruct (copy _ _ _ _) as [d1|] eqn:Ec; [|done]; step_lift Ec; by apply IH).
Qed.
End Drain.

Lemma retrieveAll_loop_sim O h ps es bs ext :
  deques O h ps es bs ext ->
  runs (ReceiveBufferHeap.retrieveAll_loop ps es) O h
    (fun r O' h' => O' = O /\ deques O h' [] r [] (ReceiveBuffer.retrieveAll_loop bs ext)).
Proof.
  revert h es bs ext. induction ps as [|p ps IH]; intros h es bs ext Hd; destruct bs as [|b bs];
    try (by apply deque_front in Hd; inversion Hd);
    cbn [ReceiveBufferHeap.retrieveAll_loop ReceiveBuffer.retrieveAll_loop]; [by step_ret|].
  destruct (deques_cons _ _ _ _ _ _ _ _ Hd) as (Hp & HpO & _). step_update Hp.
  apply IH, deques_move. by eapply deques_update.
Qed.

(** The last object of the first deque, and the first of the second. *)
Lemma points_last h ps bs p :
  points h ps bs -> last ps = Some p ->
  exists ps0 bs0 b, ps = ps0 ++ [p] /\ bs = bs0 ++ [b] /\ points h ps0 bs0 /\ h !! p = Some b /\ last bs = Some b.
Proof.
  intros H [ps0 ->]%last_Some. apply Forall2_app_inv_l in H as (bs0 & bs1 & H0 & H1 & ->).
  apply Forall2_cons_inv_l in H1 as (b & bs2 & Hp & H2 & ->). apply Forall2_nil_inv_l in H2 as ->.
  exists ps0, bs0, b. by rewrite last_snoc.
Qed.

Lemma points_last_None h ps bs : points h ps bs -> last ps = None -> ps = [] /\ bs = [] /\ last bs = None.
Proof. intros H ->%last_None. by apply Forall2_nil_inv_l in H as ->. Qed.

Lemma deques_update_back O h ps es bs ext p b f bs' :
  deques O h ps es bs ext -> last ps = Some p -> last bs = Some b -> ReceiveBuffer.update_back f bs = Some bs' ->
  exists b', f b = Some b' /\ h !! p = Some b /\ p ∈ O /\ deques O (<[p := b']> h) ps es bs' ext.
Proof.
  intros [Hps Hes Hnd HO] Hl Hb Hf. destruct (points_last _ _ _ _ Hps Hl) as (ps0 & bs0 & b0 & -> & -> & H0 & Hp & _).
  rewrite last_snoc in Hb. injection Hb as ->. rewrite ReceiveBuffer.update_back_snoc in Hf.
  destruct (f b) as [b'|]; [|done]. injection Hf as <-. exists b'. split; [done|]. split; [done|].
  rewrite <- app_assoc in Hnd. pose proof Hnd as (H1 & H2 & [Hn _]%list.NoDup_cons)%list.NoDup_app.
  split; [subst O; rewrite !list_to_set_app_L; cbn; set_solver|]. constructor; try done.
  - apply points_snoc; [apply points_insert; [|done]|by rewrite lookup_insert_eq].
    intros Hin. apply (H2 p Hin). by left.
  - by apply points_insert.
  - by rewrite <- app_assoc.
Qed.

Lemma deques_update_spare O h ps es bs ext p b b' :
  deques O h ps (p :: es) bs (b :: ext) -> deques O (<[p := b']> h) ps (p :: es) bs (b' :: ext).
Proof.
  intros [Hps Hes Hnd HO]. apply Forall2_cons_1 in Hes as [Hp Hes].
  pose proof Hnd as (H1 & H2 & [Hn _]%list.NoDup_cons)%list.NoDup_app.
  constructor; [|constructor|done|done].
  - apply points_insert; [|done]. intros Hin. apply (H2 p Hin). by left.
  - by rewrite lookup_insert_eq.
  - by apply points_insert.
Qed.

(** The first object of the second deque becomes the last of the first. *)
Lemma deques_take O h ps es bs ext p b :
  deques O h ps (p :: es) bs (b :: ext) -> deques O h (ps ++ [p]) es (bs ++ [b]) ext.
Proof.
  intros [Hps Hes Hnd HO]. apply Forall2_cons_1 in Hes as [Hp Hes]. constructor; [by apply points_snoc|done| |].
  - by rewrite <- app_assoc.
  - by rewrite <- app_assoc.
Qed.

Lemma deques_spare O h ps es bs ext p b :
  deques O h ps (p :: es) bs (b :: ext) -> h !! p = Some b /\ p ∈ O.
Proof.
  intros [Hps Hes Hnd HO]. apply Forall2_cons_1 in Hes as [Hp Hes]. split; [done|].
  subst O. rewrite list_to_set_app_L. cbn. set_solver.
Qed.

(** An address not in use is not owned. *)
Lemma deques_fresh O h ps es bs ext p : deques O h ps es bs ext -> h !! p = None -> p ∉ O /\ p ∉ ps ++ es.
Proof.
  intros [Hps Hes Hnd HO] Hp. assert (p ∉ ps ++ es) as Hn.
  { intros [Hin|Hin]%elem_of_app; [destruct (points_Some _ _ _ _ Hps Hin)|destruct (points_Some _ _ _ _ Hes Hin)];
      congruence. }
  split; [|done]. subst O. by rewrite elem_of_list_to_set.
Qed.

(** A new object at the end of either deque. *)
Lemma deques_new_back O h ps es bs ext p b :
  deques O h ps es bs ext -> h !! p = None ->
  deques ({[p]} ∪ O) (<[p := b]> h) (ps ++ [p]) es (bs ++ [b]) ext.
Proof.
  intros Hd Hp. destruct (deques_fresh _ _ _ _ _ _ _ Hd Hp) as [_ [Hn1 Hn2]%not_elem_of_app].
  destruct Hd as [Hps Hes Hnd HO]. constructor.
  - apply points_snoc; [by apply points_insert|by rewrite lookup_insert_eq].
  - by apply points_insert.
  - apply list.NoDup_app in Hnd as (H1 & H2 & H3). rewrite <- app_assoc. apply list.NoDup_app.
    split; [done|]. split; [|by apply list.NoDup_cons]. intros x Hx [->|Hin]%elem_of_cons; [done|by apply (H2 x)].
  - subst O. rewrite !list_to_set_app_L. cbn. set_solver.
Qed.

Lemma deques_new_spare O h ps bs p b :
  deques O h ps [] bs [] -> h !! p = None -> deques ({[p]} ∪ O) (<[p := b]> h) ps [p] bs [b].
Proof.
  intros Hd Hp. destruct (deques_fresh _ _ _ _ _ _ _ Hd Hp) as [_ [Hn1 Hn2]%not_elem_of_app].
  destruct Hd as [Hps Hes Hnd HO]. constructor.
  - by apply points_insert.
  - constructor; [by rewrite lookup_insert_eq|constructor].
  - rewrite app_nil_r in Hnd. apply list.NoDup_app. split; [done|]. split; [|by apply list.NoDup_singleton].
    by intros x Hx ->%list_elem_of_singleton.
  - subst O. rewrite !list_to_set_app_L. cbn. set_solver.
Qed.

Lemma delete_all_sim O h ps es bs ext :
  deques O h ps es bs ext ->
  runs (ReceiveBufferHeap.delete_all ps) O h (fun _ O' h' => deques O' h' [] es [] ext).
Proof.
  revert O h bs. induction ps as [|p ps IH]; intros O h bs Hd; destruct bs as [|b bs];
    try (by apply deque_front in Hd; inversion Hd); cbn [ReceiveBufferHeap.delete_all]; [by step_ret|].
  destruct (deques_cons _ _ _ _ _ _ _ _ Hd) as (Hp & HpO & Hn & Hps & Hes & Hnd).
  apply runs_bind. eapply runs_delete; [exact Hp|done|]. cbv beta. apply (IH _ _ bs).
  pose proof (deque_owned _ _ _ _ _ _ Hd) as HO. pose proof Hn as [Hn1 Hn2]%not_elem_of_app. constructor; [by apply points_delete|by apply points_delete|done|].
  subst O. rewrite <- app_comm_cons, list_to_set_cons. apply (not_elem_of_list_to_set (C := gset Z)) in Hn. set_solver.
Qed.

Lemma delete_spares_sim O h es ext :
  deques O h [] es [] ext -> runs (ReceiveBufferHeap.delete_all es) O h (fun _ O' h' => O' = ∅).
Proof.
  intros Hd. eapply runs_mono; [apply (delete_all_sim O h es [] ext [])|].
  - destruct Hd as [_ Hes Hnd HO]. cbn in *. constructor; [done|constructor|by rewrite app_nil_r|by rewrite app_nil_r].
  - intros ? O' h' [_ _ _ <-]. done.
Qed.
End Deques.

(** *** Objects and the values they stand for *)

Definition receives (O : gset Z) (h : heap) (hrb : ReceiveBufferHeap.t) (rb : ReceiveBuffer.t) : Prop :=
  deques O h (ReceiveBufferHeap.buffers_ hrb) (ReceiveBufferHeap.extendBuffers_ hrb)
    (ReceiveBuffer.buffers_ rb) (ReceiveBuffer.extendBuffers_ rb) /\
  ReceiveBufferHeap.size_ hrb = ReceiveBuffer.size_ rb.

Definition sends (O : gset Z) (h : heap) (hsb : SendBufferHeap.t) (sb : SendBuffer.t) : Prop :=
  deques O h (SendBufferHeap.buffers_ hsb) [] (SendBuffer.buffers_ sb) [] /\
  SendBufferHeap.size_ hsb = SendBuffer.size_ sb.

(** [m] yields [a] and leaves the object at [P']. *)
Definition yields {A R} (a : A) (rel : gset Z -> heap -> R -> Prop) (r : A * R) (O' : gset Z) (h' : heap) : Prop :=
  r.1 = a /\ rel O' h' r.2.

Section Receive.
Context (O : gset Z) (h : heap) (hrb : ReceiveBufferHeap.t) (rb : ReceiveBuffer.t) (Hrep : receives O h hrb rb).

Lemma drain_sim {D} (copy : D -> Z -> ptr -> Z -> option D) dst count dst' rb' :
  ReceiveBuffer.drain copy dst count rb = Some (dst', rb') ->
  runs (ReceiveBufferHeap.drain copy dst count hrb) O h
    (yields dst' (fun O' h' hrb' => receives O' h' hrb' rb')).
Proof.
  intros E. destruct Hrep as [Hd Hsz]. unfold ReceiveBuffer.drain in E. unfold ReceiveBufferHeap.drain.
  rewrite (Forall2_length (deque_front _ _ _ _ _ _ Hd)).
  destruct (ReceiveBuffer.drain_loop _ _ _ _ _ _ _) as [[[[d n] bs] ext]|] eqn:El; [|done].
  injection E as <- <-. apply runs_bind. eapply runs_mono; [by eapply drain_loop_sim|].
  intros r O' h' (-> & ps' & es' & -> & Hd'). step_ret. split; [done|]. split; [done|]. cbn. by rewrite Hsz.
Qed.

Lemma retrieve_sim count rb' :
  ReceiveBuffer.retrieve count rb = Some rb' ->
  runs (ReceiveBufferHeap.retrieve count hrb) O h (fun hrb' O' h' => receives O' h' hrb' rb').
Proof.
  unfold ReceiveBuffer.retrieve. intros E.
  destruct (ReceiveBuffer.drain _ _ _ _) as [[d rb1]|] eqn:Ed; [|done]. injection E as <-.
  apply runs_bind. eapply runs_mono; [by eapply drain_sim|].
  intros [d' hrb'] O' h' [_ Hr]. by step_ret.
Qed.

Lemma retrieveAll_sim :
  runs (ReceiveBufferHeap.retrieveAll hrb) O h (fun hrb' O' h' => receives O' h' hrb' (ReceiveBuffer.retrieveAll rb)).
Proof.
  destruct Hrep as [Hd Hsz]. apply runs_bind. eapply runs_mono; [by eapply retrieveAll_loop_sim|].
  intros es' O' h' [-> Hd']. by step_ret.
Qed.

(** *** Receiving *)

(** The object an [iovec] of the value model designates. *)
Definition object_of (hrb : ReceiveBufferHeap.t) (s : ReceiveBuffer.slot) : option Z :=
  match s with
  | ReceiveBuffer.Back => last (ReceiveBufferHeap.buffers_ hrb)
  | ReceiveBuffer.Extend => head (ReceiveBufferHeap.extendBuffers_ hrb)
  end.

Definition same_iovec (hrb : ReceiveBufferHeap.t) (hv : ReceiveBufferHeap.iovec) (v : ReceiveBuffer.iovec) : Prop :=
  object_of hrb (ReceiveBuffer.iov_base v).1 = Some (ReceiveBufferHeap.iov_base hv).1 /\
  (ReceiveBufferHeap.iov_base hv).2 = (ReceiveBuffer.iov_base v).2 /\
  ReceiveBufferHeap.iov_len hv = ReceiveBuffer.iov_len v.
End Receive.

Lemma scatter_sim O hrb hiov iov bytes rb rb' h :
  receives O h hrb rb -> Forall2 (same_iovec hrb) hiov iov -> ReceiveBuffer.scatter iov bytes rb = Some rb' ->
  runs (ReceiveBufferHeap.scatter hiov bytes) O h (fun _ O' h' => receives O' h' hrb rb').
Proof.
  intros Hr Hio. revert h rb bytes Hr. induction Hio as [|[[p off] len] [[s off'] len'] hiov iov (Hb & Ho & Hl) _ IH];
    intros h rb bytes [Hd Hsz] E; cbn [ReceiveBufferHeap.scatter ReceiveBuffer.scatter] in *.
  - destruct bytes; [|done]. injection E as <-. by step_ret.
  - cbn in Hb, Ho, Hl. subst off' len'. cbn [ReceiveBufferHeap.iov_base ReceiveBufferHeap.iov_len ReceiveBuffer.iov_base
      ReceiveBuffer.iov_len fst snd] in *. set (piece := ztake _ bytes) in *.
    destruct (ReceiveBuffer.store_slot _ _ _) as [rb1|] eqn:Es; [|done]. cbn [mbind option_bind] in E.
    unfold ReceiveBuffer.store_slot in Es. destruct s.
    + destruct (ReceiveBuffer.update_back _ _) as [bs|] eqn:Eu; [|done]. injection Es as <-.
      destruct (points_last _ _ _ _ (deque_front _ _ _ _ _ _ Hd) Hb) as (_ & _ & b & _ & _ & _ & _ & Hlast).
      destruct (deques_update_back _ _ _ _ _ _ _ _ _ _ Hd Hb Hlast Eu) as (b' & Ef & Hp & HpO & Hd').
      apply runs_bind. eapply runs_update; [exact Hp|exact Ef|done|]. cbv beta. eapply IH; [|exact E]. by split.
    + destruct hrb as [ps es sz], rb as [bs ext sz']. cbn in *. destruct es as [|q es]; [done|]. injection Hb as ->.
      destruct ext as [|b ext]; [by apply deque_spare in Hd; inversion Hd|].
      destruct (deques_spare _ _ _ _ _ _ _ _ Hd) as [Hp HpO]. cbn [ReceiveBuffer.update_front] in Es.
      destruct (Buffer.store _ _ _) as [b'|] eqn:Ef; [|done]. injection Es as <-.
      apply runs_bind. eapply runs_update; [exact Hp|exact Ef|done|]. cbv beta. eapply IH; [|exact E].
      split; [by eapply deques_update_spare|done].
Qed.

Section Malloc.
Context (malloc : heap -> Z) (Hmalloc : forall h, h !! malloc h = None).

Lemma prepareReceive_sim O h hrb rb :
  receives O h hrb rb ->
  runs (ReceiveBufferHeap.prepareReceive malloc hrb) O h (fun r O' h' =>
    receives O' h' r.1 (ReceiveBuffer.prepareReceive rb).1 /\
    Forall2 (same_iovec r.1) r.2 (ReceiveBuffer.prepareReceive rb).2).
Proof.
  intros [Hd Hsz]. destruct hrb as [ps es sz], rb as [bs ext sz']. cbn in Hd, Hsz. subst sz'.
  unfold ReceiveBufferHeap.prepareReceive, ReceiveBuffer.prepareReceive. cbn [ReceiveBufferHeap.buffers_
    ReceiveBufferHeap.extendBuffers_ ReceiveBufferHeap.size_ ReceiveBuffer.buffers_ ReceiveBuffer.extendBuffers_ ReceiveBuffer.size_].
  apply runs_bind.
  destruct (match last bs with Some _ => _ | None => _ end) as [viov nwrote] eqn:Ev.
  apply (runs_mono _ _ _ (fun r O' h' => O' = O /\ h' = h /\ r.2 = nwrote /\
     forall es', Forall2 (same_iovec (ReceiveBufferHeap.mk ps es' sz)) r.1 viov)).
  - destruct (last ps) as [p|] eqn:Hl.
    + destruct (points_last _ _ _ _ (deque_front _ _ _ _ _ _ Hd) Hl) as (_ & _ & b & _ & _ & _ & Hp & Hb).
      rewrite Hb in Ev. step_deref Hp. cbv zeta in *.
      destruct (0 <? Buffer.writableSize b); injection Ev as <- <-; step_ret; (split; [done|]; split; [done|]; split; [done|]).
      * intros es'. constructor; [|constructor]. by split.
      * by constructor.
    + destruct (points_last_None _ _ _ (deque_front _ _ _ _ _ _ Hd) Hl) as (_ & _ & Hb). rewrite Hb in Ev.
      injection Ev as <- <-. step_ret. split; [done|]; split; [done|]; split; [done|]. by constructor.
  - intros [hiov n] O' h' (-> & -> & En & Hio). cbn in En. subst n.
    destruct (nwrote <? ReceiveBufferHeap.kReceiveSize).
    2:{ step_ret. split; [done|apply Hio]. }
    apply runs_bind.
    apply (runs_mono _ _ _ (fun es' O' h' => exists p es0 b ext0, es' = p :: es0 /\
      ReceiveBuffer.with_spare ext = b :: ext0 /\ deques O' h' ps es' bs (b :: ext0))).
    + destruct es as [|p es].
      * apply deque_spare in Hd as He. apply Forall2_nil_inv_l in He as ->.
        destruct (deques_fresh _ _ _ _ _ _ _ Hd (Hmalloc h)) as [Hf _].
        apply runs_bind, runs_new; [done|done|]. step_ret. do 4 eexists. split; [done|]. split; [done|].
        by apply deques_new_spare.
      * destruct ext as [|b ext]; [by apply deque_spare in Hd; inversion Hd|]. step_ret. by do 4 eexists.
    + intros es' O' h' (p & es0 & b & ext0 & -> & -> & Hd'). cbv beta iota.
      destruct (deques_spare _ _ _ _ _ _ _ _ Hd') as [Hp _]. step_deref Hp. step_ret.
      split; [by split|]. apply Forall2_app; [apply Hio|]. constructor; [|constructor]. by split.
Qed.

Lemma hasReceived_sim count O h hrb rb rb' :
  receives O h hrb rb -> ReceiveBuffer.hasReceived count rb = Some rb' ->
  runs (ReceiveBufferHeap.hasReceived count hrb) O h (fun hrb' O' h' => receives O' h' hrb' rb').
Proof.
  intros [Hd Hsz] E. destruct hrb as [ps es sz], rb as [bs ext sz']. cbn in Hd, Hsz. subst sz'.
  unfold ReceiveBufferHeap.hasReceived. unfold ReceiveBuffer.hasReceived in E. cbn [ReceiveBufferHeap.buffers_
    ReceiveBufferHeap.extendBuffers_ ReceiveBufferHeap.size_ ReceiveBuffer.buffers_ ReceiveBuffer.extendBuffers_ ReceiveBuffer.size_] in *.
  apply runs_bind.
  destruct (match last bs with Some _ => _ | None => _ end) as [[bs1 nwrote]|] eqn:E1; [|done].
  cbn [mbind option_bind] in E.
  apply (runs_mono _ _ _ (fun r O' h' => O' = O /\ r = nwrote /\ deques O h' ps es bs1 ext)).
  - destruct (last ps) as [p|] eqn:Hl.
    + destruct (points_last _ _ _ _ (deque_front _ _ _ _ _ _ Hd) Hl) as (_ & _ & b & _ & _ & _ & Hp & Hb).
      rewrite Hb in E1. step_deref Hp. cbv zeta in *. destruct (0 <? Z.min (Buffer.writableSize b) count).
      * destruct (ReceiveBuffer.update_back _ _) as [bs2|] eqn:Eu; [|done]. injection E1 as -> <-.
        destruct (deques_update_back _ _ _ _ _ _ _ _ _ _ Hd Hl Hb Eu) as (b' & Ef & _ & HpO & Hd').
        apply runs_bind. eapply runs_update; [exact Hp|exact Ef|done|]. by step_ret.
      * injection E1 as <- <-. by step_ret.
    + destruct (points_last_None _ _ _ (deque_front _ _ _ _ _ _ Hd) Hl) as (-> & -> & _). injection E1 as <- <-.
      by step_ret.
  - intros r O' h' (-> & -> & Hd'). destruct es as [|p es]; destruct ext as [|b ext];
      try (by apply deque_spare in Hd'; inversion Hd').
    + injection E as <-. by step_ret.
    + destruct (nwrote <? count); [|injection E as <-; by step_ret].
      destruct (deques_spare _ _ _ _ _ _ _ _ Hd') as [Hp HpO]. step_deref Hp. step_update Hp. step_ret.
      injection E as <-. split; [|done]. apply deques_take. by eapply deques_update_spare.
Qed.

Lemma receive_sim avail O h hrb rb bytes rb' :
  receives O h hrb rb -> ReceiveBuffer.receive avail rb = Some (bytes, rb') ->
  runs (ReceiveBufferHeap.receive malloc avail hrb) O h (yields bytes (fun O' h' hrb' => receives O' h' hrb' rb')).
Proof.
  intros Hr E. unfold ReceiveBuffer.receive in E. apply runs_bind.
  eapply runs_mono; [by eapply prepareReceive_sim|]. intros [hrb1 hiov] O1 h1 [Hr1 Hio].
  destruct (ReceiveBuffer.prepareReceive rb) as [rb1 iov]. cbn [fst snd] in Hr1, Hio.
  assert (foldr Z.add 0 (ReceiveBufferHeap.iov_len <$> hiov) = ReceiveBuffer.iov_total iov) as ->.
  { unfold ReceiveBuffer.iov_total. clear -Hio. induction Hio as [|hv v hiov iov (_ & _ & Hl) _ IH]; [done|].
    cbn. by rewrite Hl, IH. }
  set (taken := ztake _ avail) in *. cbv beta zeta.
  destruct (ReceiveBuffer.scatter _ _ _) as [rb2|] eqn:Es; [|done]. cbn [mbind option_bind] in E.
  destruct (ReceiveBuffer.hasReceived _ _) as [rb3|] eqn:Eh; [|done]. injection E as <- <-.
  apply runs_bind. eapply runs_mono; [by eapply scatter_sim|]. intros ? O2 h2 Hr2.
  apply runs_bind. eapply runs_mono; [eapply hasReceived_sim; [exact Hr2|exact Eh]|]. intros hrb3 O3 h3 Hr3. by step_ret.
Qed.
End Malloc.

Lemma receive_destroy_sim O h hrb rb :
  receives O h hrb rb -> runs (ReceiveBufferHeap.destroy hrb) O h (fun _ O' h' => O' = ∅).
Proof.
  intros [Hd _]. apply runs_bind. eapply runs_mono; [eapply delete_all_sim; exact Hd|].
  intros ? O1 h1 Hd1. eapply delete_spares_sim; exact Hd1.
Qed.

(** *** Sending *)

Section Append.
Context (malloc : heap -> Z) (Hmalloc : forall h, h !! malloc h = None).

(** The new object at the end, holding [b]. *)
Lemma sends_snoc O h hsb sb b n :
  sends O h hsb sb ->
  sends ({[malloc h]} ∪ O) (<[malloc h := b]> h)
    (SendBufferHeap.mk (SendBufferHeap.buffers_ hsb ++ [malloc h]) (u64 (SendBufferHeap.size_ hsb + n)))
    (SendBuffer.mk (SendBuffer.buffers_ sb ++ [b]) (u64 (SendBuffer.size_ sb + n))).
Proof. intros [Hd Hsz]. split; [by apply deques_new_back|]. cbn. by rewrite Hsz. Qed.

Lemma sends_fresh O h hsb sb : sends O h hsb sb -> malloc h ∉ O.
Proof. intros [Hd _]. by destruct (deques_fresh _ _ _ _ _ _ (malloc h) Hd) as [? _]. Qed.

Lemma append_sim buf count O h hsb sb sb' :
  sends O h hsb sb -> SendBuffer.append buf count sb = Some sb' ->
  runs (SendBufferHeap.append malloc buf count hsb) O h (fun hsb' O' h' => sends O' h' hsb' sb').
Proof.
  intros Hr E. unfold SendBuffer.append in E. unfold SendBufferHeap.append.
  destruct (Buffer.make_from buf count) as [b|] eqn:Eb; [|done]. injection E as <-. step_lift Eb.
  apply runs_bind, runs_new; [done|by eapply sends_fresh|]. step_ret. by apply sends_snoc.
Qed.

Lemma append_buffer_sim buf O h hsb sb :
  sends O h hsb sb ->
  runs (SendBufferHeap.append_buffer malloc buf hsb) O h (fun r O' h' =>
    sends O' h' r.1 (SendBuffer.append_buffer buf sb).1 /\ r.2 = (SendBuffer.append_buffer buf sb).2).
Proof.
  intros Hr. unfold SendBuffer.append_buffer, SendBufferHeap.append_buffer. cbn [Buffer.make_move].
  apply runs_bind, runs_new; [done|by eapply sends_fresh|].
  apply runs_bind. eapply runs_deref; [apply lookup_insert_eq|]. step_ret. split; [|done]. by apply sends_snoc.
Qed.

(** Another object's storage is unaffected by a new one. *)
Lemma receives_new O h hrb rb b : receives O h hrb rb ->
  points (<[malloc h := b]> h) (ReceiveBufferHeap.buffers_ hrb) (ReceiveBuffer.buffers_ rb).
Proof.
  intros [Hd _]. destruct (deques_fresh _ _ _ _ _ _ (malloc h) Hd) as [_ [Hn _]%not_elem_of_app]; [done|].
  apply points_insert; [done|apply Hd].
Qed.

(** The common part of the two [append]s of a receive buffer: a new object of
    [n] bytes, into whose storage something is peeked. *)
Lemma store_data_sim O h hsb sb n storage :
  sends O h hsb sb ->
  runs (_ ← SendBufferHeap.store_data (malloc h) storage;
        b ← deref (malloc h);
        mret (SendBufferHeap.mk (SendBufferHeap.buffers_ hsb ++ [malloc h])
                (u64 (SendBufferHeap.size_ hsb + Buffer.capacity b))))
    ({[malloc h]} ∪ O) (<[malloc h := Buffer.make n]> h)
    (fun hsb' O' h' =>
       let buffer := Buffer.mk storage (Buffer.rpos_ (Buffer.make n)) (Buffer.wpos_ (Buffer.make n)) in
       sends O' h' hsb' (SendBuffer.mk (SendBuffer.buffers_ sb ++ [buffer])
         (u64 (SendBuffer.size_ sb + Buffer.capacity buffer)))).
Proof.
  intros Hr. apply runs_bind. eapply runs_update; [apply lookup_insert_eq|reflexivity|set_solver|].
  apply runs_bind. eapply runs_deref; [apply lookup_insert_eq|]. rewrite insert_insert_eq. step_ret. by apply sends_snoc.
Qed.

Lemma append_receive_sim Or hrb rb O h hsb sb sb' :
  receives Or h hrb rb -> sends O h hsb sb -> SendBuffer.append_receive rb sb = Some sb' ->
  runs (SendBufferHeap.append_receive malloc hrb hsb) O h (fun hsb' O' h' => sends O' h' hsb' sb').
Proof.
  intros Hrb Hr E. unfold SendBuffer.append_receive, ReceiveBuffer.size in E. unfold SendBufferHeap.append_receive.
  rewrite (proj2 Hrb). set (n := ReceiveBuffer.size_ rb) in *.
  apply runs_bind, runs_new; [done|by eapply sends_fresh|].
  apply runs_bind. eapply runs_deref; [apply lookup_insert_eq|]. cbv beta.
  destruct (ReceiveBuffer.peek _ _ _) as [storage|] eqn:Ep; [|done]. injection E as <-.
  apply runs_bind. eapply runs_mono; [eapply peek_loop_sim; [exact Ep|by eapply receives_new]|].
  intros r O' h' (-> & -> & ->). by apply store_data_sim.
Qed.

Lemma append_receive_at_sim Or hrb rb offset O h hsb sb sb' :
  receives Or h hrb rb -> sends O h hsb sb -> SendBuffer.append_receive_at rb offset sb = Some sb' ->
  runs (SendBufferHeap.append_receive_at malloc hrb offset hsb) O h (fun hsb' O' h' => sends O' h' hsb' sb').
Proof.
  intros Hrb Hr E. unfold SendBuffer.append_receive_at, ReceiveBuffer.size in E. unfold SendBufferHeap.append_receive_at.
  rewrite (proj2 Hrb). set (n := u64 (ReceiveBuffer.size_ rb - offset)) in *.
  apply runs_bind, runs_new; [done|by eapply sends_fresh|].
  apply runs_bind. eapply runs_deref; [apply lookup_insert_eq|]. cbv beta.
  destruct (ReceiveBuffer.peek_at _ _ _ _) as [storage|] eqn:Ep; [|done]. injection E as <-.
  apply runs_bind. eapply runs_mono; [eapply peek_at_loop_sim; [exact Ep|by eapply receives_new]|].
  intros r O' h' (-> & -> & ->). by apply store_data_sim.
Qed.
End Append.

(** An [iovec] designates the bytes at a pointer of the value model. *)
Definition same_range (h : heap) (hv : Z * Z * Z) (v : ptr * Z) : Prop :=
  exists b, h !! hv.1.1 = Some b /\ v = ((Buffer.buffer_ b, hv.1.2), hv.2).

Lemma prepareSend_loop_sim nread O h ps bs :
  points h ps bs ->
  runs (SendBufferHeap.prepareSend_loop nread ps) O h (fun r O' h' =>
    O' = O /\ h' = h /\ Forall2 (same_range h) r (SendBuffer.prepareSend_loop nread bs)).
Proof.
  intros Hps. revert nread. induction Hps as [|p b ps bs Hp _ IH]; intros nread;
    cbn [SendBufferHeap.prepareSend_loop SendBuffer.prepareSend_loop]; [by step_ret|].
  destruct (SendBuffer.kSendSize <=? nread); [by step_ret|]. step_deref Hp.
  apply runs_bind. eapply runs_mono; [apply IH|]. intros r O' h' (-> & -> & Hr). step_ret.
  split; [done|]. split; [done|]. constructor; [by exists b|done].
Qed.

Lemma prepareSend_receive_sim O h ps bs :
  points h ps bs ->
  runs (SendBufferHeap.prepareSend_receive ps) O h (fun r O' h' =>
    O' = O /\ h' = h /\ Forall2 (same_range h) r ((fun b => (Buffer.dataRead b, Buffer.readableSize b)) <$> bs)).
Proof.
  intros Hps. induction Hps as [|p b ps bs Hp _ IH]; cbn [SendBufferHeap.prepareSend_receive fmap list_fmap]; [by step_ret|].
  step_deref Hp. apply runs_bind. eapply runs_mono; [apply IH|]. intros r O' h' (-> & -> & Hr). step_ret.
  split; [done|]. split; [done|]. constructor; [by exists b|done].
Qed.

Lemma gather_sim O h hiov iov bytes :
  Forall2 (same_range h) hiov iov -> SendBuffer.gather iov = Some bytes ->
  runs (SendBufferHeap.gather hiov) O h (fun r O' h' => r = bytes /\ O' = O /\ h' = h).
Proof.
  intros Hio. revert bytes. induction Hio as [|[[p off] n] v hiov iov (b & Hp & ->) _ IH]; intros bytes E;
    cbn [SendBufferHeap.gather SendBuffer.gather] in *; [injection E as <-; by step_ret|].
  cbn [fst snd] in *. step_deref Hp. destruct (load _ _) as [part|] eqn:El; [|done]. cbn [mbind option_bind] in E.
  destruct (SendBuffer.gather iov) as [more|]; [|done]. injection E as <-. step_lift El.
  apply runs_bind. eapply runs_mono; [by apply IH|]. intros r O' h' (-> & -> & ->). by step_ret.
Qed.

Lemma hasSent_loop_sim fuel count nread O h ps bs n bs' :
  SendBuffer.hasSent_loop fuel count nread bs = Some (n, bs') -> deques O h ps [] bs [] ->
  runs (SendBufferHeap.hasSent_loop fuel count nread ps) O h
    (fun r O' h' => exists ps', r = (n, ps') /\ deques O' h' ps' [] bs' []).
Proof.
  revert nread O h ps bs. induction fuel as [|fuel IH]; intros nread O h ps bs E Hd;
    destruct ps as [|p ps]; destruct bs as [|b bs]; try (by apply deque_front in Hd; inversion Hd);
    cbn [SendBufferHeap.hasSent_loop SendBuffer.hasSent_loop] in *.
  1,3: injection E as <- <-; step_ret; eauto.
  - destruct (nread <? count); [done|]. injection E as <- <-. step_ret; eauto.
  - destruct (nread <? count); [|injection E as <- <-; step_ret; eauto].
    destruct (deques_cons _ _ _ _ _ _ _ _ Hd) as (Hp & HpO & _).
    step_deref Hp. set (b1 := Buffer.hasRead _ b) in *. step_update Hp.
    apply (deques_update _ _ _ _ _ _ b1) in Hd.
    assert ((<[p := b1]> h : heap) !! p = Some b1) as Hp1 by apply lookup_insert_eq.
    step_deref Hp1. destruct (Buffer.empty b1); [|by eapply IH].
    apply runs_bind. eapply runs_delete; [exact Hp1|done|]. cbv beta. eapply IH; [exact E|].
    destruct (deques_cons _ _ _ _ _ _ _ _ Hd) as (_ & _ & Hn & Hps & Hes & Hnd).
    constructor; [|constructor|done|].
    + apply points_delete; [|done]. by rewrite app_nil_r in Hn.
    + rewrite <- (deque_owned _ _ _ _ _ _ Hd), <- app_comm_cons, list_to_set_cons.
      apply (not_elem_of_list_to_set (C := gset Z)) in Hn. set_solver.
Qed.

Lemma hasSent_sim count O h hsb sb sb' :
  sends O h hsb sb -> SendBuffer.hasSent count sb = Some sb' ->
  runs (SendBufferHeap.hasSent count hsb) O h (fun hsb' O' h' => sends O' h' hsb' sb').
Proof.
  intros [Hd Hsz] E. unfold SendBuffer.hasSent in E. unfold SendBufferHeap.hasSent.
  rewrite (Forall2_length (deque_front _ _ _ _ _ _ Hd)).
  destruct (SendBuffer.hasSent_loop _ _ _ _) as [[n bs]|] eqn:El; [|done]. injection E as <-.
  apply runs_bind. eapply runs_mono; [by eapply hasSent_loop_sim|].
  intros r O' h' (ps' & -> & Hd'). step_ret. split; [done|]. cbn. by rewrite Hsz.
Qed.

Lemma send_destroy_sim O h hsb sb :
  sends O h hsb sb -> runs (SendBufferHeap.destroy hsb) O h (fun _ O' h' => O' = ∅).
Proof.
  intros [Hd _]. eapply runs_mono; [eapply delete_all_sim; exact Hd|]. intros ? O' h' [_ _ _ <-]. done.
Qed.
End HeapSim.
