(* ===== verification/NetBufferOwners.v ===== *)
(** Any number of receive and send buffers on one heap: who owns which [Buffer]
    object, and that none is lost, shared or released twice. *)

From stdpp Require Import fin_sets infinite.
From S2P Require Import Prelude NetBuffer NetByteStream NetReceiveBuffer NetSendBuffer NetBufferHeap.
Import Heap.

Module BufferOwners.

(** A [ReceiveBuffer] or [SendBuffer] object, or the place of a destroyed one. *)
Inductive object (R S : Type) := Receives (rb : R) | Sends (sb : S) | Gone.
Arguments Receives {R S} rb.
Arguments Sends {R S} sb.
Arguments Gone {R S}.

(** A call on an object. A send buffer may copy from another object [from]. *)
Inductive op :=
  | OnReceive (o : ReceiveBuffer.op)
  | WriteReceived                                  (* [prepareSend] and [writev] *)
  | Append (data : list byte) (off count : Z)
  | AppendBuffer (buf : Buffer.t)
  | AppendReceive (from : nat)
  | AppendReceiveAt (from : nat) (offset : Z)
  | WriteSend                                      (* [prepareSend] and [writev] *)
  | HasSent (count : Z)
  | Destroy.

Inductive action := NewReceive | NewSend | Call (i : nat) (o : op).

(** ** On values *)

Abbreviation value := (object ReceiveBuffer.t SendBuffer.t).

Definition vop_receive (o : op) (rb : ReceiveBuffer.t) : option (list byte * value) :=
  match o with
  | OnReceive o => '(out, rb') ← ReceiveBuffer.exec o rb; Some (out, Receives rb')
  | WriteReceived => out ← SendBuffer.gather (ReceiveBuffer.prepareSend rb); Some (out, Receives rb)
  | Destroy => Some ([], Gone)
  | _ => None
  end.

Definition vop_send (o : op) (vs : list value) (sb : SendBuffer.t) : option (list byte * value) :=
  match o with
  | Append data off count => sb' ← SendBuffer.append (data, off) count sb; Some ([], Sends sb')
  | AppendBuffer buf => Some ([], Sends (SendBuffer.append_buffer buf sb).1)
  | AppendReceive from =>
      match vs !! from with
      | Some (Receives rb) => sb' ← SendBuffer.append_receive rb sb; Some ([], Sends sb')
      | _ => None
      end
  | AppendReceiveAt from offset =>
      match vs !! from with
      | Some (Receives rb) => sb' ← SendBuffer.append_receive_at rb offset sb; Some ([], Sends sb')
      | _ => None
      end
  | WriteSend => out ← SendBuffer.gather (SendBuffer.prepareSend sb); Some (out, Sends sb)
  | HasSent count => sb' ← SendBuffer.hasSent count sb; Some ([], Sends sb')
  | Destroy => Some ([], Gone)
  | _ => None
  end.

Definition vop (o : op) (vs : list value) (v : value) : option (list byte * value) :=
  match v with
  | Receives rb => vop_receive o rb
  | Sends sb => vop_send o vs sb
  | Gone => None
  end.

Definition vstep (a : action) (vs : list value) : option (list byte * list value) :=
  match a with
  | NewReceive => Some ([], vs ++ [Receives ReceiveBuffer.make])
  | NewSend => Some ([], vs ++ [Sends SendBuffer.make])
  | Call i o =>
      v ← vs !! i;
      '(out, v') ← vop o vs v;
      Some (out, <[i := v']> vs)
  end.

Fixpoint vrun (acts : list action) (vs : list value) : option (list (list byte) * list value) :=
  match acts with
  | [] => Some ([], vs)
  | a :: rest =>
      '(out, vs1) ← vstep a vs;
      '(outs, vs2) ← vrun rest vs1;
      Some (out :: outs, vs2)
  end.

(** ** On the heap *)

Abbreviation hobject := (object ReceiveBufferHeap.t SendBufferHeap.t).

Section Heap.
Context (malloc : heap -> Z).

Definition hexec (o : ReceiveBuffer.op) (rb : ReceiveBufferHeap.t) : M (list byte * ReceiveBufferHeap.t) :=
  match o with
  | ReceiveBuffer.ORead n => ReceiveBufferHeap.read_string [] n rb
  | ReceiveBuffer.OReadInto buf n => ReceiveBufferHeap.read buf n rb
  | ReceiveBuffer.OPeek n => out ← ReceiveBufferHeap.peek_string [] n rb; mret (out, rb)
  | ReceiveBuffer.OPeekInto buf n => out ← ReceiveBufferHeap.peek buf n rb; mret (out, rb)
  | ReceiveBuffer.OPeekAt offset n => out ← ReceiveBufferHeap.peek_at_string [] offset n rb; mret (out, rb)
  | ReceiveBuffer.OPeekAtInto buf offset n => out ← ReceiveBufferHeap.peek_at buf offset n rb; mret (out, rb)
  | ReceiveBuffer.ORetrieve n => rb' ← ReceiveBufferHeap.retrieve n rb; mret ([], rb')
  | ReceiveBuffer.ORetrieveAll => rb' ← ReceiveBufferHeap.retrieveAll rb; mret ([], rb')
  | ReceiveBuffer.OReceive avail => ReceiveBufferHeap.receive malloc avail rb
  end.

Definition hop_receive (o : op) (rb : ReceiveBufferHeap.t) : M (list byte * hobject) :=
  match o with
  | OnReceive o => '(out, rb') ← hexec o rb; mret (out, Receives rb')
  | WriteReceived =>
      iov ← SendBufferHeap.prepareSend_receive (ReceiveBufferHeap.buffers_ rb);
      out ← SendBufferHeap.gather iov;
      mret (out, Receives rb)
  | Destroy => _ ← ReceiveBufferHeap.destroy rb; mret ([], Gone)
  | _ => lift None
  end.

Definition hop_send (o : op) (hs : list hobject) (sb : SendBufferHeap.t) : M (list byte * hobject) :=
  match o with
  | Append data off count => sb' ← SendBufferHeap.append malloc (data, off) count sb; mret ([], Sends sb')
  | AppendBuffer buf => '(sb', _) ← SendBufferHeap.append_buffer malloc buf sb; mret ([], Sends sb')
  | AppendReceive from =>
      match hs !! from with
      | Some (Receives rb) => sb' ← SendBufferHeap.append_receive malloc rb sb; mret ([], Sends sb')
      | _ => lift None
      end
  | AppendReceiveAt from offset =>
      match hs !! from with
      | Some (Receives rb) => sb' ← SendBufferHeap.append_receive_at malloc rb offset sb; mret ([], Sends sb')
      | _ => lift None
      end
  | WriteSend =>
      iov ← SendBufferHeap.prepareSend sb;
      out ← SendBufferHeap.gather iov;
      mret (out, Sends sb)
  | HasSent count => sb' ← SendBufferHeap.hasSent count sb; mret ([], Sends sb')
  | Destroy => _ ← SendBufferHeap.destroy sb; mret ([], Gone)
  | _ => lift None
  end.

Definition hop (o : op) (hs : list hobject) (x : hobject) : M (list byte * hobject) :=
  match x with
  | Receives rb => hop_receive o rb
  | Sends sb => hop_send o hs sb
  | Gone => lift None
  end.

Definition hstep (a : action) (hs : list hobject) : M (list byte * list hobject) :=
  match a with
  | NewReceive => mret ([], hs ++ [Receives ReceiveBufferHeap.make])
  | NewSend => mret ([], hs ++ [Sends SendBufferHeap.make])
  | Call i o =>
      x ← lift (hs !! i);
      '(out, x') ← hop o hs x;
      mret (out, <[i := x']> hs)
  end.

Fixpoint hrun (acts : list action) (hs : list hobject) : M (list (list byte) * list hobject) :=
  match acts with
  | [] => mret ([], hs)
  | a :: rest =>
      '(out, hs1) ← hstep a hs;
      '(outs, hs2) ← hrun rest hs1;
      mret (out :: outs, hs2)
  end.
End Heap.

(** ** Ownership *)

(** The object [x], which owns [O], stands for the value [v]. *)
Definition stands (O : gset Z) (h : heap) (x : hobject) (v : value) : Prop :=
  match x, v with
  | Receives hrb, Receives rb => HeapSim.receives O h hrb rb
  | Sends hsb, Sends sb => HeapSim.sends O h hsb sb
  | Gone, Gone => O = ∅
  | _, _ => False
  end.

(** Every object stands for its value, no two own a [Buffer] in common, and
    every live [Buffer] has an owner. *)
Record owned (h : heap) (os : list (gset Z)) (hs : list hobject) (vs : list value) : Prop := {
  owned_stands : Forall3 (fun O x v => stands O h x v) os hs vs;
  owned_apart i j Oi Oj : os !! i = Some Oi -> os !! j = Some Oj -> i <> j -> Oi ## Oj;
  owned_live p : is_Some (h !! p) <-> exists O, O ∈ os /\ p ∈ O
}.

Lemma deques_live O h ps es bs ext p : HeapSim.deques O h ps es bs ext -> p ∈ O -> is_Some (h !! p).
Proof.
  intros [Hps Hes _ HO] Hp. subst O. apply elem_of_list_to_set, elem_of_app in Hp as [Hp|Hp];
    [by apply (points_Some _ _ _ _ Hps)|by apply (points_Some _ _ _ _ Hes)].
Qed.

Lemma points_frame h h' ps bs : points h ps bs -> (forall p, p ∈ ps -> h' !! p = h !! p) -> points h' ps bs.
Proof.
  intros Hps. induction Hps as [|p b ps bs Hp _ IH]; intros Hf; [constructor|]. constructor.
  - rewrite Hf; [done|by left].
  - apply IH. intros q Hq. apply Hf. by right.
Qed.

Lemma deques_frame O h h' ps es bs ext :
  HeapSim.deques O h ps es bs ext -> (forall p, p ∈ O -> h' !! p = h !! p) -> HeapSim.deques O h' ps es bs ext.
Proof.
  intros [Hps Hes Hnd HO] Hf. subst O. setoid_rewrite elem_of_list_to_set in Hf. setoid_rewrite elem_of_app in Hf.
  constructor; [eapply points_frame..|done|done]; eauto.
Qed.

Lemma stands_live O h x v p : stands O h x v -> p ∈ O -> is_Some (h !! p).
Proof.
  destruct x, v; cbn; try done; [intros [Hd _]|intros [Hd _]|intros ->; by intros ?%elem_of_empty];
    by eapply deques_live.
Qed.

Lemma stands_frame O h h' x v : stands O h x v -> (forall p, p ∈ O -> h' !! p = h !! p) -> stands O h' x v.
Proof.
  destruct x, v; cbn; try done; (intros [Hd Hs] Hf; split; [by eapply deques_frame|done]).
Qed.

Lemma Forall3_insert {A B C} (P Q : A -> B -> C -> Prop) l k m i x y z :
  Forall3 P l k m -> (forall j a b c, j <> i -> l !! j = Some a -> P a b c -> Q a b c) -> Q x y z ->
  Forall3 Q (<[i := x]> l) (<[i := y]> k) (<[i := z]> m).
Proof.
  intros H. revert i. induction H as [|a b c l k m Habc H IH]; intros i Hne Hxyz; [constructor|].
  destruct i as [|i].
  - constructor; [done|]. clear IH. assert (forall j a, l !! j = Some a -> forall b c, P a b c -> Q a b c) as Hall
      by (intros j a' Hj b' c'; by apply (Hne (S j))).
    clear -H Hall. induction H as [|a b c l k m Habc H IH]; constructor; [by apply (Hall 0%nat)|].
    apply IH. intros j. apply (Hall (S j)).
  - constructor; [by apply (Hne 0%nat)|]. apply IH; [|done]. intros j a' b' c' Hj. apply (Hne (S j)). lia.
Qed.

(** One object changes from owning [O] to owning [O']. *)
Lemma owned_insert h os hs vs i O O' h' x' v' :
  owned h os hs vs -> os !! i = Some O -> evolves O h O' h' -> stands O' h' x' v' ->
  owned h' (<[i := O']> os) (<[i := x']> hs) (<[i := v']> vs).
Proof.
  intros [Hst Hap Hl] Hi Hev Hst'. pose proof (lookup_lt_Some _ _ _ Hi) as Hlt.
  assert (forall j Oj, os !! j = Some Oj -> i <> j -> Oj ## O /\ Oj ## O' /\ forall p, p ∈ Oj -> h' !! p = h !! p) as Hother.
  { intros j Oj Hj Hne. assert (Oj ## O) as Hd by (eapply Hap; eauto). split; [done|].
    assert (Oj ## O') as Hd'.
    { intros p Hp Hp'. destruct (proj2 (Hl p)) as [b Hb]; [exists Oj; split; [by eapply list_elem_of_lookup_2|done]|].
      destruct (Hev p) as (_ & Hnew & _). rewrite Hnew in Hb; [done|set_solver|done]. }
    split; [done|]. intros p Hp. apply (Hev p); set_solver. }
  constructor.
  - eapply Forall3_insert; [exact Hst| |done]. intros j Oj xj vj Hne Hj Hs.
    eapply stands_frame; [exact Hs|]. apply (Hother j); [done|by apply not_eq_sym].
  - intros j k Oj Ok Hj Hk Hne. rewrite list_lookup_insert in Hj, Hk by done.
    repeat case_decide; destruct_and?; simplify_eq; try done.
    + by destruct (Hother _ _ Hj (not_eq_sym Hne)) as (_ & ? & _).
    + by destruct (Hother _ _ Hk Hne) as (_ & ? & _).
    + by eapply Hap.
  - intros p. split.
    + intros Hp. destruct (decide (p ∈ O')) as [HO'|HO'].
      { exists O'. split; [|done]. apply list_elem_of_lookup. exists i. by apply list_lookup_insert_eq. }
      assert (p ∉ O) as HO by (intros HO; destruct (Hev p) as (_ & _ & Hr); rewrite Hr in Hp by done; by destruct Hp).
      destruct (Hev p) as (Hf & _ & _). rewrite Hf in Hp by done. apply Hl in Hp as (Oj & Hin & Hp).
      apply list_elem_of_lookup in Hin as [j Hj]. exists Oj. split; [|done]. apply list_elem_of_lookup. exists j.
      rewrite list_lookup_insert_ne; [done|]. intros <-. by simplify_eq.
    + intros (Oj & Hin & Hp). apply list_elem_of_lookup in Hin as [j Hj]. destruct (decide (i = j)) as [<-|Hne].
      * rewrite list_lookup_insert_eq in Hj by done. injection Hj as <-. by eapply stands_live.
      * rewrite list_lookup_insert_ne in Hj by done. destruct (Hother j Oj Hj Hne) as (_ & _ & Hf).
        rewrite Hf by done. apply Hl. exists Oj. split; [by eapply list_elem_of_lookup_2|done].
Qed.

(** A new object owns nothing. *)
Lemma owned_snoc h os hs vs x v :
  owned h os hs vs -> stands ∅ h x v -> owned h (os ++ [∅]) (hs ++ [x]) (vs ++ [v]).
Proof.
  intros [Hst Hap Hl] Hx. constructor.
  - apply Forall3_app; [done|]. by constructor; [|constructor].
  - intros j k Oj Ok Hj Hk Hne. apply lookup_app_Some in Hj as [Hj|[_ Hj]]; apply lookup_app_Some in Hk as [Hk|[_ Hk]];
      rewrite ?list_lookup_singleton_Some in *; destruct_and?; subst; try set_solver.
  - intros p. rewrite Hl. setoid_rewrite elem_of_app. setoid_rewrite list_elem_of_singleton. set_solver.
Qed.

(** ** Each call on the heap does what it does on values *)

Section Sim.
Context (malloc : heap -> Z) (Hmalloc : forall h, h !! malloc h = None).
Import HeapSim.

(** Takes the option apart that the value model's call returned. *)
Ltac value_of E x Ex := match type of E with context [mbind _ ?v] => destruct v as [x|] eqn:Ex; [|done] end;
  cbn [mbind option_bind] in E.

Lemma peek_sim O h hrb rb {D} (copy : D -> Z -> ptr -> Z -> option D) dst count out :
  receives O h hrb rb -> ReceiveBuffer.peek_loop copy dst count 0 (ReceiveBuffer.buffers_ rb) = Some out ->
  runs (ReceiveBufferHeap.peek_loop copy dst count 0 (ReceiveBufferHeap.buffers_ hrb)) O h
    (fun r O' h' => r = out /\ receives O' h' hrb rb).
Proof.
  intros Hr E. eapply runs_mono; [eapply peek_loop_sim; [exact E|apply Hr]|]. by intros r O' h' (-> & -> & ->).
Qed.

Lemma hexec_sim o O h hrb rb out rb' :
  receives O h hrb rb -> ReceiveBuffer.exec o rb = Some (out, rb') ->
  runs (hexec malloc o hrb) O h (yields out (fun O' h' r => receives O' h' r rb')).
Proof.
  intros Hr E. destruct o as [n|buf n|n|buf n|off n|buf off n|n| |avail]; cbn [ReceiveBuffer.exec hexec] in *.
  1, 2: by eapply drain_sim.
  1, 2: value_of E out1 Ep; injection E as <- <-; apply runs_bind; eapply runs_mono; [by eapply peek_sim|];
    intros r O' h' [-> Hr']; by step_ret.
  1, 2: value_of E out1 Ep; injection E as <- <-; apply runs_bind;
    (eapply runs_mono; [eapply peek_at_loop_sim; [exact Ep|apply Hr]|]); intros r O' h' (-> & -> & ->); by step_ret.
  - value_of E rb1 Ep. injection E as <- <-. apply runs_bind. eapply runs_mono; [by eapply retrieve_sim|].
    intros r O' h' Hr'. by step_ret.
  - injection E as <- <-. apply runs_bind. eapply runs_mono; [by eapply retrieveAll_sim|].
    intros r O' h' Hr'. by step_ret.
  - by eapply receive_sim.
Qed.

Lemma hop_receive_sim o O h hrb rb out v' :
  receives O h hrb rb -> vop_receive o rb = Some (out, v') ->
  runs (hop_receive malloc o hrb) O h (yields out (fun O' h' r => stands O' h' r v')).
Proof.
  intros Hr E. destruct o; cbn [vop_receive hop_receive] in *; try done.
  - destruct (ReceiveBuffer.exec _ _) as [[out1 rb1]|] eqn:Ex; [|done]. injection E as <- <-.
    apply runs_bind. eapply runs_mono; [by eapply hexec_sim|]. intros [? hrb1] O' h' [<- Hr']. by step_ret.
  - value_of E out1 Ep. injection E as <- <-. apply runs_bind.
    eapply runs_mono; [eapply prepareSend_receive_sim, Hr|]. intros iov O' h' (-> & -> & Hio).
    apply runs_bind. eapply runs_mono; [by eapply gather_sim|]. intros r O' h' (-> & -> & ->). by step_ret.
  - injection E as <- <-. apply runs_bind. eapply runs_mono; [by eapply receive_destroy_sim|].
    intros ? O' h' ->. by step_ret.
Qed.

Lemma hop_send_sim o O h os hs vs hsb sb out v' :
  owned h os hs vs -> sends O h hsb sb -> vop_send o vs sb = Some (out, v') ->
  runs (hop_send malloc o hs hsb) O h (yields out (fun O' h' r => stands O' h' r v')).
Proof.
  intros Ho Hs E.
  assert (forall from rb, vs !! from = Some (Receives rb) ->
    exists Or hrb, hs !! from = Some (Receives hrb) /\ receives Or h hrb rb) as Hfrom.
  { intros from rb Hv. destruct (Forall3_lookup_r _ _ _ _ _ _ (owned_stands _ _ _ _ Ho) Hv) as (Or & x & _ & Hx & Hst).
    destruct x as [hrb| |]; try done. by exists Or, hrb. }
  destruct o; cbn [vop_send hop_send] in *; try done.
  - value_of E sb1 Ep. injection E as <- <-. apply runs_bind. eapply runs_mono; [by eapply append_sim|].
    intros r O' h' Hr'. by step_ret.
  - injection E as <- <-. apply runs_bind. eapply runs_mono; [by eapply append_buffer_sim|].
    intros [hsb1 ?] O' h' [Hr' _]. by step_ret.
  - destruct (vs !! from) as [[rb| |]|] eqn:Ev; try done. destruct (Hfrom _ _ Ev) as (Or & hrb & -> & Hrb).
    value_of E sb1 Ep. injection E as <- <-. apply runs_bind. eapply runs_mono; [by eapply append_receive_sim|].
    intros r O' h' Hr'. by step_ret.
  - destruct (vs !! from) as [[rb| |]|] eqn:Ev; try done. destruct (Hfrom _ _ Ev) as (Or & hrb & -> & Hrb).
    value_of E sb1 Ep. injection E as <- <-. apply runs_bind. eapply runs_mono; [by eapply append_receive_at_sim|].
    intros r O' h' Hr'. by step_ret.
  - value_of E out1 Ep. injection E as <- <-. apply runs_bind.
    eapply runs_mono; [eapply prepareSend_loop_sim, Hs|]. intros iov O' h' (-> & -> & Hio).
    apply runs_bind. eapply runs_mono; [by eapply gather_sim|]. intros r O' h' (-> & -> & ->). by step_ret.
  - value_of E sb1 Ep. injection E as <- <-. apply runs_bind. eapply runs_mono; [by eapply hasSent_sim|].
    intros r O' h' Hr'. by step_ret.
  - injection E as <- <-. apply runs_bind. eapply runs_mono; [by eapply send_destroy_sim|].
    intros ? O' h' ->. by step_ret.
Qed.

Lemma hstep_sim a h os hs vs out vs' :
  owned h os hs vs -> vstep a vs = Some (out, vs') ->
  exists os' hs' h', hstep malloc a hs h = Some (out, hs', h') /\ owned h' os' hs' vs'.
Proof.
  intros Ho E. destruct a as [| |i o]; cbn [vstep hstep] in *.
  1,2: injection E as <- <-; do 3 eexists; (split; [reflexivity|]); apply owned_snoc; [done|].
  - split; [|done]. constructor; cbn; try constructor; done.
  - split; [|done]. constructor; cbn; try constructor; done.
  - destruct (vs !! i) as [v|] eqn:Ev; [|done]. cbn [mbind option_bind] in E.
    destruct (vop o vs v) as [[out1 v']|] eqn:Eo; [|done]. injection E as <- <-.
    destruct (Forall3_lookup_r _ _ _ _ _ _ (owned_stands _ _ _ _ Ho) Ev) as (O & x & HO & Hx & Hst).
    assert (runs (hop malloc o hs x) O h (yields out1 (fun O' h' r => stands O' h' r v')))
      as ([out2 x'] & O' & h' & Er & Hev & Hout & Hst').
    { destruct x as [hrb|hsb|], v as [rb|sb|]; try done;
        [by eapply hop_receive_sim|by eapply hop_send_sim]. }
    cbn in Hout. subst out2. exists (<[i := O']> os), (<[i := x']> hs), h'. split; [|by eapply owned_insert].
    rewrite Hx. unfold mbind, heap_bind, lift. cbn. by rewrite Er.
Qed.

Lemma hrun_sim acts h os hs vs outs vs' :
  owned h os hs vs -> vrun acts vs = Some (outs, vs') ->
  exists os' hs' h', hrun malloc acts hs h = Some (outs, hs', h') /\ owned h' os' hs' vs'.
Proof.
  revert h os hs vs outs. induction acts as [|a acts IH]; intros h os hs vs outs Ho E; cbn [vrun hrun] in *.
  { injection E as <- <-. by exists os, hs, h. }
  destruct (vstep a vs) as [[out vs1]|] eqn:Es; [|done]. cbn [mbind option_bind] in E.
  destruct (vrun acts vs1) as [[outs1 vs2]|] eqn:Er; [|done]. injection E as <- <-.
  destruct (hstep_sim _ _ _ _ _ _ _ Ho Es) as (os1 & hs1 & h1 & E1 & Ho1).
  destruct (IH _ _ _ _ _ Ho1 Er) as (os2 & hs2 & h2 & E2 & Ho2).
  exists os2, hs2, h2. split; [|done]. unfold mbind, heap_bind. rewrite E1. cbn. by rewrite E2.
Qed.
End Sim.

(** ** No call is undefined *)

Section Total.

(** [hasSent] returns whatever the buffers hold, also what an [append] of a
    receive buffer left. *)
Lemma hasSent_loop_total fuel count nread bs :
  in_u64 count -> 0 <= nread <= count -> (length bs <= fuel)%nat -> Forall Buffer.wf bs ->
  exists n bs', SendBuffer.hasSent_loop fuel count nread bs = Some (n, bs') /\ Forall Buffer.wf bs'.
Proof.
  intros Hc. revert nread bs. induction fuel as [|fuel IH]; intros nread bs Hn Hl Hbs; destruct bs as [|b bs];
    cbn [SendBuffer.hasSent_loop length] in *; try lia; [by exists nread, []..|].
  apply Forall_cons_1 in Hbs as [Hb Hbs]. case_if; [|exists nread, (b :: bs); split; [done|by constructor]].
  u64_simpl. set (n := Z.min (Buffer.readableSize b) (count - nread)).
  pose proof (Buffer.readableSize_range b Hb). unfold in_u64 in Hc.
  destruct (Buffer.hasRead_spec n b Hb) as [Hwf Hr]; [lia|]. rewrite u64_small by (unfold in_u64; lia).
  destruct (Buffer.empty (Buffer.hasRead n b)) eqn:Ee; [apply IH; [lia|lia|done]|].
  apply Buffer.empty_false_readable in Ee; [|done]. rewrite Hr in Ee.
  assert (n = count - nread) as En.
  { destruct (decide (n = Buffer.readableSize b)) as [E|]; [|lia]. exfalso. apply Ee. apply zdrop_all.
    rewrite <- Buffer.readableSize_zlen by done. lia. }
  exists (nread + n), (Buffer.hasRead n b :: bs). split; [|by constructor].
  replace (nread + n) with count by lia. destruct fuel; cbn [SendBuffer.hasSent_loop]; by rewrite Z.ltb_irrefl.
Qed.

Lemma gather_total nread bs : Forall Buffer.wf bs -> exists out, SendBuffer.gather (SendBuffer.prepareSend_loop nread bs) = Some out.
Proof.
  intros Hbs. revert nread. induction Hbs as [|b bs Hb _ IH]; intros nread; cbn [SendBuffer.prepareSend_loop]; [by exists []|].
  case_match; [by exists []|]. pose proof (Buffer.readableSize_range b Hb). cbn [SendBuffer.gather].
  rewrite Buffer.load_dataRead by (done || lia). destruct (IH (u64 (nread + Buffer.readableSize b))) as [out E].
  cbn. rewrite E. by eexists.
Qed.

(** The arguments are in the range of their types, and the caller's memory is as
    long as it says. *)
Definition op_ok (o : op) : Prop :=
  match o with
  | OnReceive o => ReceiveBuffer.valid_op o
  | Append data off n => in_u64 n /\ 0 <= off /\ off + n <= zlen data
  | AppendBuffer b => Buffer.wf b
  | AppendReceiveAt _ off => in_u64 off
  | HasSent n => in_u64 n
  | WriteReceived | AppendReceive _ | WriteSend | Destroy => True
  end.

Definition action_ok (a : action) : Prop := match a with Call _ o => op_ok o | _ => True end.

(** The C++ types, and that nothing is used after its destruction. *)
Inductive kind := KReceive | KSend | KGone.

Definition kind_of (v : value) : kind := match v with Receives _ => KReceive | Sends _ => KSend | Gone => KGone end.

Definition typed (ks : list kind) (o : op) (k : kind) : option kind :=
  match k, o with
  | KReceive, (OnReceive _ | WriteReceived) => Some KReceive
  | KSend, (Append _ _ _ | AppendBuffer _ | WriteSend | HasSent _) => Some KSend
  | KSend, (AppendReceive from | AppendReceiveAt from _) =>
      match ks !! from with Some KReceive => Some KSend | _ => None end
  | (KReceive | KSend), Destroy => Some KGone
  | _, _ => None
  end.

Fixpoint check (acts : list action) (ks : list kind) : option (list kind) :=
  match acts with
  | [] => Some ks
  | NewReceive :: rest => check rest (ks ++ [KReceive])
  | NewSend :: rest => check rest (ks ++ [KSend])
  | Call i o :: rest => k ← ks !! i; k' ← typed ks o k; check rest (<[i := k']> ks)
  end.

Definition good (v : value) : Prop :=
  match v with
  | Receives rb => ReceiveBuffer.wf rb
  | Sends sb => Forall Buffer.wf (SendBuffer.buffers_ sb)
  | Gone => True
  end.

Lemma receive_op_total rb o k vs :
  ReceiveBuffer.wf rb -> op_ok o -> typed (kind_of <$> vs) o KReceive = Some k ->
  exists out v, vop_receive o rb = Some (out, v) /\ good v /\ kind_of v = k.
Proof.
  intros Hwf Hok Ht. destruct o; cbn in Ht; try done; injection Ht as <-; cbn [vop_receive op_ok] in *.
  - destruct (ReceiveBuffer.exec_refines o rb Hwf Hok) as (out & rb' & -> & Hwf' & _). by exists out, (Receives rb').
  - rewrite SendBuffer.gather_receive by done. by eexists _, (Receives rb).
  - by exists [], Gone.
Qed.

Lemma good_snoc b sb n :
  Buffer.wf b -> good (Sends sb) -> good (Sends (SendBuffer.mk (SendBuffer.buffers_ sb ++ [b]) n)).
Proof. intros Hb Hs. cbn in *. by apply Forall_app_2; [|constructor]. Qed.

(** A buffer into whose storage something was peeked. *)
Lemma wf_stored n storage :
  0 <= n -> in_u64 n -> zlen storage = Buffer.capacity (Buffer.make n) ->
  Buffer.wf (Buffer.mk storage (Buffer.rpos_ (Buffer.make n)) (Buffer.wpos_ (Buffer.make n))).
Proof.
  intros Hn H64 Hs. rewrite Buffer.capacity_make in Hs by done. unfold Buffer.wf, Buffer.capacity, Buffer.make. cbn.
  rewrite Hs. split; [lia|]. by split; [lia|].
Qed.

Lemma send_op_total sb o k vs :
  Forall good vs -> good (Sends sb) -> op_ok o -> typed (kind_of <$> vs) o KSend = Some k ->
  exists out v, vop_send o vs sb = Some (out, v) /\ good v /\ kind_of v = k.
Proof.
  intros Hvs Hsb Hok Ht.
  assert (forall from, match (kind_of <$> vs) !! from with Some KReceive => Some KSend | _ => None end = Some k ->
    k = KSend /\ exists rb, vs !! from = Some (Receives rb) /\ ReceiveBuffer.wf rb) as Hfrom.
  { intros from Hf. rewrite list_lookup_fmap in Hf. destruct (vs !! from) as [[rb| |]|] eqn:Ev; try done.
    injection Hf as <-. split; [done|]. exists rb. split; [done|]. apply (proj1 (Forall_lookup _ _) Hvs from _ Ev). }
  destruct o; cbn [typed] in Ht; try done; cbn [vop_send op_ok] in *.
  - injection Ht as <-. destruct Hok as (Hc & Ho & Hl). unfold SendBuffer.append, Buffer.make_from, in_u64 in *.
    rewrite memcpy_ok by zlia. cbn [mbind option_bind]. eexists _, (Sends _). split; [done|]. split; [|done].
    apply good_snoc; [|done]. unfold Buffer.wf, Buffer.capacity, in_u64. cbn. rewrite zlen_splice; rewrite ?zlen_slice; zlia.
  - injection Ht as <-. eexists _, (Sends _). split; [done|]. split; [|done].
    destruct buf as [d r w]. by apply good_snoc.
  - destruct (Hfrom _ Ht) as (-> & rb & -> & Hwf). unfold SendBuffer.append_receive, ReceiveBuffer.size.
    assert (in_u64 (ReceiveBuffer.size_ rb)) as H64 by (destruct Hwf as (_ & _ & ->); apply u64_range).
    assert (0 <= ReceiveBuffer.size_ rb) as H0 by (unfold in_u64 in H64; lia).
    pose proof (Buffer.capacity_make (ReceiveBuffer.size_ rb) H0) as Hcap.
    assert (in_u64 (Buffer.capacity (Buffer.make (ReceiveBuffer.size_ rb)))) as Hc64 by by rewrite Hcap.
    assert (Z.min (Buffer.capacity (Buffer.make (ReceiveBuffer.size_ rb))) (zlen (ReceiveBuffer.contents rb)) <=
      zlen (Buffer.buffer_ (Buffer.make (ReceiveBuffer.size_ rb)))) as Hle by (unfold Buffer.capacity; lia).
    rewrite ReceiveBuffer.peek_spec by done.
    cbn [mbind option_bind]. eexists _, (Sends _). split; [done|]. split; [|done].
    apply good_snoc; [|done]. apply wf_stored; [done|done|]. unfold Buffer.capacity in *.
    rewrite zlen_splice; zlia.
  - destruct (Hfrom _ Ht) as (-> & rb & -> & Hwf). unfold SendBuffer.append_receive_at, ReceiveBuffer.size, ReceiveBuffer.peek_at.
    set (n := u64 (ReceiveBuffer.size_ rb - offset)). assert (in_u64 n) as H64 by apply u64_range.
    assert (0 <= n) as H0 by (unfold in_u64 in H64; lia).
    destruct (ReceiveBuffer.peek_at_loop_total (ReceiveBuffer.buffers_ rb) (Buffer.buffer_ (Buffer.make n)) offset
      (Buffer.capacity (Buffer.make n)) 0) as (out & -> & Hz); try done.
    { by apply ReceiveBuffer.live_all_wf. }
    { rewrite Buffer.capacity_make; lia. }
    { by rewrite Buffer.capacity_make. }
    cbn [mbind option_bind]. eexists _, (Sends _). split; [done|]. split; [|done].
    apply good_snoc; [|done]. by apply wf_stored.
  - injection Ht as <-. destruct (gather_total 0 (SendBuffer.buffers_ sb) Hsb) as [out E]. unfold SendBuffer.prepareSend.
    rewrite E. by eexists _, (Sends sb).
  - injection Ht as <-. unfold SendBuffer.hasSent.
    destruct (hasSent_loop_total (length (SendBuffer.buffers_ sb)) count 0 (SendBuffer.buffers_ sb)) as (n & bs & -> & Hbs);
      [done|unfold in_u64 in *; lia|done|done|]. by eexists _, (Sends _).
  - injection Ht as <-. by exists [], Gone.
Qed.

Lemma run_total acts vs ks :
  Forall good vs -> Forall action_ok acts -> check acts (kind_of <$> vs) = Some ks ->
  exists outs vs', vrun acts vs = Some (outs, vs') /\ Forall good vs' /\ kind_of <$> vs' = ks.
Proof.
  revert vs. induction acts as [|a acts IH]; intros vs Hvs Hok Hc; cbn [vrun check] in *.
  { injection Hc as <-. by exists [], vs. }
  apply Forall_cons_1 in Hok as [Ha Hok].
  assert (exists out vs1, vstep a vs = Some (out, vs1) /\ Forall good vs1 /\ check acts (kind_of <$> vs1) = Some ks)
    as (out & vs1 & -> & Hvs1 & Hc1).
  { destruct a as [| |i o]; cbn [vstep] in *.
    - eexists _, _. split; [done|]. rewrite fmap_app. split; [|done].
      apply Forall_app_2; [done|]. constructor; [apply ReceiveBuffer.rb_wf_make|constructor].
    - eexists _, _. split; [done|]. rewrite fmap_app. split; [|done].
      apply Forall_app_2; [done|]. by repeat constructor.
    - rewrite list_lookup_fmap in Hc. destruct (vs !! i) as [v|] eqn:Ev; [|done]. cbn [fmap option_fmap option_map mbind option_bind] in *.
      pose proof (proj1 (Forall_lookup _ _) Hvs i v Ev) as Hv. destruct (typed _ o _) as [k|] eqn:Et; [|done].
      assert (exists out v', vop o vs v = Some (out, v') /\ good v' /\ kind_of v' = k) as (out & v' & Eo & Hv' & <-).
      { destruct v as [rb|sb|]; [by eapply receive_op_total|by eapply send_op_total|by destruct o]. }
      rewrite Eo. eexists _, _. split; [done|]. rewrite list_fmap_insert. split; [by apply Forall_insert|done]. }
  cbn [mbind option_bind]. destruct (IH vs1 Hvs1 Hok Hc1) as (outs & vs2 & -> & H). by exists (out :: outs), vs2.
Qed.
End Total.

(** ** Properties *)

(** C12: whatever the receive and send buffers of a program do - any number of
    them, calls in any order, copying from one into another - on a heap where
    [new] returns any unused address, no [Buffer] is used or released after it
    has been released; each call gives what it gives when the buffers are
    values; no two objects ever share a [Buffer]; and every live [Buffer] has an
    owner, so that when the objects have been destroyed none is left. *)
Theorem buffers_are_owned (malloc : heap -> Z) (acts : list action) (ks : list kind)
  (Hmalloc : forall h, h !! malloc h = None) (Hacts : Forall action_ok acts) (Hks : check acts [] = Some ks) :
  exists outs hs h vs os,
    hrun malloc acts [] ∅ = Some (outs, hs, h) /\ vrun acts [] = Some (outs, vs) /\
    owned h os hs vs /\ kind_of <$> vs = ks /\
    (Forall (fun k => k = KGone) ks -> h = ∅).
Proof.
  destruct (run_total acts [] ks) as (outs & vs & E & _ & Hk); [done..|].
  assert (owned ∅ [] [] []) as H0.
  { constructor; [constructor|by intros ? ? ? ?|]. intros p. rewrite lookup_empty.
    split; [by intros []|]. by intros (? & ?%elem_of_nil & _). }
  destruct (hrun_sim malloc Hmalloc acts ∅ [] [] [] outs vs H0 E) as (os & hs & h & Eh & Ho).
  exists outs, hs, h, vs, os. split; [done|]. split; [done|]. split; [done|]. split; [done|]. intros Hgone.
  apply map_empty. intros p. apply eq_None_not_Some. intros Hp. apply (owned_live _ _ _ _ Ho) in Hp as (O & Hin & HpO).
  apply list_elem_of_lookup in Hin as [i Hi].
  destruct (Forall3_lookup_l _ _ _ _ _ _ (owned_stands _ _ _ _ Ho) Hi) as (x & v & Hx & Hv & Hst).
  assert (kind_of v = KGone) as Hkv.
  { apply (proj1 (Forall_lookup _ _) Hgone i). by rewrite <- Hk, list_lookup_fmap, Hv. }
  destruct x, v; try done. cbn in Hst. subst O. by apply elem_of_empty in HpO.
Qed.

(** ** A run *)

(** Some address that is not in use. *)
Definition unused (h : heap) : Z := fresh (elements (dom h : gset Z)).

Lemma unused_fresh h : h !! unused h = None.
Proof. apply (not_elem_of_dom (D := gset Z)). rewrite <- elem_of_elements. apply infinite_is_fresh. Qed.

Definition abc : list byte := [Byte.x61; Byte.x62; Byte.x63].

(** A connection receives, queues a copy and its own bytes, sends a part, and
    goes away. *)
Definition life : list action :=
  [NewReceive; NewSend; Call 0 (OnReceive (ReceiveBuffer.OReceive abc)); Call 1 (Append abc 1 2);
   Call 1 (AppendReceive 0); Call 0 (OnReceive (ReceiveBuffer.ORead 3)); Call 1 WriteSend; Call 1 (HasSent 2)].

Lemma buffers_are_owned_witness :
  exists outs hs h vs os,
    hrun unused (life ++ [Call 0 Destroy; Call 1 Destroy]) [] ∅ = Some (outs, hs, h) /\
    vrun (life ++ [Call 0 Destroy; Call 1 Destroy]) [] = Some (outs, vs) /\ owned h os hs vs /\ h = ∅.
Proof.
  destruct (buffers_are_owned unused (life ++ [Call 0 Destroy; Call 1 Destroy]) [KGone; KGone] unused_fresh)
    as (outs & hs & h & vs & os & E & Ev & Ho & _ & Hg).
  - repeat constructor; try (vm_compute; discriminate); vm_compute; intuition discriminate.
  - vm_compute. reflexivity.
  - exists outs, hs, h, vs, os. split; [exact E|]. split; [exact Ev|]. split; [exact Ho|].
    apply Hg. repeat constructor.
Defined.
End BufferOwners.
