(* ===== verification/BaseWatcher.v ===== *)
(** [nutty/base/Watcher.h] and [Watcher.cpp]: one file descriptor's interest
    set and its callbacks, kept registered with the event loop's poller, and
    the interface ([nutty/base/Poller.h]) a poller offers to watchers. *)

From S2P Require Import Prelude.

(** ** Event bits ([poll.h]; [EPollPoller.cpp] asserts that epoll's agree) *)

Definition POLLIN : Z := 1.
Definition POLLPRI : Z := 2.
Definition POLLOUT : Z := 4.
Definition POLLERR : Z := 8.
Definition POLLHUP : Z := 16.
Definition POLLNVAL : Z := 32.
Definition POLLRDHUP : Z := 8192.

(** [if (a & b)] *)
Definition has (a b : Z) : bool := negb (Z.land a b =? 0).

Module Watcher.

Definition kNoneEvent : Z := 0.
Definition kReadEvent : Z := Z.lor POLLIN POLLPRI.
Definition kWriteEvent : Z := POLLOUT.

(** [self] is the object's address, the [Watcher*] that is given to the poller. *)
Record t := mk {
  self : Z;
  fd_ : Z;
  events_ : Z;
  revents_ : Z;
  started_ : bool
}.

(** [Watcher::Watcher(EventLoop* loop, const int fd)] *)
Definition make (self fd : Z) : t := mk self fd 0 0 false.

Definition set_events (e : Z) (w : t) : t :=
  mk (self w) (fd_ w) e (revents_ w) (started_ w).
Definition set_started (b : bool) (w : t) : t :=
  mk (self w) (fd_ w) (events_ w) (revents_ w) b.
Definition revents (r : Z) (w : t) : t :=
  mk (self w) (fd_ w) (events_ w) r (started_ w).

Definition isReading (w : t) : bool := has (events_ w) kReadEvent.
Definition isWriting (w : t) : bool := has (events_ w) kWriteEvent.

End Watcher.

(** ** The poller interface *)

(** What a poller promises to watchers. [interest p] is the abstract state:
    for each registered descriptor the requested events and the watcher to
    report. The operations are partial: [None] is an access the C++ code may
    not make. *)
Class Poller (P : Type) := {
  addWatcher : Watcher.t -> P -> option P;
  updateWatcher : Watcher.t -> P -> option P;
  removeWatcher : Watcher.t -> P -> option P;
  poller_ok : P -> Prop;
  interest : P -> gmap Z (Z * Z);
  addWatcher_ok w p :
    poller_ok p -> interest p !! Watcher.fd_ w = None -> 0 <= Watcher.events_ w < 8 ->
    exists p', addWatcher w p = Some p' /\ poller_ok p' /\
      interest p' = <[Watcher.fd_ w := (Watcher.events_ w, Watcher.self w)]> (interest p);
  updateWatcher_ok w p e :
    poller_ok p -> interest p !! Watcher.fd_ w = Some (e, Watcher.self w) ->
    0 <= Watcher.events_ w < 8 ->
    exists p', updateWatcher w p = Some p' /\ poller_ok p' /\
      interest p' = <[Watcher.fd_ w := (Watcher.events_ w, Watcher.self w)]> (interest p);
  removeWatcher_ok w p e :
    poller_ok p -> interest p !! Watcher.fd_ w = Some (e, Watcher.self w) ->
    exists p', removeWatcher w p = Some p' /\ poller_ok p' /\
      interest p' = delete (Watcher.fd_ w) (interest p)
}.

Module WatcherOps.
Import Watcher.

Section Update.
Context {P : Type} `{!Poller P}.

(** [Watcher::update()], through [EventLoop::addWatcher] etc., which only
    forward to the poller. *)
Definition update (w : t) (p : P) : option (t * P) :=
  if started_ w then
    if events_ w =? kNoneEvent then
      p' ← removeWatcher w p; Some (set_started false w, p')
    else
      p' ← updateWatcher w p; Some (w, p')
  else
    if negb (events_ w =? kNoneEvent) then
      p' ← addWatcher w p; Some (set_started true w, p')
    else Some (w, p).

Definition enableReading (w : t) (p : P) : option (t * P) :=
  update (set_events (Z.lor (events_ w) kReadEvent) w) p.
Definition disableReading (w : t) (p : P) : option (t * P) :=
  update (set_events (Z.land (events_ w) (Z.lnot kReadEvent)) w) p.
Definition enableWriting (w : t) (p : P) : option (t * P) :=
  update (set_events (Z.lor (events_ w) kWriteEvent) w) p.
Definition disableWriting (w : t) (p : P) : option (t * P) :=
  update (set_events (Z.land (events_ w) (Z.lnot kWriteEvent)) w) p.
Definition disableAll (w : t) (p : P) : option (t * P) :=
  update (set_events kNoneEvent w) p.

(** The calls a client can make. *)
Inductive op := EnableReading | DisableReading | EnableWriting | DisableWriting | DisableAll.

Definition apply_op (o : op) : t -> P -> option (t * P) :=
  match o with
  | EnableReading => enableReading
  | DisableReading => disableReading
  | EnableWriting => enableWriting
  | DisableWriting => disableWriting
  | DisableAll => disableAll
  end.

(** The interest set after a call. *)
Definition next_events (o : op) (e : Z) : Z :=
  match o with
  | EnableReading => Z.lor e kReadEvent
  | DisableReading => Z.land e (Z.lnot kReadEvent)
  | EnableWriting => Z.lor e kWriteEvent
  | DisableWriting => Z.land e (Z.lnot kWriteEvent)
  | DisableAll => kNoneEvent
  end.

(** *** The registration invariant *)

(** [w] and the poller agree: a started watcher is registered with its current
    events, a stopped one has none and is not registered. *)
Definition synced (w : t) (p : P) : Prop :=
  0 <= events_ w < 8 /\
  if started_ w
  then events_ w <> 0 /\ interest p !! fd_ w = Some (events_ w, self w)
  else events_ w = 0 /\ interest p !! fd_ w = None.

Lemma synced_make a fd (p : P) : interest p !! fd = None -> synced (make a fd) p.
Proof. intros. split; cbn; [lia|done]. Qed.

Lemma next_events_range o e : 0 <= e < 8 -> 0 <= next_events o e < 8.
Proof.
  intros. assert (e = 0 \/ e = 1 \/ e = 2 \/ e = 3 \/ e = 4 \/ e = 5 \/ e = 6 \/ e = 7) as He by lia.
  destruct He as [->|[->|[->|[->|[->|[->|[->| ->]]]]]]]; destruct o; vm_compute; done.
Qed.

(** Changing the events and calling [update] re-establishes agreement and
    touches no other descriptor. *)
Lemma update_spec w (p : P) e :
  poller_ok p -> synced w p -> 0 <= e < 8 ->
  exists w' p', update (set_events e w) p = Some (w', p') /\
    poller_ok p' /\ synced w' p' /\
    w' = mk (self w) (fd_ w) e (revents_ w) (negb (e =? 0)) /\
    interest p' = (if e =? 0 then delete (fd_ w) (interest p)
                   else <[fd_ w := (e, self w)]> (interest p)).
Proof.
  intros Hp [Hrange Hs] He. unfold update, kNoneEvent, synced. cbn [started_ events_ set_events].
  destruct (started_ w) eqn:Hst; destruct Hs as [Hev Hreg]; destruct (e =? 0) eqn:E; zbool; cbn.
  - destruct (removeWatcher_ok (set_events e w) p (events_ w)) as (p' & -> & Hok & Hi); [done..|].
    cbn in Hi. cbn. do 2 eexists. split; [done|]. cbn. rewrite Hi, lookup_delete_eq. subst e.
    repeat split; done || lia.
  - destruct (updateWatcher_ok (set_events e w) p (events_ w)) as (p' & -> & Hok & Hi); [done..|].
    cbn in Hi. cbn. do 2 eexists. split; [done|]. cbn. rewrite Hst, Hi, lookup_insert_eq.
    unfold set_events. rewrite Hst. repeat split; done || lia.
  - do 2 eexists. split; [done|]. cbn. rewrite Hst. unfold set_events. rewrite Hst.
    rewrite delete_id by done. repeat split; done || lia.
  - destruct (addWatcher_ok (set_events e w) p) as (p' & -> & Hok & Hi); [done..|].
    cbn in Hi. cbn. do 2 eexists. split; [done|]. cbn. rewrite Hi, lookup_insert_eq.
    repeat split; done || lia.
Qed.

Lemma apply_op_spec o w (p : P) :
  poller_ok p -> synced w p ->
  exists w' p', apply_op o w p = Some (w', p') /\ poller_ok p' /\ synced w' p' /\
    w' = mk (self w) (fd_ w) (next_events o (events_ w)) (revents_ w)
           (negb (next_events o (events_ w) =? 0)) /\
    interest p' = (if next_events o (events_ w) =? 0 then delete (fd_ w) (interest p)
                   else <[fd_ w := (next_events o (events_ w), self w)]> (interest p)).
Proof.
  intros Hp Hs. pose proof (next_events_range o (events_ w) (proj1 Hs)) as Hr.
  destruct (update_spec w p _ Hp Hs Hr) as (w' & p' & E & H). exists w', p'.
  split; [|done]. rewrite <- E. by destruct o.
Qed.

Lemma synced_frame w w' (p p' : P) x :
  fd_ w <> fd_ w' -> synced w' p ->
  interest p' = delete (fd_ w) (interest p) \/ interest p' = <[fd_ w := x]> (interest p) ->
  synced w' p'.
Proof.
  intros Hne [Hr Hs] [Hi|Hi]; split; try done; rewrite Hi;
    [rewrite lookup_delete_ne by done | rewrite lookup_insert_ne by done]; done.
Qed.

(** *** Many watchers on one loop *)

(** [calls] are (watcher index, call) pairs, in the order made. *)
Fixpoint run_calls (calls : list (nat * op)) (ws : list t) (p : P) : option (list t * P) :=
  match calls with
  | [] => Some (ws, p)
  | (i, o) :: rest =>
      w ← ws !! i;
      '(w', p') ← apply_op o w p;
      run_calls rest (<[i := w']> ws) p'
  end.

Definition all_synced (ws : list t) (p : P) : Prop :=
  poller_ok p /\ NoDup (fd_ <$> ws) /\ Forall (fun w => synced w p) ws.

Lemma fmap_insert_same {A B} (f : A -> B) (l : list A) i x y :
  l !! i = Some x -> f y = f x -> f <$> <[i := y]> l = f <$> l.
Proof.
  intros Hx Hf. rewrite list_fmap_insert, Hf. apply list_insert_id.
  by rewrite list_lookup_fmap, Hx.
Qed.

Lemma apply_op_all i o w ws (p : P) :
  all_synced ws p -> ws !! i = Some w ->
  exists w' p', apply_op o w p = Some (w', p') /\ all_synced (<[i := w']> ws) p'.
Proof.
  intros (Hp & Hnd & Hall) Hi.
  pose proof (proj1 (Forall_lookup _ _) Hall i w Hi) as Hw.
  destruct (apply_op_spec o w p Hp Hw) as (w' & p' & E & Hp' & Hs' & Hw' & Hint).
  exists w', p'. split; [done|]. split; [done|].
  assert (fd_ w' = fd_ w) as Hfd by by rewrite Hw'.
  split; [by rewrite (fmap_insert_same _ _ _ w)|].
  apply Forall_lookup. intros j v Hj.
  destruct (decide (i = j)) as [->|Hij].
  { rewrite list_lookup_insert_eq in Hj by (by eapply lookup_lt_Some). by simplify_eq. }
  rewrite list_lookup_insert_ne in Hj by done.
  eapply (synced_frame w v p p' (next_events o (events_ w), self w)).
  - intros Heq. apply Hij. eapply (NoDup_lookup (fd_ <$> ws)); [done| |].
    + rewrite list_lookup_fmap, Hi. cbn. by rewrite Heq.
    + by rewrite list_lookup_fmap, Hj.
  - by apply (proj1 (Forall_lookup _ _) Hall j v).
  - rewrite Hint. destruct (_ =? 0); auto.
Qed.

(** C14: for every poller meeting the interface and every sequence of
    enable/disable calls on watchers of distinct descriptors, no call is
    undefined, and afterwards each watcher is registered exactly when its
    interest set is non-empty, with exactly that set: no [EPOLL_CTL_ADD] of a
    registered descriptor, no [MOD] or [DEL] of an unregistered one. *)
Theorem watchers_stay_synced (calls : list (nat * op)) (ws : list t) (p : P)
  (Hinit : all_synced ws p) (Hcalls : Forall (fun c => (c.1 < length ws)%nat) calls) :
  exists ws' p', run_calls calls ws p = Some (ws', p') /\ all_synced ws' p' /\
    fd_ <$> ws' = fd_ <$> ws /\
    forall w, w ∈ ws' ->
      interest p' !! fd_ w = if events_ w =? 0 then None else Some (events_ w, self w).
Proof.
  revert ws p Hinit Hcalls.
  induction calls as [|[i o] calls IH]; intros ws p Hinit Hcalls; cbn [run_calls].
  - exists ws, p. split; [done|]. split; [done|]. split; [done|].
    intros w Hw. destruct Hinit as (_ & _ & Hall).
    apply list_elem_of_lookup in Hw as [j Hj].
    destruct (proj1 (Forall_lookup _ _) Hall j w Hj) as [_ Hs].
    destruct (started_ w), Hs as [He ->], (events_ w =? 0) eqn:E; zbool; done.
  - apply Forall_cons_1 in Hcalls as [Hi Hcalls]. cbn in Hi.
    destruct (lookup_lt_is_Some_2 ws i Hi) as [w Hw].
    destruct (apply_op_all i o w ws p Hinit Hw) as (w' & p' & E & Hall').
    rewrite Hw. cbn. rewrite E. cbn.
    destruct (IH _ _ Hall') as (ws2 & p2 & E2 & H2 & Hfd & H3); [by rewrite length_insert|].
    exists ws2, p2. split; [done|]. split; [done|]. split; [|done].
    rewrite Hfd. apply (fmap_insert_same _ _ _ w); [done|].
    destruct Hinit as (Hp & _ & Hf). pose proof (proj1 (Forall_lookup _ _) Hf i w Hw) as Hs.
    destruct (apply_op_spec o w p Hp Hs) as (? & ? & E' & _ & _ & -> & _).
    rewrite E in E'. by injection E' as -> _.
Qed.
End Update.

End WatcherOps.

(** ** Dispatch *)

Module Dispatch.

Section Dispatch.
(** Callbacks act on a state [S]; [None] is undefined behaviour inside one. *)
Context {S : Type}.

Record callbacks := mk {
  closeCallback_ : option (S -> option S);
  errorCallback_ : option (S -> option S);
  readCallback_ : option (S -> option S);
  writeCallback_ : option (S -> option S)
}.

(** [if (callback_) callback_();] *)
Definition call (cb : option (S -> option S)) (s : S) : option S :=
  match cb with Some f => f s | None => Some s end.

(** [Watcher::handleEvents()] *)
Definition handleEvents (revents : Z) (cb : callbacks) (s : S) : option S :=
  s1 ← (if has revents POLLHUP && negb (has revents POLLIN)
        then call (closeCallback_ cb) s else Some s);
  s2 ← (if has revents (Z.lor POLLERR POLLNVAL) then call (errorCallback_ cb) s1 else Some s1);
  s3 ← (if has revents (Z.lor (Z.lor POLLIN POLLPRI) POLLRDHUP)
        then call (readCallback_ cb) s2 else Some s2);
  if has revents POLLOUT then call (writeCallback_ cb) s3 else Some s3.

(** An invariant of every callback is kept by the dispatch, whatever the
    events, and no dispatch is undefined. *)
Lemma dispatch_handleEvents_inv (I : S -> Prop) cb revents s :
  (forall f, closeCallback_ cb = Some f \/ errorCallback_ cb = Some f \/
             readCallback_ cb = Some f \/ writeCallback_ cb = Some f ->
             forall x, I x -> exists y, f x = Some y /\ I y) ->
  I s -> exists s', handleEvents revents cb s = Some s' /\ I s'.
Proof.
  intros Hcb Hs.
  assert (forall (b : bool) c x, c = closeCallback_ cb \/ c = errorCallback_ cb \/
      c = readCallback_ cb \/ c = writeCallback_ cb -> I x ->
      exists y, (if b then call c x else Some x) = Some y /\ I y) as Hstep.
  { intros b c x Hc Hx. destruct b; [|by exists x].
    destruct c as [f|] eqn:Ec; [|by exists x]. apply Hcb; [|done].
    destruct Hc as [H|[H|[H|H]]]; rewrite <- H; auto. }
  unfold handleEvents.
  edestruct (Hstep (has revents POLLHUP && negb (has revents POLLIN)) (closeCallback_ cb) s)
    as (s1 & -> & H1); [auto|done|]. cbn.
  edestruct (Hstep (has revents (Z.lor POLLERR POLLNVAL)) (errorCallback_ cb) s1)
    as (s2 & -> & H2); [auto|done|]. cbn.
  edestruct (Hstep (has revents (Z.lor (Z.lor POLLIN POLLPRI) POLLRDHUP)) (readCallback_ cb) s2)
    as (s3 & -> & H3); [auto|done|]. cbn.
  apply Hstep; auto.
Qed.
End Dispatch.

Arguments callbacks : clear implicits.
Arguments mk {S}.
End Dispatch.
