(* ===== verification/BasePoller.v ===== *)
(** The two pollers of [nutty/base/poller/]: [PollPoller], an array of
    [pollfd]s with an index by descriptor, and [EPollPoller], a thin layer on
    epoll. Both discharge the [Poller] interface of [BaseWatcher.v]. *)

From S2P Require Import Prelude BaseWatcher.

(** Conversion to the 16-bit [short] of [struct pollfd]. *)
Definition i16 (x : Z) : Z := (x + 32768) `mod` 65536 - 32768.

Lemma i16_small x : -32768 <= x < 32768 -> i16 x = x.
Proof. intros. unfold i16. rewrite Z.mod_small; lia. Qed.

Module PollPoller.

Record pollfd := mk_pollfd { fd : Z; events : Z; revents : Z }.

(** [pollfds_] maps a descriptor to its index in [fds_]. *)
Record t := mk {
  fds_ : list pollfd;
  pollfds_ : gmap Z nat;
  watchers_ : gmap Z Z
}.

(** [PollPoller::PollPoller()]; the epoll descriptor it also opens is never
    used. *)
Definition make : t := mk [] ∅ ∅.

Definition addWatcher (w : Watcher.t) (p : t) : t :=
  let pollfds := <[Watcher.fd_ w := length (fds_ p)]> (pollfds_ p) in
  let pfd := mk_pollfd (Watcher.fd_ w) (i16 (Watcher.events_ w)) 0 in
  mk (fds_ p ++ [pfd]) pollfds (<[fd pfd := Watcher.self w]> (watchers_ p)).

(** [fds_[i]], undefined out of range. *)
Definition updateWatcher (w : Watcher.t) (p : t) : option t :=
  match pollfds_ p !! Watcher.fd_ w with
  | Some i =>
      pfd ← fds_ p !! i;
      Some (mk (<[i := mk_pollfd (fd pfd) (i16 (Watcher.events_ w)) 0]> (fds_ p))
               (pollfds_ p) (watchers_ p))
  | None => Some p
  end.

(** [removeWatcher]: the iterator [it] is used for [it->second] after
    [pollfds_.erase(pfd.fd)] erased its node. [stale i] is what that read
    yields when the node held [i]; the code works when the freed node still
    holds its value. *)
Definition removeWatcher (stale : nat -> nat) (w : Watcher.t) (p : t) : option t :=
  match pollfds_ p !! Watcher.fd_ w with
  | Some i =>
      pfd ← fds_ p !! i;
      let watchers := delete (fd pfd) (watchers_ p) in
      let pollfds := delete (fd pfd) (pollfds_ p) in
      back ← last (fds_ p);
      let '(fds, pollfds) :=
        if negb (fd pfd =? fd back)
        then (<[i := back]> (fds_ p), <[fd back := stale i]> pollfds)
        else (fds_ p, pollfds) in
      Some (mk (take (length fds - 1) fds) pollfds watchers)
  | None => Some p
  end.

(** [fillActiveWatchers(int numEvents, ...)]: the entries are those the kernel
    wrote into [fds_]; reporting stores into [watcher->revents_] ([store], by
    address) and appends to [activeWatchers]. [watchers_[pfd.fd]] of an unknown
    descriptor would insert and dereference a null pointer. *)
Fixpoint fill_loop (numEvents : Z) (fds : list pollfd) (watchers : gmap Z Z)
    (store : gmap Z Z) (active : list Z) : option (list pollfd * gmap Z Z * list Z) :=
  match fds with
  | [] => Some ([], store, active)
  | pfd :: rest =>
      if 0 <? numEvents then
        if 0 <? revents pfd then
          watcher ← watchers !! fd pfd;
          '(rest', store', active') ←
            fill_loop (numEvents - 1) rest watchers (<[watcher := revents pfd]> store)
              (active ++ [watcher]);
          Some (mk_pollfd (fd pfd) (events pfd) 0 :: rest', store', active')
        else
          '(rest', store', active') ← fill_loop numEvents rest watchers store active;
          Some (pfd :: rest', store', active')
      else Some (fds, store, active)
  end.

Definition fillActiveWatchers (numEvents : Z) (store : gmap Z Z) (active : list Z) (p : t)
  : option (t * gmap Z Z * list Z) :=
  '(fds, store', active') ← fill_loop numEvents (fds_ p) (watchers_ p) store active;
  Some (mk fds (pollfds_ p) (watchers_ p), store', active').

(** [poll(...)], [numEvents] and [filled] being the result of [poll(2)] and
    the array after it. *)
Definition poll (numEvents : Z) (filled : list pollfd) (store : gmap Z Z) (active : list Z) (p : t)
  : option (t * gmap Z Z * list Z) :=
  let p := mk filled (pollfds_ p) (watchers_ p) in
  if 0 <? numEvents then fillActiveWatchers numEvents store active p else Some (p, store, active).

(** ** Invariant *)

(** Entry [i] is for descriptor [f] exactly when the index says so, and the
    watcher table has the same descriptors. *)
Definition wf (p : t) : Prop :=
  (forall f i, pollfds_ p !! f = Some i <-> exists pfd, fds_ p !! i = Some pfd /\ fd pfd = f) /\
  (forall f, is_Some (pollfds_ p !! f) <-> is_Some (watchers_ p !! f)).

Definition interest_of (p : t) (f : Z) (i : nat) : option (Z * Z) :=
  pfd ← fds_ p !! i; w ← watchers_ p !! f; Some (events pfd, w).

Definition interest (p : t) : gmap Z (Z * Z) := map_imap (interest_of p) (pollfds_ p).

Lemma interest_lookup p f :
  interest p !! f = (i ← pollfds_ p !! f; interest_of p f i).
Proof. apply map_lookup_imap. Qed.

Lemma poll_wf_make : wf make.
Proof.
  split; intros; cbn; rewrite !lookup_empty; [|done].
  split; [done|]. by intros (? & ? & _).
Qed.

Section Wf.
Context (p : t) (Hwf : wf p).

Lemma wf_index f i : pollfds_ p !! f = Some i -> exists pfd, fds_ p !! i = Some pfd /\ fd pfd = f.
Proof. apply Hwf. Qed.

Lemma wf_entry i pfd : fds_ p !! i = Some pfd -> pollfds_ p !! fd pfd = Some i.
Proof. intros. apply Hwf. eauto. Qed.

(** Registered descriptors have an entry and a watcher. *)
Lemma interest_Some f e a :
  interest p !! f = Some (e, a) ->
  exists i pfd, pollfds_ p !! f = Some i /\ fds_ p !! i = Some pfd /\ fd pfd = f /\
    events pfd = e /\ watchers_ p !! f = Some a.
Proof.
  rewrite interest_lookup. destruct (pollfds_ p !! f) as [i|] eqn:Ei; [|done].
  destruct (wf_index f i Ei) as (pfd & Hp & Hf). cbn. unfold interest_of. rewrite Hp. cbn.
  destruct (watchers_ p !! f) eqn:Ew; [|done]. intros [= <- <-]. by exists i, pfd.
Qed.

Lemma interest_None f : interest p !! f = None -> pollfds_ p !! f = None /\ watchers_ p !! f = None.
Proof.
  rewrite interest_lookup. destruct (pollfds_ p !! f) as [i|] eqn:Ei.
  - destruct (wf_index f i Ei) as (pfd & Hp & Hf). cbn. unfold interest_of. rewrite Hp. cbn.
    destruct (proj1 (proj2 Hwf f)) as [a Ha]; [by eexists|]. by rewrite Ha.
  - intros _. split; [done|]. apply eq_None_not_Some. intros Ha. apply Hwf in Ha as [? Ha].
    by rewrite Ei in Ha.
Qed.
End Wf.

(** [interest] is determined by what it says of each descriptor. *)
Lemma interest_intro p f i pfd a :
  pollfds_ p !! f = Some i -> fds_ p !! i = Some pfd -> watchers_ p !! f = Some a ->
  interest p !! f = Some (events pfd, a).
Proof.
  intros H1 H2 H3. rewrite interest_lookup, H1. cbn. unfold interest_of. by rewrite H2, H3.
Qed.

Lemma interest_absent p f : pollfds_ p !! f = None -> interest p !! f = None.
Proof. intros H. by rewrite interest_lookup, H. Qed.

Lemma poll_add_ok w p :
  wf p -> interest p !! Watcher.fd_ w = None -> 0 <= Watcher.events_ w < 8 ->
  wf (addWatcher w p) /\
  interest (addWatcher w p) =
    <[Watcher.fd_ w := (Watcher.events_ w, Watcher.self w)]> (interest p).
Proof.
  intros Hwf Hno Hev. destruct (interest_None p Hwf _ Hno) as [Hi Ha].
  assert (forall j pfd, fds_ p !! j = Some pfd -> fd pfd <> Watcher.fd_ w) as Hne.
  { intros j pfd Hj E. apply (wf_entry p Hwf) in Hj. rewrite E, Hi in Hj. done. }
  split.
  - split; intros f; cbn; [intros i|].
    + rewrite lookup_insert. case_decide as E.
      * subst f. split.
        -- intros [= <-]. rewrite lookup_app_r by lia. rewrite Nat.sub_diag. by eexists.
        -- intros (pfd & Hp & Hf). apply lookup_app_Some in Hp as [Hp|[Hl Hp]].
           ++ by apply Hne in Hp.
           ++ apply list_lookup_singleton_Some in Hp as [Hp _]. f_equal. lia.
      * rewrite (proj1 Hwf f i). split; intros (pfd & Hp & Hf); exists pfd; (split; [|done]).
        -- by apply lookup_app_l_Some.
        -- apply lookup_app_Some in Hp as [Hp|[_ Hp]]; [done|].
           apply list_lookup_singleton_Some in Hp as [_ <-]. by cbn in Hf.
    + rewrite !lookup_insert. case_decide; [by split; eexists|]. apply Hwf.
  - apply map_eq. intros f. rewrite lookup_insert. case_decide as E.
    + subst f. rewrite (interest_intro _ _ (length (fds_ p))
        (mk_pollfd (Watcher.fd_ w) (i16 (Watcher.events_ w)) 0) (Watcher.self w)); cbn.
      * rewrite i16_small by lia. done.
      * apply lookup_insert_eq.
      * rewrite lookup_app_r by lia. by rewrite Nat.sub_diag.
      * apply lookup_insert_eq.
    + rewrite !interest_lookup. cbn. rewrite lookup_insert_ne by done.
      destruct (pollfds_ p !! f) as [i|] eqn:Ei; [|done]. cbn. unfold interest_of. cbn.
      destruct (wf_index p Hwf f i Ei) as (pfd & Hp & _).
      rewrite lookup_app_l by (by eapply lookup_lt_Some). by rewrite lookup_insert_ne.
Qed.

Lemma poll_update_ok w p e :
  wf p -> interest p !! Watcher.fd_ w = Some (e, Watcher.self w) -> 0 <= Watcher.events_ w < 8 ->
  exists p', updateWatcher w p = Some p' /\ wf p' /\
    interest p' = <[Watcher.fd_ w := (Watcher.events_ w, Watcher.self w)]> (interest p).
Proof.
  intros Hwf Hin Hev.
  destruct (interest_Some p Hwf _ _ _ Hin) as (i & pfd & Hi & Hp & Hf & He & Ha).
  unfold updateWatcher. rewrite Hi, Hp. cbn. eexists. split; [done|].
  pose proof (lookup_lt_Some _ _ _ Hp) as Hlt. split.
  - split; cbn; [|apply Hwf]. intros f j. rewrite (proj1 Hwf f j).
    destruct (decide (i = j)) as [<-|Hne].
    + rewrite list_lookup_insert_eq, Hp by done.
      split; intros (q & [= <-] & <-); eexists; split; done.
    + by rewrite list_lookup_insert_ne.
  - apply map_eq. intros f. rewrite lookup_insert. case_decide as E.
    + subst f. erewrite interest_intro; [|done| |done].
      2:{ cbn. rewrite list_lookup_insert_eq by done. done. }
      cbn. by rewrite i16_small by lia.
    + rewrite !interest_lookup. cbn. destruct (pollfds_ p !! f) as [j|] eqn:Ej; [|done].
      cbn. unfold interest_of. cbn. rewrite list_lookup_insert_ne; [done|].
      intros <-. destruct (wf_index p Hwf f i Ej) as (q & Hq & Hqf). congruence.
Qed.

(** *** Removal by swapping with the last entry *)

Section Remove.
Context (p : t) (Hwf : wf p) (f : Z) (i : nat) (pfd back : pollfd).
Context (Hi : pollfds_ p !! f = Some i) (Hp : fds_ p !! i = Some pfd) (Hf : fd pfd = f).
Context (Hback : last (fds_ p) = Some back).

Let n := (length (fds_ p) - 1)%nat.

Lemma back_index : fds_ p !! n = Some back /\ pollfds_ p !! fd back = Some n /\ (i <= n)%nat.
Proof.
  rewrite last_lookup in Hback. replace (pred (length (fds_ p))) with n in Hback by (unfold n; lia).
  split; [done|]. split; [by apply wf_entry|].
  apply lookup_lt_Some in Hp. unfold n. lia.
Qed.

(** The state after removing [f], when the moved entry is indexed by [k]. *)
Definition removed (k : nat) : t :=
  if decide (f = fd back)
  then mk (take n (fds_ p)) (delete f (pollfds_ p)) (delete f (watchers_ p))
  else mk (take n (<[i := back]> (fds_ p)))
         (<[fd back := k]> (delete f (pollfds_ p))) (delete f (watchers_ p)).

Lemma removeWatcher_removed stale w :
  Watcher.fd_ w = f -> removeWatcher stale w p = Some (removed (stale i)).
Proof.
  intros Hw. unfold removeWatcher, removed. rewrite Hw, Hi, Hp. cbn. rewrite Hback. cbn.
  rewrite Hf.
  case_decide as E.
  - rewrite (proj2 (Z.eqb_eq _ _)) by done. done.
  - rewrite (proj2 (Z.eqb_neq _ _)) by done. cbn. by rewrite length_insert.
Qed.

Lemma other_entry j q : fds_ p !! j = Some q -> fd q = f -> j = i.
Proof. intros Hj E. apply (wf_entry p Hwf) in Hj. rewrite E, Hi in Hj. by simplify_eq. Qed.

Lemma removed_last : f = fd back -> i = n.
Proof. intros E. destruct back_index as (_ & H & _). rewrite <- E, Hi in H. by simplify_eq. Qed.

(** The entries of the shortened array. *)
Lemma removed_fds k j q :
  fds_ (removed k) !! j = Some q <->
  (j < n)%nat /\ (if decide (j = i) then q = back else fds_ p !! j = Some q).
Proof.
  destruct back_index as (Hb & _ & Hle). pose proof (lookup_lt_Some _ _ _ Hp) as Hlt.
  unfold removed. case_decide as E; cbn; rewrite lookup_take_Some.
  - pose proof (removed_last E). case_decide; [lia|]. naive_solver.
  - case_decide as Ej.
    + subst j. rewrite list_lookup_insert_eq by done. naive_solver.
    + rewrite list_lookup_insert_ne by done. naive_solver.
Qed.

Lemma removed_index f' j :
  pollfds_ (removed i) !! f' = Some j <->
  exists q, fds_ (removed i) !! j = Some q /\ fd q = f'.
Proof.
  destruct back_index as (Hb & Hbi & Hle).
  setoid_rewrite removed_fds. unfold removed. case_decide as E; cbn [pollfds_].
  - pose proof (removed_last E) as Hin. rewrite lookup_delete. case_decide as Ef.
    + subst f'. split; [done|]. intros (q & (Hj & Hq) & Hqf).
      case_decide; [lia|]. by apply (other_entry j q Hq) in Hqf.
    + rewrite (proj1 Hwf). split.
      * intros (q & Hq & Hqf). exists q. split; [|done].
        pose proof (lookup_lt_Some _ _ _ Hq) as Hl.
        assert (j <> n) by (intros ->; rewrite Hb in Hq; simplify_eq; congruence).
        case_decide; [lia|]. split; [unfold n in *; lia|done].
      * intros (q & (Hj & Hq) & Hqf). case_decide; [lia|]. by exists q.
  - assert (i <> n) as Hin.
    { intros ->. rewrite Hb in Hp. simplify_eq. }
    rewrite lookup_insert. case_decide as Efb.
    + subst f'. split.
      * intros [= <-]. exists back. split; [|done]. case_decide; [split; [lia|done]|done].
      * intros (q & (Hj & Hq) & Hqf). case_decide as Eji; [by subst j|].
        apply (wf_entry p Hwf) in Hq. rewrite Hqf, Hbi in Hq. simplify_eq. lia.
    + rewrite lookup_delete. case_decide as Ef.
      * subst f'. split; [done|]. intros (q & (Hj & Hq) & Hqf).
        case_decide as Eji; [subst q; congruence|]. by apply (other_entry j q Hq) in Hqf.
      * rewrite (proj1 Hwf). split.
        -- intros (q & Hq & Hqf). exists q. split; [|done].
           pose proof (lookup_lt_Some _ _ _ Hq) as Hl.
           assert (j <> n) by (intros ->; rewrite Hb in Hq; simplify_eq).
           case_decide as Eji.
           ++ subst j. rewrite Hp in Hq. simplify_eq.
           ++ split; [unfold n in *; lia|done].
        -- intros (q & (Hj & Hq) & Hqf). case_decide as Eji; [subst q; congruence|]. by exists q.
Qed.

Lemma removed_watchers k f' : watchers_ (removed k) !! f' = delete f (watchers_ p) !! f'.
Proof. unfold removed. by case_decide. Qed.

Lemma removed_dom k f' : is_Some (pollfds_ (removed k) !! f') <-> f' <> f /\ is_Some (pollfds_ p !! f').
Proof.
  destruct back_index as (_ & Hbi & _).
  assert (fd back ∈ dom (pollfds_ p)) as Hd by (apply elem_of_dom; eauto).
  rewrite <- !elem_of_dom. unfold removed.
  case_decide as E; cbn [pollfds_]; rewrite ?dom_insert_L, dom_delete_L; set_solver.
Qed.

Lemma removed_wf : wf (removed i).
Proof.
  split; [apply removed_index|]. intros f'.
  rewrite removed_dom, removed_watchers, lookup_delete.
  case_decide as E; [split; [naive_solver|by intros []%is_Some_None]|].
  rewrite (proj2 Hwf f'). naive_solver.
Qed.

Lemma removed_interest : interest (removed i) = delete f (interest p).
Proof.
  apply map_eq. intros f'. rewrite lookup_delete. case_decide as E.
  - subst f'. apply interest_absent, eq_None_not_Some. intros H%removed_dom. naive_solver.
  - destruct (interest p !! f') as [[e a]|] eqn:Ei.
    + destruct (interest_Some p Hwf _ _ _ Ei) as (j & q & Hj & Hq & Hqf & He & Ha).
      assert (is_Some (pollfds_ (removed i) !! f')) as [j' Hj'] by (apply removed_dom; eauto).
      pose proof Hj' as Hj2. apply removed_index in Hj' as (q' & Hq' & Hqf').
      rewrite (interest_intro _ _ j' q' a); [|done|done|].
      2:{ by rewrite removed_watchers, lookup_delete_ne. }
      assert (q' = q) as ->; [|by subst].
      apply removed_fds in Hq' as (_ & Hq'). case_decide.
      * subst q' j'. destruct back_index as (Hb & Hbi & _).
        rewrite Hqf' in Hbi. rewrite Hj in Hbi. simplify_eq. congruence.
      * apply (wf_entry p Hwf) in Hq' as Hj3. rewrite Hqf', Hj in Hj3. simplify_eq. congruence.
    + apply interest_None in Ei as [Ei _]; [|done]. apply interest_absent, eq_None_not_Some.
      intros H%removed_dom. rewrite Ei in H. destruct H as [_ []%is_Some_None].
Qed.
End Remove.

Lemma last_of_lookup (l : list pollfd) i x : l !! i = Some x -> exists y, last l = Some y.
Proof. intros H. apply last_is_Some. by intros ->. Qed.

Lemma poll_remove_ok stale w p e :
  (forall i, stale i = i) ->
  wf p -> interest p !! Watcher.fd_ w = Some (e, Watcher.self w) ->
  exists p', removeWatcher stale w p = Some p' /\ wf p' /\
    interest p' = delete (Watcher.fd_ w) (interest p).
Proof.
  intros Hstale Hwf Hin.
  destruct (interest_Some p Hwf _ _ _ Hin) as (i & pfd & Hi & Hp & Hf & _ & _).
  destruct (last_of_lookup _ _ _ Hp) as [back Hb].
  rewrite (removeWatcher_removed p (Watcher.fd_ w) i pfd back) by done.
  rewrite Hstale. eexists. split; [done|]. split; [by eapply removed_wf|by eapply removed_interest].
Qed.

(** [PollPoller] meets the poller interface on any run in which the erased
    map node still holds its value when [removeWatcher] reads it. *)
#[export] Program Instance poll_poller (stale : nat -> nat) (Hstale : forall i, stale i = i)
  : Poller t := {
  addWatcher w p := Some (addWatcher w p);
  updateWatcher := updateWatcher;
  removeWatcher := removeWatcher stale;
  poller_ok := wf;
  interest := interest
}.
Next Obligation.
  intros. destruct (poll_add_ok w p) as [? ?]; [done..|]. by eexists.
Qed.
Next Obligation. intros. by eapply poll_update_ok. Qed.
Next Obligation. intros. by eapply poll_remove_ok. Qed.

(** [removeWatcher] of a registered watcher leaves the descriptor index
    consistent with the array exactly when the value it reads through the
    iterator into the node it just erased is still the old index; the only
    exception is removing the last entry, where the read does not happen. *)
Theorem removeWatcher_needs_erased_node (stale : nat -> nat) (w : Watcher.t) (p : t)
  (f : Z) (i : nat) (Hwf : wf p) (Hf : Watcher.fd_ w = f) (Hi : pollfds_ p !! f = Some i) :
  exists p', removeWatcher stale w p = Some p' /\
    (wf p' <-> stale i = i \/ i = (length (fds_ p) - 1)%nat).
Proof.
  destruct (wf_index p Hwf f i Hi) as (pfd & Hp & Hpf).
  destruct (last_of_lookup _ _ _ Hp) as [back Hb].
  pose proof (back_index p Hwf i pfd back Hp Hb) as (Hbl & Hbi & Hle).
  exists (removed p f i back (stale i)).
  split; [by eapply removeWatcher_removed|].
  assert (f = fd back <-> i = (length (fds_ p) - 1)%nat) as Hlast.
  { split; intros E; [rewrite <- E, Hi in Hbi; by simplify_eq|].
    rewrite <- E, Hp in Hbl. by simplify_eq. }
  split.
  - intros Hwf'. destruct (decide (f = fd back)) as [E|E]; [right; by apply Hlast|left].
    assert (pollfds_ (removed p f i back (stale i)) !! fd back = Some (stale i)) as Hk.
    { unfold removed. rewrite decide_False by done. apply lookup_insert_eq. }
    apply (wf_index _ Hwf') in Hk as (q & Hq & Hqf).
    apply (removed_fds p Hwf f i pfd back) in Hq as (Hj & Hq); [|done..].
    case_decide as Ej; [done|].
    apply (wf_entry p Hwf) in Hq. rewrite Hqf, Hbi in Hq. simplify_eq. lia.
  - intros [->| ->%Hlast]; [by eapply removed_wf|].
    assert (removed p (fd back) i back (stale i) = removed p (fd back) i back i) as ->
      by (unfold removed; by rewrite !decide_True).
    eapply removed_wf; [done|exact Hi|exact Hp|done|done].
Qed.

(** *** Reporting ready watchers *)

(** What [poll(2)] left for this round: entries with a positive [revents]. *)
Definition ready (p : t) : list pollfd := filter (fun pfd => 0 < revents pfd) (fds_ p).

Definition with_revents (r : pollfd -> Z) (p : t) : t :=
  mk ((fun pfd => mk_pollfd (fd pfd) (events pfd) (r pfd)) <$> fds_ p)
     (pollfds_ p) (watchers_ p).

Definition clear (pfd : pollfd) : pollfd := mk_pollfd (fd pfd) (events pfd) 0.

Definition record_all (store : gmap Z Z) (reports : list (Z * Z)) : gmap Z Z :=
  foldl (fun s '(a, r) => <[a := r]> s) store reports.

Definition reports (watchers : gmap Z Z) (l : list pollfd) : list (Z * Z) :=
  omap (fun pfd => a ← watchers !! fd pfd; Some (a, revents pfd)) l.

Lemma fill_loop_done fds watchers store active :
  fill_loop 0 fds watchers store active = Some (fds, store, active).
Proof. by destruct fds. Qed.

Lemma fill_loop_spec fds watchers store active :
  Forall (fun pfd => 0 <= revents pfd) fds ->
  (forall pfd, pfd ∈ fds -> is_Some (watchers !! fd pfd)) ->
  let rdy := filter (fun pfd => 0 < revents pfd) fds in
  fill_loop (zlen rdy) fds watchers store active =
    Some (clear <$> fds, record_all store (reports watchers rdy),
          active ++ (reports watchers rdy).*1) /\
  length (reports watchers rdy) = length rdy.
Proof.
  revert store active. induction fds as [|pfd fds IH]; intros store active Hpos Hw rdy.
  { cbn. by rewrite app_nil_r. }
  apply Forall_cons_1 in Hpos as [H0 Hpos].
  assert (forall q, q ∈ fds -> is_Some (watchers !! fd q)) as Hw'
    by (intros q Hq; apply Hw; by right).
  destruct (Hw pfd) as [a Ha]; [by left|]. unfold rdy. rewrite filter_cons.
  destruct (decide (0 < revents pfd)) as [Hr|Hr].
  - destruct (IH (<[a := revents pfd]> store) (active ++ [a]) Hpos Hw') as [E L].
    cbn [fill_loop]. rewrite !(proj2 (Z.ltb_lt _ _)) by zlia.
    rewrite Ha, zlen_cons. cbn [mbind option_bind].
    replace (1 + zlen (filter (fun q => 0 < revents q) fds) - 1)
      with (zlen (filter (fun q => 0 < revents q) fds)) by lia.
    rewrite E. cbn. rewrite Ha. cbn. rewrite <- app_assoc. split; [done|]. f_equal. exact L.
  - destruct (IH store active Hpos Hw') as [E L]. split; [|done].
    assert (clear pfd = pfd) as Hc by (unfold clear; destruct pfd as [? ? r]; cbn in *; f_equal; lia).
    cbn [fill_loop fmap list_fmap]. rewrite Hc. case_if.
    + rewrite (proj2 (Z.ltb_ge _ _)) by lia. rewrite E. done.
    + assert (zlen (filter (fun q => 0 < revents q) fds) = 0) as Hz by zlia.
      rewrite Hz, fill_loop_done in E.
      injection E as E1 E2 E3. by rewrite <- E1, <- E2, <- E3.
Qed.

(** Only [revents] changes. *)
Lemma with_revents_wf r p : wf p -> wf (with_revents r p) /\ interest (with_revents r p) = interest p.
Proof.
  intros Hwf. split.
  - split; [|apply Hwf]. intros f i. cbn. rewrite (proj1 Hwf f i). rewrite list_lookup_fmap.
    destruct (fds_ p !! i); naive_solver.
  - apply map_eq. intros f. rewrite !interest_lookup. cbn.
    destruct (pollfds_ p !! f) as [i|]; [|done]. cbn. unfold interest_of. cbn.
    rewrite list_lookup_fmap. by destruct (fds_ p !! i).
Qed.

Lemma with_revents_zero p :
  Forall (fun pfd => 0 <= revents pfd) (fds_ p) -> ready p = [] -> p = with_revents (fun _ => 0) p.
Proof.
  unfold ready, with_revents. destruct p as [fds pollfds watchers]. cbn [fds_ pollfds_ watchers_].
  intros Hpos Hr. f_equal. induction Hpos as [|pfd fds H0 _ IH]; [done|]. rewrite filter_cons in Hr.
  case_decide; [done|]. cbn [fmap list_fmap]. f_equal; [|by apply IH].
  destruct pfd as [f e r]. cbn in *. f_equal. lia.
Qed.

Lemma fillActiveWatchers_spec p store active :
  wf p -> Forall (fun pfd => 0 <= revents pfd) (fds_ p) ->
  let rep := reports (watchers_ p) (ready p) in
  fillActiveWatchers (zlen (ready p)) store active p =
    Some (with_revents (fun _ => 0) p, record_all store rep, active ++ rep.*1) /\
  length rep = length (ready p) /\
  wf (with_revents (fun _ => 0) p) /\ interest (with_revents (fun _ => 0) p) = interest p.
Proof.
  intros Hwf Hpos rep.
  destruct (fill_loop_spec (fds_ p) (watchers_ p) store active Hpos) as [E L].
  { intros pfd [i Hi]%list_elem_of_lookup. apply Hwf. apply (wf_entry p Hwf) in Hi. by eexists. }
  unfold fillActiveWatchers. fold (ready p) in E, L. rewrite E. split; [done|]. split; [done|].
  by apply with_revents_wf.
Qed.

(** After [poll(2)] set non-negative [revents] and returned the number of
    non-zero ones, [fillActiveWatchers] reports exactly the watchers of those
    entries, once each and in array order, storing their events, and clears
    every [revents] field, leaving the registrations unchanged. *)
Theorem fillActiveWatchers_reports (p : t) (store : gmap Z Z) (active : list Z)
  (Hwf : wf p) (Hpos : Forall (fun pfd => 0 <= revents pfd) (fds_ p)) :
  let rep := reports (watchers_ p) (ready p) in
  fillActiveWatchers (zlen (ready p)) store active p =
    Some (with_revents (fun _ => 0) p, record_all store rep, active ++ rep.*1) /\
  length rep = length (ready p) /\
  wf (with_revents (fun _ => 0) p) /\ interest (with_revents (fun _ => 0) p) = interest p.
Proof. by apply fillActiveWatchers_spec. Qed.

End PollPoller.

(** ** epoll *)

(** The kernel's epoll object, a parameter: [epoll_ctl] as documented in
    epoll_ctl(2). [epoll_set] is the interest list, with the events and the
    [data.ptr] stored for each descriptor; the operations return the result
    code the code ignores. The laws speak of calls that succeed: adding a new
    descriptor can fail (ENOSPC, ENOMEM, or EPERM for a file that cannot be
    polled), which the code does not notice; its watcher then counts as started
    and is never reported. *)
Class EpollKernel (K : Type) := {
  epoll_ctl_add : Z -> Z -> Z -> K -> Z * K;
  epoll_ctl_mod : Z -> Z -> Z -> K -> Z * K;
  epoll_ctl_del : Z -> K -> Z * K;
  epoll_set : K -> gmap Z (Z * Z);
  epoll_ctl_add_new fd e a k :
    epoll_set k !! fd = None ->
    epoll_set (epoll_ctl_add fd e a k).2 = <[fd := (e, a)]> (epoll_set k);
  epoll_ctl_mod_known fd e a k :
    is_Some (epoll_set k !! fd) ->
    epoll_set (epoll_ctl_mod fd e a k).2 = <[fd := (e, a)]> (epoll_set k);
  epoll_ctl_del_known fd k :
    is_Some (epoll_set k !! fd) ->
    epoll_set (epoll_ctl_del fd k).2 = delete fd (epoll_set k)
}.

Module EPollPoller.

Definition kEventSizeInit : nat := 16.

Section EPollPoller.
Context {K : Type} `{!EpollKernel K}.

(** [epollfd_] stands for the kernel object behind it; [events_] is the array
    given to [epoll_wait], as (events, data.ptr) pairs. *)
Record t := mk { epollfd_ : K; events_ : list (Z * Z) }.

Definition make (k : K) : t := mk k (replicate kEventSizeInit (0, 0)).

Definition addWatcher (w : Watcher.t) (p : t) : t :=
  mk (epoll_ctl_add (Watcher.fd_ w) (Watcher.events_ w) (Watcher.self w) (epollfd_ p)).2
     (events_ p).

Definition updateWatcher (w : Watcher.t) (p : t) : t :=
  mk (epoll_ctl_mod (Watcher.fd_ w) (Watcher.events_ w) (Watcher.self w) (epollfd_ p)).2
     (events_ p).

Definition removeWatcher (w : Watcher.t) (p : t) : t :=
  mk (epoll_ctl_del (Watcher.fd_ w) (epollfd_ p)).2 (events_ p).

(** [fillActiveWatchers(int numEvents, ...)]: [i] counts up to [numEvents];
    [events_[i]] past the end is undefined. *)
Fixpoint fill_loop (todo i : nat) (events : list (Z * Z)) (store : gmap Z Z) (active : list Z)
  : option (gmap Z Z * list Z) :=
  match todo with
  | O => Some (store, active)
  | S todo' =>
      '(ev, watcher) ← events !! i;
      fill_loop todo' (S i) events (<[watcher := i32 ev]> store) (active ++ [watcher])
  end.

Definition fillActiveWatchers (numEvents : Z) (store : gmap Z Z) (active : list Z) (p : t)
  : option (gmap Z Z * list Z) :=
  fill_loop (Z.to_nat numEvents) 0 (events_ p) store active.

(** [poll(...)], [numEvents] and [filled] being the result of [epoll_wait] and
    what it wrote into the array. *)
Definition poll (numEvents : Z) (filled : list (Z * Z)) (store : gmap Z Z) (active : list Z) (p : t)
  : option (t * gmap Z Z * list Z) :=
  let p := mk (epollfd_ p) filled in
  if 0 <? numEvents then
    '(store', active') ← fillActiveWatchers numEvents store active p;
    let events :=
      if numEvents =? zlen (events_ p)
      then events_ p ++ replicate (length (events_ p)) (0, 0)
      else events_ p in
    Some (mk (epollfd_ p) events, store', active')
  else Some (p, store, active).

#[export] Program Instance epoll_poller : Poller t := {
  addWatcher w p := Some (addWatcher w p);
  updateWatcher w p := Some (updateWatcher w p);
  removeWatcher w p := Some (removeWatcher w p);
  poller_ok _ := True;
  interest p := epoll_set (epollfd_ p)
}.
Next Obligation.
  intros. eexists. split; [done|]. split; [done|]. by apply epoll_ctl_add_new.
Qed.
Next Obligation.
  intros. eexists. split; [done|]. split; [done|]. apply epoll_ctl_mod_known. by eexists.
Qed.
Next Obligation.
  intros. eexists. split; [done|]. split; [done|]. apply epoll_ctl_del_known. by eexists.
Qed.

Definition signed (r : Z * Z) : Z * Z := (r.2, i32 r.1).

Lemma epoll_fill_spec todo i events store active :
  (i + todo <= length events)%nat ->
  let rep := signed <$> take todo (drop i events) in
  fill_loop todo i events store active =
    Some (PollPoller.record_all store rep, active ++ rep.*1).
Proof.
  revert i store active. induction todo as [|todo IH]; intros i store active Hlen rep.
  { cbn. by rewrite app_nil_r. }
  destruct (lookup_lt_is_Some_2 events i) as [[ev a] Hi]; [lia|].
  cbn [fill_loop]. rewrite Hi. cbn. rewrite IH by lia. unfold rep.
  rewrite (drop_S events (ev, a) i Hi). cbn. by rewrite <- app_assoc.
Qed.

Lemma epoll_poll_spec (p : t) (n : nat) (filled : list (Z * Z)) (store : gmap Z Z) (active : list Z) :
  length filled = length (events_ p) -> (n <= length filled)%nat ->
  let rep := signed <$> take n filled in
  exists p', poll (Z.of_nat n) filled store active p =
      Some (p', PollPoller.record_all store rep, active ++ rep.*1) /\
    epollfd_ p' = epollfd_ p /\
    length (events_ p') =
      (if decide (n = length filled /\ 0 < n)%nat then 2 * length filled else length filled)%nat.
Proof.
  intros Hlen Hn rep. unfold poll. cbn [epollfd_ events_]. case_if.
  - unfold fillActiveWatchers. rewrite Nat2Z.id. cbn [events_].
    rewrite epoll_fill_spec, drop_0 by lia. cbn. eexists. split; [done|]. split; [done|].
    unfold zlen. cbn [events_]. destruct (Z.of_nat n =? Z.of_nat (length filled)) eqn:E; zbool.
    + rewrite decide_True by lia. rewrite length_app, length_replicate. lia.
    + rewrite decide_False; [done|]. lia.
  - assert (n = 0%nat) as -> by lia. unfold rep. cbn. rewrite app_nil_r.
    eexists. split; [done|]. split; [done|]. rewrite decide_False by lia. done.
Qed.
(** When [epoll_wait] reports [n] events, [EPollPoller::poll] reports
    exactly those [n] watchers in order with their events, never reads past
    the array, and doubles the array when it was full, so that the array only
    grows. *)
Theorem epoll_poll_reports (p : t) (n : nat) (filled : list (Z * Z)) (store : gmap Z Z)
  (active : list Z) (Hlen : length filled = length (events_ p)) (Hn : (n <= length filled)%nat) :
  let rep := signed <$> take n filled in
  exists p', poll (Z.of_nat n) filled store active p =
      Some (p', PollPoller.record_all store rep, active ++ rep.*1) /\
    epollfd_ p' = epollfd_ p /\
    length (events_ p') =
      (if decide (n = length filled /\ 0 < n)%nat then 2 * length filled else length filled)%nat.
Proof. by apply epoll_poll_spec. Qed.
End EPollPoller.
End EPollPoller.

(** ** The two pollers agree *)

Module PollerAgreement.

Section Agreement.
Context {K : Type} `{!EpollKernel K}.

(** [ready fd] are the events that a descriptor has; the kernel's answer is
    about the registered ones that have some. *)
Definition ready_watchers (ready : Z -> Z) (I : gmap Z (Z * Z)) : list (Z * Z) :=
  omap (fun x : Z * (Z * Z) => if 0 <? ready x.1 then Some (x.2.2, ready x.1) else None) (map_to_list I).

(** [poll(2)] fills in the [revents] of the array. *)
Definition kernel_poll (ready : Z -> Z) (p : PollPoller.t) : PollPoller.t :=
  PollPoller.with_revents (fun pfd => ready (PollPoller.fd pfd)) p.

(** The registrations, in the order of the array. *)
Definition entries (watchers : gmap Z Z) (fds : list PollPoller.pollfd) : list (Z * (Z * Z)) :=
  omap (fun pfd => w ← watchers !! PollPoller.fd pfd; Some (PollPoller.fd pfd, (PollPoller.events pfd, w))) fds.

Lemma entries_spec watchers fds x :
  x ∈ entries watchers fds <->
  exists pfd, pfd ∈ fds /\ x.1 = PollPoller.fd pfd /\ watchers !! x.1 = Some x.2.2 /\ x.2.1 = PollPoller.events pfd.
Proof.
  unfold entries. rewrite list_elem_of_omap. split.
  - intros (pfd & Hin & E). destruct (watchers !! PollPoller.fd pfd) eqn:Ew; [|done]. injection E as <-. by exists pfd.
  - intros (pfd & Hin & E1 & E2 & E3). exists pfd. split; [done|]. rewrite <- E1, E2. cbn.
    destruct x as [? [? ?]]. cbn in *. by subst.
Qed.

Lemma entries_NoDup watchers fds : NoDup (PollPoller.fd <$> fds) -> NoDup (entries watchers fds).
Proof.
  induction fds as [|pfd fds IH]; [intros _; apply list.NoDup_nil; done|]. cbn [fmap list_fmap]. intros [Hn Hnd]%list.NoDup_cons.
  unfold entries. cbn [omap list_omap]. destruct (watchers !! PollPoller.fd pfd) as [w|]; cbn; [|by apply IH].
  apply list.NoDup_cons. split; [|by apply IH]. intros (q & Hq & E & _)%entries_spec. apply Hn.
  cbn in E. rewrite E. by apply list_elem_of_fmap_2.
Qed.

Lemma wf_NoDup p : PollPoller.wf p -> NoDup (PollPoller.fd <$> PollPoller.fds_ p).
Proof.
  intros Hwf. apply list.NoDup_alt. intros i j f. rewrite !list_lookup_fmap.
  intros (pi & Hi & ->)%fmap_Some (pj & Hj & E)%fmap_Some.
  apply (PollPoller.wf_entry p Hwf) in Hi, Hj. congruence.
Qed.

Lemma map_entries p :
  PollPoller.wf p ->
  map_to_list (PollPoller.interest p) ≡ₚ entries (PollPoller.watchers_ p) (PollPoller.fds_ p).
Proof.
  intros Hwf. apply NoDup_Permutation; [apply NoDup_map_to_list|by apply entries_NoDup, wf_NoDup|].
  intros [f [e a]]. rewrite elem_of_map_to_list, entries_spec. cbn. split.
  - intros (i & pfd & Hi & Hp & Hf & He & Ha)%(PollPoller.interest_Some p Hwf). exists pfd.
    split; [by eapply list_elem_of_lookup_2|]. by subst.
  - intros (pfd & Hin & -> & Ha & ->). apply list_elem_of_lookup in Hin as [i Hi].
    eapply PollPoller.interest_intro; [by apply PollPoller.wf_entry|done|done].
Qed.

Lemma reports_entries ready watchers fds :
  PollPoller.reports watchers (filter (fun pfd => 0 < PollPoller.revents pfd)
    ((fun pfd => PollPoller.mk_pollfd (PollPoller.fd pfd) (PollPoller.events pfd) (ready (PollPoller.fd pfd))) <$> fds)) =
  omap (fun x : Z * (Z * Z) => if 0 <? ready x.1 then Some (x.2.2, ready x.1) else None) (entries watchers fds).
Proof.
  unfold entries, PollPoller.reports.
  induction fds as [|pfd fds IH]; [done|]. cbn [fmap list_fmap]. rewrite filter_cons.
  case_decide as H; cbn in H |- *; destruct (watchers !! PollPoller.fd pfd) as [w|] eqn:Ew; cbn in IH |- *.
  - rewrite (proj2 (Z.ltb_lt _ _) H). f_equal. exact IH.
  - exact IH.
  - rewrite (proj2 (Z.ltb_ge _ _)) by lia. exact IH.
  - exact IH.
Qed.

Lemma ready_watchers_reports ready p :
  PollPoller.wf p ->
  PollPoller.reports (PollPoller.watchers_ p) (PollPoller.ready (kernel_poll ready p)) ≡ₚ
    ready_watchers ready (PollPoller.interest p).
Proof.
  intros Hwf. unfold PollPoller.ready, kernel_poll, PollPoller.with_revents. cbn [PollPoller.fds_].
  rewrite reports_entries. unfold ready_watchers. by rewrite (map_entries p Hwf).
Qed.

Lemma signed_swap (l : list (Z * Z)) :
  Forall (fun r => 0 <= r.1 < 2147483648) l -> EPollPoller.signed <$> l = prod_swap <$> l.
Proof.
  induction 1 as [|[r a] l Hr _ IH]; [done|]. cbn [fmap list_fmap]. rewrite IH. f_equal.
  unfold EPollPoller.signed, prod_swap, i32. cbn in *. f_equal. rewrite Z.mod_small by lia. lia.
Qed.

(** C27: the two implementations of [Poller] are interchangeable. With the same
    watchers registered, the same descriptors ready and room for all of them in
    the array of [epoll_wait] (16 entries at first), which reports the ready ones in an order of its own, both
    [poll]s report exactly the watchers of the ready descriptors with their
    events, up to the order, and keep the registrations. *)
Theorem pollers_agree (p1 : PollPoller.t) (p2 : EPollPoller.t (K := K)) (ready : Z -> Z)
  (found rest : list (Z * Z)) (store : gmap Z Z) (active : list Z)
  (Hwf : PollPoller.wf p1) (Hsame : PollPoller.interest p1 = epoll_set (EPollPoller.epollfd_ p2))
  (Hready : forall fd, 0 <= ready fd < 2147483648)
  (Hfound : found ≡ₚ prod_swap <$> ready_watchers ready (epoll_set (EPollPoller.epollfd_ p2)))
  (Hroom : length (found ++ rest) = length (EPollPoller.events_ p2)) :
  exists rep1 rep2 p1' p2',
    rep1 ≡ₚ ready_watchers ready (PollPoller.interest p1) /\ rep1 ≡ₚ rep2 /\
    PollPoller.poll (zlen rep1) (PollPoller.fds_ (kernel_poll ready p1)) store active p1 =
      Some (p1', PollPoller.record_all store rep1, active ++ rep1.*1) /\
    EPollPoller.poll (zlen rep2) (found ++ rest) store active p2 =
      Some (p2', PollPoller.record_all store rep2, active ++ rep2.*1) /\
    PollPoller.wf p1' /\ PollPoller.interest p1' = epoll_set (EPollPoller.epollfd_ p2').
Proof.
  set (q := kernel_poll ready p1).
  assert (PollPoller.wf q /\ PollPoller.interest q = PollPoller.interest p1) as [Hq Hqi]
    by by apply PollPoller.with_revents_wf.
  assert (Forall (fun pfd => 0 <= PollPoller.revents pfd) (PollPoller.fds_ q)) as Hpos.
  { apply Forall_fmap, list.Forall_forall. intros pfd _. cbn. apply Hready. }
  destruct (PollPoller.fillActiveWatchers_spec q store active Hq Hpos) as (E1 & Hl1 & Hq' & Hqi').
  destruct (EPollPoller.epoll_poll_spec p2 (length found) (found ++ rest) store active)
    as (p2' & E2 & Hk & _); [done|rewrite length_app; lia|].
  rewrite take_app_length in E2.
  assert (Forall (fun r : Z * Z => 0 <= r.1 < 2147483648) found) as Hr.
  { rewrite Hfound. apply Forall_fmap, list.Forall_forall. intros [a r]. unfold ready_watchers.
    rewrite list_elem_of_omap. intros ([fd [e w]] & _ & E). cbn in *. destruct (0 <? ready fd); [|done].
    injection E as <- <-. apply Hready. }
  rewrite (signed_swap _ Hr) in E2.
  exists (PollPoller.reports (PollPoller.watchers_ q) (PollPoller.ready q)), (prod_swap <$> found),
    (PollPoller.with_revents (fun _ => 0) q), p2'.
  pose proof (ready_watchers_reports ready p1 Hwf) as Hrep. fold q in Hrep.
  split; [exact Hrep|]. split; [|split; [|split; [|split; [done|by rewrite Hqi', Hqi, Hsame, Hk]]]].
  - rewrite Hfound, <- list_fmap_compose.
    rewrite (list_fmap_ext (prod_swap ∘ prod_swap) id) by (by intros ? [? ?] _). rewrite list_fmap_id.
    rewrite <- Hsame. exact Hrep.
  - unfold PollPoller.poll. unfold zlen. rewrite Hl1. fold (zlen (PollPoller.ready q)).
    change (PollPoller.mk (PollPoller.fds_ q) (PollPoller.pollfds_ p1) (PollPoller.watchers_ p1)) with q.
    destruct (0 <? zlen (PollPoller.ready q)) eqn:E; zbool; [exact E1|].
    assert (PollPoller.ready q = []) as Hnil by (apply zlen_0_nil; lia). rewrite Hnil in *. cbn.
    rewrite app_nil_r. f_equal. f_equal. f_equal. apply PollPoller.with_revents_zero; done.
  - unfold zlen in *. rewrite length_fmap. exact E2.
Qed.
End Agreement.
End PollerAgreement.

(** ** Polling *)

(** What a poller promises to the loop. Whatever the kernel answered
    ([answer_ok] states its contract), [poll] stores the events into the
    watchers it reports ([store], by address) and appends these watchers to
    [activeWatchers]; they are registered ones, each reported once for its
    descriptor, and the registrations stay. The kernel may leave ready watchers
    for the next time. *)
Class Polling (P : Type) `{!Poller P} := {
  answer : Type;
  poll : answer -> gmap Z Z -> list Z -> P -> option (P * gmap Z Z * list Z);
  answer_ok : answer -> P -> Prop;
  poll_ok ans store active p :
    poller_ok p -> answer_ok ans p ->
    exists p' ready rep,
      poll ans store active p = Some (p', PollPoller.record_all store rep, active ++ rep.*1) /\
      poller_ok p' /\ interest p' = interest p /\
      rep ⊆+ PollerAgreement.ready_watchers ready (interest p)
}.

(** What is reported is registered. *)
Lemma ready_watchers_registered ready I a r :
  (a, r) ∈ PollerAgreement.ready_watchers ready I -> exists fd e, I !! fd = Some (e, a) /\ 0 < r.
Proof.
  unfold PollerAgreement.ready_watchers. rewrite list_elem_of_omap. intros ([fd [e w]] & Hin & E). cbn in E.
  destruct (0 <? ready fd) eqn:Er; [|done]. injection E as <- <-. zbool. exists fd, e.
  split; [by apply elem_of_map_to_list|done].
Qed.

(** Watchers of different descriptors being different objects, none is
    reported twice. *)
Lemma ready_watchers_NoDup ready (I : gmap Z (Z * Z)) :
  (forall f1 f2 e1 e2 a, I !! f1 = Some (e1, a) -> I !! f2 = Some (e2, a) -> f1 = f2) ->
  NoDup (PollerAgreement.ready_watchers ready I).*1.
Proof.
  intros Hinj. unfold PollerAgreement.ready_watchers.
  assert (forall x, x ∈ map_to_list I -> I !! x.1 = Some x.2) as Hin
    by (by intros [f [e a]] ?; apply elem_of_map_to_list).
  pose proof (NoDup_fst_map_to_list I) as Hnd. revert Hin Hnd.
  induction (map_to_list I) as [|[f [e a]] l IH]; intros Hin Hnd; [apply list.NoDup_nil; done|].
  cbn [fmap list_fmap] in Hnd. apply list.NoDup_cons in Hnd as [Hn Hnd].
  assert (NoDup (omap (fun x : Z * (Z * Z) => if 0 <? ready x.1 then Some (x.2.2, ready x.1) else None) l).*1) as IH'
    by (apply IH; [intros x Hx; apply Hin; by right|done]).
  cbn [omap list_omap]. cbn. destruct (0 <? ready f); [|done]. cbn. apply list.NoDup_cons. split; [|done].
  intros ([a' r] & Ea & ([f' [e' w']] & Hl & E)%list_elem_of_omap)%list_elem_of_fmap. cbn in Ea, E. subst a'.
  destruct (0 <? ready f'); [|done]. injection E as -> _. apply Hn.
  rewrite (Hinj f f' e e' a); [by apply (list_elem_of_fmap_2 fst _ _ Hl)| |].
  - by apply (Hin (f, (e, a))); left.
  - by apply (Hin (f', (e', a))); right.
Qed.

(** Both pollers meet it: [poll(2)] fills in the whole array and counts the
    entries, [epoll_wait] reports some of the ready descriptors in its own
    order; an error leaves the array alone. *)
Section Pollings.
Context (stale : nat -> nat) (Hstale : forall i, stale i = i).
#[local] Instance pollings_poller : Poller PollPoller.t := PollPoller.poll_poller stale Hstale.

#[export] Program Instance poll_polling : Polling PollPoller.t := {
  answer := Z * list PollPoller.pollfd;
  poll ans := PollPoller.poll ans.1 ans.2;
  answer_ok ans p :=
    (exists ready, (forall fd, 0 <= ready fd) /\ ans.2 = PollPoller.fds_ (PollerAgreement.kernel_poll ready p) /\
       ans.1 = zlen (PollPoller.ready (PollerAgreement.kernel_poll ready p))) \/
    (ans.1 = -1 /\ ans.2 = PollPoller.fds_ p)
}.
Next Obligation.
  intros [n filled] store active p Hwf [(ready & Hpos & -> & ->)|[-> ->]]; cbn [fst snd] in *.
  - set (q := PollerAgreement.kernel_poll ready p).
    assert (PollPoller.wf q /\ PollPoller.interest q = PollPoller.interest p) as [Hq Hqi]
      by by apply PollPoller.with_revents_wf.
    assert (Forall (fun pfd => 0 <= PollPoller.revents pfd) (PollPoller.fds_ q)) as Hqpos.
    { apply Forall_fmap, list.Forall_forall. intros pfd _. cbn. apply Hpos. }
    destruct (PollPoller.fillActiveWatchers_spec q store active Hq Hqpos) as (E1 & Hl1 & Hq' & Hqi').
    exists (PollPoller.with_revents (fun _ => 0) q), ready,
      (PollPoller.reports (PollPoller.watchers_ q) (PollPoller.ready q)).
    split; [|split; [done|split; [exact (eq_trans Hqi' Hqi)|]]].
    + unfold PollPoller.poll.
      change (PollPoller.mk (PollPoller.fds_ q) (PollPoller.pollfds_ p) (PollPoller.watchers_ p)) with q.
      destruct (0 <? zlen (PollPoller.ready q)) eqn:E; zbool; [exact E1|].
      assert (PollPoller.ready q = []) as Hnil by (apply zlen_0_nil; pose proof (zlen_nonneg (PollPoller.ready q)); lia).
      rewrite Hnil in *. cbn. rewrite app_nil_r. f_equal. f_equal. f_equal. by apply PollPoller.with_revents_zero.
    + apply Permutation_submseteq. exact (PollerAgreement.ready_watchers_reports ready p Hwf).
  - exists p, (fun _ => 0), []. split; [|split; [done|split; [done|apply submseteq_nil_l]]].
    unfold PollPoller.poll. cbn. rewrite app_nil_r. by destruct p.
Qed.
End Pollings.

Section EpollPolling.
Context {K : Type} `{!EpollKernel K}.
#[local] Existing Instance EPollPoller.epoll_poller.

#[export] Program Instance epoll_polling : Polling (EPollPoller.t (K := K)) := {
  answer := Z * list (Z * Z);
  poll ans := EPollPoller.poll ans.1 ans.2;
  answer_ok ans p :=
    (exists ready found rest, (forall fd, 0 <= ready fd < 2147483648) /\ ans.2 = found ++ rest /\
       ans.1 = zlen found /\ length ans.2 = length (EPollPoller.events_ p) /\
       found ⊆+ prod_swap <$> PollerAgreement.ready_watchers ready (epoll_set (EPollPoller.epollfd_ p))) \/
    (ans.1 = -1 /\ ans.2 = EPollPoller.events_ p)
}.
Next Obligation.
  intros [n filled] store active p _ [(ready & found & rest & Hr & -> & -> & Hlen & Hsub)|[-> ->]];
    cbn [fst snd] in *.
  - destruct (EPollPoller.epoll_poll_spec p (length found) (found ++ rest) store active)
      as (p' & E & Hk & _); [done|rewrite length_app; lia|]. rewrite take_app_length in E.
    assert (Forall (fun r : Z * Z => 0 <= r.1 < 2147483648) found) as Hf.
    { apply list.Forall_forall. intros x Hx. apply (elem_of_submseteq _ _ _ Hx) in Hsub.
      apply list_elem_of_fmap in Hsub as ([a r] & -> & Hsub). unfold PollerAgreement.ready_watchers in Hsub.
      apply list_elem_of_omap in Hsub as ([fd [ev w]] & _ & Ex). cbn in *. destruct (0 <? ready fd); [|done].
      injection Ex as <- <-. apply Hr. }
    rewrite (PollerAgreement.signed_swap _ Hf) in E.
    exists p', ready, (prod_swap <$> found). split; [exact E|]. split; [done|]. cbn. rewrite Hk. split; [done|].
    apply (fmap_submseteq prod_swap) in Hsub. rewrite <- list_fmap_compose in Hsub.
    rewrite (list_fmap_ext (prod_swap ∘ prod_swap) id) in Hsub by (by intros ? [? ?] _).
    by rewrite list_fmap_id in Hsub.
  - exists p, (fun _ => 0), []. split; [|split; [done|split; [done|apply submseteq_nil_l]]].
    unfold EPollPoller.poll. cbn. rewrite app_nil_r. by destruct p.
Qed.
End EpollPolling.

(** ** Witnesses *)

Module PollerWitnesses.

Definition w1 : Watcher.t := Watcher.make 100 5.
Definition w2 : Watcher.t := Watcher.make 200 7.

#[local] Instance poll_id : Poller PollPoller.t :=
  PollPoller.poll_poller (fun i => i) (fun _ => eq_refl).

Definition calls : list (nat * WatcherOps.op) :=
  [(0%nat, WatcherOps.EnableReading); (1%nat, WatcherOps.EnableReading);
   (0%nat, WatcherOps.EnableWriting); (0%nat, WatcherOps.DisableAll);
   (1%nat, WatcherOps.DisableReading); (1%nat, WatcherOps.EnableWriting)].

Lemma init_synced : WatcherOps.all_synced [w1; w2] PollPoller.make.
Proof.
  split; [apply PollPoller.poll_wf_make|]. split.
  - apply NoDup_cons_2; [set_solver|]. apply NoDup_singleton.
  - repeat constructor; try apply WatcherOps.synced_make; done.
Qed.

Lemma watchers_stay_synced_witness :
  WatcherOps.all_synced [w1; w2] PollPoller.make /\
  exists ws p, WatcherOps.run_calls calls [w1; w2] PollPoller.make = Some (ws, p) /\
    WatcherOps.all_synced ws p.
Proof.
  split; [exact init_synced|].
  destruct (WatcherOps.watchers_stay_synced calls [w1; w2] PollPoller.make init_synced)
    as (ws & p & H1 & H2 & _); [unfold calls; repeat constructor|].
  exists ws, p. split; [exact H1 | exact H2].
Defined.

(** Two registered descriptors; [removeWatcher] of the first moves the second. *)
Definition two : PollPoller.t :=
  PollPoller.addWatcher (Watcher.set_events 1 w2)
    (PollPoller.addWatcher (Watcher.set_events 1 w1) PollPoller.make).

Lemma two_wf : PollPoller.wf two.
Proof.
  apply PollPoller.poll_add_ok; [|done|done].
  apply PollPoller.poll_add_ok; [apply PollPoller.poll_wf_make|done|done].
Qed.

Lemma removeWatcher_needs_erased_node_witness :
  exists p', PollPoller.removeWatcher (fun _ => 9%nat) w1 two = Some p' /\ ~ PollPoller.wf p'.
Proof.
  destruct (PollPoller.removeWatcher_needs_erased_node (fun _ => 9%nat) w1 two 5 0 two_wf)
    as (p' & H1 & H2); [reflexivity | vm_compute; reflexivity |].
  exists p'. split; [exact H1|]. intros Hwf. apply H2 in Hwf as [Hc|Hc]; vm_compute in Hc; discriminate Hc.
Defined.

Definition two_ready : PollPoller.t :=
  PollPoller.with_revents (fun pfd => if PollPoller.fd pfd =? 7 then POLLIN else 0) two.

Lemma two_ready_wf : PollPoller.wf two_ready.
Proof.
  destruct two_wf as [H1 H2]. split; [|exact H2].
  intros f i. cbn [two_ready PollPoller.with_revents PollPoller.pollfds_ PollPoller.fds_].
  rewrite (H1 f i), list_lookup_fmap. destruct (PollPoller.fds_ two !! i); naive_solver.
Qed.

Lemma fillActiveWatchers_reports_witness :
  exists p', PollPoller.fillActiveWatchers 1 ∅ [] two_ready = Some (p', {[200 := 1]}, [200]) /\
    PollPoller.interest p' = PollPoller.interest two_ready.
Proof.
  destruct (PollPoller.fillActiveWatchers_reports two_ready ∅ [] two_ready_wf)
    as (H1 & _ & _ & H2); [vm_compute; repeat constructor; discriminate|].
  eexists. split; [|exact H2].
  etransitivity; [exact H1|]. vm_compute. reflexivity.
Defined.

(** A concrete epoll object: its interest list. *)
#[local] Program Instance epoll_gmap : EpollKernel (gmap Z (Z * Z)) := {
  epoll_ctl_add fd e a k :=
    match k !! fd with Some _ => (-1, k) | None => (0, <[fd := (e, a)]> k) end;
  epoll_ctl_mod fd e a k :=
    match k !! fd with Some _ => (0, <[fd := (e, a)]> k) | None => (-1, k) end;
  epoll_ctl_del fd k :=
    match k !! fd with Some _ => (0, delete fd k) | None => (-1, k) end;
  epoll_set k := k
}.
Next Obligation. intros fd e a k H. cbn in *. by rewrite H. Qed.
Next Obligation. intros fd e a k [? H]. cbn in *. by rewrite H. Qed.
Next Obligation. intros fd k [? H]. cbn in *. by rewrite H. Qed.

Lemma epoll_poll_reports_witness :
  exists p', EPollPoller.poll 2 ([(1, 100); (4, 200)] ++ replicate 14 (0, 0)) ∅ []
      (EPollPoller.make (∅ : gmap Z (Z * Z))) =
    Some (p', {[100 := 1; 200 := 4]}, [100; 200]).
Proof.
  destruct (EPollPoller.epoll_poll_reports (EPollPoller.make (∅ : gmap Z (Z * Z))) 2
    ([(1, 100); (4, 200)] ++ replicate 14 (0, 0)) ∅ []) as (p' & H & _);
    [reflexivity | cbn; lia |].
  exists p'. etransitivity; [exact H|]. vm_compute. reflexivity.
Defined.

(** Descriptors 5 and 7 are registered with both pollers, in this order, and
    [epoll_wait] reports them the other way round. *)
Definition two_epoll : EPollPoller.t (K := gmap Z (Z * Z)) :=
  EPollPoller.addWatcher (Watcher.set_events 1 w2)
    (EPollPoller.addWatcher (Watcher.set_events 1 w1) (EPollPoller.make ∅)).

Definition both_ready (fd : Z) : Z := if fd =? 5 then 1 else if fd =? 7 then 17 else 0.

Lemma both_ready_ok fd : 0 <= both_ready fd < 2147483648.
Proof. unfold both_ready. destruct (fd =? 5), (fd =? 7); lia. Qed.

Definition found : list (Z * Z) := [(17, 200); (1, 100)].

Lemma found_ok : found ≡ₚ prod_swap <$> PollerAgreement.ready_watchers both_ready (epoll_set (EPollPoller.epollfd_ two_epoll)).
Proof. vm_compute. apply perm_swap || reflexivity. Qed.

Lemma pollers_agree_witness :
  PollPoller.interest two = epoll_set (EPollPoller.epollfd_ two_epoll) /\
  exists rep1 rep2 p1' p2', rep1 ≡ₚ rep2 /\
    PollPoller.poll (zlen rep1) (PollPoller.fds_ (PollerAgreement.kernel_poll both_ready two)) ∅ [] two =
      Some (p1', PollPoller.record_all ∅ rep1, [] ++ rep1.*1) /\
    EPollPoller.poll (zlen rep2) (found ++ replicate 14 (0, 0)) ∅ [] two_epoll =
      Some (p2', PollPoller.record_all ∅ rep2, [] ++ rep2.*1).
Proof.
  assert (PollPoller.interest two = epoll_set (EPollPoller.epollfd_ two_epoll)) as Hsame by (vm_compute; reflexivity).
  split; [exact Hsame|].
  destruct (PollerAgreement.pollers_agree two two_epoll both_ready found (replicate 14 (0, 0)) ∅ []
    two_wf Hsame both_ready_ok found_ok eq_refl) as (rep1 & rep2 & p1' & p2' & _ & H1 & H2 & H3 & _).
  exists rep1, rep2, p1', p2'. split; [exact H1|]. split; [exact H2|exact H3].
Defined.
End PollerWitnesses.
