(* ===== verification/BaseLifetime.v ===== *)
(** The life of an [EventLoop] as an object: its constructor and destructor
    ([base/EventLoop.cpp]) with those of its members, the poller
    ([base/poller/*.cpp]) and the [TimerQueue] ([base/TimerQueue.cpp]), in the
    order in which C++ runs them, and the descriptors they own. *)

From S2P Require Import Prelude BaseWatcher BasePoller.

Module LoopLifetime.

(** The system calls, with their results, and [close]. *)
Inductive call :=
  | EpollCreate1 (r : Z)
  | TimerfdCreate (r : Z)
  | Eventfd (r : Z)
  | Signal                        (* [signal(SIGPIPE, SIG_IGN)] *)
  | Close (fd : Z).

Abbreviation trace := (list call).

(** The kernel's answers. *)
Record kernel := {
  epoll_create1 : trace -> Z;
  timerfd_create : trace -> Z;
  eventfd : trace -> Z
}.

(** [abort()] ends the program; [Undefined] is a call on an object that does
    not exist. *)
Inductive outcome (A : Type) := Ok (a : A) | Aborted | Undefined.
Arguments Ok {A} a.
Arguments Aborted {A}.
Arguments Undefined {A}.

#[export] Instance outcome_bind : MBind outcome := fun A B f o =>
  match o with Ok a => f a | Aborted => Aborted | Undefined => Undefined end.

(** [IgnoreSigPipe initObj;] before [main]. *)
Definition IgnoreSigPipe (l : trace) : trace := l ++ [Signal].

Section Lifetime.
(** [new_poller fd] is the state of a poller just constructed, [fd] being what
    [epoll_create1] returned; [timer] and [wakeup] are the addresses of the two
    watchers. *)
Context {P : Type} `{!Poller P} (k : kernel) (new_poller : Z -> P) (timer wakeup : Z).

(** The members that own something, [None] before their constructor and after
    their destructor. *)
Record t := mk {
  poller_ : option (Z * P);                 (* with [epollfd_] *)
  timerQueue_ : option (Z * Watcher.t);     (* [timerfd_], [watcher_] *)
  wakeupFd_ : Z;
  wakeupWatcher_ : option Watcher.t;
  calls : trace
}.

Definition storage (l : trace) : t := mk None None (-1) None l.

Definition set_poller (p : option (Z * P)) (s : t) : t :=
  mk p (timerQueue_ s) (wakeupFd_ s) (wakeupWatcher_ s) (calls s).
Definition set_timerQueue (q : option (Z * Watcher.t)) (s : t) : t :=
  mk (poller_ s) q (wakeupFd_ s) (wakeupWatcher_ s) (calls s).
Definition set_wakeup (fd : Z) (w : option Watcher.t) (s : t) : t :=
  mk (poller_ s) (timerQueue_ s) fd w (calls s).
Definition emit (c : call) (s : t) : t :=
  mk (poller_ s) (timerQueue_ s) (wakeupFd_ s) (wakeupWatcher_ s) (calls s ++ [c]).

(** A call on a watcher of this loop, which goes to [loop_->poller_]. *)
Definition watcher_op (o : WatcherOps.op) (w : Watcher.t) (s : t) : outcome (Watcher.t * t) :=
  match poller_ s with
  | None => Undefined
  | Some (fd, p) =>
      match WatcherOps.apply_op o w p with
      | Some (w', p') => Ok (w', set_poller (Some (fd, p')) s)
      | None => Undefined
      end
  end.

(** [EPollPoller::EPollPoller], from [Poller::createDefault()]. The result of
    [epoll_create1] is not looked at. *)
Definition createDefault (s : t) : t :=
  let r := epoll_create1 k (calls s) in set_poller (Some (r, new_poller r)) (emit (EpollCreate1 r) s).

Definition createTimerfd (s : t) : outcome (Z * t) :=
  let timerfd := timerfd_create k (calls s) in
  if timerfd <? 0 then Aborted else Ok (timerfd, emit (TimerfdCreate timerfd) s).

Definition createEventfd (s : t) : outcome (Z * t) :=
  let fd := eventfd k (calls s) in
  if fd <? 0 then Aborted else Ok (fd, emit (Eventfd fd) s).

(** [TimerQueue::TimerQueue] *)
Definition newTimerQueue (s : t) : outcome t :=
  '(timerfd, s1) ← createTimerfd s;
  '(w, s2) ← watcher_op WatcherOps.EnableReading (Watcher.make timer timerfd) s1;
  Ok (set_timerQueue (Some (timerfd, w)) s2).

(** [EventLoop::EventLoop]: the members in the order of their declaration, then
    the body. *)
Definition construct (s : t) : outcome t :=
  let s1 := createDefault s in
  s2 ← newTimerQueue s1;
  '(fd, s3) ← createEventfd s2;
  let s4 := set_wakeup fd (Some (Watcher.make wakeup fd)) s3 in
  '(w, s5) ← watcher_op WatcherOps.EnableReading (Watcher.make wakeup fd) s4;
  Ok (set_wakeup fd (Some w) s5).

(** [TimerQueue::~TimerQueue] *)
Definition destroyTimerQueue (s : t) : outcome t :=
  match timerQueue_ s with
  | None => Undefined
  | Some (timerfd, w) =>
      '(_, s1) ← watcher_op WatcherOps.DisableAll w s;
      Ok (set_timerQueue None (emit (Close timerfd) s1))
  end.

(** [EPollPoller::~EPollPoller] *)
Definition destroyPoller (s : t) : outcome t :=
  match poller_ s with
  | None => Undefined
  | Some (epollfd, _) => Ok (set_poller None (emit (Close epollfd) s))
  end.

(** The body of [EventLoop::~EventLoop], and the end of [wakeupWatcher_]. *)
Definition destruct_body (s : t) : outcome t :=
  match wakeupWatcher_ s with
  | None => Undefined
  | Some w =>
      '(_, s1) ← watcher_op WatcherOps.DisableAll w s;
      Ok (set_wakeup (wakeupFd_ s1) None (emit (Close (wakeupFd_ s1)) s1))
  end.

(** [EventLoop::~EventLoop]: the body, then the members in reverse order. *)
Definition destruct_loop (s : t) : outcome t :=
  s1 ← destruct_body s;
  s2 ← destroyTimerQueue s1;
  destroyPoller s2.

(** In between, the loop's other watchers do [ops]. *)
Definition live (ops : list (nat * WatcherOps.op)) (ws : list Watcher.t) (s : t) : outcome (list Watcher.t * t) :=
  match poller_ s with
  | None => Undefined
  | Some (fd, p) =>
      match WatcherOps.run_calls ops ws p with
      | Some (ws', p') => Ok (ws', set_poller (Some (fd, p')) s)
      | None => Undefined
      end
  end.

(** ** The descriptors *)

(** The descriptors that calls so far opened and did not close. *)
Definition in_use (l : trace) : gset Z :=
  foldl (fun fds c =>
    match c with
    | EpollCreate1 r | TimerfdCreate r | Eventfd r => if 0 <=? r then {[r]} ∪ fds else fds
    | Signal => fds
    | Close fd => fds ∖ {[fd]}
    end) ∅ l.

Lemma in_use_app l1 l2 :
  in_use (l1 ++ l2) = foldl (fun fds c =>
    match c with
    | EpollCreate1 r | TimerfdCreate r | Eventfd r => if 0 <=? r then {[r]} ∪ fds else fds
    | Signal => fds
    | Close fd => fds ∖ {[fd]}
    end) (in_use l1) l2.
Proof. apply foldl_app. Qed.

(** Opening three descriptors that were not in use and closing them leaves in
    use what was. *)
Lemma in_use_restored l e t w :
  0 <= e -> 0 <= t -> 0 <= w -> e ∉ in_use l -> t ∉ in_use l -> w ∉ in_use l ->
  in_use (l ++ [EpollCreate1 e; TimerfdCreate t; Eventfd w; Close w; Close t; Close e]) = in_use l.
Proof.
  intros. rewrite in_use_app. cbn. rewrite !(proj2 (Z.leb_le _ _)) by done. set_solver.
Qed.

(** ** Runs *)

(** What other watchers of the loop do leaves the watchers [pre] registered as
    they were. *)
Lemma run_calls_frame pre ops ws (p : P) :
  WatcherOps.all_synced (pre ++ ws) p -> Forall (fun c => (c.1 < length ws)%nat) ops ->
  exists ws' p', WatcherOps.run_calls ops ws p = Some (ws', p') /\
    WatcherOps.all_synced (pre ++ ws') p'.
Proof.
  revert ws p. induction ops as [|[i o] ops IH]; intros ws p Hall Hops; cbn.
  { by exists ws, p. }
  apply Forall_cons_1 in Hops as [Hi Hops]. cbn in Hi.
  destruct (lookup_lt_is_Some_2 ws i Hi) as [w Hw].
  destruct (WatcherOps.apply_op_all (length pre + i) o w (pre ++ ws) p Hall) as (w' & p' & E & Hall').
  { rewrite lookup_app_r by lia. by replace (length pre + i - length pre)%nat with i by lia. }
  rewrite Hw. cbn. rewrite E. cbn. rewrite insert_app_r in Hall'.
  apply IH; [done|]. by rewrite length_insert.
Qed.

(** The kernel's answers to the constructor that follows the calls [l]. *)
Definition epollfd (l : trace) : Z := epoll_create1 k l.
Definition timerfd (l : trace) : Z := timerfd_create k (l ++ [EpollCreate1 (epollfd l)]).
Definition wakeupfd (l : trace) : Z :=
  eventfd k ((l ++ [EpollCreate1 (epollfd l)]) ++ [TimerfdCreate (timerfd l)]).

Definition opening (l : trace) : trace :=
  [EpollCreate1 (epollfd l); TimerfdCreate (timerfd l); Eventfd (wakeupfd l)].

(** What the system promises: a descriptor returned is not in use, and a poller
    on a valid descriptor starts empty. *)
Record sane : Prop := {
  fresh_epoll l : epoll_create1 k l ∉ in_use l;
  fresh_timerfd l : timerfd_create k l ∉ in_use l;
  fresh_eventfd l : eventfd k l ∉ in_use l;
  new_ok fd : 0 <= fd -> poller_ok (new_poller fd) /\ interest (new_poller fd) = ∅
}.

(** A loop between its constructor and its destructor: it owns the three
    descriptors, and its two watchers are registered beside those of its
    clients. *)
Inductive alive (l : trace) (clients : list Watcher.t) : t -> Prop :=
  | alive_intro p :
      WatcherOps.all_synced
        (Watcher.mk wakeup (wakeupfd l) 3 0 true :: Watcher.mk timer (timerfd l) 3 0 true :: clients) p ->
      alive l clients
        (mk (Some (epollfd l, p)) (Some (timerfd l, Watcher.mk timer (timerfd l) 3 0 true))
           (wakeupfd l) (Some (Watcher.mk wakeup (wakeupfd l) 3 0 true)) (l ++ opening l)).

Lemma alive_live l clients s ops :
  alive l clients s -> Forall (fun c => (c.1 < length clients)%nat) ops ->
  exists clients' s', live ops clients s = Ok (clients', s') /\ alive l clients' s'.
Proof.
  intros [p Hp] Hops. unfold live. cbn.
  destruct (run_calls_frame [_; _] ops clients p Hp Hops) as (ws' & p' & -> & H').
  do 2 eexists. split; [done|]. by apply alive_intro.
Qed.

Lemma watcher_op_disable w ws fd (p : P) q n ww l :
  WatcherOps.all_synced (w :: ws) p ->
  exists w' p', watcher_op WatcherOps.DisableAll w (mk (Some (fd, p)) q n ww l) =
      Ok (w', mk (Some (fd, p')) q n ww l) /\
    WatcherOps.all_synced ws p' /\ interest p' = delete (Watcher.fd_ w) (interest p).
Proof.
  intros Hp. destruct (WatcherOps.apply_op_all 0 WatcherOps.DisableAll w (w :: ws) p Hp eq_refl)
    as (w' & p' & E & Hok & Hnd & Hall).
  destruct Hp as (Hp & _ & Hws). apply Forall_cons_1 in Hws as [Hw _].
  destruct (WatcherOps.apply_op_spec WatcherOps.DisableAll w p Hp Hw) as (w2 & p2 & E2 & _ & _ & _ & Hi).
  rewrite E in E2. injection E2 as <- <-.
  cbn in Hnd, Hall, Hi. exists w', p'. unfold watcher_op. cbn in *. rewrite E. split; [done|].
  apply list.NoDup_cons in Hnd as [_ Hnd]. by apply Forall_cons_1 in Hall as [_ Hall].
Qed.

Lemma watcher_op_enable a fd efd ws (p : P) q n ww l :
  WatcherOps.all_synced ws p -> fd ∉ Watcher.fd_ <$> ws -> interest p !! fd = None ->
  exists p', watcher_op WatcherOps.EnableReading (Watcher.make a fd) (mk (Some (efd, p)) q n ww l) =
      Ok (Watcher.mk a fd 3 0 true, mk (Some (efd, p')) q n ww l) /\
    WatcherOps.all_synced (Watcher.mk a fd 3 0 true :: ws) p' /\
    interest p' = <[fd := (3, a)]> (interest p).
Proof.
  intros (Hp & Hnd & Hall) Hfd Hno.
  destruct (WatcherOps.apply_op_all 0 WatcherOps.EnableReading (Watcher.make a fd)
    (Watcher.make a fd :: ws) p) as (w' & p' & E & Hall'); [|done|].
  { split; [done|]. split; [by apply list.NoDup_cons|]. by constructor; [apply WatcherOps.synced_make|]. }
  destruct (WatcherOps.apply_op_spec WatcherOps.EnableReading (Watcher.make a fd) p Hp)
    as (w2 & p2 & E2 & _ & _ & -> & Hi); [by apply WatcherOps.synced_make|].
  rewrite E in E2. injection E2 as -> ->. exists p2. unfold watcher_op. cbn in *. rewrite E.
  done.
Qed.

(** Watchers just made, of distinct descriptors none of which is registered. *)
Lemma synced_made cs (p : P) :
  poller_ok p -> interest p = ∅ -> NoDup cs.*2 ->
  WatcherOps.all_synced (uncurry Watcher.make <$> cs) p /\
  Watcher.fd_ <$> (uncurry Watcher.make <$> cs) = cs.*2.
Proof.
  intros Hp Hi Hnd.
  assert (Watcher.fd_ <$> (uncurry Watcher.make <$> cs) = cs.*2) as E.
  { rewrite <- list_fmap_compose. by apply list_fmap_ext; intros ? [] ?. }
  split; [|done]. split; [done|]. split; [by rewrite E|].
  apply Forall_fmap, Forall_forall. intros [a fd] _. apply WatcherOps.synced_make.
  by rewrite Hi, lookup_empty.
Qed.

Lemma wakeup_distinct l : sane -> 0 <= timerfd l -> timerfd l <> wakeupfd l.
Proof.
  intros Hk Ht E. apply (fresh_eventfd Hk ((l ++ [EpollCreate1 (epollfd l)]) ++ [TimerfdCreate (timerfd l)])).
  change (eventfd k _) with (wakeupfd l). rewrite <- E, in_use_app. cbn.
  rewrite (proj2 (Z.leb_le _ _)) by done. set_solver.
Qed.

Lemma construct_alive l cs :
  sane -> 0 <= epollfd l -> 0 <= timerfd l -> 0 <= wakeupfd l ->
  NoDup cs.*2 -> timerfd l ∉ cs.*2 -> wakeupfd l ∉ cs.*2 ->
  exists s, construct (storage l) = Ok s /\ alive l (uncurry Watcher.make <$> cs) s.
Proof.
  intros Hk He Ht Hw Hnd Htc Hwc.
  destruct (new_ok Hk (epollfd l) He) as [Hp Hi].
  destruct (synced_made cs _ Hp Hi Hnd) as [Hall Hfd].
  pose proof (wakeup_distinct l Hk Ht) as Hne.
  unfold construct, newTimerQueue, createTimerfd, createDefault. cbn -[watcher_op].
  fold (epollfd l). fold (timerfd l). rewrite (proj2 (Z.ltb_ge _ _)) by done. cbn -[watcher_op].
  edestruct (watcher_op_enable timer (timerfd l) (epollfd l)) as (p1 & E1 & Hall1 & Hi1);
    [done|by rewrite Hfd|by rewrite Hi, lookup_empty|]. unfold emit, set_poller. cbn -[watcher_op].
  rewrite E1. cbn -[watcher_op]. unfold createEventfd, set_timerQueue. cbn -[watcher_op].
  fold (wakeupfd l). rewrite (proj2 (Z.ltb_ge _ _)) by done. cbn -[watcher_op]. unfold set_wakeup, emit. cbn -[watcher_op].
  edestruct (watcher_op_enable wakeup (wakeupfd l) (epollfd l)) as (p2 & E2 & Hall2 & _).
  - exact Hall1.
  - cbn -[watcher_op]. rewrite Hfd. intros [?|?]%elem_of_cons; [by apply Hne|done].
  - by rewrite Hi1, lookup_insert_ne, Hi, lookup_empty.
  - rewrite E2. cbn -[watcher_op]. eexists. split; [done|]. rewrite <- !app_assoc. by apply alive_intro.
Qed.

Lemma construct_aborts l :
  sane -> 0 <= epollfd l -> timerfd l < 0 \/ (0 <= timerfd l /\ wakeupfd l < 0) ->
  construct (storage l) = Aborted.
Proof.
  intros Hk He Hfail. destruct (new_ok Hk (epollfd l) He) as [Hp Hi].
  unfold construct, newTimerQueue, createTimerfd, createDefault. cbn -[watcher_op].
  fold (epollfd l). fold (timerfd l). destruct Hfail as [Ht|[Ht Hw]].
  { by rewrite (proj2 (Z.ltb_lt _ _)). }
  rewrite (proj2 (Z.ltb_ge _ _)) by done. cbn -[watcher_op].
  edestruct (watcher_op_enable timer (timerfd l) (epollfd l) []) as (p1 & E1 & _ & _);
    [by split; [|split; constructor]|by apply not_elem_of_nil|by rewrite Hi, lookup_empty|].
  unfold emit, set_poller. cbn -[watcher_op]. rewrite E1. cbn -[watcher_op]. unfold createEventfd, set_timerQueue. cbn -[watcher_op].
  fold (wakeupfd l). by rewrite (proj2 (Z.ltb_lt _ _)).
Qed.

(** The poller of [s] has the loop's two watchers registered. *)
Definition registered (l : trace) (s : t) : Prop :=
  exists p, poller_ s = Some (epollfd l, p) /\
    interest p !! timerfd l = Some (3, timer) /\ interest p !! wakeupfd l = Some (3, wakeup).

(** It has neither, and agrees with the watchers [ws] of others. *)
Definition unregistered (l : trace) (ws : list Watcher.t) (s : t) : Prop :=
  exists p, poller_ s = Some (epollfd l, p) /\ WatcherOps.all_synced ws p /\
    interest p !! timerfd l = None /\ interest p !! wakeupfd l = None.

Lemma alive_registered l clients s : alive l clients s -> registered l s.
Proof.
  intros [p (_ & _ & [[_ [_ Hw]] [[_ [_ Ht]] _]%Forall_cons_1]%Forall_cons_1)]. by exists p.
Qed.

(** The destructor: both watchers are unregistered while the poller exists, and
    the three descriptors are closed. *)
Lemma alive_destruct l clients s :
  alive l clients s ->
  exists s1 s2, (s' ← destruct_body s; destroyTimerQueue s') = Ok s1 /\ unregistered l clients s1 /\
    destroyPoller s1 = Ok s2 /\ destruct_loop s = Ok s2 /\ poller_ s2 = None /\
    calls s2 = l ++ opening l ++ [Close (wakeupfd l); Close (timerfd l); Close (epollfd l)].
Proof.
  intros [p Hp]. unfold destruct_loop, destruct_body. cbn -[watcher_op].
  edestruct watcher_op_disable as (w1 & p1 & E1 & Hp1 & Hi1); [exact Hp|].
  rewrite E1. cbn -[watcher_op]. unfold destroyTimerQueue, set_wakeup, emit. cbn -[watcher_op].
  edestruct watcher_op_disable as (w2 & p2 & E2 & Hp2 & Hi2); [exact Hp1|].
  rewrite E2. cbn. eexists _, _. split; [done|]. split; [|split; [done|]; split; [done|]; split; [done|]].
  - exists p2. split; [done|]. split; [done|]. rewrite Hi2, Hi1. cbn.
    split; [apply lookup_delete_eq|]. rewrite lookup_delete. case_decide; [done|apply lookup_delete_eq].
  - cbn. by rewrite <- !app_assoc.
Qed.

(** C8: when [epoll_create1] succeeds, an [EventLoop]'s constructor aborts when a
    timer or an event descriptor cannot be had, and otherwise builds a loop
    whose two own watchers are registered, and stay so while other watchers, of
    other descriptors, use the poller in any way. The destructor then does
    nothing undefined: when it comes to destroy the poller, this has neither of
    the two registered any more, and every other watcher as before; it closes
    each of the loop's three descriptors once, so that those in use are as
    before the constructor; and no watcher of the loop may be used after it. *)
Theorem loop_lifecycle (l : trace) (cs : list (Z * Z)) (ops : list (nat * WatcherOps.op))
  (Hk : sane) (He : 0 <= epollfd l) (Hcs : NoDup cs.*2)
  (Htimer : timerfd l ∉ cs.*2) (Hwakeup : wakeupfd l ∉ cs.*2)
  (Hops : Forall (fun c => (c.1 < length cs)%nat) ops) :
  if (timerfd l <? 0) || (wakeupfd l <? 0) then construct (storage l) = Aborted
  else exists s1 ws s2 s3 s4,
    construct (storage l) = Ok s1 /\ registered l s1 /\
    live ops (uncurry Watcher.make <$> cs) s1 = Ok (ws, s2) /\ registered l s2 /\
    (s ← destruct_body s2; destroyTimerQueue s) = Ok s3 /\ unregistered l ws s3 /\
    destroyPoller s3 = Ok s4 /\ destruct_loop s2 = Ok s4 /\
    calls s4 = l ++ opening l ++ [Close (wakeupfd l); Close (timerfd l); Close (epollfd l)] /\
    in_use (calls s4) = in_use l /\
    forall o w, watcher_op o w s4 = Undefined.
Proof.
  destruct (timerfd l <? 0) eqn:Et; zbool; cbn; [apply construct_aborts; auto|].
  destruct (wakeupfd l <? 0) eqn:Ew; zbool; [apply construct_aborts; auto|].
  destruct (construct_alive l cs) as (s1 & E1 & H1); try done.
  destruct (alive_live l _ s1 ops H1) as (ws & s2 & E2 & H2); [by rewrite length_fmap|].
  destruct (alive_destruct l ws s2 H2) as (s3 & s4 & E3 & Hun & E4 & E5 & Hn & Hc).
  exists s1, ws, s2, s3, s4. rewrite Hc. split; [done|]. split; [by eapply alive_registered|].
  split; [done|]. split; [by eapply alive_registered|]. repeat (split; [done|]). split.
  - apply in_use_restored; try done; [apply Hk| |].
    + intros Hin. apply (fresh_timerfd Hk (l ++ [EpollCreate1 (epollfd l)])).
      rewrite in_use_app. cbn. case_match; set_solver.
    + intros Hin. apply (fresh_eventfd Hk ((l ++ [EpollCreate1 (epollfd l)]) ++ [TimerfdCreate (timerfd l)])).
      rewrite !in_use_app. cbn. repeat case_match; set_solver.
  - intros o w. unfold watcher_op. by rewrite Hn.
Qed.

End Lifetime.

(** ** A run *)

(** A kernel that returns the number after the highest so far. *)
Definition highest (l : trace) : Z :=
  foldr (fun c m => match c with EpollCreate1 r | TimerfdCreate r | Eventfd r => Z.max r m | _ => m end) 2 l.

Definition sample_kernel : kernel :=
  {| epoll_create1 l := highest l + 1; timerfd_create l := highest l + 1; eventfd l := highest l + 1 |}.

Lemma highest_snoc l c :
  highest (l ++ [c]) =
  match c with EpollCreate1 r | TimerfdCreate r | Eventfd r => Z.max r (highest l) | _ => highest l end.
Proof.
  unfold highest. induction l as [|d l IH]; cbn; [done|]. rewrite IH. destruct c, d; lia.
Qed.

Lemma in_use_highest l fd : fd ∈ in_use l -> fd <= highest l.
Proof.
  induction l as [|c l IH] using rev_ind; intros Hfd; [by apply elem_of_empty in Hfd|].
  rewrite highest_snoc. rewrite in_use_app in Hfd. cbn in Hfd.
  destruct c; try case_match; set_unfold; destruct_or?; destruct_and?; subst; try lia;
    specialize (IH ltac:(done)); lia.
Qed.

#[local] Instance lifetime_poll : Poller PollPoller.t := PollPoller.poll_poller id (fun _ => eq_refl).

Lemma sample_sane : sane sample_kernel (fun _ => PollPoller.make).
Proof.
  split; intros; try (cbn; intros Hin%in_use_highest; lia).
  split; [apply PollPoller.poll_wf_make|done].
Qed.

(** Two connections come and go on the loop's descriptors' poller. *)
Definition sample_calls : list (nat * WatcherOps.op) :=
  [(0%nat, WatcherOps.EnableReading); (1%nat, WatcherOps.EnableWriting); (0%nat, WatcherOps.DisableAll)].

Lemma loop_lifecycle_witness :
  exists s1 ws s2 s3 s4,
    construct sample_kernel (fun _ => PollPoller.make) 100 200 (storage (IgnoreSigPipe [])) = Ok s1 /\
    registered sample_kernel 100 200 (IgnoreSigPipe []) s1 /\
    live sample_calls (uncurry Watcher.make <$> [(300, 10); (400, 11)]) s1 = Ok (ws, s2) /\
    registered sample_kernel 100 200 (IgnoreSigPipe []) s2 /\
    (s ← destruct_body s2; destroyTimerQueue s) = Ok s3 /\
    unregistered sample_kernel (IgnoreSigPipe []) ws s3 /\
    destroyPoller s3 = Ok s4 /\ destruct_loop s2 = Ok s4 /\
    calls s4 = [Signal; EpollCreate1 3; TimerfdCreate 4; Eventfd 5; Close 5; Close 4; Close 3] /\
    in_use (calls s4) = ∅ /\
    forall o w, watcher_op o w s4 = Undefined.
Proof.
  refine (loop_lifecycle sample_kernel (fun _ => PollPoller.make) 100 200 (IgnoreSigPipe [])
    [(300, 10); (400, 11)] sample_calls sample_sane _ _ _ _ _).
  - vm_compute. discriminate.
  - by apply (bool_decide_unpack _).
  - by apply (bool_decide_unpack _).
  - by apply (bool_decide_unpack _).
  - repeat constructor.
Defined.
End LoopLifetime.
