(* ===== verification/NetSocket.v ===== *)
(** [nutty/net/Socket.*] and [InetAddress.*]: a [Socket] owns a descriptor,
    which moves with it and is closed with it. The kernel is a parameter: its
    answer to a system call is a function of the calls made before. *)

From S2P Require Import Prelude.

(** ** Addresses *)

Module InetAddress.

(** [struct sockaddr_in]; [sin_port] as the bytes in memory. *)
Record sockaddr_in := mk_sockaddr {
  sin_family : Z;
  sin_port : Z;
  sin_addr : Z
}.

#[export] Instance sockaddr_in_eq_dec : EqDecision sockaddr_in.
Proof. solve_decision. Defined.

Definition AF_INET : Z := 2.

(** [bzero(&addr, sizeof addr)] *)
Definition zero : sockaddr_in := mk_sockaddr 0 0 0.

(** On a little-endian host: the two bytes of a [uint16_t] are swapped. *)
Definition htons (port : Z) : Z := port `mod` 256 * 256 + port / 256.

(** [InetAddress::InetAddress(const char* ip, uint16_t port)]. [inet_pton]
    stores an address only when it can parse [ip]; its result is not used. *)
Definition make (inet_pton : list byte -> option Z) (ip : list byte) (port : Z) : sockaddr_in :=
  mk_sockaddr AF_INET (htons port) (default (sin_addr zero) (inet_pton ip)).

(** [InetAddress(const struct sockaddr_in&)], [getSockAddr] and [setSockAddr]
    copy the structure. *)
Definition setSockAddr (addr : sockaddr_in) (addr_ : sockaddr_in) : sockaddr_in := addr.
Definition getSockAddr (addr_ : sockaddr_in) : sockaddr_in := addr_.

Lemma htons_involutive port : 0 <= port < 65536 -> htons (htons port) = port /\ 0 <= htons port < 65536.
Proof.
  intros Hp. unfold htons. pose proof (Z.mod_pos_bound port 256 ltac:(lia)).
  assert (0 <= port / 256 < 256) by (split; [apply Z.div_pos; lia|apply Z.div_lt_upper_bound; lia]).
  assert (forall a b, 0 <= b < 256 -> (a * 256 + b) `mod` 256 = b /\ (a * 256 + b) / 256 = a) as Hab.
  { intros a b Hb. rewrite Z.add_comm, Z.mod_add, Z.div_add, Z.mod_small, Z.div_small by lia. lia. }
  destruct (Hab (port `mod` 256) (port / 256)) as [-> ->]; [done|].
  pose proof (Z.div_mod port 256 ltac:(lia)). lia.
Qed.

(** An address that cannot be parsed becomes 0.0.0.0, "any address". *)
Lemma bad_ip_is_any_address inet_pton ip port :
  inet_pton ip = None -> sin_addr (make inet_pton ip port) = 0.
Proof. unfold make. by intros ->. Qed.
End InetAddress.

(** ** Sockets *)

Module Socket.
Import InetAddress.

(** Constants of the system headers. *)
Definition SOL_SOCKET : Z := 1.
Definition SO_REUSEADDR : Z := 2.
Definition SO_ERROR : Z := 4.
Definition SO_KEEPALIVE : Z := 9.
Definition IPPROTO_TCP : Z := 6.
Definition SOL_TCP : Z := 6.
Definition TCP_NODELAY : Z := 1.
Definition TCP_KEEPIDLE : Z := 4.
Definition SOMAXCONN : Z := 4096.
Definition SHUT_WR : Z := 1.

(** System calls with their arguments. *)
Inductive call :=
  | CSocket
  | CAccept (fd : Z)
  | CClose (fd : Z)
  | CBind (fd : Z) (addr : sockaddr_in)
  | CListen (fd backlog : Z)
  | CConnect (fd : Z) (addr : sockaddr_in)
  | CShutdown (fd how : Z)
  | CSetsockopt (fd level name value : Z)
  | CGetsockopt (fd level name : Z)
  | CGetsockname (fd : Z)
  | CGetpeername (fd : Z).

(** The calls made, with what they returned. *)
Abbreviation trace := (list (call * Z)).

(** The result of a call, [errno] after it, and what it stored through the
    pointer it was given. *)
Record env := {
  sys_result : trace -> call -> Z;
  sys_errno : trace -> call -> Z;
  sys_value : trace -> call -> Z;
  sys_addr : trace -> call -> sockaddr_in
}.

Section Socket.
Context (e : env).

Definition sys (c : call) (l : trace) : Z * trace := let r := sys_result e l c in (r, l ++ [(c, r)]).

(** A [Socket] is its [sockfd_]. *)
Definition make (l : trace) : Z * trace := sys CSocket l.

(** [Socket(Socket&& socket)]: the new socket, and [socket]. *)
Definition make_move (sockfd_ : Z) : Z * Z := (sockfd_, -1).

(** [~Socket()] *)
Definition destroy (sockfd_ : Z) (l : trace) : trace :=
  if 0 <=? sockfd_ then (sys (CClose sockfd_) l).2 else l.

Definition bind (sockfd_ : Z) (addr : sockaddr_in) (l : trace) : Z * trace := sys (CBind sockfd_ addr) l.
Definition listen (sockfd_ : Z) (l : trace) : Z * trace := sys (CListen sockfd_ SOMAXCONN) l.

(** [accept()] and [accept(addr)]: the new socket. *)
Definition accept (sockfd_ : Z) (l : trace) : Z * trace := sys (CAccept sockfd_) l.
Definition accept_addr (sockfd_ : Z) (l : trace) : Z * sockaddr_in * trace :=
  let '(fd, l1) := sys (CAccept sockfd_) l in (fd, sys_addr e l (CAccept sockfd_), l1).

Definition connect (sockfd_ : Z) (addr : sockaddr_in) (l : trace) : Z * trace := sys (CConnect sockfd_ addr) l.
Definition shutdownWrite (sockfd_ : Z) (l : trace) : Z * trace := sys (CShutdown sockfd_ SHUT_WR) l.

Definition optval (b : bool) : Z := if b then 1 else 0.
Definition setReuseAddr (reuseaddr : bool) (sockfd_ : Z) (l : trace) : Z * trace :=
  sys (CSetsockopt sockfd_ SOL_SOCKET SO_REUSEADDR (optval reuseaddr)) l.
Definition setTcpNoDelay (nodelay : bool) (sockfd_ : Z) (l : trace) : Z * trace :=
  sys (CSetsockopt sockfd_ IPPROTO_TCP TCP_NODELAY (optval nodelay)) l.
Definition setKeepAlive (keepalive : bool) (sockfd_ : Z) (l : trace) : Z * trace :=
  sys (CSetsockopt sockfd_ SOL_SOCKET SO_KEEPALIVE (optval keepalive)) l.
Definition setKeepIdle (value : Z) (sockfd_ : Z) (l : trace) : Z * trace :=
  sys (CSetsockopt sockfd_ SOL_TCP TCP_KEEPIDLE value) l.

Definition getError (sockfd_ : Z) (l : trace) : Z * trace :=
  let c := CGetsockopt sockfd_ SOL_SOCKET SO_ERROR in
  let '(r, l1) := sys c l in
  (if r <? 0 then sys_errno e l c else sys_value e l c, l1).

Definition getSockName (sockfd_ : Z) (l : trace) : sockaddr_in * trace :=
  let '(r, l1) := sys (CGetsockname sockfd_) l in
  (if r <? 0 then zero else sys_addr e l (CGetsockname sockfd_), l1).

Definition getPeerName (sockfd_ : Z) (l : trace) : sockaddr_in * trace :=
  let '(r, l1) := sys (CGetpeername sockfd_) l in
  (if r <? 0 then zero else sys_addr e l (CGetpeername sockfd_), l1).

(** *** Programs that use sockets *)

(** The socket objects that exist, by number, and the calls made. *)
Record world := mk_world { sockets : gmap nat Z; tr : trace }.

(** The operations that use a descriptor and leave it as it is; reading and
    writing are in the components that do it. *)
Inductive use :=
  | UBind (addr : sockaddr_in)
  | UListen
  | UConnect (addr : sockaddr_in)
  | UShutdownWrite
  | UReuseAddr (reuseaddr : bool)
  | UNoDelay (nodelay : bool)
  | UKeepAlive (keepalive : bool)
  | UKeepIdle (value : Z)
  | UGetError
  | UGetSockName
  | UGetPeerName.

(** The calls made after it. *)
Definition perform (u : use) (sockfd_ : Z) (l : trace) : trace :=
  match u with
  | UBind addr => (bind sockfd_ addr l).2
  | UListen => (listen sockfd_ l).2
  | UConnect addr => (connect sockfd_ addr l).2
  | UShutdownWrite => (shutdownWrite sockfd_ l).2
  | UReuseAddr b => (setReuseAddr b sockfd_ l).2
  | UNoDelay b => (setTcpNoDelay b sockfd_ l).2
  | UKeepAlive b => (setKeepAlive b sockfd_ l).2
  | UKeepIdle v => (setKeepIdle v sockfd_ l).2
  | UGetError => (getError sockfd_ l).2
  | UGetSockName => (getSockName sockfd_ l).2
  | UGetPeerName => (getPeerName sockfd_ l).2
  end.

Inductive op :=
  | OSocket (i : nat)           (* construct socket [i] *)
  | OAccept (j i : nat)         (* construct [i] from [j].accept() *)
  | OAcceptAddr (j i : nat)     (* construct [i] from [j].accept(addr) *)
  | OMove (j i : nat)           (* construct [i] from [std::move(j)] *)
  | ODestroy (i : nat)
  | OUse (i : nat) (u : use).

(** [None] is the use of an object that does not exist, or the construction
    of one that does. *)
Definition step (o : op) (w : world) : option world :=
  let fresh i := match sockets w !! i with None => Some tt | Some _ => None end in
  match o with
  | OSocket i =>
      _ ← fresh i;
      let '(fd, l) := make (tr w) in Some (mk_world (<[i := fd]> (sockets w)) l)
  | OAccept j i =>
      fd ← sockets w !! j; _ ← fresh i;
      let '(fd', l) := accept fd (tr w) in Some (mk_world (<[i := fd']> (sockets w)) l)
  | OAcceptAddr j i =>
      fd ← sockets w !! j; _ ← fresh i;
      let '(fd', _, l) := accept_addr fd (tr w) in Some (mk_world (<[i := fd']> (sockets w)) l)
  | OMove j i =>
      fd ← sockets w !! j; _ ← fresh i;
      let '(fd1, fd2) := make_move fd in
      Some (mk_world (<[i := fd1]> (<[j := fd2]> (sockets w))) (tr w))
  | ODestroy i =>
      fd ← sockets w !! i; Some (mk_world (delete i (sockets w)) (destroy fd (tr w)))
  | OUse i u =>
      fd ← sockets w !! i; Some (mk_world (sockets w) (perform u fd (tr w)))
  end.

Fixpoint run (ops : list op) (w : world) : option world :=
  match ops with
  | [] => Some w
  | o :: rest => w1 ← step o w; run rest w1
  end.

Definition start : world := mk_world ∅ [].

(** ** Descriptors *)

(** The descriptors that are open after these calls. *)
Definition opens (c : call) : bool := match c with CSocket | CAccept _ => true | _ => false end.

Definition after (fds : gset Z) (ev : call * Z) : gset Z :=
  match ev with
  | (CClose fd, _) => fds ∖ {[fd]}
  | (c, r) => if opens c && (0 <=? r) then {[r]} ∪ fds else fds
  end.

Definition open_fds (l : trace) : gset Z := foldl after ∅ l.

#[local] Arguments open_fds : simpl never.

Lemma open_fds_snoc l ev : open_fds (l ++ [ev]) = after (open_fds l) ev.
Proof. unfold open_fds. by rewrite foldl_app. Qed.

(** A new descriptor is one that is not open. *)
Definition env_ok : Prop := forall l c, opens c = true -> sys_result e l c ∉ open_fds l.

(** Only what is open is closed. *)
Definition closes_open (l : trace) : Prop :=
  forall l1 fd r l2, l = l1 ++ (CClose fd, r) :: l2 -> fd ∈ open_fds l1.

Lemma closes_open_snoc l ev :
  closes_open l -> (forall fd r, ev = (CClose fd, r) -> fd ∈ open_fds l) -> closes_open (l ++ [ev]).
Proof.
  intros Hl Hev l1 fd r l2 E. destruct l2 as [|ev2 l2 _] using rev_ind.
  - apply app_inj_tail in E as [-> ->]. by eapply Hev.
  - rewrite app_comm_cons, app_assoc in E. apply app_inj_tail in E as [-> _]. by eapply Hl.
Qed.

Record owned (w : world) : Prop := {
  owned_open fd : fd ∈ open_fds (tr w) <-> 0 <= fd /\ exists i, sockets w !! i = Some fd;
  owned_once i j fd : 0 <= fd -> sockets w !! i = Some fd -> sockets w !! j = Some fd -> i = j;
  owned_closes : closes_open (tr w)
}.

(** A call that neither opens nor closes. *)
Lemma owned_call w c :
  owned w -> opens c = false -> (forall fd, c <> CClose fd) ->
  owned (mk_world (sockets w) (sys c (tr w)).2).
Proof.
  intros [Ho H1 Hc] Hno Hncl. cbn.
  assert (open_fds (tr w ++ [(c, sys_result e (tr w) c)]) = open_fds (tr w)) as E.
  { rewrite open_fds_snoc. unfold after. rewrite Hno. destruct c; try done. by destruct (Hncl fd). }
  constructor; cbn; [by rewrite E|done|].
  apply closes_open_snoc; [done|]. intros fd r [= -> _]. by destruct (Hncl fd).
Qed.

(** A call whose result becomes a new socket. *)
Lemma owned_open_socket w c i :
  env_ok -> owned w -> opens c = true -> sockets w !! i = None ->
  owned (mk_world (<[i := (sys c (tr w)).1]> (sockets w)) (sys c (tr w)).2).
Proof.
  intros Hk [Ho H1 Hc] Hop Hi. cbn. pose proof (Hk (tr w) c Hop) as Hnew. set (r := sys_result e (tr w) c) in *.
  assert (open_fds (tr w ++ [(c, r)]) = if 0 <=? r then {[r]} ∪ open_fds (tr w) else open_fds (tr w)) as E.
  { rewrite open_fds_snoc. unfold after. rewrite Hop. by destruct c. }
  assert (forall j fd, sockets w !! j = Some fd -> 0 <= fd -> fd <> r) as Hne.
  { intros j fd Hj H0 ->. apply Hnew, Ho. eauto. }
  constructor; cbn.
  - intros fd. rewrite E. destruct (0 <=? r) eqn:Er; zbool.
    + rewrite elem_of_union, elem_of_singleton, Ho. split.
      * intros [->|(H0 & j & Hj)]; [by split; [|exists i; rewrite lookup_insert_eq]|].
        split; [done|]. exists j. rewrite lookup_insert_ne by (intros ->; congruence). done.
      * intros (H0 & j & Hj). apply lookup_insert_Some in Hj as [[_ <-]|[_ Hj]]; eauto.
    + rewrite Ho. split; intros (H0 & j & Hj); (split; [done|]).
      * exists j. rewrite lookup_insert_ne by (intros ->; congruence). done.
      * apply lookup_insert_Some in Hj as [[_ <-]|[_ Hj]]; [lia|eauto].
  - intros j k fd H0 Hj Hk'.
    apply lookup_insert_Some in Hj as [[<- <-]|[_ Hj]];
      apply lookup_insert_Some in Hk' as [[<- Hk1]|[_ Hk2]]; try done.
    + by destruct (Hne k r).
    + subst fd. by destruct (Hne j r).
    + by eapply H1.
  - apply closes_open_snoc; [done|]. by intros fd r' [= -> _].
Qed.

Lemma owned_move w i j fd :
  owned w -> sockets w !! j = Some fd -> sockets w !! i = None ->
  owned (mk_world (<[i := fd]> (<[j := -1]> (sockets w))) (tr w)).
Proof.
  intros [Ho H1 Hc] Hj Hi. assert (i <> j) as Hij by (intros ->; congruence).
  assert (forall k fd', 0 <= fd' -> <[i := fd]> (<[j := -1]> (sockets w)) !! k = Some fd' <->
    (k = i /\ fd' = fd) \/ (k <> i /\ k <> j /\ sockets w !! k = Some fd')) as Hl.
  { intros k fd' H0. rewrite lookup_insert_Some, lookup_insert_Some. split.
    - intros [[<- <-]|[? [[<- <-]|[? ?]]]]; [by left|lia|by right; repeat split].
    - intros [[-> ->]|(? & ? & ?)]; [by left|right; split; [done|right; by split]]. }
  constructor; cbn; [| |done].
  - intros fd'. rewrite Ho. split; intros (H0 & k & Hk); (split; [done|]).
    + destruct (decide (k = j)) as [->|Hkj]; [exists i; apply Hl; [done|left; split; [done|congruence]]|].
      exists k. apply Hl; [done|]. right. split; [intros ->; congruence|done].
    + apply Hl in Hk as [[-> ->]|(_ & _ & Hk)]; eauto.
  - intros k1 k2 fd' H0 Hk1 Hk2. apply Hl in Hk1, Hk2; try done.
    destruct Hk1 as [[-> ->]|(? & ? & Hk1)], Hk2 as [[-> E2]|(? & ? & Hk2)]; try done.
    + by destruct (H1 k2 j fd).
    + subst fd'. by destruct (H1 k1 j fd).
    + by eapply H1.
Qed.

Lemma owned_destroy w i fd :
  owned w -> sockets w !! i = Some fd -> owned (mk_world (delete i (sockets w)) (destroy fd (tr w))).
Proof.
  intros [Ho H1 Hc] Hi. unfold destroy. destruct (0 <=? fd) eqn:E0; zbool.
  - unfold sys. cbn. constructor; cbn.
    + intros fd'. rewrite open_fds_snoc. cbn. rewrite elem_of_difference, elem_of_singleton, Ho. split.
      * intros [(H0 & k & Hk) Hne]. split; [done|]. exists k. rewrite lookup_delete_ne; [done|congruence].
      * intros (H0 & k & Hk). apply lookup_delete_Some in Hk as [Hki Hk]. split; [eauto|].
        intros ->. apply Hki. by eapply H1.
    + intros k1 k2 fd' H0 [_ Hk1]%lookup_delete_Some [_ Hk2]%lookup_delete_Some. by eapply H1.
    + apply closes_open_snoc; [done|]. intros fd' r [= -> _]. apply Ho. eauto.
  - constructor; cbn; [| |done].
    + intros fd'. rewrite Ho. split; intros (H0 & k & Hk); (split; [done|]).
      * exists k. rewrite lookup_delete_ne; [done|]. intros ->. rewrite Hi in Hk. injection Hk as ->. lia.
      * apply lookup_delete_Some in Hk as [_ Hk]. eauto.
    + intros k1 k2 fd' H0 [_ Hk1]%lookup_delete_Some [_ Hk2]%lookup_delete_Some. by eapply H1.
Qed.

Lemma owned_perform w u fd : owned w -> owned (mk_world (sockets w) (perform u fd (tr w))).
Proof. intros Hw. by destruct u; apply owned_call. Qed.

Lemma socket_step_owned (Hk : env_ok) o w w' : owned w -> step o w = Some w' -> owned w'.
Proof.
  intros Hw E. destruct o as [i|j i|j i|j i|i|i u]; cbn [step] in E.
  - destruct (sockets w !! i) eqn:Ei; [done|]. cbn in E. injection E as <-.
    by apply (owned_open_socket w CSocket i).
  - destruct (sockets w !! j) as [fd|]; [|done]. destruct (sockets w !! i) eqn:Ei; [done|]. cbn in E. injection E as <-.
    by apply (owned_open_socket w (CAccept fd) i).
  - destruct (sockets w !! j) as [fd|]; [|done]. destruct (sockets w !! i) eqn:Ei; [done|]. cbn in E. injection E as <-.
    by apply (owned_open_socket w (CAccept fd) i).
  - destruct (sockets w !! j) as [fd|] eqn:Ej; [|done]. destruct (sockets w !! i) eqn:Ei; [done|]. cbn in E.
    injection E as <-. by apply owned_move.
  - destruct (sockets w !! i) as [fd|] eqn:Ei; [|done]. cbn in E. injection E as <-. by apply owned_destroy.
  - destruct (sockets w !! i) as [fd|]; [|done]. cbn in E. injection E as <-. by apply owned_perform.
Qed.

Lemma socket_run_owned (Hk : env_ok) ops w w' : owned w -> run ops w = Some w' -> owned w'.
Proof.
  revert w. induction ops as [|o ops IH]; intros w Hw E; cbn [run] in E; [by injection E as <-|].
  apply bind_Some in E as (w1 & E1 & E). eapply IH; [|done]. by eapply socket_step_owned.
Qed.

(** C33: however sockets are created, accepted, moved, used and destroyed, each
    open descriptor belongs to exactly one socket object and each object that
    has a descriptor has an open one. So no descriptor leaks, and none is
    closed that is not open - in particular never twice, although moved-from
    objects are destroyed too. *)
Theorem descriptors_are_owned (ops : list op) (w : world) (Hk : env_ok) (Hrun : run ops start = Some w) :
  (forall fd, fd ∈ open_fds (tr w) <-> 0 <= fd /\ exists i, sockets w !! i = Some fd) /\
  (forall i j fd, 0 <= fd -> sockets w !! i = Some fd -> sockets w !! j = Some fd -> i = j) /\
  (forall l1 fd r l2, tr w = l1 ++ (CClose fd, r) :: l2 -> fd ∈ open_fds l1) /\
  (sockets w = ∅ -> open_fds (tr w) = ∅).
Proof.
  assert (owned start) as H0.
  { constructor; cbn; [|done|by intros [] ? ? ?]. intros fd. split; [by intros ?%elem_of_empty|].
    by intros (_ & i & ?). }
  destruct (socket_run_owned Hk ops start w H0 Hrun) as [Ho H1 Hc].
  split; [done|]. split; [done|]. split; [done|]. intros Hemp. apply set_eq. intros fd.
  rewrite Ho, Hemp. split; [by intros (_ & i & ?)|by intros ?%elem_of_empty].
Qed.
End Socket.

(** A kernel that returns a descriptor that is not in use. *)
Definition fresh_env : env := {|
  sys_result l c :=
    if opens c then Z.of_nat (fresh (set_map (D := gset nat) Z.to_nat (open_fds l))) else 0;
  sys_errno _ _ := 0;
  sys_value _ _ := 0;
  sys_addr _ _ := zero
|}.

Lemma fresh_env_ok : env_ok fresh_env.
Proof.
  intros l c Hc. cbn. rewrite Hc. set (X := set_map _ _). intros Hin.
  apply (is_fresh X). apply elem_of_map. eexists. split; [|exact Hin]. lia.
Qed.

Lemma descriptors_are_owned_witness :
  exists w, run fresh_env [OSocket 0; OUse 0 UListen; OAcceptAddr 0 1; OMove 1 2; ODestroy 1; ODestroy 2; ODestroy 0] start = Some w /\
    open_fds (tr w) = ∅ /\ (length (tr w) = 5)%nat.
Proof.
  eexists. split; [vm_compute; reflexivity|]. split; [|reflexivity].
  apply (descriptors_are_owned fresh_env
    [OSocket 0; OUse 0 UListen; OAcceptAddr 0 1; OMove 1 2; ODestroy 1; ODestroy 2; ODestroy 0] _ fresh_env_ok);
    [vm_compute; reflexivity|reflexivity].
Defined.
End Socket.
