(* ===== verification/NetTcpConnection.v ===== *)
(** [nutty/net/TcpConnection.h] and [TcpConnection.cpp]: a connection's state
    machine, its send and receive paths, the functors it queues on its loop
    and the user's callbacks. The kernel and the user are parameters: what a
    system call returns and what a callback does are functions of everything
    that happened on the connection before. *)

From S2P Require Import Prelude NetBuffer NetByteStream NetReceiveBuffer NetSendBuffer BaseWatcher BasePoller.

Module TcpConnection.

(** [enum State] *)
Inductive State := kDisconnected | kConnecting | kConnected | kDisconnecting.

#[export] Instance State_eq_dec : EqDecision State.
Proof. solve_decision. Defined.

(** [errno] values ([errno.h]). *)
Definition EWOULDBLOCK : Z := 11.
Definition EPIPE : Z := 32.
Definition ECONNRESET : Z := 104.

(** What [write] and [writev] return: a count, or -1 and [errno]. *)
Inductive wresult := Wrote (n : Z) | WFail (err : Z).

(** What [readv] returns: the bytes available on the socket, of which it
    delivers as many as fit, or 0, or -1. *)
Inductive rresult := RData (avail : list byte) | REof | RFail (err : Z).

Inductive callback := CbConnect | CbDisconnect | CbRead | CbClose.

(** What happens on a connection. [EvSend data n] closes a call of
    [sendInLoop] with [data]: it took charge of the first [n] bytes, by
    writing them or by putting them into [sendBuffer_], and gave up on the
    others. [EvReceived bytes] follows an [EvRead] that delivered [bytes] into
    the receive buffer, [EvRetrieve n] and [EvRetrieveAll] are the calls that
    take bytes out of it. *)
Inductive event :=
  | EvWrite (offered : list byte) (r : wresult)
  | EvRead (r : rresult)
  | EvReceived (bytes : list byte)
  | EvRetrieve (n : Z)
  | EvRetrieveAll
  | EvShutdownWrite
  | EvCallback (c : callback)
  | EvSend (data : list byte) (n : Z).

Abbreviation trace := (list event).

(** What the code of a callback does to the connection. *)
Inductive action :=
  | ASend (data : list byte)                  (* [send(data)] *)
  | ASendReceive (rb : ReceiveBuffer.t)       (* [send(receiveBuffer)] *)
  | ARetrieve (n : Z)                         (* [receiveBuffer.retrieve(n)] *)
  | ARetrieveAll
  | AShutdown
  | AForceClose
  | ADestroyed.                               (* [destroyed()], by the owner *)

(** [loop_->queueInLoop(std::bind(...))] *)
Inductive functor :=
  | FSend (buffer : Buffer.t)
  | FShutdown
  | FForceClose
  | FEstablished
  | FDestroyed.

(** The kernel and the user. *)
Record env := {
  sys_write : trace -> list byte -> wresult;
  sys_read : trace -> rresult;
  connectCallback_ : trace -> list action;
  disconnectCallback_ : trace -> list action;
  readCallback_ : trace -> ReceiveBuffer.t -> list action;
  closeCallback_ : trace -> list action
}.

(** [defaultConnectCallback] and [defaultReadCallback]. Nothing installs them:
    the callbacks of a connection are empty functions, and calling one throws,
    until the setters are called, as [TcpServer] and [TcpClient] do with the
    callbacks they were given. The model is of connections whose callbacks are
    set. *)
Definition defaultConnectCallback : list action := [].
Definition defaultReadCallback (receiveBuffer : ReceiveBuffer.t) : list action := [ARetrieveAll].

Section TcpConnection.
Context {P : Type} `{!Poller P} (e : env).

Record t := mk {
  state_ : State;
  watcher_ : Watcher.t;
  poller : P;
  sendBuffer_ : SendBuffer.t;
  receiveBuffer_ : ReceiveBuffer.t;
  functors : list functor;
  tr : trace
}.

(** [TcpConnection::TcpConnection] for descriptor [fd]. *)
Definition make (self fd : Z) (p : P) : t :=
  mk kConnecting (Watcher.make self fd) p SendBuffer.make ReceiveBuffer.make [] [].

Definition setState (st : State) (s : t) : t :=
  mk st (watcher_ s) (poller s) (sendBuffer_ s) (receiveBuffer_ s) (functors s) (tr s).
Definition set_watcher (w : Watcher.t) (p : P) (s : t) : t :=
  mk (state_ s) w p (sendBuffer_ s) (receiveBuffer_ s) (functors s) (tr s).
Definition set_sendBuffer (sb : SendBuffer.t) (s : t) : t :=
  mk (state_ s) (watcher_ s) (poller s) sb (receiveBuffer_ s) (functors s) (tr s).
Definition set_receiveBuffer (rb : ReceiveBuffer.t) (s : t) : t :=
  mk (state_ s) (watcher_ s) (poller s) (sendBuffer_ s) rb (functors s) (tr s).
Definition set_functors (fs : list functor) (s : t) : t :=
  mk (state_ s) (watcher_ s) (poller s) (sendBuffer_ s) (receiveBuffer_ s) fs (tr s).
Definition emit (ev : event) (s : t) : t :=
  mk (state_ s) (watcher_ s) (poller s) (sendBuffer_ s) (receiveBuffer_ s) (functors s)
     (tr s ++ [ev]).

Definition queueInLoop (f : functor) (s : t) : t := set_functors (functors s ++ [f]) s.

(** [watcher_->enableReading()] etc. *)
Definition watcher_op (o : WatcherOps.op) (s : t) : option t :=
  '(w, p) ← WatcherOps.apply_op o (watcher_ s) (poller s);
  Some (set_watcher w p s).

Definition isWriting (s : t) : bool := Watcher.isWriting (watcher_ s).

(** [socket_->write(...)] and [socket_->shutdownWrite()] *)
Definition socket_write (bytes : list byte) (s : t) : wresult * t :=
  let r := sys_write e (tr s) bytes in (r, emit (EvWrite bytes r) s).
Definition shutdownWrite (s : t) : t := emit EvShutdownWrite s.

(** [errno != EWOULDBLOCK && (errno == EPIPE || errno == ECONNRESET)] *)
Definition fatal (err : Z) : bool :=
  negb (err =? EWOULDBLOCK) && ((err =? EPIPE) || (err =? ECONNRESET)).

(** *** Sending *)

(** [sendInLoop(const void* buf, uint32_t count)] *)
Definition sendInLoop (buf : list byte) (count : Z) (s : t) : option t :=
  if decide (state_ s = kDisconnected) then Some (emit (EvSend buf 0) s)
  else if negb (isWriting s) && (0 <? count) then
    bytes ← load (buf, 0) count;
    let '(r, s1) := socket_write bytes s in
    match r with
    | Wrote nwrote =>
        if 0 <? nwrote then
          if nwrote <? count then
            sb ← SendBuffer.append (buf, nwrote) (u32 (count - u32 nwrote)) (sendBuffer_ s1);
            s2 ← watcher_op WatcherOps.EnableWriting (set_sendBuffer sb s1);
            Some (emit (EvSend bytes count) s2)
          else Some (emit (EvSend bytes count) s1)
        else
          sb ← SendBuffer.append (buf, 0) count (sendBuffer_ s1);
          s2 ← watcher_op WatcherOps.EnableWriting (set_sendBuffer sb s1);
          Some (emit (EvSend bytes count) s2)
    | WFail err =>
        if fatal err then Some (emit (EvSend bytes 0) s1)
        else
          sb ← SendBuffer.append (buf, 0) count (sendBuffer_ s1);
          s2 ← watcher_op WatcherOps.EnableWriting (set_sendBuffer sb s1);
          Some (emit (EvSend bytes count) s2)
    end
  else Some (emit (EvSend buf 0) s).

(** Move [*buf] to the end of [sendBuffer_] and wait for writability. *)
Definition keep_buffer (buf : Buffer.t) (s : t) : option t :=
  watcher_op WatcherOps.EnableWriting
    (set_sendBuffer (SendBuffer.append_buffer buf (sendBuffer_ s)).1 s).

(** [sendInLoop(BufferPtr& buf)] *)
Definition sendInLoop_buffer (buf : Buffer.t) (s : t) : option t :=
  if decide (state_ s = kDisconnected) then Some (emit (EvSend (Buffer.readable buf) 0) s)
  else
    let count := Buffer.readableSize buf in
    if negb (isWriting s) && (0 <? count) then
      bytes ← load (Buffer.data buf) count;
      let '(r, s1) := socket_write bytes s in
      match r with
      | Wrote nwrote =>
          if 0 <? nwrote then
            if nwrote <? count then
              s2 ← keep_buffer (Buffer.hasRead nwrote buf) s1;
              Some (emit (EvSend bytes count) s2)
            else Some (emit (EvSend bytes count) s1)
          else
            s2 ← keep_buffer buf s1;
            Some (emit (EvSend bytes count) s2)
      | WFail err =>
          if fatal err then Some (emit (EvSend bytes 0) s1)
          else
            s2 ← keep_buffer buf s1;
            Some (emit (EvSend bytes count) s2)
      end
    else Some (emit (EvSend (Buffer.readable buf) 0) s).

(** [sendInLoop(const ReceiveBuffer& receiveBuffer)]. What [append] does not
    make part of the unsent bytes is not taken charge of. *)
Definition sendInLoop_receive (rb : ReceiveBuffer.t) (s : t) : option t :=
  if decide (state_ s = kDisconnected) then Some (emit (EvSend (ReceiveBuffer.contents rb) 0) s)
  else
    let count := ReceiveBuffer.size rb in
    if negb (isWriting s) && (0 <? count) then
      bytes ← SendBuffer.gather (ReceiveBuffer.prepareSend rb);
      let '(r, s1) := socket_write bytes s in
      match r with
      | Wrote nwrote =>
          if 0 <? nwrote then
            if nwrote <? count then
              sb ← SendBuffer.append_receive_at rb nwrote (sendBuffer_ s1);
              s2 ← watcher_op WatcherOps.EnableWriting (set_sendBuffer sb s1);
              Some (emit (EvSend bytes nwrote) s2)
            else Some (emit (EvSend bytes nwrote) s1)
          else
            sb ← SendBuffer.append_receive rb (sendBuffer_ s1);
            s2 ← watcher_op WatcherOps.EnableWriting (set_sendBuffer sb s1);
            Some (emit (EvSend bytes 0) s2)
      | WFail err =>
          if fatal err then Some (emit (EvSend bytes 0) s1)
          else
            sb ← SendBuffer.append_receive rb (sendBuffer_ s1);
            s2 ← watcher_op WatcherOps.EnableWriting (set_sendBuffer sb s1);
            Some (emit (EvSend bytes 0) s2)
      end
    else Some (emit (EvSend (ReceiveBuffer.contents rb) 0) s).

(** [shutdownInLoop()] *)
Definition shutdownInLoop (s : t) : t :=
  if decide (state_ s = kConnected) then
    let s1 := setState kDisconnecting s in
    if negb (isWriting s1) then shutdownWrite s1 else s1
  else s.

(** *** What callbacks do, on the loop thread *)

(** [send(const std::string&)] and [send(const void*, uint32_t)] on the loop
    thread. *)
Definition send (data : list byte) (s : t) : option t :=
  if decide (state_ s = kConnected) then sendInLoop data (u32 (zlen data)) s else Some s.

Definition do_action (a : action) (s : t) : option t :=
  match a with
  | ASend data => send data s
  | ASendReceive rb =>
      if decide (state_ s = kConnected) then sendInLoop_receive rb s else Some s
  | ARetrieve n =>
      rb ← ReceiveBuffer.retrieve (u64 n) (receiveBuffer_ s);
      Some (emit (EvRetrieve (u64 n)) (set_receiveBuffer rb s))
  | ARetrieveAll =>
      Some (emit EvRetrieveAll (set_receiveBuffer (ReceiveBuffer.retrieveAll (receiveBuffer_ s)) s))
  | AShutdown => Some (shutdownInLoop s)
  | AForceClose => Some (queueInLoop FForceClose s)
  | ADestroyed => Some (queueInLoop FDestroyed s)
  end.

Fixpoint do_actions (acts : list action) (s : t) : option t :=
  match acts with
  | [] => Some s
  | a :: rest => s1 ← do_action a s; do_actions rest s1
  end.

(** Invoke a callback. *)
Definition invoke (c : callback) (acts : trace -> list action) (s : t) : option t :=
  let s1 := emit (EvCallback c) s in do_actions (acts (tr s1)) s1.

(** *** Handlers *)

Definition handleClose (s : t) : option t :=
  s1 ← watcher_op WatcherOps.DisableAll (setState kDisconnected s);
  s2 ← invoke CbDisconnect (disconnectCallback_ e) s1;
  invoke CbClose (closeCallback_ e) s2.

(** [handleError] only reads and clears the socket's error. *)
Definition handleError (s : t) : option t := Some s.

Definition handleRead (s : t) : option t :=
  let r := sys_read e (tr s) in
  let s1 := emit (EvRead r) s in
  match r with
  | RData avail =>
      '(bytes, rb) ← ReceiveBuffer.receive avail (receiveBuffer_ s1);
      let s2 := emit (EvReceived bytes) (set_receiveBuffer rb s1) in
      invoke CbRead (fun l => readCallback_ e l rb) s2
  | REof =>
      handleClose (set_receiveBuffer (ReceiveBuffer.prepareReceive (receiveBuffer_ s1)).1 s1)
  | RFail _ =>
      handleError (set_receiveBuffer (ReceiveBuffer.prepareReceive (receiveBuffer_ s1)).1 s1)
  end.

Definition handleWrite (s : t) : option t :=
  if isWriting s then
    bytes ← SendBuffer.gather (SendBuffer.prepareSend (sendBuffer_ s));
    let '(r, s1) := socket_write bytes s in
    match r with
    | Wrote nwrote =>
        if 0 <? nwrote then
          sb ← SendBuffer.hasSent (u32 nwrote) (sendBuffer_ s1);
          let s2 := set_sendBuffer sb s1 in
          if SendBuffer.size sb =? 0 then
            s3 ← watcher_op WatcherOps.DisableWriting s2;
            Some (if decide (state_ s3 = kDisconnecting) then shutdownInLoop s3 else s3)
          else Some s2
        else Some s1
    | WFail _ => Some s1
    end
  else Some s.

Definition forceCloseInLoop (s : t) : option t :=
  if decide (state_ s = kConnected \/ state_ s = kDisconnecting) then handleClose s else Some s.

Definition establishedInLoop (s : t) : option t :=
  if decide (state_ s = kConnecting) then
    s1 ← watcher_op WatcherOps.EnableReading (setState kConnected s);
    invoke CbConnect (connectCallback_ e) s1
  else Some s.

Definition destroyedInLoop (s : t) : option t :=
  if decide (state_ s = kConnected) then
    s1 ← watcher_op WatcherOps.DisableAll (setState kDisconnected s);
    invoke CbDisconnect (disconnectCallback_ e) s1
  else Some s.

Definition callbacks : Dispatch.callbacks t :=
  Dispatch.mk (Some handleClose) (Some handleError) (Some handleRead) (Some handleWrite).

(** *** What the loop and the other threads do *)

(** Calls made by another thread. *)
Inductive remote :=
  | RSend (data : list byte)
  | RSendReceive (rb : ReceiveBuffer.t)
  | RShutdown
  | RForceClose
  | REstablished
  | RDestroyed.

(** [send(const ReceiveBuffer&)] off the loop thread: the bytes are peeked
    into a fresh buffer, which is queued. *)
Definition remote_buffer (rb : ReceiveBuffer.t) : option Buffer.t :=
  let buffer := Buffer.make (ReceiveBuffer.size rb) in
  storage ← ReceiveBuffer.peek (Buffer.buffer_ buffer) (Buffer.capacity buffer) rb;
  Some (Buffer.mk storage (Buffer.rpos_ buffer) (Buffer.wpos_ buffer)).

Definition do_remote (r : remote) (s : t) : option t :=
  match r with
  | RSend data =>
      if decide (state_ s = kConnected) then
        buffer ← Buffer.make_from (data, 0) (u32 (zlen data));
        Some (queueInLoop (FSend buffer) s)
      else Some s
  | RSendReceive rb =>
      if decide (state_ s = kConnected) then
        buffer ← remote_buffer rb; Some (queueInLoop (FSend buffer) s)
      else Some s
  | RShutdown => Some (queueInLoop FShutdown s)
  | RForceClose => Some (queueInLoop FForceClose s)
  | REstablished => Some (queueInLoop FEstablished s)
  | RDestroyed => Some (queueInLoop FDestroyed s)
  end.

Definition do_functor (f : functor) : t -> option t :=
  match f with
  | FSend buffer => sendInLoop_buffer buffer
  | FShutdown => fun s => Some (shutdownInLoop s)
  | FForceClose => forceCloseInLoop
  | FEstablished => establishedInLoop
  | FDestroyed => destroyedInLoop
  end.

(** The next thing that happens: the poller reports the watcher (only a
    registered one is reported), the loop runs the oldest functor, a handler
    of another object acts on the connection, the owner calls [established()]
    on the loop thread, or another thread makes a call. *)
Inductive input :=
  | IEvents (revents : Z)
  | IFunctor
  | IAction (a : action)
  | IEstablished
  | IRemote (r : remote).

Definition step (i : input) (s : t) : option t :=
  match i with
  | IEvents revents =>
      if Watcher.started_ (watcher_ s)
      then Dispatch.handleEvents revents callbacks s
      else Some s
  | IFunctor =>
      match functors s with
      | f :: rest => do_functor f (set_functors rest s)
      | [] => Some s
      end
  | IAction a => do_action a s
  | IEstablished => establishedInLoop s
  | IRemote r => do_remote r s
  end.

Fixpoint run (ins : list input) (s : t) : option t :=
  match ins with
  | [] => Some s
  | i :: rest => s1 ← step i s; run rest s1
  end.

(** ** Observations of a trace *)

Definition cbs (l : trace) : list callback :=
  omap (fun ev => match ev with EvCallback c => Some c | _ => None end) l.

(** The bytes the kernel took, in order. *)
Definition written (l : trace) : list byte :=
  mjoin (omap (fun ev => match ev with
                         | EvWrite offered (Wrote n) => Some (ztake n offered)
                         | _ => None
                         end) l).

(** The bytes the connection took charge of, in the order of the calls. *)
Definition accepted (l : trace) : list byte :=
  mjoin (omap (fun ev => match ev with EvSend data n => Some (ztake n data) | _ => None end) l).

#[local] Arguments cbs : simpl never.
#[local] Arguments written : simpl never.
#[local] Arguments accepted : simpl never.

Lemma cbs_app l1 l2 : cbs (l1 ++ l2) = cbs l1 ++ cbs l2.
Proof. apply omap_app. Qed.

Lemma written_app l1 l2 : written (l1 ++ l2) = written l1 ++ written l2.
Proof. unfold written. by rewrite omap_app, join_app. Qed.

Lemma accepted_app l1 l2 : accepted (l1 ++ l2) = accepted l1 ++ accepted l2.
Proof. unfold accepted. by rewrite omap_app, join_app. Qed.

(** ** Invariant *)

Definition u32_small (n : Z) : Prop := 0 <= n < 4294967296.

Definition functor_ok (st : State) (f : functor) : Prop :=
  match f with
  | FSend b =>
      st <> kConnecting /\ Buffer.wf b /\ Buffer.rpos_ b = 0 /\ u32_small (zlen (Buffer.readable b))
  | _ => True
  end.

(** The one buffer [sendBuffer_] can hold: unsent bytes, or what an [append]
    of a receive buffer leaves. *)
Definition pending (sb : SendBuffer.t) : Prop :=
  exists b, SendBuffer.buffers_ sb = [b] /\ Buffer.wf b /\
    u32_small (zlen (Buffer.readable b)) /\
    SendBuffer.size_ sb <> 0 /\
    (Buffer.readable b <> [] -> SendBuffer.size_ sb = zlen (Buffer.readable b)).

Definition sb_ok (st : State) (writing : bool) (sb : SendBuffer.t) : Prop :=
  match st with
  | kConnecting => sb = SendBuffer.make
  | kConnected | kDisconnecting => if writing then pending sb else sb = SendBuffer.make
  | kDisconnected => True
  end.

Definition events_ok (st : State) (events : Z) : Prop :=
  match st with
  | kConnecting | kDisconnected => events = 0
  | kConnected | kDisconnecting => events = 3 \/ events = 7
  end.

(** All of the invariant but the relation of [sendBuffer_] to the trace. *)
Record core (s : t) : Prop := {
  core_poller : poller_ok (poller s);
  core_synced : WatcherOps.synced (watcher_ s) (poller s);
  core_rb : ReceiveBuffer.wf (receiveBuffer_ s);
  core_functors : Forall (functor_ok (state_ s)) (functors s);
  core_events : events_ok (state_ s) (Watcher.events_ (watcher_ s));
  core_sb : sb_ok (state_ s) (isWriting s) (sendBuffer_ s)
}.

Definition stream (s : t) : Prop :=
  accepted (tr s) = written (tr s) ++ SendBuffer.contents (sendBuffer_ s).

(** Connected and not closed. *)
Definition open (s : t) : Prop := state_ s = kConnected \/ state_ s = kDisconnecting.

(** What the sequence of callbacks is in each state. *)
Definition life (st : State) (cs : list callback) : Prop :=
  match st with
  | kConnecting => cs = []
  | kConnected | kDisconnecting => exists n, cs = CbConnect :: replicate n CbRead
  | kDisconnected =>
      exists n, cs = CbConnect :: replicate n CbRead ++ [CbDisconnect] \/
                cs = CbConnect :: replicate n CbRead ++ [CbDisconnect; CbClose]
  end.

(** ** Hypotheses on the environment *)

Definition action_ok (a : action) : Prop :=
  match a with
  | ASendReceive rb => ReceiveBuffer.wf rb
  | _ => True
  end.

(** The kernel takes at most what it is offered and delivers something when it
    says so; callbacks pass well-formed receive buffers. *)
Record env_ok : Prop := {
  write_ok l bytes n : sys_write e l bytes = Wrote n -> 0 <= n <= zlen bytes;
  read_ok l avail : sys_read e l = RData avail -> avail <> [];
  connect_ok l : Forall action_ok (connectCallback_ e l);
  disconnect_ok l : Forall action_ok (disconnectCallback_ e l);
  readcb_ok l rb : ReceiveBuffer.wf rb -> Forall action_ok (readCallback_ e l rb);
  close_ok l : Forall action_ok (closeCallback_ e l)
}.

(** A report that does not make [Watcher::handleEvents] call [handleClose] and
    then [handleRead]: a hang-up without [POLLIN] comes without [POLLPRI] and
    [POLLRDHUP]. Neither the manual nor the code excludes the others, and
    [hangup_with_urgent_data_closes_twice] shows what they lead to; what is proved
    of connections is proved of runs without them. *)
Definition revents_ok (r : Z) : Prop :=
  has r POLLHUP && negb (has r POLLIN) = true ->
  has r (Z.lor (Z.lor POLLIN POLLPRI) POLLRDHUP) = false.

Definition input_ok (i : input) : Prop :=
  match i with
  | IEvents r => revents_ok r
  | IAction a => action_ok a
  | IRemote (RSendReceive rb) => ReceiveBuffer.wf rb
  | _ => True
  end.

(** ** The watcher *)

Lemma watcher_op_spec o s :
  core s ->
  exists w p, watcher_op o s = Some (set_watcher w p s) /\ poller_ok p /\
    WatcherOps.synced w p /\
    Watcher.events_ w = WatcherOps.next_events o (Watcher.events_ (watcher_ s)) /\
    Watcher.started_ w = negb (Watcher.events_ w =? 0).
Proof.
  intros [Hp Hs _ _ _ _]. unfold watcher_op.
  destruct (WatcherOps.apply_op_spec o _ _ Hp Hs) as (w & p & -> & ? & ? & Hw & _).
  exists w, p. split; [done|]. split; [done|]. split; [done|]. by rewrite Hw.
Qed.

Lemma isWriting_open s : core s -> open s ->
  (isWriting s = true /\ Watcher.events_ (watcher_ s) = 7) \/
  (isWriting s = false /\ Watcher.events_ (watcher_ s) = 3).
Proof.
  intros Hc Ho. pose proof (core_events _ Hc) as He. unfold isWriting, Watcher.isWriting.
  destruct Ho as [E|E]; rewrite E in He; destruct He as [->| ->]; auto.
Qed.

Lemma isWriting_closed s : core s -> ~ open s -> isWriting s = false.
Proof.
  intros Hc Ho. pose proof (core_events _ Hc) as He. unfold isWriting, Watcher.isWriting.
  unfold open in Ho. destruct (state_ s); try tauto; by rewrite He.
Qed.

(** A new pending buffer and [enableWriting()]. *)
Lemma enable_writing s sb :
  core s -> open s -> isWriting s = false -> pending sb ->
  exists w p, watcher_op WatcherOps.EnableWriting (set_sendBuffer sb s) =
      Some (set_watcher w p (set_sendBuffer sb s)) /\
    core (set_watcher w p (set_sendBuffer sb s)) /\
    isWriting (set_watcher w p (set_sendBuffer sb s)) = true.
Proof.
  intros Hc Ho Hw Hsb.
  destruct (isWriting_open s Hc Ho) as [[E _]|[_ Hev]]; [by rewrite E in Hw|].
  unfold watcher_op. cbn [watcher_ poller set_sendBuffer].
  destruct (WatcherOps.apply_op_spec WatcherOps.EnableWriting _ _ (core_poller _ Hc) (core_synced _ Hc))
    as (w & p & -> & Hp & Hs & Hweq & _).
  exists w, p. split; [done|].
  assert (Watcher.events_ w = 7) as He by (rewrite Hweq, Hev; done).
  assert (isWriting (set_watcher w p (set_sendBuffer sb s)) = true) as Hw'
    by (unfold isWriting, Watcher.isWriting; cbn; by rewrite He).
  split; [|done]. destruct Hc as [_ _ Hrb Hf _ _]. constructor; try done.
  - cbn. rewrite He. destruct Ho as [E|E]; rewrite E; by right.
  - rewrite Hw'. cbn. destruct Ho as [E|E]; by rewrite E.
Qed.

Lemma core_emit ev s : core s -> core (emit ev s).
Proof. intros []. by constructor. Qed.

Lemma core_set_receiveBuffer rb s : core s -> ReceiveBuffer.wf rb -> core (set_receiveBuffer rb s).
Proof. intros []. by constructor. Qed.

Lemma core_queue f s : core s -> functor_ok (state_ s) f -> core (queueInLoop f s).
Proof. intros [] ?. constructor; try done. by apply Forall_snoc. Qed.

(** ** What [append] puts into an empty send buffer *)

Lemma pending_one b n :
  Buffer.wf b -> u32_small (zlen (Buffer.readable b)) -> n = zlen (Buffer.readable b) -> 0 < n ->
  pending (SendBuffer.mk [b] n).
Proof.
  intros Hb Hs -> Hn. exists b. cbn. split; [done|]. split; [done|]. split; [done|].
  split; [lia|done].
Qed.

Lemma append_pending buf off n :
  0 <= off -> 0 < n -> off + n <= zlen buf -> u32_small n ->
  exists sb, SendBuffer.append (buf, off) n SendBuffer.make = Some sb /\ pending sb /\
    SendBuffer.contents sb = slice off n buf.
Proof.
  intros Ho Hn Hb Hs. unfold u32_small in Hs. unfold SendBuffer.append, Buffer.make_from.
  rewrite memcpy_ok by zlia. cbn [mbind option_bind SendBuffer.buffers_ SendBuffer.make app].
  assert (zlen (slice off n buf) = n) as Hl by (apply zlen_slice; lia).
  rewrite splice_all by zlia. eexists. split; [done|].
  set (b := Buffer.mk (slice off n buf) 0 n).
  assert (Buffer.readable b = slice off n buf) as Hr.
  { unfold Buffer.readable, b. cbn. rewrite Z.sub_0_r. rewrite <- Hl at 1. apply slice_all. }
  cbn [SendBuffer.size_]. rewrite Z.add_0_l, u64_small by zlia. split.
  - apply pending_one; rewrite ?Hr, ?Hl; try done. unfold Buffer.wf, Buffer.capacity, b. cbn. zlia.
  - unfold SendBuffer.contents. cbn [SendBuffer.buffers_]. rewrite Buffer.contents_of_cons, Hr.
    apply app_nil_r.
Qed.

Lemma append_buffer_pending b :
  Buffer.wf b -> u32_small (zlen (Buffer.readable b)) -> Buffer.readable b <> [] ->
  pending (SendBuffer.append_buffer b SendBuffer.make).1 /\
  SendBuffer.contents (SendBuffer.append_buffer b SendBuffer.make).1 = Buffer.readable b.
Proof.
  intros Hb Hs Hne. destruct b as [d r w]. unfold SendBuffer.append_buffer, Buffer.make_move.
  cbn [Buffer.buffer_ Buffer.rpos_ Buffer.wpos_ fst SendBuffer.make SendBuffer.buffers_ app SendBuffer.size_].
  rewrite Buffer.readableSize_zlen by done. unfold u32_small in *.
  rewrite Z.add_0_l, u64_small by zlia. split.
  - apply pending_one; try done. destruct (Buffer.readable _); [done|zlia].
  - apply app_nil_r.
Qed.

(** A buffer that was filled without [hasWritten]. *)
Lemma unwritten_pending storage :
  0 < zlen storage -> in_u64 (zlen storage) ->
  pending (SendBuffer.mk [Buffer.mk storage 0 0] (u64 (0 + Buffer.capacity (Buffer.mk storage 0 0)))).
Proof.
  intros Hp H64. unfold Buffer.capacity. cbn [Buffer.buffer_]. rewrite Z.add_0_l, u64_small by done.
  exists (Buffer.mk storage 0 0). cbn. split; [done|].
  split; [unfold Buffer.wf, Buffer.capacity; cbn; zlia|].
  rewrite SendBuffer.readable_unwritten. split; [by vm_compute|]. split; [lia|done].
Qed.

Lemma append_receive_pending rb :
  ReceiveBuffer.wf rb ->
  0 < ReceiveBuffer.size rb ->
  exists sb, SendBuffer.append_receive rb SendBuffer.make = Some sb /\ pending sb /\
    SendBuffer.contents sb = [].
Proof.
  intros Hrb Hpos. pose proof Hrb as (_ & _ & Hsz). pose proof (u64_range (zlen (ReceiveBuffer.contents rb))) as H64. rewrite <- Hsz in H64.
  unfold SendBuffer.append_receive, ReceiveBuffer.size in *.
  set (n := ReceiveBuffer.size_ rb) in *.
  assert (Buffer.capacity (Buffer.make n) = n) as Hcap by (apply Buffer.capacity_make; lia).
  rewrite ReceiveBuffer.peek_spec; [|done|rewrite Hcap; exact H64|].
  2:{ change (zlen (Buffer.buffer_ (Buffer.make n))) with (Buffer.capacity (Buffer.make n)). lia. }
  cbn [mbind option_bind]. rewrite Hcap. set (st := splice 0 _ _).
  assert (zlen st = n) as Hst.
  { unfold st. unfold Buffer.capacity in Hcap. rewrite zlen_splice; rewrite ?Hcap; zlia. }
  eexists. split; [done|]. split; [|done]. apply unwritten_pending; rewrite Hst; [lia|exact H64].
Qed.

Lemma append_receive_at_pending rb off :
  ReceiveBuffer.wf rb ->
  0 < off < ReceiveBuffer.size rb ->
  exists sb, SendBuffer.append_receive_at rb off SendBuffer.make = Some sb /\ pending sb /\
    SendBuffer.contents sb = [].
Proof.
  intros Hrb Hoff. pose proof Hrb as (_ & _ & Hsz). pose proof (u64_range (zlen (ReceiveBuffer.contents rb))) as H64. rewrite <- Hsz in H64.
  unfold SendBuffer.append_receive_at, ReceiveBuffer.size in *.
  assert (u64 (ReceiveBuffer.size_ rb - off) = ReceiveBuffer.size_ rb - off) as -> by (apply u64_small; zlia).
  set (n := ReceiveBuffer.size_ rb - off).
  assert (Buffer.capacity (Buffer.make n) = n) as Hcap by (apply Buffer.capacity_make; lia).
  destruct (ReceiveBuffer.peek_at_loop_total (ReceiveBuffer.buffers_ rb) (Buffer.buffer_ (Buffer.make n))
    off (Buffer.capacity (Buffer.make n)) 0) as (st & Hpk & Hst);
    [by apply ReceiveBuffer.live_all_wf|lia|rewrite Hcap; zlia|unfold Buffer.capacity; lia|zlia|].
  unfold ReceiveBuffer.peek_at. rewrite Hpk. cbn [mbind option_bind].
  unfold Buffer.capacity in Hcap. eexists. split; [done|]. split; [|done].
  apply unwritten_pending; rewrite Hst, Hcap; zlia.
Qed.

(** ** The three [sendInLoop]s *)

(** What a step that invokes no callback may do. *)
Definition calm (s s' : t) : Prop :=
  (state_ s' = state_ s \/ (state_ s = kConnected /\ state_ s' = kDisconnecting)) /\
  cbs (tr s') = cbs (tr s).

Lemma calm_trans s1 s2 s3 : calm s1 s2 -> calm s2 s3 -> calm s1 s3.
Proof.
  intros [H1 E1] [H2 E2]. split; [|by rewrite E2]. destruct H1 as [H1|[H1 H1']], H2 as [H2|[H2 H2']];
    rewrite ?H1, ?H1', ?H2' in *; naive_solver.
Qed.

Definition good (s s' : t) : Prop := core s' /\ stream s' /\ calm s s'.

Definition taken (bytes : list byte) (r : wresult) : list byte :=
  match r with Wrote n => ztake n bytes | WFail _ => [] end.

Lemma written_write bytes r : written [EvWrite bytes r] = taken bytes r.
Proof. unfold written. destruct r; cbn; [apply app_nil_r|done]. Qed.

Lemma accepted_write bytes r : accepted [EvWrite bytes r] = [].
Proof. done. Qed.

Lemma written_send bytes n : written [EvSend bytes n] = [].
Proof. done. Qed.

Lemma cbs_write bytes r : cbs [EvWrite bytes r] = [].
Proof. done. Qed.

Lemma cbs_send bytes n : cbs [EvSend bytes n] = [].
Proof. done. Qed.

Lemma accepted_send bytes n : accepted [EvSend bytes n] = ztake n bytes.
Proof. apply app_nil_r. Qed.

(** The send buffer is empty when the connection is open and not writing. *)
Lemma stream_idle s :
  core s -> stream s -> open s -> isWriting s = false ->
  sendBuffer_ s = SendBuffer.make /\ accepted (tr s) = written (tr s).
Proof.
  intros Hc Hst Ho Hw. pose proof (core_sb _ Hc) as Hsb. rewrite Hw in Hsb.
  assert (sendBuffer_ s = SendBuffer.make) as E by (destruct Ho as [E|E]; by rewrite E in Hsb).
  split; [done|]. unfold stream in Hst. rewrite E in Hst. rewrite Hst. apply app_nil_r.
Qed.

Lemma send_dropped s data : core s -> stream s -> good s (emit (EvSend data 0) s).
Proof.
  intros Hc Hst. split; [by apply core_emit|]. split.
  - unfold stream in *. cbn. rewrite accepted_app, written_app, accepted_send, written_send, ztake_0.
    by rewrite !app_nil_r.
  - split; [by left|]. cbn. by rewrite cbs_app, cbs_send, app_nil_r.
Qed.

(** The rest of [bytes] went to the send buffer. *)
Lemma send_kept s bytes r sb k :
  core s -> stream s -> open s -> isWriting s = false -> pending sb ->
  ztake k bytes = taken bytes r ++ SendBuffer.contents sb ->
  exists s2, watcher_op WatcherOps.EnableWriting (set_sendBuffer sb (emit (EvWrite bytes r) s)) = Some s2 /\
    good s (emit (EvSend bytes k) s2) /\ isWriting s2 = true /\
    tr s2 = tr s ++ [EvWrite bytes r] /\ sendBuffer_ s2 = sb.
Proof.
  intros Hc Hst Ho Hw Hsb Hk. destruct (stream_idle s Hc Hst Ho Hw) as [_ Hidle].
  destruct (enable_writing (emit (EvWrite bytes r) s) sb) as (w & p & E & Hc2 & Hw2);
    [by apply core_emit|done..|].
  eexists. split; [exact E|]. split; [|done]. split; [by apply core_emit|]. split.
  - unfold stream. cbn. rewrite !accepted_app, !written_app, accepted_send, accepted_write,
      written_write, written_send.
    rewrite Hk, Hidle. cbn. by rewrite !app_nil_r, app_assoc.
  - split; [by left|]. cbn. by rewrite !cbs_app, cbs_send, cbs_write, !app_nil_r.
Qed.

(** Nothing was kept: all was written, or the error was fatal. *)
Lemma send_done s bytes r k :
  core s -> stream s -> open s -> isWriting s = false -> ztake k bytes = taken bytes r ->
  good s (emit (EvSend bytes k) (emit (EvWrite bytes r) s)).
Proof.
  intros Hc Hst Ho Hw Hk. destruct (stream_idle s Hc Hst Ho Hw) as [E Hidle].
  split; [by repeat apply core_emit|]. split.
  - unfold stream. cbn. rewrite !accepted_app, !written_app, accepted_send, accepted_write,
      written_write, written_send, E.
    rewrite Hk, Hidle. cbn. by rewrite !app_nil_r.
  - split; [by left|]. cbn. by rewrite !cbs_app, cbs_send, cbs_write, !app_nil_r.
Qed.

Lemma ztake_slice_split n m (l : list byte) :
  0 <= n <= m -> ztake m l = ztake n l ++ slice n (m - n) l.
Proof.
  intros. unfold slice. rewrite <- (ztake_zdrop n (ztake m l)) at 1.
  rewrite ztake_ztake, zdrop_ztake by lia. do 2 f_equal. lia.
Qed.

Context (He : env_ok).

Lemma state_open s : state_ s <> kConnecting -> state_ s <> kDisconnected -> open s.
Proof. unfold open. destruct (state_ s); tauto. Qed.

(** [sendInLoop(buf, count)] on an idle open connection: one [write] of all the
    bytes; unless it fails for good, the connection takes charge of all. *)
Lemma sendInLoop_idle buf count s :
  core s -> stream s -> open s -> isWriting s = false ->
  0 < count <= zlen buf -> u32_small count ->
  let bytes := ztake count buf in
  let r := sys_write e (tr s) bytes in
  exists s', sendInLoop buf count s = Some s' /\ good s s' /\
    tr s' = tr s ++ [EvWrite bytes r;
      EvSend bytes (match r with WFail err => if fatal err then 0 else count | _ => count end)] /\
    isWriting s' = match r with
                   | Wrote n => n <? count
                   | WFail err => negb (fatal err)
                   end.
Proof.
  intros Hc Hst Ho Hw Hn Hs bytes r. unfold sendInLoop.
  rewrite decide_False by (intros E; destruct Ho as [E'|E']; congruence).
  rewrite Hw, (proj2 (Z.ltb_lt 0 count)) by lia. cbn [negb andb].
  rewrite load_ok by lia. cbn [mbind option_bind]. unfold socket_write.
  change (slice 0 count buf) with bytes. fold r.
  assert (zlen bytes = count) as Hl by (unfold bytes; zlia).
  destruct (stream_idle s Hc Hst Ho Hw) as [Hsb _].
  change (sendBuffer_ (emit (EvWrite bytes r) s)) with (sendBuffer_ s). rewrite Hsb.
  assert (forall off k, 0 <= off < count -> k = count - off ->
    taken bytes r = ztake off buf ->
    exists s', (sb ← SendBuffer.append (buf, off) k SendBuffer.make;
      s2 ← watcher_op WatcherOps.EnableWriting (set_sendBuffer sb (emit (EvWrite bytes r) s));
      Some (emit (EvSend bytes count) s2)) = Some s' /\ good s s' /\
      tr s' = tr s ++ [EvWrite bytes r; EvSend bytes count] /\ isWriting s' = true) as Hkeep.
  { intros off k Hoff -> Ht. unfold u32_small in Hs.
    destruct (append_pending buf off (count - off)) as (sb & -> & Hp & Hcon);
      [lia|lia|lia|unfold u32_small; lia|]. cbn [mbind option_bind].
    destruct (send_kept s bytes r sb count) as (s2 & -> & Hg & Hw2 & Htr & _); try done.
    { rewrite ztake_all, Ht, Hcon by lia. unfold bytes. by apply ztake_slice_split; lia. }
    cbn [mbind option_bind]. eexists. split; [done|]. split; [done|].
    split; [cbn; rewrite Htr; by rewrite <- app_assoc|done]. }
  destruct r as [n|err] eqn:Er.
  - pose proof (write_ok He _ _ _ Er) as Hr. rewrite Hl in Hr.
    destruct (0 <? n) eqn:E0; [destruct (n <? count) eqn:E1|]; zbool.
    + unfold u32_small, u32 in *. rewrite !Z.mod_small by (rewrite ?Z.mod_small; lia).
      apply Hkeep; [lia|lia|]. cbn. unfold bytes. rewrite ztake_ztake. f_equal. lia.
    + eexists. split; [done|]. split; [|split; [cbn; by rewrite <- app_assoc|exact Hw]].
      apply send_done; try done. cbn. f_equal. lia.
    + assert (n = 0) as -> by lia. rewrite (proj2 (Z.ltb_lt 0 count)) by lia.
      apply Hkeep; [lia|lia|done].
  - destruct (fatal err).
    + eexists. split; [done|]. split; [by apply send_done|].
      split; [cbn; by rewrite <- app_assoc|exact Hw].
    + apply Hkeep; [lia|lia|done].
Qed.

Lemma sendInLoop_good buf count s :
  core s -> stream s -> state_ s <> kConnecting -> 0 <= count <= zlen buf -> u32_small count ->
  exists s', sendInLoop buf count s = Some s' /\ good s s'.
Proof.
  intros Hc Hst Hcon Hn Hs. destruct (decide (state_ s = kDisconnected)) as [E|E].
  { unfold sendInLoop. rewrite decide_True by done. eexists. split; [done|]. by apply send_dropped. }
  destruct (negb (isWriting s) && (0 <? count)) eqn:Eb.
  - apply andb_prop in Eb as [Hw Hpos]. apply negb_true_iff in Hw. zbool.
    destruct (sendInLoop_idle buf count s) as (s' & ? & ? & _); try done; [by apply state_open|lia|].
    by exists s'.
  - unfold sendInLoop. rewrite decide_False by done. rewrite Eb. eexists. split; [done|].
    by apply send_dropped.
Qed.

(** A queued buffer, on an idle open connection. *)
Lemma sendInLoop_buffer_idle b s :
  core s -> stream s -> open s -> isWriting s = false ->
  Buffer.wf b -> Buffer.rpos_ b = 0 -> u32_small (zlen (Buffer.readable b)) -> Buffer.readable b <> [] ->
  exists s' k, sendInLoop_buffer b s = Some s' /\ good s s' /\
    tr s' = tr s ++ [EvWrite (Buffer.readable b) (sys_write e (tr s) (Buffer.readable b));
                     EvSend (Buffer.readable b) k].
Proof.
  intros Hc Hst Ho Hw Hb Hr0 Hs Hne. unfold sendInLoop_buffer.
  rewrite decide_False by (intros E; destruct Ho as [E'|E']; congruence).
  pose proof (Buffer.readableSize_zlen b Hb) as Hlen. rewrite Hlen.
  assert (Buffer.data b = Buffer.dataRead b) as ->
    by (unfold Buffer.data, Buffer.dataRead; by rewrite Hr0).
  pose proof (zlen_nonneg (Buffer.readable b)).
  rewrite Buffer.load_dataRead, ztake_all by (rewrite ?Hlen; (done || lia)).
  set (bytes := Buffer.readable b) in *.
  assert (0 < zlen bytes) as Hpos by (destruct bytes; [done|zlia]).
  rewrite Hw, (proj2 (Z.ltb_lt _ _) Hpos).
  cbn [mbind option_bind negb andb]. unfold socket_write. set (r := sys_write e (tr s) bytes).
  destruct (stream_idle s Hc Hst Ho Hw) as [Hsb _].
  assert (forall b', Buffer.wf b' -> u32_small (zlen (Buffer.readable b')) -> Buffer.readable b' <> [] ->
    bytes = taken bytes r ++ Buffer.readable b' ->
    exists s' k, (s2 ← keep_buffer b' (emit (EvWrite bytes r) s);
      Some (emit (EvSend bytes (zlen bytes)) s2)) = Some s' /\ good s s' /\
      tr s' = tr s ++ [EvWrite bytes r; EvSend bytes k]) as Hkeep.
  { intros b' Hb' Hs' Hne' Hsplit. unfold keep_buffer.
    change (sendBuffer_ (emit (EvWrite bytes r) s)) with (sendBuffer_ s). rewrite Hsb.
    destruct (append_buffer_pending b' Hb' Hs' Hne') as [Hp Hcon'].
    destruct (send_kept s bytes r _ (zlen bytes) Hc Hst Ho Hw Hp) as (s2 & -> & Hg & _ & Htr & _).
    { by rewrite ztake_all, Hcon' by lia. }
    do 2 eexists. split; [done|]. split; [done|]. cbn. rewrite Htr. by rewrite <- app_assoc. }
  destruct r as [n|err] eqn:Er.
  - pose proof (write_ok He _ _ _ Er) as Hr.
    destruct (0 <? n) eqn:E0; [destruct (n <? zlen bytes) eqn:E1|]; zbool.
    + destruct (Buffer.hasRead_spec n b Hb) as [Hb' Hrd]; [rewrite Hlen; lia|].
      apply Hkeep; rewrite ?Hrd; try done.
      * unfold u32_small in *. fold bytes. zlia.
      * intros E'. assert (zlen (zdrop n bytes) = 0) as E2 by (unfold bytes; by rewrite E').
        rewrite zlen_zdrop in E2. lia.
      * cbn. symmetry. apply ztake_zdrop.
    + do 2 eexists. split; [done|]. split; [|cbn; by rewrite <- app_assoc].
      apply send_done; try done. cbn. f_equal. lia.
    + assert (n = 0) as -> by lia. by apply Hkeep.
  - destruct (fatal err); [|by apply Hkeep]. do 2 eexists. split; [done|].
    split; [by apply send_done|cbn; by rewrite <- app_assoc].
Qed.

Lemma sendInLoop_buffer_good b s :
  core s -> stream s -> functor_ok (state_ s) (FSend b) ->
  exists s', sendInLoop_buffer b s = Some s' /\ good s s'.
Proof.
  intros Hc Hst (Hcon & Hb & Hr0 & Hs). destruct (decide (state_ s = kDisconnected)) as [E|E].
  { unfold sendInLoop_buffer. rewrite decide_True by done. eexists. split; [done|]. by apply send_dropped. }
  destruct (negb (isWriting s) && (0 <? Buffer.readableSize b)) eqn:Eb.
  - apply andb_prop in Eb as [Hw Hpos]. apply negb_true_iff in Hw. zbool.
    rewrite Buffer.readableSize_zlen in Hpos by done.
    destruct (sendInLoop_buffer_idle b s) as (s' & k & ? & ? & _); try done; [by apply state_open| |by exists s'].
    intros E'. rewrite E' in Hpos. by vm_compute in Hpos.
  - unfold sendInLoop_buffer. rewrite decide_False by done. rewrite Eb. eexists. split; [done|].
    by apply send_dropped.
Qed.

Lemma sendInLoop_receive_good rb s :
  core s -> stream s -> state_ s <> kConnecting ->
  ReceiveBuffer.wf rb ->
  exists s', sendInLoop_receive rb s = Some s' /\ good s s'.
Proof.
  intros Hc Hst Hcon Hrb. unfold sendInLoop_receive.
  case_decide as E; [eexists; split; [done|]; by apply send_dropped|].
  destruct (negb (isWriting s) && (0 <? ReceiveBuffer.size rb)) eqn:Eb;
    [|eexists; split; [done|]; by apply send_dropped].
  apply andb_prop in Eb as [Hw Hpos]. apply negb_true_iff in Hw. zbool.
  pose proof (state_open s Hcon E) as Ho.
  rewrite SendBuffer.gather_receive by done. cbn [mbind option_bind]. unfold socket_write.
  set (bytes := ReceiveBuffer.contents rb) in *. set (r := sys_write e (tr s) bytes).
  destruct (stream_idle s Hc Hst Ho Hw) as [Hsb _].
  change (sendBuffer_ (emit (EvWrite bytes r) s)) with (sendBuffer_ s). rewrite Hsb.
  assert (forall sb k, pending sb -> SendBuffer.contents sb = [] -> ztake k bytes = taken bytes r ->
    exists s', (s2 ← watcher_op WatcherOps.EnableWriting (set_sendBuffer sb (emit (EvWrite bytes r) s));
      Some (emit (EvSend bytes k) s2)) = Some s' /\ good s s') as Hkeep.
  { intros sb k Hp Hnil Hk. destruct (send_kept s bytes r sb k Hc Hst Ho Hw Hp) as (s2 & -> & Hg & _).
    { by rewrite Hnil, app_nil_r. }
    by eexists. }
  destruct (append_receive_pending rb Hrb Hpos) as (sb & Hap & Hp & Hnil).
  destruct r as [n|err] eqn:Er.
  - pose proof (write_ok He _ _ _ Er) as Hr.
    destruct (0 <? n) eqn:E0; [destruct (n <? ReceiveBuffer.size rb) eqn:E1|]; zbool.
    + destruct (append_receive_at_pending rb n Hrb) as (sb' & -> & Hp' & Hnil'); [lia|].
      by apply Hkeep.
    + eexists. split; [done|]. by apply send_done.
    + assert (n = 0) as -> by lia. rewrite Hap. by apply Hkeep.
  - destruct (fatal err); [eexists; split; [done|]; by apply send_done|].
    rewrite Hap. by apply Hkeep.
Qed.

(** ** Actions and callbacks *)

Lemma good_refl s : core s -> stream s -> good s s.
Proof. intros. split; [done|]. split; [done|]. split; [by left|done]. Qed.

Lemma functor_ok_mono st st' fs :
  Forall (functor_ok st) fs -> (st <> kConnecting -> st' <> kConnecting) ->
  Forall (functor_ok st') fs.
Proof.
  intros Hf Hst. eapply Forall_impl; [|exact Hf]. intros [] Hx; cbn in *; try done.
  destruct Hx. auto.
Qed.

Lemma shutdownInLoop_good s : core s -> stream s -> good s (shutdownInLoop s).
Proof.
  intros Hc Hst. unfold shutdownInLoop. case_decide as E; [|by apply good_refl].
  assert (core (setState kDisconnecting s)) as Hc1.
  { destruct Hc as [Hp Hs Hrb Hf Hev Hsb]. rewrite E in *. constructor; try done.
    by eapply functor_ok_mono. }
  change (isWriting (setState kDisconnecting s)) with (isWriting s).
  destruct (negb (isWriting s)).
  - split; [by apply core_emit|]. split; [|split; [by right|]].
    + unfold stream in *. cbn. rewrite accepted_app, written_app, Hst. cbn. by rewrite !app_nil_r.
    + cbn. rewrite cbs_app. apply app_nil_r.
  - split; [done|]. split; [done|]. split; [by right|done].
Qed.

Lemma u32_le n : 0 <= n -> u32 n <= n.
Proof. intros. unfold u32. apply Z.mod_le; lia. Qed.

Lemma u32_range n : u32_small (u32 n).
Proof. unfold u32_small, u32. apply Z.mod_pos_bound. lia. Qed.

(** An event that is no send, write or callback. *)
Lemma emit_silent ev s :
  core s -> stream s -> written [ev] = [] -> accepted [ev] = [] -> cbs [ev] = [] ->
  core (emit ev s) /\ stream (emit ev s) /\ cbs (tr (emit ev s)) = cbs (tr s).
Proof.
  intros Hc Hst Hw Ha Hcb. split; [by apply core_emit|]. split.
  - unfold stream in *. cbn. by rewrite accepted_app, written_app, Hw, Ha, !app_nil_r.
  - cbn. by rewrite cbs_app, Hcb, app_nil_r.
Qed.

Lemma do_action_good a s :
  core s -> stream s -> action_ok a -> exists s', do_action a s = Some s' /\ good s s'.
Proof.
  intros Hc Hst Ha.
  assert (forall f, functor_ok (state_ s) f -> good s (queueInLoop f s)) as Hq.
  { intros f Hf. split; [by apply core_queue|]. split; [done|]. split; [by left|done]. }
  assert (forall ev rb, written [ev] = [] -> accepted [ev] = [] -> cbs [ev] = [] ->
    ReceiveBuffer.wf rb -> good s (emit ev (set_receiveBuffer rb s))) as Hrb.
  { intros ev rb Hw Hac Hcb Hrb.
    destruct (emit_silent ev (set_receiveBuffer rb s)) as (H1 & H2 & H3); try done; [by apply core_set_receiveBuffer|].
    split; [done|]. split; [done|]. by split; [left|]. }
  pose proof (core_rb _ Hc) as Hwf.
  destruct a as [data|rb|n| | | |]; cbn [do_action].
  - unfold send. case_decide as E; [|eexists; split; [done|]; by apply good_refl].
    pose proof (u32_le (zlen data) (zlen_nonneg data)). pose proof (u32_range (zlen data)) as Hu.
    apply sendInLoop_good; try done; [by rewrite E|]. unfold u32_small in Hu. lia.
  - case_decide as E; [|eexists; split; [done|]; by apply good_refl].
    apply sendInLoop_receive_good; try done. by rewrite E.
  - destruct (ReceiveBuffer.retrieve_spec _ (u64 n) Hwf (u64_range n)) as (rb' & -> & Hwf' & _). cbn.
    eexists. split; [done|]. by apply Hrb.
  - eexists. split; [done|]. by apply Hrb, ReceiveBuffer.retrieveAll_spec.
  - eexists. split; [done|]. by apply shutdownInLoop_good.
  - eexists. split; [done|]. by apply Hq.
  - eexists. split; [done|]. by apply Hq.
Qed.

Lemma do_actions_good acts s :
  core s -> stream s -> Forall action_ok acts ->
  exists s', do_actions acts s = Some s' /\ good s s'.
Proof.
  intros Hc Hst Hok. revert s Hc Hst. induction Hok as [|a acts Ha _ IH]; intros s Hc Hst; cbn.
  - eexists. split; [done|]. by apply good_refl.
  - destruct (do_action_good a s Hc Hst Ha) as (s1 & -> & Hc1 & Hst1 & Hcalm). cbn.
    destruct (IH s1 Hc1 Hst1) as (s2 & -> & Hc2 & Hst2 & Hcalm2).
    eexists. split; [done|]. split; [done|]. split; [done|]. by eapply calm_trans.
Qed.

(** One callback: its actions, and one more callback in the trace. *)
Lemma invoke_spec c acts s :
  core s -> stream s -> (forall l, Forall action_ok (acts l)) ->
  exists s', invoke c acts s = Some s' /\ core s' /\ stream s' /\
    (state_ s' = state_ s \/ (state_ s = kConnected /\ state_ s' = kDisconnecting)) /\
    cbs (tr s') = cbs (tr s) ++ [c].
Proof.
  intros Hc Hst Hok. unfold invoke. cbv zeta. set (s1 := emit (EvCallback c) s).
  assert (stream s1) as Hst1.
  { unfold stream, s1 in *. cbn. rewrite accepted_app, written_app, Hst. cbn. by rewrite !app_nil_r. }
  destruct (do_actions_good (acts (tr s1)) s1) as (s2 & E & Hc2 & Hst2 & Hs & Hcb);
    [by apply core_emit|done|apply Hok|].
  exists s2. split; [done|]. split; [done|]. split; [done|]. split; [done|].
  rewrite Hcb. unfold s1. cbn. by rewrite cbs_app.
Qed.

(** ** Handlers *)

Lemma disable_all s :
  core s -> open s ->
  exists w p, watcher_op WatcherOps.DisableAll (setState kDisconnected s) =
      Some (set_watcher w p (setState kDisconnected s)) /\
    core (set_watcher w p (setState kDisconnected s)).
Proof.
  intros Hc Ho. unfold watcher_op. cbn [watcher_ poller setState].
  destruct (WatcherOps.apply_op_spec WatcherOps.DisableAll _ _ (core_poller _ Hc) (core_synced _ Hc))
    as (w & p & -> & Hp & Hs & Hweq & _).
  exists w, p. split; [done|]. destruct Hc as [_ _ Hrb Hf _ _]. constructor; try done.
  - cbn. eapply functor_ok_mono; [exact Hf|]. done.
  - cbn. by rewrite Hweq.
Qed.

Lemma handleClose_spec s :
  core s -> stream s -> open s ->
  exists s', handleClose s = Some s' /\ core s' /\ stream s' /\ state_ s' = kDisconnected /\
    cbs (tr s') = cbs (tr s) ++ [CbDisconnect; CbClose].
Proof.
  intros Hc Hst Ho. unfold handleClose.
  destruct (disable_all s Hc Ho) as (w & p & -> & Hc1). cbn [mbind option_bind].
  destruct (invoke_spec CbDisconnect (disconnectCallback_ e) _ Hc1 Hst (disconnect_ok He))
    as (s2 & -> & Hc2 & Hst2 & Hs2 & Hcb2). cbn [mbind option_bind].
  destruct (invoke_spec CbClose (closeCallback_ e) _ Hc2 Hst2 (close_ok He))
    as (s3 & -> & Hc3 & Hst3 & Hs3 & Hcb3).
  exists s3. split; [done|]. split; [done|]. split; [done|]. cbn in Hs2, Hcb2. split.
  - destruct Hs2 as [E|[? _]]; [|done]. rewrite E in Hs3. by destruct Hs3 as [?|[? _]].
  - rewrite Hcb3, Hcb2. by rewrite <- app_assoc.
Qed.

Definition inv (s : t) : Prop := core s /\ stream s /\ life (state_ s) (cbs (tr s)).

Lemma life_calm s s' : life (state_ s) (cbs (tr s)) -> calm s s' -> life (state_ s') (cbs (tr s')).
Proof.
  intros Hl [[Hs|[Hs Hs']] ->]; [by rewrite Hs|]. rewrite Hs' in *. by rewrite Hs in Hl.
Qed.

Lemma good_inv s s' : life (state_ s) (cbs (tr s)) -> good s s' -> inv s'.
Proof. intros Hl (Hc & Hst & Hcalm). split; [done|]. split; [done|]. by eapply life_calm. Qed.

Lemma life_open s : life (state_ s) (cbs (tr s)) -> open s -> exists n, cbs (tr s) = CbConnect :: replicate n CbRead.
Proof. intros Hl [E|E]; by rewrite E in Hl. Qed.

Lemma life_read n : replicate n CbRead ++ [CbRead] = replicate (S n) CbRead.
Proof. by rewrite <- replicate_S_end. Qed.

Lemma handleClose_inv s : inv s -> open s -> exists s', handleClose s = Some s' /\ inv s' /\ ~ open s'.
Proof.
  intros (Hc & Hst & Hl) Ho. destruct (handleClose_spec s Hc Hst Ho) as (s' & E & Hc' & Hst' & Hs & Hcb).
  exists s'. split; [done|]. split; [split; [done|split; [done|]]|].
  - rewrite Hs, Hcb. destruct (life_open s Hl Ho) as [n ->]. exists n. by right.
  - intros [E'|E']; congruence.
Qed.

Lemma connection_handleRead_inv s : inv s -> open s -> exists s', handleRead s = Some s' /\ inv s'.
Proof.
  intros (Hc & Hst & Hl) Ho. unfold handleRead. set (s1 := emit _ s).
  destruct (emit_silent (EvRead (sys_read e (tr s))) s) as (Hc1 & Hst1 & Hcb1); [done..|]. fold s1 in Hc1, Hst1, Hcb1.
  change (receiveBuffer_ s1) with (receiveBuffer_ s).
  pose proof (core_rb _ Hc) as Hrb.
  destruct (ReceiveBuffer.prepareReceive_wf _ Hrb) as [Hrb' _].
  destruct (sys_read e (tr s)) as [avail| |err] eqn:Er.
  - destruct (ReceiveBuffer.receive_accepts _ avail Hrb (read_ok He _ _ Er)) as (rb & -> & Hwf & _).
    cbn [mbind option_bind].
    set (bytes := ztake _ avail).
    destruct (emit_silent (EvReceived bytes) (set_receiveBuffer rb s1)) as (Hcr & Hstr & Hcbr);
      [by apply core_set_receiveBuffer|done..|].
    destruct (invoke_spec CbRead (fun l => readCallback_ e l rb) (emit (EvReceived bytes) (set_receiveBuffer rb s1)))
      as (s2 & -> & Hc2 & Hst2 & Hs2 & Hcb2);
      [done|done|intros; by apply (readcb_ok He)|].
    exists s2. split; [done|]. split; [done|]. split; [done|].
    cbn in Hs2. rewrite Hcb2, Hcbr. cbn [tr set_receiveBuffer]. rewrite Hcb1.
    destruct (life_open s Hl Ho) as [n ->]. cbn [app]. rewrite life_read.
    assert (open s2) as Ho2 by (unfold open in *; destruct Hs2 as [->|[_ ->]]; auto).
    destruct Ho2 as [->| ->]; by exists (S n).
  - destruct (handleClose_inv (set_receiveBuffer (ReceiveBuffer.prepareReceive (receiveBuffer_ s)).1 s1))
      as (s' & -> & ? & _); [|done|by exists s'].
    split; [by apply core_set_receiveBuffer|]. split; [done|]. cbn [state_ tr set_receiveBuffer].
    by rewrite Hcb1.
  - eexists. split; [done|]. split; [by apply core_set_receiveBuffer|]. split; [done|].
    cbn [state_ tr set_receiveBuffer]. by rewrite Hcb1.
Qed.

(** [hasSent] on the one pending buffer. *)
Lemma hasSent_one b n :
  Buffer.wf b -> u32_small (zlen (Buffer.readable b)) -> 0 < n <= zlen (Buffer.readable b) ->
  exists sb, SendBuffer.hasSent n (SendBuffer.mk [b] (zlen (Buffer.readable b))) = Some sb /\
    SendBuffer.contents sb = zdrop n (Buffer.readable b) /\
    ((SendBuffer.size sb = 0 /\ SendBuffer.contents sb = [] /\ sb = SendBuffer.make) \/
     (SendBuffer.size sb <> 0 /\ SendBuffer.contents sb <> [] /\ pending sb)).
Proof.
  intros Hb Hs Hn. unfold u32_small in Hs. unfold SendBuffer.hasSent.
  cbn [SendBuffer.buffers_ SendBuffer.size_ length SendBuffer.hasSent_loop].
  rewrite (proj2 (Z.ltb_lt 0 n)), Buffer.readableSize_zlen by (done || lia).
  rewrite Z.sub_0_r, (u64_small n), Z.min_r by zlia.
  destruct (Buffer.hasRead_spec n b Hb) as [Hb' Hr]; [rewrite Buffer.readableSize_zlen by done; lia|].
  rewrite Z.add_0_l, (u64_small n) by zlia.
  assert (zlen (zdrop n (Buffer.readable b)) = zlen (Buffer.readable b) - n) as Hz by zlia.
  destruct (Buffer.empty (Buffer.hasRead n b)) eqn:E; cbn [SendBuffer.hasSent_loop mbind option_bind].
  - apply Buffer.empty_readable in E; [|done]. rewrite Hr in E.
    assert (n = zlen (Buffer.readable b)) as -> by (rewrite E in Hz; change (zlen []) with 0 in Hz; lia).
    rewrite Z.sub_diag. exists SendBuffer.make. split; [done|]. split; [by rewrite E|]. by left.
  - apply Buffer.empty_false_readable in E; [|done].
    assert (0 < zlen (zdrop n (Buffer.readable b))) as Hpos
      by (rewrite <- Hr; destruct (Buffer.readable (Buffer.hasRead n b)); [done|zlia]).
    rewrite Z.ltb_irrefl. cbn [mbind option_bind]. rewrite u64_small by zlia.
    eexists. split; [done|]. unfold SendBuffer.contents, SendBuffer.size. cbn [SendBuffer.buffers_ SendBuffer.size_].
    rewrite Buffer.contents_of_cons, app_nil_r, Hr. split; [done|]. right.
    split; [lia|]. split; [by rewrite <- Hr|].
    apply pending_one; rewrite ?Hr; unfold u32_small; try done; lia.
Qed.

Lemma gather_one b sz :
  Buffer.wf b -> SendBuffer.gather (SendBuffer.prepareSend (SendBuffer.mk [b] sz)) = Some (Buffer.readable b).
Proof.
  intros Hb. unfold SendBuffer.prepareSend. cbn [SendBuffer.buffers_ SendBuffer.prepareSend_loop].
  change (SendBuffer.kSendSize <=? 0) with false. cbn [SendBuffer.gather].
  pose proof (Buffer.readableSize_range b Hb).
  rewrite Buffer.load_dataRead by (done || lia). cbn. rewrite app_nil_r.
  by rewrite ztake_all by (rewrite Buffer.readableSize_zlen by done; lia).
Qed.

(** [disableWriting()] with nothing left to send. *)
Lemma disable_writing s sb :
  core s -> open s -> isWriting s = true -> sb = SendBuffer.make ->
  exists w p, watcher_op WatcherOps.DisableWriting (set_sendBuffer sb s) =
      Some (set_watcher w p (set_sendBuffer sb s)) /\
    core (set_watcher w p (set_sendBuffer sb s)) /\
    isWriting (set_watcher w p (set_sendBuffer sb s)) = false.
Proof.
  intros Hc Ho Hw ->.
  destruct (isWriting_open s Hc Ho) as [[_ Hev]|[E _]]; [|by rewrite E in Hw].
  unfold watcher_op. cbn [watcher_ poller set_sendBuffer].
  destruct (WatcherOps.apply_op_spec WatcherOps.DisableWriting _ _ (core_poller _ Hc) (core_synced _ Hc))
    as (w & p & -> & Hp & Hs & Hweq & _).
  exists w, p. split; [done|].
  assert (Watcher.events_ w = 3) as He' by (rewrite Hweq, Hev; done).
  assert (isWriting (set_watcher w p (set_sendBuffer SendBuffer.make s)) = false) as Hw'
    by (unfold isWriting, Watcher.isWriting; cbn; by rewrite He').
  split; [|done]. destruct Hc as [_ _ Hrb Hf _ _]. constructor; try done.
  - cbn. rewrite He'. destruct Ho as [E|E]; rewrite E; by left.
  - rewrite Hw'. cbn. destruct Ho as [E|E]; by rewrite E.
Qed.

Lemma core_pending s : core s -> isWriting s = true -> open s /\ pending (sendBuffer_ s).
Proof.
  intros Hc Hw. assert (open s) as Ho.
  { destruct (state_ s) eqn:E; unfold open; rewrite E; auto;
      rewrite (isWriting_closed s Hc) in Hw by (unfold open; rewrite E; naive_solver); done. }
  split; [done|]. pose proof (core_sb _ Hc) as Hsb. rewrite Hw in Hsb.
  destruct Ho as [E|E]; by rewrite E in Hsb.
Qed.

(** The outcome [s'] of offering [bytes], all that is unsent, to the kernel. *)
Definition wrote (s s' : t) (bytes : list byte) (r : wresult) : Prop :=
  core s' /\ stream s' /\ state_ s' = state_ s /\ tr s' = tr s ++ [EvWrite bytes r] /\
  SendBuffer.contents (sendBuffer_ s') = zdrop (match r with Wrote n => n | WFail _ => 0 end) bytes /\
  (isWriting s' = false <-> bytes <> [] /\ SendBuffer.contents (sendBuffer_ s') = []).

Lemma stream_write s bytes r sb :
  stream s -> bytes = SendBuffer.contents (sendBuffer_ s) ->
  SendBuffer.contents sb = zdrop (match r with Wrote n => n | WFail _ => 0 end) bytes ->
  taken bytes r = ztake (match r with Wrote n => n | WFail _ => 0 end) bytes ->
  stream (set_sendBuffer sb (emit (EvWrite bytes r) s)).
Proof.
  unfold stream. intros Hst Hb Hsb Ht. cbn.
  rewrite accepted_app, written_app, accepted_write, written_write, Ht, Hsb, Hst, app_nil_r, <- Hb.
  by rewrite <- app_assoc, ztake_zdrop.
Qed.

(** The kernel takes nothing. *)
Lemma wrote_nothing s bytes r :
  core s -> stream s -> isWriting s = true -> bytes = SendBuffer.contents (sendBuffer_ s) ->
  r = Wrote 0 \/ (exists err, r = WFail err) -> wrote s (emit (EvWrite bytes r) s) bytes r.
Proof.
  intros Hc Hst Hw Hb Hr. split; [by apply core_emit|].
  assert (match r with Wrote n => n | WFail _ => 0 end = 0) as Hn by (by destruct Hr as [->|[? ->]]).
  split.
  - apply (stream_write s bytes r (sendBuffer_ s)); [done|done|rewrite Hn; by rewrite <- Hb|].
    destruct Hr as [->|[? ->]]; by rewrite ?ztake_0.
  - split; [done|]. split; [done|]. rewrite Hn. cbn [sendBuffer_ emit]. rewrite <- Hb. split; [done|].
    change (isWriting (emit (EvWrite bytes r) s)) with (isWriting s). rewrite Hw. split; [done|]. by intros [? ?].
Qed.

(** The kernel takes a part. *)
Lemma wrote_some s bytes n sb :
  core s -> stream s -> isWriting s = true -> open s -> bytes = SendBuffer.contents (sendBuffer_ s) ->
  SendBuffer.contents sb = zdrop n bytes -> SendBuffer.contents sb <> [] -> pending sb ->
  wrote s (set_sendBuffer sb (emit (EvWrite bytes (Wrote n)) s)) bytes (Wrote n).
Proof.
  intros Hc Hst Hw Ho Hb Hcon Hne Hp.
  change (isWriting s) with (isWriting (set_sendBuffer sb (emit (EvWrite bytes (Wrote n)) s))) in Hw.
  split.
  - destruct (core_emit (EvWrite bytes (Wrote n)) s Hc) as [Hpo Hsy Hrb Hf Hev _]. constructor; try done.
    rewrite Hw. cbn. destruct Ho as [E|E]; by rewrite E.
  - split; [by apply stream_write|]. split; [done|]. split; [done|]. split; [done|].
    rewrite Hw. split; [done|]. by intros [? ?].
Qed.

(** The kernel takes the rest: no longer waiting. *)
Lemma wrote_all s bytes n sb :
  core s -> stream s -> isWriting s = true -> open s -> bytes = SendBuffer.contents (sendBuffer_ s) ->
  bytes <> [] -> SendBuffer.contents sb = zdrop n bytes -> SendBuffer.contents sb = [] -> sb = SendBuffer.make ->
  exists s', (s3 ← watcher_op WatcherOps.DisableWriting (set_sendBuffer sb (emit (EvWrite bytes (Wrote n)) s));
    Some (if decide (state_ s3 = kDisconnecting) then shutdownInLoop s3 else s3)) = Some s' /\
    wrote s s' bytes (Wrote n).
Proof.
  intros Hc Hst Hw Ho Hb Hne Hcon Hnil Hmake.
  destruct (disable_writing (emit (EvWrite bytes (Wrote n)) s) sb) as (w & p & -> & Hc2 & Hw2);
    [by apply core_emit|done..|].
  cbn [mbind option_bind]. set (s3 := set_watcher w p _) in *.
  assert ((if decide (state_ s3 = kDisconnecting) then shutdownInLoop s3 else s3) = s3) as ->.
  { case_decide as E; [|done]. unfold shutdownInLoop. by rewrite decide_False by (rewrite E; done). }
  exists s3. split; [done|]. split; [done|]. split; [by apply (stream_write s bytes (Wrote n) sb)|].
  split; [done|]. split; [done|]. split; [done|]. by rewrite Hw2.
Qed.

(** [handleWrite] offers the kernel all that is unsent, drops what it took and
    stops waiting for writability when nothing is left. *)
Lemma handleWrite_spec s :
  core s -> stream s -> isWriting s = true ->
  let bytes := SendBuffer.contents (sendBuffer_ s) in
  exists s', handleWrite s = Some s' /\ wrote s s' bytes (sys_write e (tr s) bytes).
Proof.
  intros Hc Hst Hw bytes. set (r := sys_write e (tr s) bytes).
  destruct (core_pending s Hc Hw) as [Ho (b & Hbs & Hb & Hs & Hsz0 & Hsz)].
  assert (bytes = Buffer.readable b) as Hbytes by (unfold bytes, SendBuffer.contents; rewrite Hbs; apply app_nil_r).
  assert (sendBuffer_ s = SendBuffer.mk [b] (SendBuffer.size_ (sendBuffer_ s))) as Esb
    by (destruct (sendBuffer_ s); cbn in *; by subst).
  assert (SendBuffer.gather (SendBuffer.prepareSend (sendBuffer_ s)) = Some bytes) as Eg
    by (rewrite Esb, Hbytes; by apply gather_one).
  unfold handleWrite. rewrite Hw, Eg.
  cbn [mbind option_bind]. unfold socket_write. fold r.
  change (sendBuffer_ (emit (EvWrite bytes r) s)) with (sendBuffer_ s).
  destruct r as [n|err] eqn:Er; [|eexists; split; [done|]; apply wrote_nothing; eauto].
  pose proof (write_ok He _ _ _ Er) as Hr.
  destruct (0 <? n) eqn:E0; zbool;
    [|assert (n = 0) as -> by lia; eexists; split; [done|]; apply wrote_nothing; eauto].
  assert (bytes <> []) as Hne by (intros E; rewrite E in Hr; change (zlen []) with 0 in Hr; lia).
  rewrite Hbytes in Hr. replace (u32 n) with n by (unfold u32, u32_small in *; symmetry; apply Z.mod_small; lia).
  rewrite Esb, Hsz by (by rewrite <- Hbytes).
  destruct (hasSent_one b n Hb Hs) as (sb & -> & Hcon & Hcase); [lia|]. cbn [mbind option_bind].
  rewrite <- Hbytes in Hcon. destruct Hcase as [(Hz & Hnil & Hmake)|(Hz & Hnonil & Hp)].
  - rewrite Hz, Z.eqb_refl. by apply wrote_all.
  - rewrite (proj2 (Z.eqb_neq _ _) Hz). eexists. split; [done|]. by apply wrote_some.
Qed.

(** ** One step, and runs *)

Lemma connection_handleWrite_inv s : inv s -> exists s', handleWrite s = Some s' /\ inv s'.
Proof.
  intros (Hc & Hst & Hl). destruct (isWriting s) eqn:Hw.
  - destruct (handleWrite_spec s Hc Hst Hw) as (s' & -> & (Hc' & Hst' & Hs & Htr & _)).
    exists s'. split; [done|]. split; [done|]. split; [done|].
    rewrite Hs, Htr, cbs_app, cbs_write, app_nil_r. done.
  - unfold handleWrite. rewrite Hw. by exists s.
Qed.

Lemma handleWrite_closed s : core s -> ~ open s -> handleWrite s = Some s.
Proof. intros Hc Ho. unfold handleWrite. by rewrite isWriting_closed. Qed.

Lemma started_open s : core s -> Watcher.started_ (watcher_ s) = true -> open s.
Proof.
  intros Hc Hs. destruct (core_synced _ Hc) as [_ H]. rewrite Hs in H. destruct H as [Hne _].
  pose proof (core_events _ Hc) as Hev. unfold open. destruct (state_ s); auto; by rewrite Hev in Hne.
Qed.

Lemma open_started s : core s -> open s -> Watcher.started_ (watcher_ s) = true.
Proof.
  intros Hc Ho. destruct (core_synced _ Hc) as [_ Hs]. destruct (Watcher.started_ (watcher_ s)); [done|].
  destruct Hs as [Hs _]. by destruct (isWriting_open s Hc Ho) as [[_ E]|[_ E]]; rewrite E in Hs.
Qed.

(** A readable event of an open connection. *)
Lemma step_pollin s : core s -> open s -> step (IEvents POLLIN) s = handleRead s.
Proof.
  intros Hc Ho. cbn [step]. rewrite open_started by done.
  change (Dispatch.handleEvents POLLIN callbacks s) with (x ← handleRead s; Some x). by destruct (handleRead s).
Qed.

Lemma connection_handleEvents_inv revents s :
  inv s -> open s -> revents_ok revents ->
  exists s', Dispatch.handleEvents revents callbacks s = Some s' /\ inv s'.
Proof.
  intros Hinv Ho Hrev. unfold Dispatch.handleEvents, callbacks.
  cbn [Dispatch.call Dispatch.closeCallback_ Dispatch.errorCallback_ Dispatch.readCallback_ Dispatch.writeCallback_].
  unfold revents_ok in Hrev. unfold handleError.
  destruct (has revents POLLHUP && negb (has revents POLLIN)) eqn:Eh.
  - destruct (handleClose_inv s Hinv Ho) as (s1 & -> & Hinv1 & Hno). cbn [mbind option_bind].
    assert ((if has revents (Z.lor POLLERR POLLNVAL) then Some s1 else Some s1) = Some s1) as ->
      by by destruct (has revents (Z.lor POLLERR POLLNVAL)).
    cbn [mbind option_bind]. rewrite (Hrev eq_refl). cbn [mbind option_bind].
    exists s1. split; [|done]. case_match; [|done]. by apply handleWrite_closed; [apply Hinv1|].
  - cbn [mbind option_bind].
    assert (exists s1, (if has revents (Z.lor (Z.lor POLLIN POLLPRI) POLLRDHUP) then handleRead s else Some s)
      = Some s1 /\ inv s1) as (s1 & E & Hinv1) by (case_match; [by apply connection_handleRead_inv|by exists s]).
    destruct (connection_handleWrite_inv s1 Hinv1) as (s2 & E2 & Hinv2).
    exists (if has revents POLLOUT then s2 else s1). split; [|by destruct (has revents POLLOUT)].
    assert ((if has revents (Z.lor POLLERR POLLNVAL) then Some s else Some s) = Some s) as ->
      by by destruct (has revents (Z.lor POLLERR POLLNVAL)).
    cbn [mbind option_bind]. rewrite E. cbn [mbind option_bind]. by destruct (has revents POLLOUT).
Qed.

Lemma establishedInLoop_inv s : inv s -> exists s', establishedInLoop s = Some s' /\ inv s'.
Proof.
  intros (Hc & Hst & Hl). unfold establishedInLoop. case_decide as E; [|by exists s].
  pose proof (core_events _ Hc) as Hev. pose proof (core_sb _ Hc) as Hsb. rewrite E in Hev, Hsb, Hl.
  cbn in Hev, Hsb, Hl. unfold watcher_op. cbn [watcher_ poller setState].
  destruct (WatcherOps.apply_op_spec WatcherOps.EnableReading _ _ (core_poller _ Hc) (core_synced _ Hc))
    as (w & p & -> & Hp & Hs & Hweq & _). cbn [mbind option_bind].
  assert (Watcher.events_ w = 3) as Hev' by (rewrite Hweq, Hev; done).
  assert (core (set_watcher w p (setState kConnected s))) as Hc1.
  { destruct Hc as [_ _ Hrb Hf _ _]. constructor; try done.
    - cbn. by eapply functor_ok_mono.
    - cbn. by left.
    - assert (isWriting (set_watcher w p (setState kConnected s)) = false) as ->
        by (unfold isWriting, Watcher.isWriting; cbn; by rewrite Hev'). done. }
  destruct (invoke_spec CbConnect (connectCallback_ e) _ Hc1 Hst (connect_ok He))
    as (s2 & -> & Hc2 & Hst2 & Hs2 & Hcb2).
  exists s2. split; [done|]. split; [done|]. split; [done|]. cbn in Hs2, Hcb2.
  rewrite Hcb2, Hl. by destruct Hs2 as [->|[_ ->]]; exists 0%nat.
Qed.

Lemma destroyedInLoop_inv s : inv s -> exists s', destroyedInLoop s = Some s' /\ inv s'.
Proof.
  intros (Hc & Hst & Hl). unfold destroyedInLoop. case_decide as E; [|by exists s].
  assert (open s) as Ho by by left.
  destruct (disable_all s Hc Ho) as (w & p & -> & Hc1). cbn [mbind option_bind].
  destruct (invoke_spec CbDisconnect (disconnectCallback_ e) _ Hc1 Hst (disconnect_ok He))
    as (s2 & -> & Hc2 & Hst2 & Hs2 & Hcb2).
  exists s2. split; [done|]. split; [done|]. split; [done|]. cbn in Hs2, Hcb2.
  rewrite Hcb2. destruct (life_open s Hl Ho) as [n ->].
  destruct Hs2 as [->|[? _]]; [|done]. exists n. by left.
Qed.

Lemma forceCloseInLoop_inv s : inv s -> exists s', forceCloseInLoop s = Some s' /\ inv s'.
Proof.
  intros Hinv. unfold forceCloseInLoop. case_decide as E; [|by exists s].
  destruct (handleClose_inv s Hinv E) as (s' & ? & ? & _). by exists s'.
Qed.

Lemma remote_buffer_spec rb :
  ReceiveBuffer.wf rb ->
  exists b, remote_buffer rb = Some b /\ Buffer.wf b /\ Buffer.rpos_ b = 0 /\ Buffer.readable b = [].
Proof.
  intros Hrb. pose proof Hrb as (_ & _ & Hsz). pose proof (u64_range (zlen (ReceiveBuffer.contents rb))) as H64. rewrite <- Hsz in H64.
  unfold remote_buffer, ReceiveBuffer.size. set (n := ReceiveBuffer.size_ rb) in *.
  assert (0 <= n) by zlia.
  assert (Buffer.capacity (Buffer.make n) = n) as Hcap by by apply Buffer.capacity_make.
  rewrite ReceiveBuffer.peek_spec; [|done|rewrite Hcap; exact H64|].
  2:{ change (zlen (Buffer.buffer_ (Buffer.make n))) with (Buffer.capacity (Buffer.make n)). lia. }
  cbn [mbind option_bind]. rewrite Hcap. set (st := splice 0 _ _).
  assert (zlen st = n) as Hst.
  { unfold st. unfold Buffer.capacity in Hcap. rewrite zlen_splice; rewrite ?Hcap; zlia. }
  eexists. split; [done|]. split; [|done]. unfold Buffer.wf, Buffer.capacity, Buffer.make. cbn.
  rewrite Hst, Hsz. zlia.
Qed.

Lemma do_remote_good r s :
  core s -> stream s -> input_ok (IRemote r) -> exists s', do_remote r s = Some s' /\ good s s'.
Proof.
  intros Hc Hst Hok.
  assert (forall f, functor_ok (state_ s) f -> good s (queueInLoop f s)) as Hq.
  { intros f Hf. split; [by apply core_queue|]. split; [done|]. split; [by left|done]. }
  destruct r as [data|rb| | | |]; cbn [do_remote]; try (eexists; split; [done|by apply Hq]).
  - case_decide as E; [|eexists; split; [done|by apply good_refl]].
    pose proof (u32_le (zlen data) (zlen_nonneg data)). pose proof (u32_range (zlen data)) as Hu.
    set (n := u32 (zlen data)) in *. unfold u32_small in Hu.
    rewrite Buffer.make_from_spec by zlia. cbn [mbind option_bind].
    eexists. split; [done|]. apply Hq. rewrite E. cbn.
    assert (zlen (ztake n data) = n) as Hz by zlia.
    split; [done|]. split; [unfold Buffer.wf, Buffer.capacity; cbn; zlia|]. split; [done|].
    unfold Buffer.readable. cbn. rewrite Z.sub_0_r, zlen_slice by lia. done.
  - case_decide as E; [|eexists; split; [done|by apply good_refl]].
    destruct (remote_buffer_spec rb) as (b & -> & Hb & Hr0 & Hr); [done..|].
    cbn [mbind option_bind]. eexists. split; [done|]. apply Hq. rewrite E. cbn.
    rewrite Hr. split; [done|]. split; [done|]. split; [done|]. by vm_compute.
Qed.

Lemma do_functor_inv f s :
  inv s -> functor_ok (state_ s) f -> exists s', do_functor f s = Some s' /\ inv s'.
Proof.
  intros Hinv Hf. pose proof Hinv as (Hc & Hst & Hl). destruct f as [b| | | |]; cbn [do_functor].
  - destruct (sendInLoop_buffer_good b s Hc Hst Hf) as (s' & ? & ?). exists s'. split; [done|].
    by eapply good_inv.
  - eexists. split; [done|]. eapply good_inv; [done|]. by apply shutdownInLoop_good.
  - by apply forceCloseInLoop_inv.
  - by apply establishedInLoop_inv.
  - by apply destroyedInLoop_inv.
Qed.

Lemma connection_step_inv i s : inv s -> input_ok i -> exists s', step i s = Some s' /\ inv s'.
Proof.
  intros Hinv Hok. pose proof Hinv as (Hc & Hst & Hl). destruct i as [revents| |a| |r]; cbn [step].
  - destruct (Watcher.started_ (watcher_ s)) eqn:E; [|by exists s].
    apply connection_handleEvents_inv; [done|by apply started_open|done].
  - destruct (functors s) as [|f rest] eqn:E; [by exists s|].
    pose proof (core_functors _ Hc) as Hf. rewrite E in Hf. apply Forall_cons_1 in Hf as [Hf Hrest].
    apply do_functor_inv; [|done]. split; [|done]. destruct Hc. by constructor.
  - destruct (do_action_good a s Hc Hst Hok) as (s' & ? & ?). exists s'. split; [done|]. by eapply good_inv.
  - by apply establishedInLoop_inv.
  - destruct (do_remote_good r s Hc Hst Hok) as (s' & ? & ?). exists s'. split; [done|]. by eapply good_inv.
Qed.

Lemma connection_run_inv ins s : inv s -> Forall input_ok ins -> exists s', run ins s = Some s' /\ inv s'.
Proof.
  intros Hinv Hok. revert s Hinv. induction Hok as [|i ins Hi _ IH]; intros s Hinv; cbn [run].
  - by exists s.
  - destruct (connection_step_inv i s Hinv Hi) as (s1 & -> & Hinv1). cbn. by apply IH.
Qed.

Lemma connection_make_inv self fd p : poller_ok p -> interest p !! fd = None -> inv (make self fd p).
Proof.
  intros Hp Hfd. split; [|split; [done|done]]. constructor; try done.
Qed.

(** ** After [shutdown()] while data is pending *)

(** *** Predicates that every step keeps

    A predicate on the state, the trace and the receive buffer is kept by every
    step when it is kept by the few operations that change these. *)

Definition quiet (ev : event) : Prop :=
  match ev with EvShutdownWrite | EvReceived _ | EvRetrieve _ | EvRetrieveAll => False | _ => True end.

(** The kernel's part in an event is its answer to what happened before. *)
Definition answered (ev : event) (l : trace) : Prop :=
  match ev with
  | EvWrite bytes r => r = sys_write e l bytes
  | EvRead r => r = sys_read e l
  | _ => True
  end.

Class Preserved (J : t -> Prop) : Prop := {
  pres_frame s s' :
    J s -> state_ s' = state_ s -> tr s' = tr s -> receiveBuffer_ s' = receiveBuffer_ s -> J s';
  pres_emit ev s : J s -> quiet ev -> answered ev (tr s) -> J (emit ev s);
  pres_shutdown s : J s -> J (shutdownInLoop s);
  pres_closed s : J s -> J (setState kDisconnected s);
  pres_connected s : J s -> state_ s = kConnecting -> J (setState kConnected s);
  pres_receive l avail bytes rb s :
    sys_read e l = RData avail -> ReceiveBuffer.receive avail (receiveBuffer_ s) = Some (bytes, rb) ->
    tr s = l ++ [EvRead (RData avail)] -> J s -> J (emit (EvReceived bytes) (set_receiveBuffer rb s));
  pres_prepare s :
    J s -> J (set_receiveBuffer (ReceiveBuffer.prepareReceive (receiveBuffer_ s)).1 s);
  pres_retrieve n rb s :
    ReceiveBuffer.retrieve (u64 n) (receiveBuffer_ s) = Some rb -> J s ->
    J (emit (EvRetrieve (u64 n)) (set_receiveBuffer rb s));
  pres_retrieveAll s :
    J s -> J (emit EvRetrieveAll (set_receiveBuffer (ReceiveBuffer.retrieveAll (receiveBuffer_ s)) s))
}.

Create HintDb preserved discriminated.

Section Preservation.
Context (J : t -> Prop) `{HJ : !Preserved J}.

Lemma watcher_op_pres o s s' : watcher_op o s = Some s' -> J s -> J s'.
Proof.
  unfold watcher_op. destruct (WatcherOps.apply_op o _ _) as [[w p]|]; [|done].
  intros [= <-] ?. by eapply pres_frame.
Qed.

Lemma socket_write_pres bytes s r s' : socket_write bytes s = (r, s') -> J s -> J s'.
Proof. intros [= _ <-] ?. by apply pres_emit. Qed.

Lemma send_pres data n s : J s -> J (emit (EvSend data n) s).
Proof. intros. by apply pres_emit. Qed.

Lemma set_sendBuffer_pres sb s : J s -> J (set_sendBuffer sb s).
Proof. intros. by eapply pres_frame. Qed.

Lemma set_functors_pres fs s : J s -> J (set_functors fs s).
Proof. intros. by eapply pres_frame. Qed.

Lemma queueInLoop_pres f s : J s -> J (queueInLoop f s).
Proof. apply set_functors_pres. Qed.

#[local] Hint Resolve send_pres set_sendBuffer_pres set_functors_pres queueInLoop_pres : preserved.
#[local] Hint Extern 1 (J (shutdownInLoop _)) => apply pres_shutdown : preserved.
#[local] Hint Extern 1 (J (setState kDisconnected _)) => apply pres_closed : preserved.
#[local] Hint Extern 1 (J (emit (EvReceived _) _)) => eapply pres_receive : preserved.
#[local] Hint Extern 1 (J (emit (EvRetrieve _) _)) => eapply pres_retrieve : preserved.
#[local] Hint Extern 1 (J (emit EvRetrieveAll _)) => apply pres_retrieveAll : preserved.
#[local] Hint Extern 1 (J (set_receiveBuffer _ _)) => apply pres_prepare : preserved.

(** Take a successful computation apart. *)
Ltac run_parts :=
  repeat match goal with
  | H : Some _ = Some _ |- _ => injection H as H; subst
  | H : None = Some _ |- _ => discriminate H
  | H : _ ≫= _ = Some _ |- _ => apply bind_Some in H as (? & ? & H)
  | H : match ?x with _ => _ end = Some _ |- _ => destruct x eqn:?
  | H : watcher_op _ _ = Some _ |- _ => generalize (watcher_op_pres _ _ _ H); clear H; intros H
  | H : socket_write _ _ = (_, _) |- _ => generalize (socket_write_pres _ _ _ _ H); clear H; intros H
  end.

Lemma sendInLoop_pres buf count s s' : sendInLoop buf count s = Some s' -> J s -> J s'.
Proof. intros E H. unfold sendInLoop in E. run_parts; auto 10 with preserved. Qed.

Lemma sendInLoop_buffer_pres b s s' : sendInLoop_buffer b s = Some s' -> J s -> J s'.
Proof. intros E H. unfold sendInLoop_buffer, keep_buffer in E. run_parts; auto 10 with preserved. Qed.

Lemma sendInLoop_receive_pres rb s s' : sendInLoop_receive rb s = Some s' -> J s -> J s'.
Proof. intros E H. unfold sendInLoop_receive in E. run_parts; auto 10 with preserved. Qed.

#[local] Hint Resolve sendInLoop_pres sendInLoop_buffer_pres sendInLoop_receive_pres : preserved.

Lemma do_action_pres a s s' : do_action a s = Some s' -> J s -> J s'.
Proof.
  intros E H. destruct a; cbn [do_action] in E; unfold send in E; run_parts; eauto with preserved.
Qed.

Lemma do_actions_pres acts s s' : do_actions acts s = Some s' -> J s -> J s'.
Proof.
  revert s. induction acts as [|a acts IH]; intros s E H; cbn [do_actions] in E; run_parts; [done|].
  eapply IH; [done|]. by eapply do_action_pres.
Qed.

Lemma invoke_pres c acts s s' : invoke c acts s = Some s' -> J s -> J s'.
Proof. intros E H. eapply do_actions_pres; [exact E|]. by apply pres_emit. Qed.

#[local] Hint Resolve invoke_pres : preserved.

Lemma handleClose_pres s s' : handleClose s = Some s' -> J s -> J s'.
Proof. intros E H. unfold handleClose in E. run_parts. eauto 10 with preserved. Qed.

#[local] Hint Resolve handleClose_pres : preserved.

Lemma handleRead_pres s s' : handleRead s = Some s' -> J s -> J s'.
Proof.
  intros E H. unfold handleRead, handleError in E. cbv zeta in E. set (s1 := emit _ s) in E.
  assert (J s1) as H1 by by apply pres_emit.
  run_parts; eauto 10 with preserved. by apply (pres_prepare s1).
Qed.

Lemma handleWrite_pres s s' : handleWrite s = Some s' -> J s -> J s'.
Proof.
  intros E H. unfold handleWrite in E. run_parts; try case_decide; auto 10 with preserved.
Qed.

Lemma establishedInLoop_pres s s' : establishedInLoop s = Some s' -> J s -> J s'.
Proof.
  intros E H. unfold establishedInLoop in E. case_decide as Hd; run_parts; [|done].
  assert (J (setState kConnected s)) by by apply pres_connected.
  eauto with preserved.
Qed.

Lemma destroyedInLoop_pres s s' : destroyedInLoop s = Some s' -> J s -> J s'.
Proof.
  intros E H. unfold destroyedInLoop in E. case_decide as Hd; run_parts; eauto with preserved.
Qed.

Lemma forceCloseInLoop_pres s s' : forceCloseInLoop s = Some s' -> J s -> J s'.
Proof. intros E H. unfold forceCloseInLoop in E. run_parts; eauto with preserved. Qed.

#[local] Hint Resolve handleRead_pres handleWrite_pres establishedInLoop_pres
  destroyedInLoop_pres forceCloseInLoop_pres do_action_pres : preserved.

Lemma do_functor_pres f s s' : do_functor f s = Some s' -> J s -> J s'.
Proof.
  destruct f; cbn [do_functor]; eauto with preserved. intros [= <-] ?. auto with preserved.
Qed.

Lemma handleEvents_pres revents s s' :
  Dispatch.handleEvents revents callbacks s = Some s' -> J s -> J s'.
Proof.
  unfold Dispatch.handleEvents, callbacks, handleError.
  cbn [Dispatch.call Dispatch.closeCallback_ Dispatch.errorCallback_ Dispatch.readCallback_ Dispatch.writeCallback_].
  intros E H. apply bind_Some in E as (s1 & E1 & E). apply bind_Some in E as (s2 & E2 & E).
  apply bind_Some in E as (s3 & E3 & E).
  assert (J s1) by (destruct (_ && _); simplify_eq; eauto with preserved).
  assert (s2 = s1) as -> by (destruct (has revents (Z.lor POLLERR POLLNVAL)); congruence).
  assert (J s3) by (destruct (has revents (Z.lor _ POLLRDHUP)); simplify_eq; eauto with preserved).
  destruct (has revents POLLOUT); simplify_eq; eauto with preserved.
Qed.

Lemma step_pres i s s' : step i s = Some s' -> J s -> J s'.
Proof.
  intros E H. destruct i as [revents| |a| |r]; cbn [step] in E.
  - destruct (Watcher.started_ _); [by eapply handleEvents_pres|by simplify_eq].
  - destruct (functors s) as [|f rest]; [by simplify_eq|]. eapply do_functor_pres; [done|].
    auto with preserved.
  - by eapply do_action_pres.
  - by eapply establishedInLoop_pres.
  - destruct r; cbn [do_remote] in E; run_parts; auto with preserved.
Qed.

Lemma run_pres ins s s' : run ins s = Some s' -> J s -> J s'.
Proof.
  revert s. induction ins as [|i ins IH]; intros s E H; cbn [run] in E; run_parts; [done|].
  eapply IH; [done|]. by eapply step_pres.
Qed.
End Preservation.

(** *** A shutdown that was not passed on *)

(** The connection has been shut down, but the socket has not. *)
Definition unshut (s : t) : Prop :=
  (state_ s = kDisconnecting \/ state_ s = kDisconnected) /\ EvShutdownWrite ∉ tr s.

Lemma unshut_emit ev s : unshut s -> ev <> EvShutdownWrite -> unshut (emit ev s).
Proof.
  intros [Hs Hn] Hev. split; [done|]. cbn. rewrite elem_of_app, list_elem_of_singleton. naive_solver.
Qed.

#[local] Instance unshut_preserved : Preserved unshut.
Proof.
  split; try done.
  - unfold unshut. by intros s s' ? -> ->.
  - intros ev s H Hq _. apply unshut_emit; [done|]. by intros ->.
  - intros s H. unfold shutdownInLoop. by rewrite decide_False by (destruct H as [[->| ->] _]; done).
  - intros s [_ ?]. by split; [right|].
  - intros s [[?|?] _] ?; congruence.
  - intros l avail bytes rb s _ _ _ H. by apply unshut_emit.
  - intros n rb s _ H. by apply unshut_emit.
  - intros s H. by apply unshut_emit.
Qed.

(** *** The bytes received *)

(** The bytes the kernel delivered, in order. *)
Definition received (l : trace) : list byte :=
  mjoin (omap (fun ev => match ev with EvReceived bytes => Some bytes | _ => None end) l).

Lemma received_snoc l ev :
  received (l ++ [ev]) = received l ++ match ev with EvReceived bytes => bytes | _ => [] end.
Proof. unfold received. rewrite omap_app, join_app. destruct ev; cbn; by rewrite ?app_nil_r. Qed.

#[local] Arguments received : simpl never.

(** A byte queue that gets what the kernel delivers, and from which the calls of
    [retrieve] and [retrieveAll] take: what they took so far, and what is left. *)
Definition replay_step (q : list byte * list byte) (ev : event) : list byte * list byte :=
  let '(retrieved, unread) := q in
  match ev with
  | EvReceived bytes => (retrieved, unread ++ bytes)
  | EvRetrieve n => (retrieved ++ ztake n unread, zdrop n unread)
  | EvRetrieveAll => (retrieved ++ unread, [])
  | _ => q
  end.

Definition replay (l : trace) : list byte * list byte := foldl replay_step ([], []) l.
Definition retrieved (l : trace) : list byte := (replay l).1.
Definition unread (l : trace) : list byte := (replay l).2.

Lemma replay_snoc l ev : replay (l ++ [ev]) = replay_step (replay l) ev.
Proof. unfold replay. by rewrite foldl_app. Qed.

Lemma unread_snoc l ev :
  unread (l ++ [ev]) =
  match ev with
  | EvReceived bytes => unread l ++ bytes
  | EvRetrieve n => zdrop n (unread l)
  | EvRetrieveAll => []
  | _ => unread l
  end.
Proof. unfold unread. rewrite replay_snoc. destruct (replay l). by destruct ev. Qed.

Lemma received_split l : received l = retrieved l ++ unread l.
Proof.
  induction l as [|ev l IH] using rev_ind; [done|].
  rewrite received_snoc, IH. unfold retrieved, unread. rewrite replay_snoc. destruct (replay l) as [r u].
  destruct ev; cbn; rewrite ?app_nil_r, <- ?app_assoc; try done. by rewrite ztake_zdrop.
Qed.

(** The receive buffer holds what the queue holds. *)
Definition fifo (s : t) : Prop :=
  ReceiveBuffer.wf (receiveBuffer_ s) /\ ReceiveBuffer.contents (receiveBuffer_ s) = unread (tr s).

Lemma fifo_emit ev s : fifo s -> quiet ev \/ ev = EvShutdownWrite -> fifo (emit ev s).
Proof.
  intros [Hwf Hk] Hq. split; [done|]. cbn. rewrite unread_snoc, Hk. destruct ev; try done; by destruct Hq.
Qed.

#[local] Instance fifo_preserved : Preserved fifo.
Proof.
  split.
  - unfold fifo. by intros s s' ? _ -> ->.
  - intros ev s H Hq _. by apply fifo_emit; [|left].
  - intros s H. unfold shutdownInLoop, shutdownWrite. case_decide; [|done].
    cbv zeta. destruct (negb _); [|done]. by apply fifo_emit; [|right].
  - done.
  - done.
  - intros l avail bytes rb s Hr E _ [Hwf Hk].
    destruct (ReceiveBuffer.receive_accepts _ avail Hwf (read_ok He _ _ Hr)) as (rb' & E' & Hwf' & Hc & _).
    rewrite E in E'. injection E' as -> ->. split; [done|]. cbn. by rewrite unread_snoc, <- Hk.
  - intros s [Hwf Hk]. destruct (ReceiveBuffer.prepareReceive_wf _ Hwf) as [Hwf' Hc].
    split; [done|]. cbn. by rewrite Hc.
  - intros n rb s E [Hwf Hk]. destruct (ReceiveBuffer.retrieve_spec _ (u64 n) Hwf) as (rb' & E' & Hwf' & Hc);
      [apply u64_range|]. rewrite E in E'. injection E' as ->. split; [done|]. cbn. by rewrite unread_snoc, <- Hk.
  - intros s [Hwf Hk]. destruct (ReceiveBuffer.retrieveAll_spec _ Hwf) as [Hwf' Hc].
    split; [done|]. cbn. by rewrite unread_snoc.
Qed.

(** ** Properties *)

(** The states of a connection built by the constructor for a descriptor that
    is not registered. *)
Definition reached (s : t) : Prop :=
  exists self fd p ins, poller_ok p /\ interest p !! fd = None /\
    Forall input_ok ins /\ run ins (make self fd p) = Some s.

Lemma connection_reached_inv s : reached s -> inv s.
Proof.
  intros (self & fd & p & ins & Hp & Hfd & Hok & E).
  destruct (connection_run_inv ins _ (connection_make_inv self fd p Hp Hfd) Hok) as (s' & E' & Hinv). by simplify_eq.
Qed.

(** C28: progress and preservation from any well-formed state, whether or not
    the constructor leads to it: every step is defined and yields a well-formed
    state, for the inputs that [input_ok] admits. Well-formed are a consistent receive buffer and poller, a watcher
    registered with the interest set that fits the state, a send buffer that is
    empty unless the watcher waits for writability, queued data of which every
    piece fits its 32-bit count, a send buffer and a callback history that fit
    the trace. *)
Theorem connection_steps_preserve (i : input) (s : t) (Hs : core s /\ stream s /\ life (state_ s) (cbs (tr s)))
  (Hok : input_ok i) :
  exists s', step i s = Some s' /\ core s' /\ stream s' /\ life (state_ s') (cbs (tr s')).
Proof. exact (connection_step_inv i s Hs Hok). Qed.


(** C2: the byte stream is kept: what the kernel took, followed by what waits
    in [sendBuffer_], is the concatenation of what the sends were charged
    with, in the order of the calls; an open connection that does not wait for
    writability has nothing left to send. *)
Theorem sent_bytes_in_order (s : t) (Hr : reached s) :
  accepted (tr s) = written (tr s) ++ SendBuffer.contents (sendBuffer_ s) /\
  (open s -> isWriting s = false -> accepted (tr s) = written (tr s)).
Proof.
  destruct (connection_reached_inv s Hr) as (Hc & Hst & _). split; [done|].
  intros Ho Hw. by apply stream_idle.
Qed.

(** C3: the other direction: no byte the kernel delivered is lost, duplicated or
    reordered. What was received is what the calls of [retrieve(n)] and
    [retrieveAll()] had to take so far - each the first [n] bytes, or all, of
    what was unread then - followed by what is in the receive buffer, whose
    accesses all stay in bounds. *)
Theorem received_bytes_in_order (s : t) (Hr : reached s) :
  ReceiveBuffer.wf (receiveBuffer_ s) /\
  ReceiveBuffer.contents (receiveBuffer_ s) = unread (tr s) /\
  received (tr s) = retrieved (tr s) ++ ReceiveBuffer.contents (receiveBuffer_ s).
Proof.
  destruct Hr as (self & fd & p & ins & _ & _ & _ & E).
  assert (fifo s) as [Hwf Hc] by (apply (run_pres fifo ins _ _ E); by split; [apply ReceiveBuffer.rb_wf_make|]).
  split; [done|]. split; [done|]. rewrite Hc. apply received_split.
Qed.

(** On a connected connection that is not waiting for writability, [send]
    offers all the bytes to the kernel in one [write] and takes charge of all
    of them, unless the error is [EPIPE] or [ECONNRESET]; it waits for
    writability exactly when the kernel left some. *)
Theorem send_takes_charge (s : t) (data : list byte)
  (Hr : reached s) (Hcon : state_ s = kConnected) (Hw : isWriting s = false)
  (Hlen : 0 < zlen data < 4294967296) :
  let r := sys_write e (tr s) data in
  exists s', step (IAction (ASend data)) s = Some s' /\
    tr s' = tr s ++ [EvWrite data r;
      EvSend data (match r with WFail err => if fatal err then 0 else zlen data | _ => zlen data end)] /\
    isWriting s' = match r with Wrote n => n <? zlen data | WFail err => negb (fatal err) end.
Proof.
  destruct (connection_reached_inv s Hr) as (Hc & Hst & _). cbn [step do_action]. unfold send.
  rewrite decide_True by done.
  replace (u32 (zlen data)) with (zlen data) by (unfold u32; symmetry; apply Z.mod_small; lia).
  destruct (sendInLoop_idle data (zlen data) s) as (s' & E & _ & H); try done; [by left|lia|unfold u32_small; lia|].
  rewrite ztake_all in H by lia. by exists s'.
Qed.

(** A writable event offers the kernel everything that is unsent, in one
    [writev]; what it takes is dropped from [sendBuffer_], and the connection
    stops waiting for writability exactly when that was the last of it. *)
Theorem writable_event_sends_rest (s : t) (Hr : reached s) (Hw : isWriting s = true) :
  let bytes := SendBuffer.contents (sendBuffer_ s) in
  let r := sys_write e (tr s) bytes in
  exists s', step (IEvents POLLOUT) s = Some s' /\
    tr s' = tr s ++ [EvWrite bytes r] /\
    SendBuffer.contents (sendBuffer_ s') = zdrop (match r with Wrote n => n | WFail _ => 0 end) bytes /\
    (isWriting s' = false <-> bytes <> [] /\ SendBuffer.contents (sendBuffer_ s') = []).
Proof.
  destruct (connection_reached_inv s Hr) as (Hc & Hst & _). intros bytes r.
  destruct (handleWrite_spec s Hc Hst Hw) as (s' & E & (_ & _ & _ & H)).
  exists s'. split; [|exact H]. cbn [step].
  rewrite open_started; [exact E|done|]. by destruct (core_pending s Hc Hw).
Qed.

(** [sendBuffer_] never holds more than one buffer, because a [send] made
    while the connection waits for writability is not queued behind it: the
    data is silently given up. *)
Theorem send_while_writing_is_dropped (s : t) (data : list byte)
  (Hr : reached s) (Hcon : state_ s = kConnected) (Hw : isWriting s = true) :
  (length (SendBuffer.buffers_ (sendBuffer_ s)) <= 1)%nat /\
  step (IAction (ASend data)) s = Some (emit (EvSend data 0) s).
Proof.
  destruct (connection_reached_inv s Hr) as (Hc & _). split.
  - destruct (core_pending s Hc Hw) as [_ (b & -> & _)]. done.
  - cbn [step do_action]. unfold send, sendInLoop. rewrite decide_True by done.
    rewrite decide_False by (by rewrite Hcon). by rewrite Hw.
Qed.

(** [shutdown()] while the connection waits for writability never shuts
    the socket down: [handleWrite] calls [shutdownInLoop] again once everything
    is sent, but that does nothing unless the state is [kConnected]. Whatever
    happens afterwards, the peer never sees the end of the stream. *)
Theorem deferred_shutdown_is_lost (s s' : t) (ins : list input)
  (Hcon : state_ s = kConnected) (Hw : isWriting s = true) (Hnot : EvShutdownWrite ∉ tr s)
  (Hrun : run (IAction AShutdown :: ins) s = Some s') :
  EvShutdownWrite ∉ tr s'.
Proof.
  cbn [run step do_action mbind option_bind] in Hrun.
  apply (run_pres unshut ins _ _ Hrun). unfold shutdownInLoop. rewrite decide_True by done. cbv zeta.
  change (isWriting (setState kDisconnecting s)) with (isWriting s). rewrite Hw.
  split; [by left|done].
Qed.

(** A connection that waits for writability with nothing to send. *)
Definition spinning (s : t) : Prop :=
  core s /\ stream s /\ isWriting s = true /\ SendBuffer.contents (sendBuffer_ s) = [].

Lemma spinning_step s : spinning s ->
  exists s', step (IEvents POLLOUT) s = Some s' /\ spinning s' /\ written (tr s') = written (tr s).
Proof.
  intros (Hc & Hst & Hw & Hnil). destruct (handleWrite_spec s Hc Hst Hw) as (s' & E & (Hc' & Hst' & _ & Htr & Hcon & Hiff)).
  rewrite Hnil in *. rewrite zdrop_nil in Hcon. exists s'. split.
  - cbn [step]. destruct (core_pending s Hc Hw) as [Ho _].
    destruct (isWriting_open s Hc Ho) as [[_ Hev]|[E' _]]; [|by rewrite E' in Hw].
    destruct (core_synced _ Hc) as [_ Hs]. destruct (Watcher.started_ (watcher_ s)); [exact E|].
    destruct Hs as [Hs _]. by rewrite Hev in Hs.
  - split; [split; [done|split; [done|split; [|done]]]|].
    + destruct (isWriting s') eqn:E'; [done|]. by destruct Hiff as [[]].
    + rewrite Htr, written_app, written_write. destruct (sys_write _ _ _); cbn; by rewrite ?ztake_nil, app_nil_r.
Qed.

(** When the kernel takes only a part of a [send(const ReceiveBuffer&)],
    the rest is lost, since [append] does not make it part of what is unsent,
    and the connection then waits for writability for ever: every writable
    event leaves it as it was. *)
Theorem send_receive_tail_is_lost (s : t) (rb : ReceiveBuffer.t) (n : Z) (k : nat)
  (Hr : reached s) (Hcon : state_ s = kConnected) (Hw : isWriting s = false)
  (Hrb : ReceiveBuffer.wf rb) (H64 : in_u64 (zlen (ReceiveBuffer.contents rb)))
  (Hn : 0 < n < zlen (ReceiveBuffer.contents rb))
  (Hk : sys_write e (tr s) (ReceiveBuffer.contents rb) = Wrote n) :
  exists s', run (IAction (ASendReceive rb) :: replicate k (IEvents POLLOUT)) s = Some s' /\
    written (tr s') = written (tr s) ++ ztake n (ReceiveBuffer.contents rb) /\
    SendBuffer.contents (sendBuffer_ s') = [] /\ isWriting s' = true.
Proof.
  destruct (connection_reached_inv s Hr) as (Hc & Hst & _). cbn [run step do_action].
  rewrite decide_True by done. unfold sendInLoop_receive. rewrite decide_False by (by rewrite Hcon).
  assert (ReceiveBuffer.size rb = zlen (ReceiveBuffer.contents rb)) as Hlen.
  { pose proof Hrb as (_ & _ & Hsz). by rewrite u64_small in Hsz. }
  rewrite Hw, Hlen, (proj2 (Z.ltb_lt 0 (zlen (ReceiveBuffer.contents rb)))) by lia. cbn [negb andb].
  rewrite SendBuffer.gather_receive by done. cbn [mbind option_bind]. unfold socket_write. rewrite Hk.
  rewrite (proj2 (Z.ltb_lt 0 n)), (proj2 (Z.ltb_lt n (zlen (ReceiveBuffer.contents rb)))) by lia.
  assert (open s) as Ho by by left.
  destruct (stream_idle s Hc Hst Ho Hw) as [Hsb _].
  set (s1 := emit _ s). change (sendBuffer_ s1) with (sendBuffer_ s). rewrite Hsb.
  destruct (append_receive_at_pending rb n Hrb) as (sb & -> & Hp & Hnil); [lia|].
  cbn [mbind option_bind]. unfold s1.
  destruct (send_kept s (ReceiveBuffer.contents rb) (Wrote n) sb n Hc Hst Ho Hw Hp)
    as (s2 & -> & (Hc2 & Hst2 & _) & Hw2 & Htr2 & Hsb2); [by rewrite Hnil, app_nil_r|].
  cbn [mbind option_bind]. set (s3 := emit _ s2) in *.
  assert (spinning s3) as Hsp by (split; [done|split; [done|split; [done|by unfold s3; cbn; rewrite Hsb2]]]).
  assert (written (tr s3) = written (tr s) ++ ztake n (ReceiveBuffer.contents rb)) as <-.
  { unfold s3. cbn. rewrite written_app, Htr2, written_app, written_write, written_send. apply app_nil_r. }
  clearbody s3. revert s3 Hc2 Hst2 Hsp. induction k as [|k IH]; intros s3 Hc2 Hst2 Hsp; cbn [replicate run].
  - exists s3. destruct Hsp as (_ & _ & ? & ?). done.
  - destruct (spinning_step s3 Hsp) as (s4 & -> & Hsp4 & <-). cbn [mbind option_bind].
    apply IH; [apply Hsp4|apply Hsp4|done].
Qed.

(** [send(const ReceiveBuffer&)] on another thread sends nothing: the
    bytes are copied into a buffer whose write position is not advanced, and
    [sendInLoop] then sees an empty buffer. *)
Theorem remote_send_receive_sends_nothing (s : t) (rb : ReceiveBuffer.t)
  (Hcon : state_ s = kConnected) (Hrb : ReceiveBuffer.wf rb) :
  exists b, step (IRemote (RSendReceive rb)) s = Some (queueInLoop (FSend b) s) /\
    forall s2, do_functor (FSend b) s2 = Some (emit (EvSend [] 0) s2).
Proof.
  destruct (remote_buffer_spec rb Hrb) as (b & E & Hb & Hr0 & Hr). exists b. split.
  - cbn [step do_remote]. rewrite decide_True by done. by rewrite E.
  - intros s2. cbn [do_functor]. unfold sendInLoop_buffer. rewrite Hr.
    rewrite Buffer.readableSize_zlen, Hr by done. change (0 <? zlen []) with false.
    rewrite andb_false_r. by case_decide.
Qed.

(** Data that another thread sends before the loop thread calls
    [shutdown()] is written after the socket was shut down for writing, when
    its functor runs. *)
Theorem queued_send_written_after_shutdown (s : t) (data : list byte)
  (Hr : reached s) (Hcon : state_ s = kConnected) (Hw : isWriting s = false)
  (Hf : functors s = []) (Hlen : 0 < zlen data < 4294967296) :
  exists s' r k, run [IRemote (RSend data); IAction AShutdown; IFunctor] s = Some s' /\
    tr s' = tr s ++ [EvShutdownWrite; EvWrite data r; EvSend data k].
Proof.
  destruct (connection_reached_inv s Hr) as (Hc & Hst & _).
  cbn [run step do_remote do_action]. rewrite decide_True by done.
  replace (u32 (zlen data)) with (zlen data) by (unfold u32; symmetry; apply Z.mod_small; lia).
  rewrite Buffer.make_from_spec, ztake_all by zlia. cbn [mbind option_bind].
  set (b := Buffer.mk data 0 (zlen data)).
  assert (Buffer.wf b) as Hb by (unfold b, Buffer.wf, Buffer.capacity; cbn; zlia).
  assert (Buffer.readable b = data) as Hrd
    by (unfold b, Buffer.readable; cbn; rewrite Z.sub_0_r; apply slice_all).
  set (s1 := shutdownInLoop (queueInLoop (FSend b) s)).
  assert (s1 = emit EvShutdownWrite (setState kDisconnecting (queueInLoop (FSend b) s))) as Es1.
  { unfold s1, shutdownInLoop. rewrite decide_True by done. cbv zeta.
    change (isWriting (setState _ (queueInLoop _ s))) with (isWriting s). by rewrite Hw. }
  assert (core (queueInLoop (FSend b) s)) as Hc0.
  { apply core_queue; [done|]. rewrite Hcon. cbn. rewrite Hrd. unfold u32_small. split; [done|]. split; [done|]. split; [done|lia]. }
  destruct (shutdownInLoop_good _ Hc0 Hst) as (Hc1 & Hst1 & _). fold s1 in Hc1, Hst1.
  assert (functors s1 = [FSend b]) as -> by (rewrite Es1; cbn; by rewrite Hf).
  cbn [do_functor]. set (s2 := set_functors [] s1).
  destruct (sendInLoop_buffer_idle b s2) as (s3 & k & -> & _ & Htr); try done.
  - destruct Hc1. by constructor.
  - unfold s2. rewrite Es1. by right.
  - unfold s2. rewrite Es1. exact Hw.
  - rewrite Hrd. unfold u32_small. lia.
  - rewrite Hrd. intros ->. destruct Hlen as [Hl _]. by vm_compute in Hl.
  - cbn [mbind option_bind]. exists s3. do 2 eexists. split; [done|]. rewrite Htr, Hrd. unfold s2. cbn [tr set_functors].
    rewrite Es1. cbn. by rewrite <- app_assoc.
Qed.

End TcpConnection.

#[global] Arguments cbs : simpl never.
#[global] Arguments written : simpl never.
#[global] Arguments accepted : simpl never.
#[global] Arguments received : simpl never.

(** ** Witnesses *)

(** A kernel that takes at most three bytes per write and delivers two bytes
    before the end of the stream; a user that discards what it receives. *)
Definition sample_env : env := {|
  sys_write l bytes := Wrote (Z.min 3 (zlen bytes));
  sys_read l :=
    if existsb (fun ev => match ev with EvRead _ => true | _ => false end) l
    then REof else RData [Byte.x78; Byte.x79];
  connectCallback_ l := defaultConnectCallback;
  disconnectCallback_ l := [];
  readCallback_ l rb := defaultReadCallback rb;
  closeCallback_ l := [ADestroyed]
|}.

Lemma sample_env_ok : env_ok sample_env.
Proof.
  constructor.
  - intros l bytes n [= <-]. pose proof (zlen_nonneg bytes). lia.
  - intros l avail. cbn. destruct (existsb _ l); [done|]. by intros [= <-].
  - constructor.
  - constructor.
  - repeat constructor.
  - repeat constructor.
Qed.

#[local] Instance sample_poller : Poller PollPoller.t :=
  PollPoller.poll_poller (fun i => i) (fun i => eq_refl).

Definition sample_run (ins : list input) : t :=
  match run sample_env ins (make 100 5 PollPoller.make) with
  | Some s => s
  | None => make 100 5 PollPoller.make
  end.

Lemma sample_make_ok :
  poller_ok PollPoller.make /\ interest PollPoller.make !! 5 = None.
Proof. split; [apply PollPoller.poll_wf_make|done]. Qed.

Lemma connection_sample_reached ins s :
  Forall input_ok ins -> run sample_env ins (make 100 5 PollPoller.make) = Some s ->
  reached sample_env s.
Proof.
  intros Hok E. exists 100, 5, PollPoller.make, ins. destruct sample_make_ok. done.
Qed.

(** Connected, nothing sent yet. *)
Definition sample_idle : t := sample_run [IEstablished].

Lemma sample_idle_reached : reached sample_env sample_idle.
Proof. apply (connection_sample_reached [IEstablished]); [by repeat constructor|reflexivity]. Qed.

Definition abcde : list byte := [Byte.x61; Byte.x62; Byte.x63; Byte.x64; Byte.x65].

(** Five bytes sent, of which the kernel took three. *)
Definition sample_busy : t := sample_run [IEstablished; IAction (ASend abcde)].

Lemma sample_busy_reached : reached sample_env sample_busy.
Proof.
  apply (connection_sample_reached [IEstablished; IAction (ASend abcde)]);
    [by repeat constructor|vm_compute; reflexivity].
Qed.

Lemma connection_steps_preserve_witness :
  exists s', step sample_env (IAction (ASend abcde)) sample_idle = Some s' /\ core s' /\ stream s' /\
    life (state_ s') (cbs (tr s')).
Proof.
  apply (connection_steps_preserve sample_env sample_env_ok); [|exact I].
  exact (connection_reached_inv sample_env sample_env_ok _ sample_idle_reached).
Defined.


Lemma sent_bytes_in_order_witness :
  written (tr sample_busy) = [Byte.x61; Byte.x62; Byte.x63] /\
  SendBuffer.contents (sendBuffer_ sample_busy) = [Byte.x64; Byte.x65] /\
  accepted (tr sample_busy) = written (tr sample_busy) ++ SendBuffer.contents (sendBuffer_ sample_busy).
Proof.
  split; [vm_compute; reflexivity|]. split; [vm_compute; reflexivity|].
  apply (sent_bytes_in_order sample_env sample_env_ok sample_busy sample_busy_reached).
Defined.

Lemma received_bytes_in_order_witness :
  let s := sample_run [IEstablished; IEvents POLLIN; IAction (ARetrieve 1)] in
  retrieved (tr s) = [Byte.x78; Byte.x79] /\ ReceiveBuffer.contents (receiveBuffer_ s) = [] /\
  (ReceiveBuffer.wf (receiveBuffer_ s) /\
   ReceiveBuffer.contents (receiveBuffer_ s) = unread (tr s) /\
   received (tr s) = retrieved (tr s) ++ ReceiveBuffer.contents (receiveBuffer_ s)).
Proof.
  split; [vm_compute; reflexivity|]. split; [vm_compute; reflexivity|].
  apply (received_bytes_in_order sample_env sample_env_ok),
    (connection_sample_reached [IEstablished; IEvents POLLIN; IAction (ARetrieve 1)]);
    [by repeat constructor|vm_compute; reflexivity].
Defined.

Lemma send_takes_charge_witness :
  exists s', step sample_env (IAction (ASend abcde)) sample_idle = Some s' /\
    tr s' = tr sample_idle ++ [EvWrite abcde (Wrote 3); EvSend abcde 5] /\ isWriting s' = true.
Proof.
  apply (send_takes_charge sample_env sample_env_ok sample_idle abcde sample_idle_reached);
    [vm_compute; reflexivity|vm_compute; reflexivity|vm_compute; split; reflexivity].
Defined.

Lemma writable_event_sends_rest_witness :
  exists s', step sample_env (IEvents POLLOUT) sample_busy = Some s' /\
    tr s' = tr sample_busy ++ [EvWrite [Byte.x64; Byte.x65] (Wrote 2)] /\
    SendBuffer.contents (sendBuffer_ s') = [] /\ isWriting s' = false.
Proof.
  destruct (writable_event_sends_rest sample_env sample_env_ok sample_busy sample_busy_reached)
    as (s' & E & Htr & Hcon & Hw); [vm_compute; reflexivity|].
  assert (SendBuffer.contents (sendBuffer_ sample_busy) = [Byte.x64; Byte.x65]) as Hb
    by (vm_compute; reflexivity).
  rewrite Hb in *. exists s'. split; [exact E|]. split; [exact Htr|].
  change (zdrop _ _) with (@nil byte) in Hcon. split; [exact Hcon|]. apply Hw. split; [discriminate|exact Hcon].
Defined.

Lemma send_while_writing_is_dropped_witness :
  isWriting sample_busy = true /\
  step sample_env (IAction (ASend abcde)) sample_busy = Some (emit (EvSend abcde 0) sample_busy).
Proof.
  split; [vm_compute; reflexivity|].
  apply (send_while_writing_is_dropped sample_env sample_env_ok sample_busy abcde sample_busy_reached);
    vm_compute; reflexivity.
Defined.

Lemma deferred_shutdown_is_lost_witness :
  exists s', run sample_env (IAction AShutdown :: [IEvents POLLOUT]) sample_busy = Some s' /\
    SendBuffer.contents (sendBuffer_ s') = [] /\ EvShutdownWrite ∉ tr s'.
Proof.
  destruct (run sample_env (IAction AShutdown :: [IEvents POLLOUT]) sample_busy) as [s'|] eqn:E;
    [|vm_compute in E; discriminate].
  exists s'. split; [reflexivity|]. split; [vm_compute in E; by injection E as <-|].
  apply (deferred_shutdown_is_lost sample_env sample_busy s' [IEvents POLLOUT]);
    [vm_compute; reflexivity|vm_compute; reflexivity| |exact E].
  assert (tr sample_busy = [EvCallback CbConnect; EvWrite abcde (Wrote 3); EvSend abcde 5]) as Htr
    by (vm_compute; reflexivity).
  rewrite Htr. clear. intros Hin. rewrite !elem_of_cons in Hin.
  destruct Hin as [H|[H|[H|H]]]; [discriminate H|discriminate H|discriminate H|].
  by apply not_elem_of_nil in H.
Defined.

Lemma abcdef_ok :
  ReceiveBuffer.wf ReceiveBuffer.sample /\
  ReceiveBuffer.contents ReceiveBuffer.sample = ReceiveBuffer.abcdef /\
  in_u64 (zlen (ReceiveBuffer.contents ReceiveBuffer.sample)).
Proof.
  destruct ReceiveBuffer.sample_facts as (Hwf & Hc & _). rewrite Hc.
  split; [exact Hwf|]. split; [reflexivity|]. vm_compute. split; [discriminate|reflexivity].
Qed.

Lemma send_receive_tail_is_lost_witness :
  exists s', run sample_env (IAction (ASendReceive ReceiveBuffer.sample) :: replicate 10 (IEvents POLLOUT))
      sample_idle = Some s' /\
    written (tr s') = written (tr sample_idle) ++ [Byte.x61; Byte.x62; Byte.x63] /\
    SendBuffer.contents (sendBuffer_ s') = [] /\ isWriting s' = true.
Proof.
  destruct abcdef_ok as (Hwf & Hc & H64).
  destruct (send_receive_tail_is_lost sample_env sample_env_ok sample_idle ReceiveBuffer.sample 3 10
    sample_idle_reached) as (s' & E & Hw & H); [vm_compute; reflexivity|vm_compute; reflexivity|exact Hwf|
    exact H64|rewrite Hc; vm_compute; split; reflexivity|rewrite Hc; reflexivity|].
  exists s'. split; [exact E|]. split; [|exact H]. rewrite Hw, Hc. reflexivity.
Defined.

Lemma remote_send_receive_sends_nothing_witness :
  exists b, step sample_env (IRemote (RSendReceive ReceiveBuffer.sample)) sample_idle =
      Some (queueInLoop (FSend b) sample_idle) /\
    forall s2, do_functor sample_env (FSend b) s2 = Some (emit (EvSend [] 0) s2).
Proof.
  destruct abcdef_ok as (Hwf & _ & _).
  apply (remote_send_receive_sends_nothing sample_env sample_idle ReceiveBuffer.sample);
    [vm_compute; reflexivity|exact Hwf].
Defined.

Lemma queued_send_written_after_shutdown_witness :
  exists s' r k, run sample_env [IRemote (RSend abcde); IAction AShutdown; IFunctor] sample_idle = Some s' /\
    tr s' = tr sample_idle ++ [EvShutdownWrite; EvWrite abcde r; EvSend abcde k].
Proof.
  apply (queued_send_written_after_shutdown sample_env sample_env_ok sample_idle abcde
    sample_idle_reached); try (vm_compute; reflexivity).
  vm_compute. split; reflexivity.
Defined.

(** A hang-up with urgent data, but without [POLLIN], is handled twice: the
    close callback runs, and then the read callback finds the end of the
    stream and closes again. *)
Definition eof_env : env := {|
  sys_write l bytes := Wrote 0;
  sys_read l := REof;
  connectCallback_ l := [];
  disconnectCallback_ l := [];
  readCallback_ l rb := [];
  closeCallback_ l := []
|}.

(** A dispatch that reports [POLLHUP] and [POLLPRI] without [POLLIN]
    closes the connection twice: after [handleClose], [handleEvents] still calls
    [handleRead], which is not guarded by the state. *)
Theorem hangup_with_urgent_data_closes_twice :
  (s ← run eof_env [IEstablished; IEvents (Z.lor POLLHUP POLLPRI)] (make 100 5 PollPoller.make);
   Some (cbs (tr s))) =
  Some [CbConnect; CbDisconnect; CbClose; CbDisconnect; CbClose].
Proof. vm_compute. reflexivity. Qed.
End TcpConnection.
