(* ===== verification/NetLoop.v ===== *)
(** One [EventLoop] and the connections that live on it: a single poller and
    a single queue of functors for all of them, and the batches in which
    [EventLoop::loop] handles events and functors. The files before this one
    model one connection at a time, with a poller and a queue of its own; here
    they are put together, and what was proved of one connection is shown to
    hold of each. *)

From S2P Require Import Prelude NetBuffer NetByteStream NetReceiveBuffer NetSendBuffer BaseWatcher.
From S2P Require Import BasePoller NetTcpConnection.

(** ** A connection does not see the other registrations *)

Module ConnectionFrame.
Import TcpConnection.

Section Frame.
Context {P : Type} `{!Poller P} (e : env).
Implicit Types s : t (P := P).

(** The same connection on another poller, its watcher holding the events
    [r] of some [poll]. *)
Definition host (r : Z) (p : P) (s : t) : t := set_watcher (Watcher.revents r (watcher_ s)) p s.

Definition fd_of s : Z := Watcher.fd_ (watcher_ s).
Definition address s : Z := Watcher.self (watcher_ s).

(** Both pollers agree with the connection's watcher. *)
Definition par s (p : P) : Prop :=
  (poller_ok (poller s) /\ WatcherOps.synced (watcher_ s) (poller s)) /\
  poller_ok p /\ WatcherOps.synced (watcher_ s) p.

(** What a step may do: change the connection's own registration in [p], and
    add to the queue of functors. *)
Definition grows s s' : Prop := exists new, functors s' = functors s ++ new.

Definition rel s (p : P) s' (p' : P) : Prop :=
  par s' p' /\ fd_of s' = fd_of s /\ address s' = address s /\ grows s s' /\
  forall fd, fd <> fd_of s -> interest p' !! fd = interest p !! fd.

Lemma grows_refl s s' : functors s' = functors s -> grows s s'.
Proof. exists []. by rewrite app_nil_r. Qed.

Lemma grows_queue f s : grows s (queueInLoop f s).
Proof. by exists [f]. Qed.
#[local] Hint Resolve grows_refl grows_queue : core.

Lemma rel_par s p s' p' : rel s p s' p' -> par s' p'.
Proof. by intros [? _]. Qed.

Lemma rel_same s p s' :
  par s p -> watcher_ s' = watcher_ s -> poller s' = poller s -> grows s s' -> rel s p s' p.
Proof. intros Hp Hw Hq Hg. unfold rel, par, fd_of, address in *. by rewrite ?Hw, ?Hq. Qed.

Lemma rel_trans s1 p1 s2 p2 s3 p3 : rel s1 p1 s2 p2 -> rel s2 p2 s3 p3 -> rel s1 p1 s3 p3.
Proof.
  intros (_ & Hf1 & Ha1 & [n1 Hn1] & H1) (Hp & Hf2 & Ha2 & [n2 Hn2] & H2).
  split; [done|]. split; [congruence|]. split; [congruence|]. split.
  - exists (n1 ++ n2). by rewrite Hn2, Hn1, app_assoc.
  - intros fd Hfd. rewrite H2 by congruence. by apply H1.
Qed.

Lemma watcher_op_host o r p s s' :
  par s p -> watcher_op o s = Some s' ->
  exists p', watcher_op o (host r p s) = Some (host r p' s') /\ rel s p s' p'.
Proof.
  intros [[Hp Hs] [Hp2 Hs2]] E. unfold watcher_op in *.
  destruct (WatcherOps.apply_op_spec o _ _ Hp Hs) as (w1 & q1 & E1 & Hq1 & Hs1 & Hw1 & Hi1).
  destruct (WatcherOps.apply_op_spec o (Watcher.revents r (watcher_ s)) p Hp2 Hs2)
    as (w2 & q2 & E2 & Hq2 & Hs2' & Hw2 & Hi2).
  rewrite E1 in E. cbn in E. injection E as <-. unfold host. cbn [watcher_ poller set_watcher]. rewrite E2.
  cbn [mbind option_bind]. exists q2. split.
  - f_equal. unfold set_watcher. cbn. by rewrite Hw1, Hw2.
  - unfold rel, par, fd_of, address. cbn [watcher_ poller set_watcher].
    split; [|split; [by rewrite Hw1|split; [by rewrite Hw1|split; [by apply grows_refl|]]]].
    + split; [done|]. split; [done|]. rewrite Hw1. rewrite Hw2 in Hs2'. exact Hs2'.
    + intros fd Hfd. rewrite Hi2. cbn [Watcher.fd_ Watcher.revents].
      case_match; [by rewrite lookup_delete_ne|by rewrite lookup_insert_ne].
Qed.

Lemma host_emit r p ev s : emit ev (host r p s) = host r p (emit ev s).
Proof. done. Qed.
Lemma host_setState r p st s : setState st (host r p s) = host r p (setState st s).
Proof. done. Qed.
Lemma host_sendBuffer r p sb s : set_sendBuffer sb (host r p s) = host r p (set_sendBuffer sb s).
Proof. done. Qed.
Lemma host_receiveBuffer r p rb s : set_receiveBuffer rb (host r p s) = host r p (set_receiveBuffer rb s).
Proof. done. Qed.
Lemma host_functors r p fs s : set_functors fs (host r p s) = host r p (set_functors fs s).
Proof. done. Qed.
Lemma host_queue r p f s : queueInLoop f (host r p s) = host r p (queueInLoop f s).
Proof. done. Qed.
Lemma host_shutdownWrite r p s : shutdownWrite (host r p s) = host r p (shutdownWrite s).
Proof. done. Qed.
Lemma host_state r p s : state_ (host r p s) = state_ s.
Proof. done. Qed.
Lemma host_tr r p s : tr (host r p s) = tr s.
Proof. done. Qed.
Lemma host_sb r p s : sendBuffer_ (host r p s) = sendBuffer_ s.
Proof. done. Qed.
Lemma host_rb r p s : receiveBuffer_ (host r p s) = receiveBuffer_ s.
Proof. done. Qed.
Lemma host_fs r p s : functors (host r p s) = functors s.
Proof. done. Qed.
Lemma host_writing r p s : isWriting (host r p s) = isWriting s.
Proof. done. Qed.

Create Rewrite HintDb host.
#[local] Hint Rewrite host_emit host_setState host_sendBuffer host_receiveBuffer host_functors host_queue
  host_shutdownWrite host_state host_tr host_sb host_rb host_fs host_writing : host.

Lemma shutdown_host r p s : shutdownInLoop (host r p s) = host r p (shutdownInLoop s).
Proof. unfold shutdownInLoop. autorewrite with host. case_decide; [|done]. cbv zeta. by destruct (negb _). Qed.
#[local] Hint Rewrite shutdown_host : host.

(** A computation does the same to the connection on both pollers. *)
Definition uniform (f : t -> option t) : Prop :=
  forall r p s s', par s p -> f s = Some s' ->
    exists p', f (host r p s) = Some (host r p' s') /\ rel s p s' p'.

Lemma uniform_pure (g : t (P := P) -> t) :
  (forall r p s, g (host r p s) = host r p (g s)) ->
  (forall s, watcher_ (g s) = watcher_ s /\ poller (g s) = poller s /\ grows s (g s)) -> uniform (fun s => Some (g s)).
Proof.
  intros Hg Hw r p s s' Hp [= <-]. exists p. rewrite Hg. split; [done|]. destruct (Hw s) as (? & ? & ?). by apply rel_same.
Qed.

Lemma uniform_bind f g : uniform f -> uniform g -> uniform (fun s => f s ≫= g).
Proof.
  intros Hf Hg r p s s' Hp E. apply bind_Some in E as (s1 & E1 & E).
  destruct (Hf r p s s1 Hp E1) as (p1 & -> & H1). cbn [mbind option_bind].
  destruct (Hg r p1 s1 s' (rel_par _ _ _ _ H1) E) as (p2 & -> & H2).
  exists p2. split; [done|]. by eapply rel_trans.
Qed.

(** Follow a successful computation [H] on the other poller, whose state so
    far is related to [s1] by the hypotheses. *)
Ltac follow_step :=
  match goal with
  | H : Some _ = Some _ |- _ => injection H as H; subst
  | H : None = Some _ |- _ => discriminate H
  | H : watcher_op ?o ?s1 = Some ?s2 |- context [host ?r ?p _] =>
      let p' := fresh "p" in let E := fresh "E" in let Hr := fresh "Hr" in
      destruct (watcher_op_host o r p s1 s2) as (p' & E & Hr);
        [first [eassumption | eapply rel_par; eassumption]|exact H|];
      clear H; rewrite E; cbn [mbind option_bind]
  | H : _ ≫= _ = Some _ |- _ =>
      let E := fresh "E" in apply bind_Some in H as (? & E & H);
      lazymatch type of E with watcher_op _ _ = _ => idtac | _ => try rewrite E; cbn [mbind option_bind] end
  | H : match ?x with _ => _ end = Some _ |- _ => destruct x eqn:?
  end.

Ltac follow_rel :=
  first [ by apply rel_same; auto
        | match goal with H : rel ?s1 ?p1 ?s2 ?p2 |- rel ?s ?p _ _ => exact H end
        | match goal with H : rel _ _ ?s2 ?p2 |- rel ?s ?p ?s3 ?p3 =>
            apply (rel_trans s p s2 p2 s3 p3); [exact H|clear H; follow_rel] end ].

Ltac follow_end := eexists; (split; [reflexivity|]); follow_rel.

Ltac follow := repeat (autorewrite with host; follow_step); autorewrite with host; try follow_end.

Lemma sendInLoop_uniform buf count : uniform (sendInLoop e buf count).
Proof.
  intros r p s s' Hp H. unfold sendInLoop, socket_write in *. cbv zeta in *. follow.
Qed.

Lemma sendInLoop_buffer_uniform b : uniform (sendInLoop_buffer e b).
Proof. intros r p s s' Hp H. unfold sendInLoop_buffer, socket_write, keep_buffer in *. cbv zeta in *. follow. Qed.

Lemma sendInLoop_receive_uniform rb : uniform (sendInLoop_receive e rb).
Proof. intros r p s s' Hp H. unfold sendInLoop_receive, socket_write in *. cbv zeta in *. follow. Qed.

Lemma shutdown_watcher s :
  watcher_ (shutdownInLoop s) = watcher_ s /\ poller (shutdownInLoop s) = poller s /\ grows s (shutdownInLoop s).
Proof. unfold shutdownInLoop. cbv zeta. case_decide; [|auto]. destruct (negb _); auto. Qed.

Lemma shutdown_uniform : uniform (fun s => Some (shutdownInLoop s)).
Proof. apply uniform_pure; [by intros; rewrite shutdown_host|apply shutdown_watcher]. Qed.

Lemma do_action_uniform a : uniform (do_action e a).
Proof.
  destruct a as [data|rb|n| | | |].
  - intros r p s s' Hp H. cbn [do_action] in *. unfold send in *. rewrite host_state.
    case_decide; [by apply sendInLoop_uniform|follow].
  - intros r p s s' Hp H. cbn [do_action] in *. rewrite host_state.
    case_decide; [by apply sendInLoop_receive_uniform|follow].
  - intros r p s s' Hp H. cbn [do_action] in *. follow.
  - apply (uniform_pure (fun s => emit EvRetrieveAll
      (set_receiveBuffer (ReceiveBuffer.retrieveAll (receiveBuffer_ s)) s))); auto.
  - apply shutdown_uniform.
  - apply (uniform_pure (queueInLoop FForceClose)); auto.
  - apply (uniform_pure (queueInLoop FDestroyed)); auto.
Qed.

Lemma do_actions_uniform acts : uniform (do_actions e acts).
Proof.
  induction acts as [|a acts IH]; [apply (uniform_pure id); auto|].
  change (do_actions e (a :: acts)) with (fun s => do_action e a s ≫= do_actions e acts).
  apply uniform_bind; [apply do_action_uniform|done].
Qed.

Lemma invoke_uniform c acts : uniform (invoke e c acts).
Proof.
  intros r p s s' Hp H. unfold invoke in *. cbv zeta in *. autorewrite with host.
  by apply (do_actions_uniform _ r p (emit (EvCallback c) s)).
Qed.

Lemma watcher_op_uniform o : uniform (watcher_op o).
Proof. intros r p s s' Hp H. by apply watcher_op_host. Qed.

Lemma uniform_after f g :
  uniform f -> (forall r p s, g (host r p s) = host r p (g s)) ->
  (forall s, watcher_ (g s) = watcher_ s /\ poller (g s) = poller s /\ grows s (g s)) -> uniform (fun s => f (g s)).
Proof. intros Hf Hg Hw. exact (uniform_bind _ _ (uniform_pure g Hg Hw) Hf). Qed.

Lemma handleClose_uniform : uniform (handleClose e).
Proof.
  unfold handleClose. apply uniform_bind; [|apply uniform_bind; apply invoke_uniform].
  apply (uniform_after (watcher_op WatcherOps.DisableAll)); [apply watcher_op_uniform|auto..].
Qed.

Lemma handleRead_uniform : uniform (handleRead e).
Proof.
  intros r p s s' Hp H. unfold handleRead, handleError in *. cbv zeta in *. autorewrite with host.
  destruct (sys_read e (tr s)) as [avail| |err].
  - apply bind_Some in H as ([bytes rb] & E & H). rewrite E. cbn [mbind option_bind]. autorewrite with host.
    by apply (invoke_uniform _ _ r p (emit (EvReceived bytes) (set_receiveBuffer rb (emit (EvRead (RData avail)) s)))).
  - by apply (handleClose_uniform r p (set_receiveBuffer _ (emit (EvRead REof) s))).
  - follow.
Qed.

Lemma handleWrite_uniform : uniform (handleWrite e).
Proof.
  intros r p s s' Hp H. unfold handleWrite, socket_write in *. cbv zeta in *. follow.
  case_decide; [|follow_end]. eexists. split; [reflexivity|]. destruct (shutdown_watcher x1) as (Hw & Hq & Hg).
  apply (rel_trans s p x1 p0); [done|]. apply rel_same; [by eapply rel_par|done..].
Qed.

Lemma forceCloseInLoop_uniform : uniform (forceCloseInLoop e).
Proof.
  intros r p s s' Hp H. unfold forceCloseInLoop in *. rewrite host_state.
  case_decide; [by apply handleClose_uniform|follow].
Qed.

Lemma open_uniform st o c acts : uniform (fun s => watcher_op o (setState st s) ≫= invoke e c acts).
Proof.
  apply uniform_bind; [|apply invoke_uniform].
  apply (uniform_after (watcher_op o)); [apply watcher_op_uniform|auto..].
Qed.

Lemma establishedInLoop_uniform : uniform (establishedInLoop e).
Proof.
  intros r p s s' Hp H. unfold establishedInLoop in *. rewrite host_state. case_decide; [|follow].
  by apply (open_uniform kConnected WatcherOps.EnableReading CbConnect (connectCallback_ e)).
Qed.

Lemma destroyedInLoop_uniform : uniform (destroyedInLoop e).
Proof.
  intros r p s s' Hp H. unfold destroyedInLoop in *. rewrite host_state. case_decide; [|follow].
  by apply (open_uniform kDisconnected WatcherOps.DisableAll CbDisconnect (disconnectCallback_ e)).
Qed.

Lemma do_functor_uniform f : uniform (do_functor e f).
Proof.
  destruct f; [apply sendInLoop_buffer_uniform|apply shutdown_uniform|apply forceCloseInLoop_uniform
    |apply establishedInLoop_uniform|apply destroyedInLoop_uniform].
Qed.

Lemma do_remote_uniform m : uniform (do_remote m).
Proof. intros r p s s' Hp H. destruct m; cbn [do_remote] in *; follow. Qed.

Lemma handleEvents_uniform revents : uniform (Dispatch.handleEvents revents (callbacks e)).
Proof.
  unfold Dispatch.handleEvents. cbv [callbacks Dispatch.call Dispatch.closeCallback_ Dispatch.errorCallback_
    Dispatch.readCallback_ Dispatch.writeCallback_].
  assert (forall (b : bool) f, uniform f -> uniform (fun s => if b then f s else Some s)) as Hif.
  { intros [] f Hf; [exact Hf|apply (uniform_pure id); auto]. }
  apply uniform_bind; [by apply Hif, handleClose_uniform|].
  apply uniform_bind; [apply Hif, (uniform_pure id); auto|].
  apply uniform_bind; [apply Hif, handleRead_uniform|apply Hif, handleWrite_uniform].
Qed.

(** The state in which a step starts, its functor taken from the queue. *)
Definition popped (i : input) s : t :=
  match i with IFunctor => set_functors (tail (functors s)) s | _ => s end.

(** Every step does to a connection the same, whatever poller it is on, and
    changes no other registration. *)
Lemma step_uniform i r p s s' :
  par s p -> step e i s = Some s' ->
  exists p', step e i (host r p s) = Some (host r p' s') /\ rel (popped i s) p s' p'.
Proof.
  revert r p s s'. destruct i as [revents| |a| |m].
  - intros r p s s' Hp H. cbn [step popped] in *.
    change (Watcher.started_ (watcher_ (host r p s))) with (Watcher.started_ (watcher_ s)).
    destruct (Watcher.started_ _); [by apply handleEvents_uniform|follow].
  - intros r p s s' Hp H. cbn [step popped] in *. rewrite host_fs. destruct (functors s) as [|f rest] eqn:Ef.
    { follow. }
    cbn [tail]. rewrite host_functors. by apply (do_functor_uniform f r p (set_functors rest s)).
  - apply do_action_uniform.
  - apply establishedInLoop_uniform.
  - apply do_remote_uniform.
Qed.
End Frame.
End ConnectionFrame.

(** ** The loop *)

Module ConnectionLoop.
Import TcpConnection ConnectionFrame.

(** Where the loop thread is: before [poll], in [handleEvents] of the active
    watchers, or in [doPendingFunctors]. *)
Inductive place := Top | Handling | Running.

Section Loop.
Context {P : Type} `{!Poller P} `{!Polling P}.
(** The kernel and the user of each connection. *)
Context (user : nat -> env).

Abbreviation conn := (TcpConnection.t (P := P)).

(** [connections] are the live [TcpConnection] objects, numbered in the order
    of creation, [others] the watchers of the other objects of the loop, by
    address. A functor is bound to its connection: the loop's queue and the
    batch it runs hold the connections' numbers, and which functor it is stands
    at the head of that connection's own [functors]. [log] records what each
    connection was made to do. *)
Record t := mk {
  poller_ : P;
  connections : gmap nat conn;
  created : nat;
  others : gmap Z Watcher.t;
  activeWatchers_ : list Z;
  pc : place;
  batch : list nat;
  pendingFunctors_ : list nat;
  log : list (nat * input)
}.

Definition make (p : P) (ws : gmap Z Watcher.t) : t := mk p ∅ 0 ws [] Top [] [] [].

Definition set_connections (m : gmap nat conn) (s : t) : t :=
  mk (poller_ s) m (created s) (others s) (activeWatchers_ s) (pc s) (batch s) (pendingFunctors_ s) (log s).
Definition set_active (l : list Z) (s : t) : t :=
  mk (poller_ s) (connections s) (created s) (others s) l (pc s) (batch s) (pendingFunctors_ s) (log s).
Definition set_queue (c : place) (run pending : list nat) (s : t) : t :=
  mk (poller_ s) (connections s) (created s) (others s) (activeWatchers_ s) c run pending (log s).

(** A connection that is to use the loop's poller. *)
Definition on_poller (p : P) (c : conn) : conn := set_watcher (watcher_ c) p c.

(** What an input makes a connection do. The loop calls [handleEvents] of an
    active watcher without looking whether it is still registered. *)
Definition effect (id : nat) (i : input) : conn -> option conn :=
  match i with
  | IEvents revents => Dispatch.handleEvents revents (callbacks (user id))
  | _ => TcpConnection.step (user id) i
  end.

(** Code of connection [id] runs: [None] when the object has been destroyed.
    What it queues goes to the end of the loop's queue. *)
Definition on_connection (id : nat) (i : input) (s : t) : option t :=
  c ← connections s !! id;
  c' ← effect id i (on_poller (poller_ s) c);
  let queued := (length (functors c') - length (functors (popped i c)))%nat in
  Some (mk (poller c') (<[id := c']> (connections s)) (created s) (others s) (activeWatchers_ s) (pc s)
    (batch s) (pendingFunctors_ s ++ replicate queued id) (log s ++ [(id, i)])).

(** The connection whose watcher is at address [a]. *)
Definition owner (a : Z) (s : t) : option nat :=
  head (omap (fun x : nat * conn => if decide (address x.2 = a) then Some x.1 else None)
    (map_to_list (connections s))).

Definition is_watcher (s : t) (a : Z) : bool :=
  bool_decide (is_Some (owner a s)) || bool_decide (is_Some (others s !! a)).

(** [watcher->revents(...)] *)
Definition store_revents (store : gmap Z Z) (w : Watcher.t) : Watcher.t :=
  match store !! Watcher.self w with Some r => Watcher.revents r w | None => w end.

(** [activeWatchers_.clear(); poller_->poll(activeWatchers_, kPollTime);] writes
    into every watcher it reports. *)
Definition poll_watchers (ans : answer) (s : t) : option t :=
  '(p', store, active) ← poll ans ∅ [] (poller_ s);
  if forallb (is_watcher s) active then
    Some (mk p' ((fun c => set_watcher (store_revents store (watcher_ c)) (poller c) c) <$> connections s)
      (created s) (store_revents store <$> others s) active Handling (batch s) (pendingFunctors_ s) (log s))
  else None.

(** [watcher->handleEvents();] for the next active watcher. The handlers of the
    other objects do not concern the connections, or do so by [Act]. *)
Definition handle_next (a : Z) (rest : list Z) (s : t) : option t :=
  match owner a s with
  | Some id =>
      c ← connections s !! id;
      on_connection id (IEvents (Watcher.revents_ (watcher_ c))) (set_active rest s)
  | None => _ ← others s !! a; Some (set_active rest s)
  end.

(** The loop thread goes on ([LPoll] to [LTop]); code of other objects of the
    loop calls a connection, creates one for descriptor [fd] with its watcher
    at [self], destroys one, or changes what its own watcher waits for; another
    thread calls a connection. *)
Inductive event :=
  | LPoll (ans : answer)
  | LHandle
  | LSwap
  | LFunctor
  | LTop
  | Act (id : nat) (a : action)
  | Established (id : nat)
  | New (self fd : Z)
  | Destroy (id : nat)
  | Other (a : Z) (o : WatcherOps.op)
  | Remote (id : nat) (m : remote).

Definition step (ev : event) (s : t) : option t :=
  match ev with
  | LPoll ans => match pc s with Top => poll_watchers ans s | _ => Some s end
  | LHandle =>
      match pc s, activeWatchers_ s with Handling, a :: rest => handle_next a rest s | _, _ => Some s end
  | LSwap =>
      match pc s, activeWatchers_ s with
      | Handling, [] => Some (set_queue Running (pendingFunctors_ s) [] s)
      | _, _ => Some s
      end
  | LFunctor =>
      match pc s, batch s with
      | Running, id :: rest => on_connection id IFunctor (set_queue Running rest (pendingFunctors_ s) s)
      | _, _ => Some s
      end
  | LTop =>
      match pc s, batch s with
      | Running, [] => Some (set_queue Top [] (pendingFunctors_ s) s)
      | _, _ => Some s
      end
  | Act id a => on_connection id (IAction a) s
  | Established id => on_connection id IEstablished s
  | New self fd =>
      Some (mk (poller_ s) (<[created s := TcpConnection.make self fd (poller_ s)]> (connections s))
        (S (created s)) (others s) (activeWatchers_ s) (pc s) (batch s) (pendingFunctors_ s) (log s))
  | Destroy id => Some (set_connections (delete id (connections s)) s)
  | Other a o =>
      w ← others s !! a;
      '(w', p') ← WatcherOps.apply_op o w (poller_ s);
      Some (mk p' (connections s) (created s) (<[a := w']> (others s)) (activeWatchers_ s) (pc s) (batch s)
        (pendingFunctors_ s) (log s))
  | Remote id m => on_connection id (IRemote m) s
  end.

Fixpoint run (evs : list event) (s : t) : option t :=
  match evs with
  | [] => Some s
  | ev :: rest => s1 ← step ev s; run rest s1
  end.

(** ** Assumptions *)

(** A poller without registrations, for the comparison with connections that
    are alone. *)
Context (p0 : P) (Hp0 : poller_ok p0) (Hempty : forall fd, interest p0 !! fd = None).
Context (Huser : forall id, env_ok (user id)).

(** The watchers of the loop: those of the connections, and the others. *)
Definition key : Type := nat + Z.
Definition watcher_at (s : t) (k : key) : option Watcher.t :=
  match k with inl id => watcher_ <$> connections s !! id | inr a => others s !! a end.

(** What may happen in state [s]. The kernel keeps its contract, and hands out
    unused descriptors, as the allocator does unused addresses; only live
    connections are called; a connection is destroyed when it is no longer
    registered and no functor is bound to it. The code does not ensure the last
    by itself: a shared pointer keeps a connection alive in every functor but that
    of a [send] by another thread, which holds the raw [this], and a destruction
    during a round is unsafe for other reasons too
    ([destroyed_in_batch_is_undefined]). Reports that [revents_ok] excludes are
    excluded here too. *)
Definition event_ok (ev : event) (s : t) : Prop :=
  match ev with
  | LPoll ans =>
      pc s = Top -> answer_ok ans (poller_ s) /\
      forall p' store active, poll ans ∅ [] (poller_ s) = Some (p', store, active) ->
        map_Forall (fun _ r => revents_ok r) store
  | Act id a => is_Some (connections s !! id) /\ action_ok a
  | Established id => is_Some (connections s !! id)
  | New self fd =>
      map_Forall (fun _ c => Watcher.fd_ (watcher_ c) <> fd /\ Watcher.self (watcher_ c) <> self) (connections s) /\
      map_Forall (fun _ w => Watcher.fd_ w <> fd /\ Watcher.self w <> self) (others s)
  | Destroy id =>
      forall c, connections s !! id = Some c -> Watcher.started_ (watcher_ c) = false /\ functors c = []
  | Other a o => is_Some (others s !! a)
  | Remote id m => is_Some (connections s !! id) /\ input_ok (IRemote m)
  | _ => True
  end.

Fixpoint run_ok (evs : list event) (s : t) : Prop :=
  match evs with
  | [] => True
  | ev :: rest => event_ok ev s /\ forall s', step ev s = Some s' -> run_ok rest s'
  end.

(** ** A connection of the loop and the same connection alone *)

Definition inputs (id : nat) (l : list (nat * input)) : list input :=
  omap (fun x => if decide (x.1 = id) then Some x.2 else None) l.

(** [c] is, but for its poller, what the connection would be alone. *)
Definition alone (id : nat) (l : list (nat * input)) (c : conn) : Prop :=
  Forall input_ok (inputs id l) /\
  exists c0 r, TcpConnection.run (user id) (inputs id l) (TcpConnection.make (address c) (fd_of c) p0) = Some c0 /\
    c = host r (poller c) c0.

Lemma inputs_snoc id j i l :
  inputs id (l ++ [(j, i)]) = if decide (j = id) then inputs id l ++ [i] else inputs id l.
Proof. unfold inputs. rewrite omap_app. cbn. case_decide; [done|apply app_nil_r]. Qed.

Lemma run_snoc id ins i (c0 : conn) :
  TcpConnection.run (user id) (ins ++ [i]) c0 = TcpConnection.run (user id) ins c0 ≫= TcpConnection.step (user id) i.
Proof.
  revert c0. induction ins as [|j ins IH]; intros c0; cbn [app TcpConnection.run].
  - cbn [mbind option_bind]. by destruct (TcpConnection.step _ _ _).
  - destruct (TcpConnection.step _ j c0); [apply IH|done].
Qed.

Lemma alone_inv id l c :
  alone id l c -> exists c0 r, c = host r (poller c) c0 /\ inv c0 /\
    TcpConnection.run (user id) (inputs id l) (TcpConnection.make (address c) (fd_of c) p0) = Some c0.
Proof.
  intros [Hok (c0 & r & E & Hc)]. exists c0, r. split; [done|]. split; [|done].
  destruct (connection_run_inv (user id) (Huser id) (inputs id l) _
    (connection_make_inv (address c) (fd_of c) p0 Hp0 (Hempty _)) Hok) as (c1 & E1 & Hinv). by simplify_eq.
Qed.

(** Calls from outside do not take the registration away. *)
Definition outside (i : input) : Prop :=
  match i with IEvents _ | IFunctor => False | _ => True end.

Lemma outside_open id i (c c' : conn) :
  inv c -> input_ok i -> outside i -> open c -> TcpConnection.step (user id) i c = Some c' -> open c'.
Proof.
  intros (Hc & Hst & _) Hok Ho Hop E.
  assert (forall c1, good c c1 -> open c1) as Hgood.
  { intros c1 (_ & _ & [[E1|[_ E1]] _]); unfold open in *; rewrite E1; auto. }
  destruct i as [r| |a| |m]; try done; cbn [TcpConnection.step] in E.
  - destruct (do_action_good (user id) (Huser id) a c Hc Hst Hok) as (c1 & E1 & Hg).
    apply Hgood. by simplify_eq.
  - unfold establishedInLoop in E. rewrite decide_False in E; [by simplify_eq|].
    destruct Hop; congruence.
  - destruct (do_remote_good m c Hc Hst Hok) as (c1 & E1 & Hg). apply Hgood. by simplify_eq.
Qed.

(** A step on the loop is a step alone. *)
Lemma alone_step id l i c p :
  alone id l c -> poller_ok p -> WatcherOps.synced (watcher_ c) p -> input_ok i ->
  exists c', TcpConnection.step (user id) i (on_poller p c) = Some c' /\ alone id (l ++ [(id, i)]) c' /\
    poller_ok (poller c') /\ WatcherOps.synced (watcher_ c') (poller c') /\
    fd_of c' = fd_of c /\ address c' = address c /\ grows (popped i c) c' /\
    (forall fd, fd <> fd_of c -> interest (poller c') !! fd = interest p !! fd) /\
    Watcher.revents_ (watcher_ c') = Watcher.revents_ (watcher_ c) /\
    (outside i -> Watcher.started_ (watcher_ c) = true -> Watcher.started_ (watcher_ c') = true).
Proof.
  intros Hal Hp Hs Hok. destruct (alone_inv id l c Hal) as (c0 & r & Hc & Hinv & E).
  assert (on_poller p c = host r p c0) as -> by by rewrite Hc.
  assert (par c0 p) as Hpar.
  { destruct Hinv as (Hcore & _). split; [split; apply Hcore|]. split; [done|]. rewrite Hc in Hs. exact Hs. }
  destruct (connection_step_inv (user id) (Huser id) i c0 Hinv Hok) as (c1 & E1 & Hinv1).
  destruct (step_uniform (user id) i r p c0 c1 Hpar E1) as (p1 & E2 & (_ & Hp1 & Hs1) & Hfd & Ha & Hg & Hfr).
  exists (host r p1 c1). split; [done|]. split.
  - split; [rewrite inputs_snoc, decide_True by done; apply Forall_snoc; [apply Hal|done]|].
    exists c1, r. rewrite inputs_snoc, decide_True by done. split; [|done].
    change (address (host r p1 c1)) with (address c1). change (fd_of (host r p1 c1)) with (fd_of c1).
    assert (address c1 = address c /\ fd_of c1 = fd_of c) as [-> ->].
    { rewrite Ha, Hfd, Hc. by destruct i. }
    rewrite run_snoc, E. done.
  - split; [done|]. split; [done|].
    split; [change (fd_of c1 = fd_of c); rewrite Hfd, Hc; by destruct i|].
    split; [change (address c1 = address c); rewrite Ha, Hc; by destruct i|].
    split; [|split; [|split; [by rewrite Hc|]]].
    + destruct Hg as [new Hn]. exists new. rewrite Hc. change (functors c1 = functors (popped i (host r (poller c) c0)) ++ new).
      rewrite Hn. by destruct i.
    + intros fd Hne. apply Hfr. rewrite Hc in Hne. by destruct i.
    + intros Ho Hst. change (Watcher.started_ (watcher_ c1) = true). apply open_started; [apply Hinv1|].
      eapply outside_open; [exact Hinv|done|done| |exact E1].
      apply started_open; [apply Hinv|]. rewrite Hc in Hst. exact Hst.
Qed.

(** ** Invariant *)

(** Whatever poller [p] and watchers [W]: they agree, the watchers are of
    different descriptors and at different addresses, and nothing else is
    registered. *)
Record registered (W : key -> option Watcher.t) (p : P) : Prop := {
  reg_poller : poller_ok p;
  reg_synced k w : W k = Some w -> WatcherOps.synced w p;
  reg_distinct k1 k2 w1 w2 :
    W k1 = Some w1 -> W k2 = Some w2 ->
    Watcher.fd_ w1 = Watcher.fd_ w2 \/ Watcher.self w1 = Watcher.self w2 -> k1 = k2;
  reg_interest fd e a :
    interest p !! fd = Some (e, a) -> exists k w, W k = Some w /\ Watcher.fd_ w = fd /\ Watcher.self w = a
}.

#[local] Instance key_eq_dec : EqDecision key.
Proof. apply sum_eq_dec. Defined.

Lemma registered_update (W W' : key -> option Watcher.t) p p' k w w' :
  registered W p -> W k = Some w -> (forall j, W' j = if decide (j = k) then Some w' else W j) ->
  Watcher.fd_ w' = Watcher.fd_ w -> Watcher.self w' = Watcher.self w ->
  poller_ok p' -> WatcherOps.synced w' p' ->
  (forall fd, fd <> Watcher.fd_ w -> interest p' !! fd = interest p !! fd) -> registered W' p'.
Proof.
  intros [Hp Hs Hd Hi] Hk HW Hfd Ha Hp' Hs' Hfr.
  assert (forall j v, W' j = Some v -> exists v0, W j = Some v0 /\ Watcher.fd_ v = Watcher.fd_ v0 /\
    Watcher.self v = Watcher.self v0) as Hold.
  { intros j v. rewrite HW. case_decide as E; [intros [= <-]; subst; by exists w|intros ?; by exists v]. }
  constructor; [done|..].
  - intros j v. rewrite HW. case_decide as E; [by intros [= <-]|]. intros Hj.
    assert (Watcher.fd_ v <> Watcher.fd_ w) as Hne by (intros Ef; apply E; eapply Hd; eauto).
    destruct (Hs j v Hj) as [Hr Hv]. split; [done|]. by rewrite Hfr.
  - intros k1 k2 w1 w2 (v1 & H1 & F1 & A1)%Hold (v2 & H2 & F2 & A2)%Hold ?.
    apply (Hd k1 k2 v1 v2 H1 H2). rewrite <- F1, <- F2, <- A1, <- A2. done.
  - intros fd e a Hfda. destruct (decide (fd = Watcher.fd_ w)) as [->|Hne].
    + exists k, w'. rewrite HW, decide_True by done. split; [done|]. split; [done|].
      destruct Hs' as [_ Hs']. rewrite Hfd in Hs'. destruct (Watcher.started_ w').
      * destruct Hs' as [_ Hs']. congruence.
      * destruct Hs' as [_ Hs']. congruence.
    + rewrite Hfr in Hfda by done. destruct (Hi fd e a Hfda) as (j & v & Hj & <- & <-).
      exists j, v. rewrite HW, decide_False by (intros ->; congruence). done.
Qed.

(** What the loop may still do in this round is sound: the active watchers are
    alive, those of connections are registered, and none comes twice. *)
Definition active_ok (s : t) : Prop :=
  NoDup (activeWatchers_ s) /\
  (forall a, a ∈ activeWatchers_ s -> exists k w, watcher_at s k = Some w /\ Watcher.self w = a /\
     if k is inl _ then Watcher.started_ w = true /\ revents_ok (Watcher.revents_ w) else True) /\
  (pc s <> Handling -> activeWatchers_ s = []).

Record base_inv (s : t) : Prop := {
  base_registered : registered (watcher_at s) (poller_ s);
  base_others a w : others s !! a = Some w -> Watcher.self w = a;
  base_alone id c : connections s !! id = Some c -> alone id (log s) c /\ (id < created s)%nat;
  base_log id i : (id, i) ∈ log s -> (id < created s)%nat;
  base_active : active_ok s
}.

(** How often connection [id] is in a queue. *)
Definition times (id : nat) (q : list nat) : nat := length (filter (fun j => j = id) q).

(** The queue [q] holds each connection once for each of its functors. *)
Definition queue_inv (q : list nat) (s : t) : Prop :=
  (forall id c, connections s !! id = Some c -> length (functors c) = times id q) /\
  (forall id, id ∈ q -> is_Some (connections s !! id)).

Record inv (s : t) : Prop := {
  inv_base : base_inv s;
  inv_queue : queue_inv (batch s ++ pendingFunctors_ s) s;
  inv_batch : pc s <> Running -> batch s = []
}.

Lemma times_app id q1 q2 : times id (q1 ++ q2) = (times id q1 + times id q2)%nat.
Proof. unfold times. by rewrite list.filter_app, length_app. Qed.

Lemma times_cons id j q : times id (j :: q) = ((if decide (j = id) then 1 else 0) + times id q)%nat.
Proof. unfold times. rewrite filter_cons. by case_decide. Qed.

Lemma times_0 id q : times id q = 0%nat <-> id ∉ q.
Proof.
  induction q as [|j q IH]; [by split; [intros _; apply not_elem_of_nil|]|].
  rewrite times_cons, not_elem_of_cons. case_decide; [split; [lia|naive_solver]|]. cbn. rewrite IH. naive_solver.
Qed.

Lemma times_replicate id j n : times id (replicate n j) = if decide (j = id) then n else 0%nat.
Proof.
  induction n as [|n IH]; [by case_decide|]. cbn [replicate]. rewrite times_cons, IH. by case_decide.
Qed.

Lemma owner_Some a id (s : t) : owner a s = Some id -> exists c, connections s !! id = Some c /\ address c = a.
Proof.
  unfold owner. intros E. apply head_Some_elem_of in E. apply list_elem_of_omap in E as ([j c] & Hj & E).
  cbn in E. case_decide; [|done]. injection E as <-. exists c. split; [by apply elem_of_map_to_list|done].
Qed.

Lemma owner_live id (c : conn) (s : t) :
  registered (watcher_at s) (poller_ s) -> connections s !! id = Some c -> owner (address c) s = Some id.
Proof.
  intros Hr Hc. destruct (owner (address c) s) as [j|] eqn:E.
  - destruct (owner_Some _ _ _ E) as (c' & Hj & Ha). f_equal.
    assert (inl j = inl id :> key) as Heq; [|by injection Heq].
    eapply (reg_distinct _ _ Hr); cbn; rewrite ?Hj, ?Hc; [done|done|]. by right.
  - exfalso. unfold owner in E.
    assert (id ∈ omap (fun x : nat * conn => if decide (address x.2 = address c) then Some x.1 else None)
      (map_to_list (connections s))) as Hin.
    { apply list_elem_of_omap. exists (id, c). split; [by apply elem_of_map_to_list|]. cbn. by rewrite decide_True. }
    by destruct (omap _ _); [apply not_elem_of_nil in Hin|].
Qed.

(** The loop's fields that code of a connection leaves alone. *)
Definition same_loop (s s' : t) : Prop :=
  created s' = created s /\ others s' = others s /\ activeWatchers_ s' = activeWatchers_ s /\ pc s' = pc s /\
  batch s' = batch s.

(** Running code of a live connection. The active watchers stay sound when the
    connection's own one is not among them, or the code is called from
    outside. *)
Lemma on_connection_spec id i c (s : t) :
  base_inv s -> connections s !! id = Some c -> input_ok i ->
  (if i is IEvents _ then Watcher.started_ (watcher_ c) = true else True) ->
  (outside i \/ address c ∉ activeWatchers_ s) ->
  (1 <= length (functors c))%nat \/ i <> IFunctor ->
  exists s' c' n, on_connection id i s = Some s' /\ base_inv s' /\ same_loop s s' /\
    connections s' = <[id := c']> (connections s) /\ pendingFunctors_ s' = pendingFunctors_ s ++ replicate n id /\
    (length (functors c') + (if i is IFunctor then 1 else 0) = length (functors c) + n)%nat.
Proof.
  intros [Hreg Hot Hal Hlog Hact] Hc Hok Hst Hout Hlen. unfold on_connection. rewrite Hc. cbn [mbind option_bind].
  destruct (Hal id c Hc) as [Halone Hid].
  assert (watcher_at s (inl id) = Some (watcher_ c)) as Hw by (cbn; by rewrite Hc).
  destruct (alone_step id (log s) i c (poller_ s) Halone (reg_poller _ _ Hreg) (reg_synced _ _ Hreg _ _ Hw) Hok)
    as (c' & E & Hal' & Hp' & Hs' & Hfd & Ha & [new Hg] & Hfr & Hrev & Hkeep).
  assert (effect id i (on_poller (poller_ s) c) = Some c') as ->.
  { destruct i; try exact E. cbn [TcpConnection.step effect] in *.
    change (Watcher.started_ (watcher_ (on_poller (poller_ s) c))) with (Watcher.started_ (watcher_ c)) in E.
    by rewrite Hst in E. }
  cbn [mbind option_bind].
  assert (length (functors c') - length (functors (popped i c)) = length new)%nat as ->
    by (rewrite Hg, length_app; lia).
  eexists _, c', (length new). split; [done|].
  split; [|split; [done|split; [done|split; [done|]]]].
  - constructor; cbn [connections poller_ created others activeWatchers_ pc batch pendingFunctors_ log].
    + apply (registered_update _ _ _ _ (inl id) (watcher_ c) (watcher_ c') Hreg); try done.
      intros [j|a]; cbn.
      * case_decide as Ej; [injection Ej as ->; by rewrite lookup_insert_eq|].
        rewrite lookup_insert_ne; [done|congruence].
      * by rewrite decide_False.
    + done.
    + intros j cj Hj. destruct (decide (j = id)) as [->|Hne].
      * rewrite lookup_insert_eq in Hj. by injection Hj as <-.
      * rewrite lookup_insert_ne in Hj by done. destruct (Hal j cj Hj) as [[Hin Hrun] ?]. split; [|done].
        unfold alone. rewrite inputs_snoc, decide_False by done. done.
    + intros j k. rewrite elem_of_app, list_elem_of_singleton. intros [?|[= -> _]]; [by eapply Hlog|done].
    + destruct Hact as (Hnd & Hlive & Hidle). split; [done|]. split; [|done]. intros a Hin.
      destruct (Hlive a Hin) as (k & w & Hk & Hwa & Hm). cbn [activeWatchers_] in Hin.
      destruct (decide (k = inl id)) as [->|Hne].
      * exists (inl id), (watcher_ c'). cbn. rewrite lookup_insert_eq. split; [done|].
        rewrite Hw in Hk. injection Hk as <-. split; [by rewrite <- Hwa|].
        destruct Hout as [Ho|Hnin]; [|by subst a]. split; [apply Hkeep; [done|apply Hm]|].
        rewrite Hrev. apply Hm.
      * exists k, w. split; [|done]. destruct k as [j|b]; cbn in *; [|done].
        rewrite lookup_insert_ne; [done|congruence].
  - apply (f_equal length) in Hg. rewrite length_app in Hg. destruct i; cbn in *; try (rewrite Hg; lia).
    destruct (functors c) as [|f fs]; cbn in *; [destruct Hlen; [lia|done]|lia].
Qed.

(** *** The steps of the loop *)

Lemma record_all_lookup store rep a : a ∈ rep.*1 -> is_Some (PollPoller.record_all store rep !! a).
Proof.
  assert (forall rep store, is_Some (store !! a) -> is_Some (PollPoller.record_all store rep !! a)) as Hkeep.
  { clear. intros rep. induction rep as [|[b r] rep IH]; intros store Hs; [done|]. apply IH.
    destruct (decide (b = a)) as [->|Hne]; [by rewrite lookup_insert_eq|by rewrite lookup_insert_ne]. }
  revert store. induction rep as [|[b r] rep IH]; intros store; cbn; [by intros ?%elem_of_nil|].
  intros [->|Hin]%elem_of_cons; [|by apply IH]. apply Hkeep. by rewrite lookup_insert_eq.
Qed.

(** Everything but [revents_] stays. *)
Definition same_watcher (w w' : Watcher.t) : Prop :=
  Watcher.fd_ w' = Watcher.fd_ w /\ Watcher.self w' = Watcher.self w /\
  Watcher.events_ w' = Watcher.events_ w /\ Watcher.started_ w' = Watcher.started_ w.

Lemma store_revents_same store w : same_watcher w (store_revents store w).
Proof. unfold store_revents. by destruct (store !! _). Qed.

Lemma registered_map (W W' : key -> option Watcher.t) (f : Watcher.t -> Watcher.t) p p' :
  registered W p -> (forall k, W' k = f <$> W k) -> (forall w, same_watcher w (f w)) ->
  poller_ok p' -> interest p' = interest p -> registered W' p'.
Proof.
  intros [Hp Hs Hd Hi] HW Hf Hp' Hi'.
  constructor; [done|..].
  - intros k v. rewrite HW. intros (w & Hk & ->)%fmap_Some. destruct (Hf w) as (H1 & H2 & H3 & H4).
    specialize (Hs k w Hk). unfold WatcherOps.synced in *. by rewrite H1, H2, H3, H4, Hi'.
  - intros k1 k2 v1 v2. rewrite !HW. intros (w1 & Hk1 & ->)%fmap_Some (w2 & Hk2 & ->)%fmap_Some Hv.
    destruct (Hf w1) as (H1 & H2 & _), (Hf w2) as (H3 & H4 & _). rewrite H1, H2, H3, H4 in Hv. by eapply Hd.
  - intros fd e a. rewrite Hi'. intros (k & w & Hk & <- & <-)%Hi. exists k, (f w). rewrite HW, Hk.
    destruct (Hf w) as (H1 & H2 & _). done.
Qed.

Lemma alone_revents id l store (c : conn) :
  alone id l c -> alone id l (set_watcher (store_revents store (watcher_ c)) (poller c) c).
Proof.
  intros [Hok (c0 & r & E & Hc)]. unfold store_revents. destruct (store !! _) as [r'|].
  - split; [done|]. exists c0, r'. split; [exact E|]. rewrite Hc. done.
  - assert (set_watcher (watcher_ c) (poller c) c = c) as -> by by destruct c.
    split; [done|]. by exists c0, r.
Qed.

(** What [poll] reports is alive and registered. *)
Lemma poll_watchers_spec ans (s : t) :
  base_inv s -> pc s = Top -> event_ok (LPoll ans) s ->
  exists s', poll_watchers ans s = Some s' /\ base_inv s' /\ pc s' = Handling /\
    batch s' = batch s /\ pendingFunctors_ s' = pendingFunctors_ s /\
    forall id, functors <$> connections s' !! id = functors <$> connections s !! id.
Proof.
  intros [Hreg Hot Hal Hlog _] Hpc Hev. destruct (Hev Hpc) as [Hans Hrev].
  destruct (poll_ok ans ∅ [] (poller_ s) (reg_poller _ _ Hreg) Hans) as (p' & ready & rep & E & Hp' & Hi' & Hsub).
  specialize (Hrev _ _ _ E). unfold poll_watchers. rewrite E. cbn [mbind option_bind app].
  set (store := PollPoller.record_all ∅ rep) in *.
  assert (forall a, a ∈ rep.*1 -> exists k w, watcher_at s k = Some w /\ Watcher.self w = a /\
    Watcher.started_ w = true) as Hlive.
  { intros a ([a' r] & -> & Hin)%list_elem_of_fmap. apply (elem_of_submseteq _ _ _ Hin) in Hsub.
    apply ready_watchers_registered in Hsub as (fd & e & Hfd & _).
    destruct (reg_interest _ _ Hreg fd e a' Hfd) as (k & w & Hk & Hwf & Hwa). exists k, w. split; [done|].
    split; [done|]. destruct (reg_synced _ _ Hreg k w Hk) as [_ Hs]. rewrite Hwf in Hs.
    destruct (Watcher.started_ w); [done|]. destruct Hs; congruence. }
  assert (forallb (is_watcher s) rep.*1 = true) as ->.
  { apply forallb_forall. intros a Ha. rewrite <- list_elem_of_In in Ha.
    destruct (Hlive a Ha) as ([id|b] & w & Hk & <- & _); unfold is_watcher; apply orb_true_iff.
    - left. cbn in Hk. destruct (connections s !! id) as [c|] eqn:Ec; [|done]. injection Hk as <-.
      apply bool_decide_eq_true_2. exists id. exact (owner_live id c s Hreg Ec).
    - right. cbn in Hk. apply bool_decide_eq_true_2. rewrite (Hot _ _ Hk). by eexists. }
  set (s' := mk _ _ _ _ _ _ _ _ _). exists s'. split; [done|].
  assert (forall k, watcher_at s' k = store_revents store <$> watcher_at s k) as HW.
  { intros [id|b]; cbn; rewrite lookup_fmap; [by destruct (connections s !! id)|done]. }
  split; [|split; [done|split; [done|split; [done|]]]].
  - constructor.
    + exact (registered_map _ _ _ _ _ Hreg HW (store_revents_same store) Hp' Hi').
    + intros a w. cbn. rewrite lookup_fmap. intros (w0 & Hw0 & ->)%fmap_Some.
      destruct (store_revents_same store w0) as (_ & -> & _). by apply Hot.
    + intros id c. cbn. rewrite lookup_fmap. intros (c0 & Hc0 & ->)%fmap_Some.
      destruct (Hal id c0 Hc0) as [? ?]. split; [by apply alone_revents|done].
    + exact Hlog.
    + split; [|split].
      * apply submseteq_Permutation in Hsub as [l Hl]. cbn.
        pose proof (ready_watchers_NoDup ready (interest (poller_ s))) as Hnd. rewrite Hl, fmap_app in Hnd.
        apply list.NoDup_app in Hnd as [? _]; [done|]. intros f1 f2 e1 e2 a H1 H2.
        destruct (reg_interest _ _ Hreg _ _ _ H1) as (k1 & w1 & Hk1 & <- & A1).
        destruct (reg_interest _ _ Hreg _ _ _ H2) as (k2 & w2 & Hk2 & <- & A2).
        assert (k1 = k2) as -> by (eapply (reg_distinct _ _ Hreg); [done..|right; congruence]). congruence.
      * cbn [activeWatchers_]. intros a Ha. destruct (Hlive a Ha) as (k & w & Hk & Hwa & Hst).
        exists k, (store_revents store w). rewrite HW, Hk. split; [done|].
        destruct (store_revents_same store w) as (_ & Hs1 & _ & Hs2). split; [congruence|].
        destruct k; [|done]. split; [congruence|]. unfold store_revents. rewrite Hwa.
        destruct (record_all_lookup ∅ rep a Ha) as [r Hr]. fold store in Hr. rewrite Hr. by apply (Hrev a r).
      * by intros ?.
  - intros id. cbn. rewrite lookup_fmap. by destruct (connections s !! id).
Qed.

(** The queue after code of connection [id] ran: the functors it queued have
    been added, and the one it was run for, if any, was taken from the front. *)
Lemma queue_run id i (c c' : conn) n q q' (s s' : t) :
  queue_inv q' s -> q' = (if i is IFunctor then [id] else []) ++ q ->
  connections s !! id = Some c -> connections s' = <[id := c']> (connections s) ->
  (length (functors c') + (if i is IFunctor then 1 else 0) = length (functors c) + n)%nat ->
  queue_inv (q ++ replicate n id) s'.
Proof.
  intros [Hlen Hlive] -> Hc Hc' Hn.
  assert (forall j, times j ((if i is IFunctor then [id] else []) ++ q) =
    ((if i is IFunctor then if decide (id = j) then 1 else 0 else 0) + times j q)%nat) as Ht.
  { intros j. destruct i; try done. cbn [app]. by rewrite times_cons. }
  split.
  - intros j cj. rewrite Hc', times_app, times_replicate. intros [[<- <-]|[Hne Hj]]%lookup_insert_Some.
    + specialize (Hlen id c Hc). rewrite Ht, !decide_True in Hlen by done. rewrite decide_True by done.
      destruct i; lia.
    + rewrite (Hlen j cj Hj), Ht, !decide_False by done. destruct i; lia.
  - intros j. rewrite elem_of_app. intros Hj. rewrite Hc'.
    destruct (decide (j = id)) as [->|Hne]; [rewrite lookup_insert_eq; by eexists|].
    rewrite lookup_insert_ne by done. destruct Hj as [Hj|[? _]%elem_of_replicate]; [|done].
    apply Hlive. apply elem_of_app. by right.
Qed.

(** A call from outside, on the loop thread or by another one. *)
Lemma call_inv id i (s : t) :
  inv s -> is_Some (connections s !! id) -> input_ok i -> outside i ->
  exists s', on_connection id i s = Some s' /\ inv s'.
Proof.
  intros [Hb Hq Hba] [c Hc] Hok Ho.
  destruct (on_connection_spec id i c s Hb Hc Hok) as (s' & c' & n & E & Hb' & (Hcr & Hot & Hact & Hpc & Hbt) & Hc' & Hp & Hn);
    [by destruct i|by left|by right; intros ->|].
  exists s'. split; [done|]. constructor; [done| |by rewrite Hpc, Hbt].
  rewrite Hbt, Hp, app_assoc. eapply (queue_run id i); [exact Hq|by destruct i|done..].
Qed.

Lemma base_inv_eq (s s' : t) :
  base_inv s -> poller_ s' = poller_ s -> connections s' = connections s -> created s' = created s ->
  others s' = others s -> log s' = log s -> active_ok s' -> base_inv s'.
Proof.
  intros [Hreg Hot Hal Hlog _] Hp Hc Hcr Ho Hl Ha.
  constructor; unfold watcher_at in *; rewrite ?Hp, ?Hc, ?Hcr, ?Ho, ?Hl; done.
Qed.

Lemma active_tail a rest c q1 q2 (s : t) :
  active_ok s -> activeWatchers_ s = a :: rest -> c = pc s ->
  active_ok (set_active rest (set_queue c q1 q2 s)) /\ a ∉ rest.
Proof.
  intros (Hnd & Hlive & Hidle) E ->. rewrite E in *. apply list.NoDup_cons in Hnd as [Hn Hnd].
  split; [|done]. split; [done|]. split.
  - intros b Hb. by apply Hlive; right.
  - intros Hpc. by specialize (Hidle Hpc).
Qed.

Lemma handle_next_inv a rest (s : t) :
  inv s -> pc s = Handling -> activeWatchers_ s = a :: rest ->
  exists s', handle_next a rest s = Some s' /\ inv s'.
Proof.
  intros [Hb Hq Hba] Hpc Hact. pose proof Hb as [Hreg Hot Hal Hlog Hao].
  pose proof Hao as (_ & Hlive & _). destruct (Hlive a) as (k & w & Hk & Hwa & Hm); [rewrite Hact; by left|].
  destruct (active_tail a rest (pc s) (batch s) (pendingFunctors_ s) s Hao Hact eq_refl) as [Htail Hnin].
  change (set_queue (pc s) (batch s) (pendingFunctors_ s) s) with
    (mk (poller_ s) (connections s) (created s) (others s) (activeWatchers_ s) (pc s) (batch s) (pendingFunctors_ s) (log s)) in Htail.
  assert (base_inv (set_active rest s)) as Hb1 by by eapply base_inv_eq.
  unfold handle_next. destruct k as [id|b]; cbn in Hk.
  - destruct (connections s !! id) as [c|] eqn:Ec; [|done]. injection Hk as <-. destruct Hm as [Hst Hre].
    assert (owner a s = Some id) as -> by (rewrite <- Hwa; exact (owner_live id c s Hreg Ec)).
    rewrite Ec. cbn [mbind option_bind].
    destruct (on_connection_spec id (IEvents (Watcher.revents_ (watcher_ c))) c (set_active rest s) Hb1 Ec Hre Hst)
      as (s' & c' & n & E & Hb' & (Hcr & Ho' & Hact' & Hpc' & Hbt) & Hc' & Hp & Hn);
      [right; cbn; unfold address; by rewrite Hwa|by right|].
    exists s'. split; [done|]. constructor; [done| |rewrite Hpc', Hbt; done].
    rewrite Hbt, Hp, app_assoc. by eapply (queue_run id (IEvents 0) c c' n).
  - assert (owner a s = None) as ->.
    { destruct (owner a s) as [j|] eqn:Eo; [|done]. destruct (owner_Some _ _ _ Eo) as (c & Hc & Ha).
      assert (inl j = inr b :> key) as Heq; [|done].
      eapply (reg_distinct _ _ Hreg); cbn; rewrite ?Hc, ?Hk; [done|done|]. right. by rewrite Hwa. }
    assert (others s !! a = Some w) as -> by by rewrite <- Hwa, (Hot _ _ Hk).
    exists (set_active rest s). split; [done|]. by constructor.
Qed.

Lemma functor_inv id rest (s : t) :
  inv s -> pc s = Running -> batch s = id :: rest ->
  exists s', on_connection id IFunctor (set_queue Running rest (pendingFunctors_ s) s) = Some s' /\ inv s'.
Proof.
  intros [Hb Hq Hba] Hpc Hbt. set (s1 := set_queue Running rest (pendingFunctors_ s) s).
  pose proof Hb as [_ _ _ _ (Hnd & Hlive & Hidle)].
  assert (activeWatchers_ s = []) as Ha by (apply Hidle; by rewrite Hpc).
  assert (base_inv s1) as Hb1.
  { by apply (base_inv_eq s). }
  rewrite Hbt in Hq. pose proof Hq as [Hlen Hall].
  destruct (Hall id) as [c Hc]; [by left|].
  destruct (on_connection_spec id IFunctor c s1 Hb1 Hc I I) as (s' & c' & n & E & Hb' & (Hcr & Ho' & Hact' & Hpc' & Hbt') & Hc' & Hp & Hn).
  - right. cbn. rewrite Ha. apply not_elem_of_nil.
  - left. rewrite (Hlen id c Hc). cbn [app]. rewrite times_cons, decide_True by done. lia.
  - exists s'. split; [done|]. constructor; [done| |by rewrite Hpc'].
    rewrite Hbt', Hp. cbn [batch pendingFunctors_ s1 set_queue]. rewrite app_assoc.
    by eapply (queue_run id IFunctor c c' n).
Qed.

Lemma new_inv self fd (s : t) :
  inv s -> event_ok (New self fd) s -> exists s', step (New self fd) s = Some s' /\ inv s'.
Proof.
  intros [[Hreg Hot Hal Hlog (Hnd & Hlive & Hidle)] Hq Hba] [Hev1 Hev2].
  assert (forall k w, watcher_at s k = Some w -> Watcher.fd_ w <> fd /\ Watcher.self w <> self) as Hev.
  { intros [id|b] w Hk; [|by eapply Hev2]. apply fmap_Some in Hk as (c & Hc & ->). by eapply Hev1. }
  cbn [step]. eexists. split; [done|].
  set (c := TcpConnection.make self fd (poller_ s)).
  assert (connections s !! created s = None) as Hnone.
  { destruct (connections s !! created s) eqn:E; [|done]. destruct (Hal _ _ E). lia. }
  set (s' := mk _ _ _ _ _ _ _ _ _).
  assert (forall k, watcher_at s' k = if decide (k = inl (created s)) then Some (watcher_ c) else watcher_at s k) as HW.
  { intros [id|b]; cbn; [|by rewrite decide_False]. case_decide as E.
    - injection E as ->. by rewrite lookup_insert_eq.
    - rewrite lookup_insert_ne; [done|congruence]. }
  assert (interest (poller_ s) !! fd = None) as Hfd.
  { destruct (interest (poller_ s) !! fd) as [[e a]|] eqn:E; [|done].
    destruct (reg_interest _ _ Hreg _ _ _ E) as (k & w & Hk & Hwf & _). by destruct (Hev k w Hk). }
  assert (forall k w, watcher_at s k = Some w -> watcher_at s' k = Some w) as Hold.
  { intros k w Hk. rewrite HW, decide_False; [done|]. intros ->. cbn in Hk. by rewrite Hnone in Hk. }
  constructor; [constructor|..].
  - destruct Hreg as [Hp Hs Hd Hi]. constructor; [done|..].
    + intros k w. rewrite HW. case_decide; [|by apply Hs]. intros [= <-]. by apply WatcherOps.synced_make.
    + intros k1 k2 w1 w2. rewrite !HW. case_decide as E1; case_decide as E2; [by subst|..|by apply Hd].
      * intros [= <-] H2 Hv. destruct (Hev _ _ H2). cbn in Hv. by destruct Hv.
      * intros H1 [= <-] Hv. destruct (Hev _ _ H1). cbn in Hv. by destruct Hv.
    + intros f e a (k & w & Hk & ?)%Hi. exists k, w. split; [by apply Hold|done].
  - done.
  - intros id c1. cbn. intros [[<- <-]|[Hne Hc1]]%lookup_insert_Some.
    + split; [|lia]. assert (inputs (created s) (log s) = []) as Hin.
      { unfold inputs. destruct (omap _ (log s)) as [|i l] eqn:E; [done|]. exfalso.
        assert (i ∈ i :: l) as Hin by (by left). rewrite <- E in Hin.
        apply list_elem_of_omap in Hin as ([j x] & Hj & Ex). cbn in Ex. case_decide; [subst j|done].
        apply Hlog in Hj. lia. }
      unfold alone. cbn [log]. rewrite Hin. split; [done|]. exists (TcpConnection.make self fd p0), 0. done.
    + destruct (Hal _ _ Hc1). split; [done|lia].
  - intros id i Hin. cbn in *. apply Hlog in Hin. lia.
  - split; [done|]. split; [|done]. intros a Ha. destruct (Hlive a Ha) as (k & w & Hk & ?).
    exists k, w. split; [by apply Hold|done].
  - destruct Hq as [Hlen Hall]. split.
    + intros id c1. cbn. intros [[<- <-]|[Hne Hc1]]%lookup_insert_Some; [|by apply Hlen].
      symmetry. apply times_0. intros Hj. destruct (Hall _ Hj) as [? E]. congruence.
    + intros id Hid. cbn. apply lookup_insert_is_Some. destruct (decide (created s = id)); [by left|right].
      split; [done|]. by apply Hall.
  - exact Hba.
Qed.

Lemma destroy_inv id (s : t) :
  inv s -> event_ok (Destroy id) s -> exists s', step (Destroy id) s = Some s' /\ inv s'.
Proof.
  intros [[Hreg Hot Hal Hlog (Hnd & Hlive & Hidle)] Hq Hba] Hev. cbn [step]. eexists. split; [done|].
  set (s' := set_connections _ s).
  assert (forall k w, watcher_at s' k = Some w -> watcher_at s k = Some w) as Hold.
  { intros [j|b] w; cbn; [|done]. destruct (decide (id = j)) as [->|Hne].
    - by rewrite lookup_delete_eq.
    - by rewrite lookup_delete_ne. }
  assert (forall k w, watcher_at s k = Some w -> Watcher.started_ w = true \/ is_Some (others s !! Watcher.self w) ->
    watcher_at s' k = Some w) as Hkeep.
  { intros [j|b] w; cbn; [|done]. destruct (decide (id = j)) as [->|Hne]; [|by rewrite lookup_delete_ne].
    destruct (connections s !! j) as [c|] eqn:Ec; [|done]. intros [= <-] [Hst|[w2 Hw]].
    - destruct (Hev c Ec). congruence.
    - assert (inl j = inr (Watcher.self (watcher_ c)) :> key) as Heq; [|done].
      eapply (reg_distinct _ _ Hreg); cbn; [by rewrite Ec|done|]. right. symmetry. by apply Hot. }
  constructor; [constructor|..]; try done.
  - destruct Hreg as [Hp Hs Hd Hi]. constructor; [done|..].
    + intros k w ?%Hold. by eapply Hs.
    + intros k1 k2 w1 w2 ?%Hold ?%Hold. by eapply Hd.
    + intros f e a Hf. destruct (Hi f e a Hf) as (k & w & Hk & Hwf & Hwa). exists k, w.
      split; [|done]. apply Hkeep; [done|]. left. destruct (Hs k w Hk) as [_ Hsy]. rewrite Hwf in Hsy.
      destruct (Watcher.started_ w); [done|]. destruct Hsy. change (interest (poller_ s) !! f = Some (e, a)) in Hf. congruence.
  - intros j c. cbn. intros [_ ?]%lookup_delete_Some. by apply Hal.
  - split; [done|]. split; [|done]. intros a Ha. destruct (Hlive a Ha) as (k & w & Hk & Hwa & Hm).
    exists k, w. split; [|done]. apply Hkeep; [done|]. destruct k as [j|b]; [by left; apply Hm|right].
    cbn in Hk. rewrite (Hot _ _ Hk). by eexists.
  - destruct Hq as [Hlen Hall]. split.
    + intros j c. cbn. intros [_ ?]%lookup_delete_Some. by apply Hlen.
    + intros j Hj. cbn. destruct (decide (id = j)) as [->|Hne]; [|rewrite lookup_delete_ne by done; by apply Hall].
      exfalso. destruct (Hall j Hj) as [c Hc]. specialize (Hlen j c Hc). destruct (Hev c Hc) as [_ Hf].
      rewrite Hf in Hlen. symmetry in Hlen. by apply times_0 in Hlen.
Qed.

Lemma other_inv a o (s : t) :
  inv s -> event_ok (Other a o) s -> exists s', step (Other a o) s = Some s' /\ inv s'.
Proof.
  intros [[Hreg Hot Hal Hlog (Hnd & Hlive & Hidle)] Hq Hba] [w Hw]. cbn [step]. rewrite Hw. cbn [mbind option_bind].
  assert (watcher_at s (inr a) = Some w) as Hk by done.
  destruct (WatcherOps.apply_op_spec o w (poller_ s) (reg_poller _ _ Hreg) (reg_synced _ _ Hreg _ _ Hk))
    as (w' & p' & -> & Hp' & Hs' & Hw' & Hi'). cbn [mbind option_bind]. eexists. split; [done|].
  set (s' := mk _ _ _ _ _ _ _ _ _).
  assert (forall k, watcher_at s' k = if decide (k = inr a) then Some w' else watcher_at s k) as HW.
  { intros [id|b]; cbn; [by rewrite decide_False|]. case_decide as E.
    - injection E as ->. by rewrite lookup_insert_eq.
    - rewrite lookup_insert_ne; [done|congruence]. }
  constructor; [constructor|..]; try done.
  - apply (registered_update _ _ _ _ (inr a) w w' Hreg Hk HW); try done; [by rewrite Hw'..|].
    intros fd Hne. cbn. rewrite Hi'. case_match; [by rewrite lookup_delete_ne|by rewrite lookup_insert_ne].
  - intros b v. cbn. intros [[<- <-]|[Hne Hb]]%lookup_insert_Some; [|by apply Hot]. rewrite Hw'. cbn. by apply Hot.
  - split; [done|]. split; [|done]. intros b Hb. destruct (Hlive b Hb) as (k & v & Hkv & Hva & Hm).
    destruct (decide (k = inr a)) as [->|Hne].
    + exists (inr a), w'. rewrite HW, decide_True by done. split; [done|]. rewrite Hw'. cbn. split; [congruence|done].
    + exists k, v. rewrite HW, decide_False by done. done.
Qed.

(** No event is undefined. *)
Lemma rounds_step_inv ev (s : t) : inv s -> event_ok ev s -> exists s', step ev s = Some s' /\ inv s'.
Proof.
  intros Hs Hev. pose proof Hs as [Hb Hq Hba]. destruct ev as [ans| | | | |id a|id|self fd|id|a o|id m]; cbn [step].
  - destruct (pc s) eqn:Hpc; [|by exists s..].
    destruct (poll_watchers_spec ans s Hb Hpc Hev) as (s' & E & Hb' & Hpc' & Hbt & Hp & Hf). exists s'. split; [done|].
    destruct Hq as [Hlen Hall].
    constructor; [done| |intros _; rewrite Hbt; by apply Hba]. rewrite Hbt, Hp. split.
    + intros id c Hc. specialize (Hf id). rewrite Hc in Hf. cbn in Hf. symmetry in Hf.
      apply fmap_Some in Hf as (c0 & Hc0 & ->). by apply Hlen.
    + intros id Hid. destruct (Hall id Hid) as [c0 Hc0]. specialize (Hf id). rewrite Hc0 in Hf. cbn in Hf.
      apply fmap_Some in Hf as (c & Hc & _). by exists c.
  - destruct (pc s) eqn:Hpc; [by exists s| |by exists s]. destruct (activeWatchers_ s) as [|a rest] eqn:Ha; [by exists s|].
    by apply handle_next_inv.
  - destruct (pc s) eqn:Hpc; [by exists s| |by exists s]. destruct (activeWatchers_ s) as [|a rest] eqn:Ha; [|by exists s].
    eexists. split; [done|]. constructor; [|cbn; rewrite app_nil_r|done].
    + apply (base_inv_eq s); try done. split; [cbn; rewrite Ha; apply list.NoDup_nil; done|].
      split; [cbn; rewrite Ha; by intros ? ?%elem_of_nil|done].
    + rewrite Hba in Hq by done. exact Hq.
  - destruct (pc s) eqn:Hpc; [by exists s|by exists s|]. destruct (batch s) as [|id rest] eqn:Hbt; [by exists s|].
    by apply functor_inv.
  - destruct (pc s) eqn:Hpc; [by exists s|by exists s|]. destruct (batch s) as [|id rest] eqn:Hbt; [|by exists s].
    eexists. split; [done|]. pose proof (base_active _ Hb) as (Hnd & Hlive & Hidle).
    constructor; [|exact Hq|done]. apply (base_inv_eq s); try done.
    split; [done|]. split; [done|]. intros _. cbn. apply Hidle. by rewrite Hpc.
  - destruct Hev. by apply call_inv.
  - by apply call_inv.
  - by apply new_inv.
  - by apply destroy_inv.
  - by apply other_inv.
  - destruct Hev. by apply call_inv.
Qed.

Lemma loop_run_inv evs (s : t) : inv s -> run_ok evs s -> exists s', run evs s = Some s' /\ inv s'.
Proof.
  revert s. induction evs as [|ev evs IH]; intros s Hs Hok; cbn [run]; [by exists s|].
  destruct Hok as [Hev Hok]. destruct (rounds_step_inv ev s Hs Hev) as (s1 & E & Hs1). rewrite E. cbn [mbind option_bind].
  apply IH; [done|]. by apply Hok.
Qed.

Lemma loop_make_inv (p : P) (ws : gmap Z Watcher.t) :
  registered (watcher_at (make p ws)) p -> (forall a w, ws !! a = Some w -> Watcher.self w = a) -> inv (make p ws).
Proof.
  intros Hreg Hws. constructor; [constructor|..]; try done.
  - by intros id i ?%elem_of_nil.
  - split; [apply list.NoDup_nil; done|]. split; [by intros a ?%elem_of_nil|done].
  - split; [done|]. by intros id ?%elem_of_nil.
Qed.

(** ** Properties *)

(** C6: a loop with any number of connections on one poller and one queue of
    functors, in every interleaving of its rounds with the calls of other
    objects and other threads, in which a connection is destroyed only when it is
    not registered and no functor is bound to it and no report is one that
    [revents_ok] excludes ([event_ok]): no step is undefined - in particular [poll]
    writes into no destroyed watcher, and no handler or functor runs on a
    destroyed connection - and each connection is, but for the poller, in the
    very state it reaches when it is alone and is given the same inputs, with
    one entry of the loop's queue for each of its functors. So whatever was
    proved of one connection alone holds of each connection of the loop. The
    poller holds exactly the watchers that are started. *)
Theorem loop_refines_connections (p : P) (ws : gmap Z Watcher.t) (evs : list event)
  (Hreg : registered (watcher_at (make p ws)) p) (Hws : forall a w, ws !! a = Some w -> Watcher.self w = a)
  (Hok : run_ok evs (make p ws)) :
  exists s, run evs (make p ws) = Some s /\
    (forall id c, connections s !! id = Some c ->
       exists c0, reached (user id) c0 /\
         TcpConnection.run (user id) (inputs id (log s)) (TcpConnection.make (address c) (fd_of c) p0) = Some c0 /\
         state_ c = state_ c0 /\ sendBuffer_ c = sendBuffer_ c0 /\ receiveBuffer_ c = receiveBuffer_ c0 /\
         functors c = functors c0 /\ tr c = tr c0 /\ same_watcher (watcher_ c0) (watcher_ c) /\
         length (functors c) = times id (batch s ++ pendingFunctors_ s)) /\
    (forall fd e a, interest (poller_ s) !! fd = Some (e, a) <->
       exists k w, watcher_at s k = Some w /\ Watcher.started_ w = true /\
         Watcher.fd_ w = fd /\ Watcher.events_ w = e /\ Watcher.self w = a).
Proof.
  destruct (loop_run_inv evs _ (loop_make_inv p ws Hreg Hws) Hok) as (s & E & [Hb [Hq _] _]).
  exists s. split; [done|]. split.
  - intros id c Hc. destruct (base_alone _ Hb id c Hc) as [Hal _]. pose proof Hal as [Hin _].
    destruct (alone_inv id _ c Hal) as (c0 & r & Ec & _ & Er). exists c0. split.
    { by exists (address c), (fd_of c), p0, (inputs id (log s)). }
    split; [done|]. rewrite <- (Hq id c Hc). by rewrite Ec.
  - pose proof (base_registered _ Hb) as Hr. intros fd e a. split.
    + intros Hfd. destruct (reg_interest _ _ Hr fd e a Hfd) as (k & w & Hk & <- & <-).
      destruct (reg_synced _ _ Hr k w Hk) as [_ Hs]. exists k, w. split; [done|].
      destruct (Watcher.started_ w); destruct Hs as [? Hs]; [|congruence].
      rewrite Hs in Hfd. by injection Hfd as <-.
    + intros (k & w & Hk & Hst & <- & <- & <-). destruct (reg_synced _ _ Hr k w Hk) as [_ Hs].
      rewrite Hst in Hs. by destruct Hs.
Qed.

(** Destroying a connection from a handler while its watcher is among the
    active ones that are still to be handled makes the loop call a destroyed
    object, which nothing in [EventLoop] prevents: owners may destroy only what
    is no longer registered. *)
Theorem destroyed_in_batch_is_undefined (id : nat) (c : conn) (rest : list Z) (s : t)
  (Hs : inv s) (Hpc : pc s = Handling) (Hc : connections s !! id = Some c)
  (Ha : activeWatchers_ s = address c :: rest) :
  run [Destroy id; LHandle] s = None.
Proof.
  destruct Hs as [[Hreg Hot _ _ _] _ _]. cbn [run step mbind option_bind].
  change (pc (set_connections (delete id (connections s)) s)) with (pc s). rewrite Hpc.
  change (activeWatchers_ (set_connections (delete id (connections s)) s)) with (activeWatchers_ s). rewrite Ha.
  unfold handle_next. set (s' := set_connections _ s).
  assert (forall k w, watcher_at s k = Some w -> Watcher.self w = address c -> k = inl id) as Hown.
  { intros k w Hk Hw. eapply (reg_distinct _ _ Hreg); [exact Hk|cbn; by rewrite Hc|by right]. }
  destruct (owner (address c) s') as [j|] eqn:E.
  - exfalso. destruct (owner_Some _ _ _ E) as (cj & Hj & Haj). cbn in Hj. apply lookup_delete_Some in Hj as [Hne Hj].
    assert (inl j = inl id :> key) as Heq by (apply (Hown (inl j) (watcher_ cj)); [cbn; by rewrite Hj|done]).
    injection Heq. congruence.
  - change (others s' !! address c) with (others s !! address c).
    destruct (others s !! address c) as [w|] eqn:Ew; [|done]. exfalso.
    assert (inr (address c) = inl id :> key); [|done]. apply (Hown (inr (address c)) w Ew). by apply Hot.
Qed.
End Loop.

(** ** Witnesses *)

#[local] Instance sample_poller : Poller PollPoller.t :=
  PollPoller.poll_poller (fun i => i) (fun i => eq_refl).
#[local] Instance sample_polling : Polling PollPoller.t := poll_polling (fun i => i) (fun i => eq_refl).

Abbreviation loop := (t (P := PollPoller.t)).

Definition pollfd := PollPoller.mk_pollfd.

#[local] Instance revents_ok_dec r : Decision (revents_ok r).
Proof. unfold revents_ok. apply _. Defined.

(** The wakeup watcher of the loop: address 50, descriptor 3. *)
Definition wakeup : Watcher.t := Watcher.mk 50 3 3 0 true.
Definition sample_loop : loop := make (PollPoller.addWatcher wakeup PollPoller.make) {[50 := wakeup]}.

(** Two connections of one round: in the first poll both have data, in the
    second both are at their end and another thread sends on the second one in
    between. They are destroyed, and a third takes over an address and a
    descriptor. *)
Definition sample_events : list (event (P := PollPoller.t)) :=
  [New 100 5; Established 0; New 200 7; Established 1;
   LPoll (P := PollPoller.t) (2, [pollfd 3 3 0; pollfd 5 3 1; pollfd 7 3 1]); LHandle; LHandle; LSwap; LTop;
   LPoll (P := PollPoller.t) (3, [pollfd 3 3 1; pollfd 5 3 1; pollfd 7 3 1]); LHandle; LHandle;
   Remote 1 (RSend [Byte.x61]); LHandle; LSwap; LFunctor; LFunctor; LFunctor; LTop; Destroy 0; Destroy 1;
   New 100 5; Established 2].

Definition sample_user (id : nat) : env := sample_env.

Definition view (s : loop) :=
  (pc s, activeWatchers_ s, batch s, pendingFunctors_ s, (fun x => (x.1, state_ x.2)) <$> map_to_list (connections s)).

Lemma sample_registered : registered (watcher_at sample_loop) (poller_ sample_loop).
Proof.
  assert (forall k w, watcher_at sample_loop k = Some w -> k = inr 50 /\ w = wakeup) as HW.
  { intros [id|a] w Hk; cbn in Hk; [by rewrite lookup_empty in Hk|].
    apply lookup_singleton_Some in Hk as [<- <-]. done. }
  constructor.
  - by apply PollPoller.poll_add_ok; [apply PollPoller.poll_wf_make|..].
  - intros k w [-> ->]%HW. vm_compute. repeat split; done.
  - by intros k1 k2 w1 w2 [-> _]%HW [-> _]%HW _.
  - intros fd e a Hfd. exists (inr 50), wakeup. split; [done|]. cbn in Hfd.
    destruct (PollPoller.poll_add_ok wakeup PollPoller.make) as [_ Hi]; [apply PollPoller.poll_wf_make|done|done|].
    rewrite Hi in Hfd.
    apply lookup_insert_Some in Hfd as [[<- [= _ <-]]|[_ Hfd]]; done.
Qed.

(** The readiness that an answer of [poll(2)] shows. *)
Definition shown (filled : list PollPoller.pollfd) (fd : Z) : Z :=
  if existsb (fun q => (PollPoller.fd q =? fd) && (0 <? PollPoller.revents q)) filled then POLLIN else 0.

Lemma shown_nonneg filled fd : 0 <= shown filled fd.
Proof. unfold shown. by destruct (existsb _ _). Qed.

Lemma poll_revents_check ans (p : PollPoller.t) :
  match poll ans ∅ [] p with
  | Some (_, store, _) => bool_decide (map_Forall (fun _ r => revents_ok r) store)
  | None => true
  end = true ->
  forall p' store active, poll ans ∅ [] p = Some (p', store, active) -> map_Forall (fun _ r => revents_ok r) store.
Proof. intros H p' store active E. rewrite E in H. by apply bool_decide_eq_true in H. Qed.

#[local] Instance pollfd_eq_dec : EqDecision PollPoller.pollfd.
Proof. solve_decision. Defined.

Definition alive (id : nat) (s : loop) : bool := bool_decide (is_Some (connections s !! id)).

(** [event_ok] for concrete runs. *)
Definition event_okb (ev : event (P := PollPoller.t)) (s : loop) : bool :=
  match ev with
  | LPoll ans =>
      let q := PollerAgreement.kernel_poll (shown ans.2) (poller_ s) in
      bool_decide (ans.2 = PollPoller.fds_ q) && bool_decide (ans.1 = zlen (PollPoller.ready q)) &&
      match poll ans ∅ [] (poller_ s) with
      | Some (_, store, _) => bool_decide (map_Forall (fun _ r => revents_ok r) store)
      | None => true
      end
  | Act id a => alive id s && match a with ASendReceive _ => false | _ => true end
  | Established id => alive id s
  | New self fd =>
      bool_decide (map_Forall (fun _ c => Watcher.fd_ (watcher_ c) <> fd /\ Watcher.self (watcher_ c) <> self)
        (connections s)) &&
      bool_decide (map_Forall (fun _ w => Watcher.fd_ w <> fd /\ Watcher.self w <> self) (others s))
  | Destroy id =>
      match connections s !! id with
      | Some c => negb (Watcher.started_ (watcher_ c)) && match functors c with [] => true | _ => false end
      | None => true
      end
  | Other a o => bool_decide (is_Some (others s !! a))
  | Remote id m => alive id s && match m with RSendReceive _ => false | _ => true end
  | _ => true
  end.

Lemma event_okb_ok ev s : event_okb ev s = true -> event_ok ev s.
Proof.
  intros H. destruct ev as [ans| | | | |id a|id|self fd|id|a o|id m]; cbn [event_okb event_ok] in *; try done.
  - intros _. apply andb_prop in H as [H Hst]. apply andb_prop in H as [H1 H2].
    apply bool_decide_eq_true in H1, H2. split; [|by apply poll_revents_check].
    left. exists (shown ans.2). split; [apply shown_nonneg|done].
  - apply andb_prop in H as [H1 H2]. apply bool_decide_eq_true in H1. split; [done|]. by destruct a.
  - by apply bool_decide_eq_true in H.
  - apply andb_prop in H as [H1 H2]. apply bool_decide_eq_true in H1, H2. done.
  - intros c Hc. rewrite Hc in H. apply andb_prop in H as [H1 H2]. apply negb_true_iff in H1.
    split; [done|]. by destruct (functors c).
  - by apply bool_decide_eq_true in H.
  - apply andb_prop in H as [H1 H2]. apply bool_decide_eq_true in H1. split; [done|]. by destruct m.
Qed.

Fixpoint run_okb (user : nat -> env) (evs : list (event (P := PollPoller.t))) (s : loop) : bool :=
  match evs with
  | [] => true
  | ev :: rest => event_okb ev s && match step user ev s with Some s' => run_okb user rest s' | None => true end
  end.

Lemma run_okb_ok user evs s : run_okb user evs s = true -> run_ok user evs s.
Proof.
  revert s. induction evs as [|ev evs IH]; intros s H; cbn [run_ok run_okb] in *; [done|].
  apply andb_prop in H as [H1 H2]. split; [by apply event_okb_ok|]. intros s' E. rewrite E in H2. by apply IH.
Qed.

Lemma sample_run_ok : run_okb sample_user sample_events sample_loop = true.
Proof. vm_compute. reflexivity. Qed.

Lemma sample_poller_ok : poller_ok PollPoller.make.
Proof. exact PollPoller.poll_wf_make. Qed.

Lemma sample_poller_empty fd : interest PollPoller.make !! fd = None.
Proof. done. Qed.

Lemma sample_keyed a w : others sample_loop !! a = Some w -> Watcher.self w = a.
Proof. intros Hw. cbn in Hw. apply lookup_singleton_Some in Hw as [<- <-]. done. Qed.

Lemma loop_refines_connections_witness :
  (s ← run sample_user sample_events sample_loop; Some (view s, inputs 1 (log s))) =
    Some ((Top, [], [], [], [(2%nat, kConnected)]),
          [IEstablished; IEvents POLLIN; IRemote (RSend [Byte.x61]); IEvents POLLIN; IFunctor; IFunctor]) /\
  exists s, run sample_user sample_events sample_loop = Some s /\
    forall id c, connections s !! id = Some c -> exists c0, reached (sample_user id) c0 /\ tr c = tr c0.
Proof.
  split; [vm_compute; reflexivity|].
  destruct (loop_refines_connections sample_user PollPoller.make sample_poller_ok sample_poller_empty
    (fun _ => sample_env_ok) _ _ sample_events sample_registered sample_keyed
    (run_okb_ok _ _ _ sample_run_ok)) as (s & E & H & _).
  exists s. split; [exact E|]. intros id c Hc. destruct (H id c Hc) as (c0 & Hr & _ & _ & _ & _ & _ & Ht & _).
  exists c0. split; [exact Hr|exact Ht].
Defined.

Lemma destroyed_in_batch_is_undefined_witness :
  exists s, run sample_user (take 11 sample_events) sample_loop = Some s /\
    activeWatchers_ s = [100; 200] /\ run sample_user [Destroy 0; LHandle] s = None.
Proof.
  destruct (loop_run_inv sample_user PollPoller.make sample_poller_ok sample_poller_empty
    (fun _ => sample_env_ok) (take 11 sample_events) sample_loop) as (s & E & Hs).
  { by apply loop_make_inv; [exact sample_registered|exact sample_keyed]. }
  { apply run_okb_ok. vm_compute. reflexivity. }
  exists s. split; [exact E|].
  assert (option_map (fun s => (pc s, activeWatchers_ s, address <$> connections s !! 0%nat)) (Some s) =
    Some (Handling, [100; 200], Some 100)) as H by (rewrite <- E; vm_compute; reflexivity).
  cbn in H. injection H as Hpc Ha Hc. split; [exact Ha|].
  apply fmap_Some in Hc as (c & Hc & Hac).
  apply (destroyed_in_batch_is_undefined sample_user PollPoller.make 0 c [200] s Hs Hpc Hc).
  by rewrite Ha, Hac.
Defined.
End ConnectionLoop.
