(* ===== verification/NetPipe.v ===== *)
(** Two [TcpConnection]s joined by the network: the state machines of the two
    ends of one TCP connection, each the kernel of the other. What one end has
    handed to its kernel is what the other end's kernel has to deliver, in any
    pieces and at any time. *)

From S2P Require Import Prelude NetBuffer NetByteStream NetReceiveBuffer NetSendBuffer BaseWatcher.
From S2P Require Import BasePoller NetTcpConnection.

Module Pipe.
Import TcpConnection.

(** The socket has been shut down for writing. *)
Definition shut (l : trace) : bool := existsb (fun ev => match ev with EvShutdownWrite => true | _ => false end) l.

(** What the network promises to one end, given the bytes [wire] that the other
    end's kernel has taken so far, and whether they are the last: a read finds
    bytes that follow those already delivered, and the end of the stream only
    after the last; nothing can be written after the socket has been shut down
    for writing. *)
Record delivers (e : env) (wire : list byte) (over : bool) : Prop := {
  next_bytes l avail : sys_read e l = RData avail -> avail `prefix_of` zdrop (zlen (received l)) wire;
  end_of_stream l : sys_read e l = REof -> over = true /\ zdrop (zlen (received l)) wire = [];
  after_shutdown l bytes n : shut l = true -> sys_write e l bytes <> Wrote n
}.

Inductive side := L | R.
Definition other (x : side) : side := match x with L => R | R => L end.

(** ** One step *)

(** The trace grows from [l0] by events in which the kernel's part is its
    answer; what is received is the beginning of what the last read found. *)
Inductive honest (e : env) (l0 : trace) : trace -> Prop :=
  | HonestRefl : honest e l0 l0
  | HonestSnoc l ev : honest e l0 l -> answered e ev l ->
      match ev with
      | EvReceived bytes => exists l1 avail n,
          l = l1 ++ [EvRead (RData avail)] /\ sys_read e l1 = RData avail /\ bytes = ztake n avail
      | _ => True
      end -> honest e l0 (l ++ [ev]).

Section Step.
Context {P : Type} `{!Poller P} (e : env) (He : env_ok e).
Implicit Types c : TcpConnection.t (P := P).

Lemma honest_preserved l0 : Preserved (P := P) e (fun c => fifo c /\ honest e l0 (tr c)).
Proof.
  pose proof (fifo_preserved (P := P) e He) as [F1 F2 F3 F4 F5 F6 F7 F8 F9]. split.
  - intros c c' [Hf Hh] Hst Htr Hrb. rewrite Htr. split; [by eapply F1|done].
  - intros ev c [Hf Hh] Hq Ha. split; [by apply F2|]. apply HonestSnoc; [done|done|by destruct ev].
  - intros c [Hf Hh]. split; [by apply F3|]. unfold shutdownInLoop. case_decide; [|done]. cbv zeta.
    destruct (negb _); [|done]. by apply (HonestSnoc e l0 (tr c) EvShutdownWrite).
  - intros c [Hf Hh]. split; [by apply F4|done].
  - intros c [Hf Hh] Hst. split; [by apply F5|done].
  - intros l avail bytes rb c Hr E Htr [Hf Hh]. split; [by eapply F6|].
    destruct (ReceiveBuffer.receive_accepts (receiveBuffer_ c) avail (proj1 Hf) (read_ok e He _ _ Hr)) as (rb' & E' & _).
    rewrite E in E'. injection E' as -> _. apply HonestSnoc; [done|done|]. by exists l, avail, (ReceiveBuffer.iov_total (ReceiveBuffer.prepareReceive (receiveBuffer_ c)).2).
  - intros c [Hf Hh]. split; [by apply F7|done].
  - intros n rb c E [Hf Hh]. split; [by eapply F8|].
    by apply (HonestSnoc e l0 (tr c) (EvRetrieve (u64 n))).
  - intros c [Hf Hh]. split; [by apply F9|].
    by apply (HonestSnoc e l0 (tr c) EvRetrieveAll).
Qed.

Lemma step_honest i c c' :
  TcpConnection.step e i c = Some c' -> fifo c -> fifo c' /\ honest e (tr c) (tr c').
Proof.
  intros E Hf. eapply (step_pres e _ (HJ := honest_preserved (tr c)) i c c' E). split; [done|apply HonestRefl].
Qed.
Lemma honest_prefix l0 l : honest e l0 l -> l0 `prefix_of` l.
Proof. induction 1 as [|l ev _ IH _ _]; [done|]. etrans; [exact IH|]. by eexists. Qed.

Lemma received_prefix l0 l : l0 `prefix_of` l -> zlen (received l0) <= zlen (received l).
Proof. intros [k ->]. unfold received. rewrite omap_app, join_app, zlen_app. pose proof (zlen_nonneg (mjoin (omap (fun ev => match ev with EvReceived bytes => Some bytes | _ => None end) k))). lia. Qed.

(** A readable event with data delivers some of it and leaves the connection
    open. *)
Lemma read_progress c avail :
  TcpConnection.inv c -> open c -> fifo c -> sys_read e (tr c) = RData avail ->
  exists c', TcpConnection.step e (IEvents POLLIN) c = Some c' /\ open c' /\
    zlen (received (tr c)) < zlen (received (tr c')).
Proof.
  intros Hi Ho [Hrb Hf] Hr. destruct (connection_handleRead_inv e He c Hi Ho) as (c' & E & Hi').
  pose proof Hi as (Hc & Hst & Hl). rewrite step_pollin by done. exists c'. split; [done|].
  destruct (ReceiveBuffer.receive_accepts (receiveBuffer_ c) avail Hrb (read_ok e He _ _ Hr)) as (rb & Erb & Hwf & _ & Hmin).
  unfold handleRead in E. rewrite Hr in E. cbn [receiveBuffer_ emit] in E. rewrite Erb in E. cbn [mbind option_bind] in E.
  set (bytes := ztake _ avail) in *. set (c1 := emit (EvReceived bytes) _) in E.
  destruct (emit_silent (EvRead (RData avail)) c) as (Hc1 & Hst1 & _); [done..|].
  destruct (emit_silent (EvReceived bytes) (set_receiveBuffer rb (emit (EvRead (RData avail)) c))) as (Hc2 & Hst2 & _);
    [by apply core_set_receiveBuffer|done..|]. fold c1 in Hc2, Hst2.
  destruct (invoke_spec e He CbRead (fun l => readCallback_ e l rb) c1) as (c2 & E2 & _ & _ & Hs & _);
    [done|done|intros; by apply (readcb_ok e He)|].
  rewrite E in E2. injection E2 as <-. split.
  { change (state_ c1) with (state_ c) in Hs. unfold open in *. destruct Hs as [->|[_ ->]]; auto. }
  assert (fifo c1) as Hf1.
  { pose proof (fifo_preserved (P := P) e He) as [_ F2 _ _ _ F6 _ _ _]. eapply (F6 (tr c) avail); [done|exact Erb|done|].
    by apply (F2 (EvRead (RData avail)) c). }
  unfold invoke in E. cbv zeta in E.
  destruct (do_actions_pres e _ (HJ := honest_preserved (tr c1)) _ _ _ E) as [_ Hh].
  { destruct (honest_preserved (tr c1)) as [_ F2 _ _ _ _ _ _ _].
    apply (F2 (EvCallback CbRead) c1); [split; [done|apply HonestRefl]|done..]. }
  apply honest_prefix, received_prefix in Hh. unfold c1 in Hh. cbn [tr emit set_receiveBuffer] in Hh.
  rewrite !received_snoc, !zlen_app, zlen_nil in Hh.
  assert (0 < zlen bytes); [|lia]. assert (0 < zlen avail) by (pose proof (read_ok e He _ _ Hr); destruct avail; [done|zlia]).
  unfold ReceiveBuffer.kReceiveSize in Hmin. lia.
Qed.
End Step.

Lemma written_snoc l ev :
  written (l ++ [ev]) = written l ++ match ev with EvWrite bytes (Wrote n) => ztake n bytes | _ => [] end.
Proof. rewrite written_app. f_equal. destruct ev as [bytes []| | | | | | |]; try done. apply app_nil_r. Qed.

Lemma shut_snoc l ev : shut (l ++ [ev]) = shut l || match ev with EvShutdownWrite => true | _ => false end.
Proof. unfold shut. rewrite existsb_app. cbn. by rewrite orb_false_r. Qed.

Section End_.
Context (e : env) (wire : list byte) (over : bool) (He : env_ok e) (Hnet : delivers e wire over).

(** The wire grows at its end, and no more after the shutdown. *)
Lemma writes_honest l0 l :
  honest e l0 l -> written l0 `prefix_of` written l /\ (shut l0 = true -> shut l = true /\ written l = written l0).
Proof.
  induction 1 as [|l ev Hh [IHp IHs] Ha _]; [done|]. rewrite written_snoc, shut_snoc. split.
  - etrans; [exact IHp|]. by eexists.
  - intros H0. destruct (IHs H0) as [-> IHw]. rewrite IHw. split; [done|].
    destruct ev as [bytes [n|]| | | | | | |]; rewrite ?app_nil_r; try done. cbn in Ha. destruct (IHs H0) as [Hsh _].
    symmetry in Ha. by apply (after_shutdown _ _ _ Hnet) in Ha.
Qed.

(** Reading takes bytes from the front of the wire, and meets its end only when
    it has taken them all. *)
Definition reads (l : trace) : Prop :=
  received l `prefix_of` wire /\ (EvRead REof ∈ l -> over = true /\ received l = wire).

Lemma prefix_zdrop (l k : list byte) : l `prefix_of` k -> k = l ++ zdrop (zlen l) k.
Proof. intros [k' ->]. f_equal. unfold zdrop, zlen. by rewrite Nat2Z.id, drop_app_length. Qed.

Lemma reads_honest l0 l : honest e l0 l -> reads l0 -> reads l.
Proof.
  intros Hh H0. induction Hh as [|l ev Hh [Hp Heof] Ha Hb]; [done|]. unfold reads. rewrite received_snoc.
  destruct ev as [?|r|bytes| | | | |]; rewrite ?app_nil_r, ?elem_of_app, ?list_elem_of_singleton;
    try (split; [done|]; intros [?|[=]]; by auto).
  - split; [done|]. intros [?|Hr]; [by auto|]. injection Hr as <-. cbn [answered] in Ha.
    symmetry in Ha. apply (end_of_stream _ _ _ Hnet) in Ha as [Hov Hz]. split; [done|].
    pose proof (prefix_zdrop _ _ Hp) as Hw. by rewrite Hz, app_nil_r in Hw.
  - destruct Hb as (l1 & avail & n & -> & Hr & ->). pose proof (read_ok e He _ _ Hr) as Hne.
    apply (next_bytes _ _ _ Hnet) in Hr as Hpre.
    rewrite received_snoc, app_nil_r in *. pose proof (prefix_zdrop _ _ Hp) as Hw. split.
    + rewrite Hw. apply prefix_app. etrans; [|exact Hpre]. exists (zdrop n avail). by rewrite ztake_zdrop.
    + intros [Hin|[=]]. destruct (Heof Hin) as [_ Heq]. rewrite Heq in Hpre. unfold zdrop, zlen in Hpre.
      rewrite Nat2Z.id, drop_all in Hpre. by apply prefix_nil_inv in Hpre.
Qed.
End End_.

Section Pipe.
Context {P : Type} `{!Poller P}.

(** The two connections, and whether the object has been destroyed, which
    closes the socket. *)
Record t := mk {
  conn : side -> TcpConnection.t (P := P);
  destroyed : side -> bool
}.

Definition make (self fd : side -> Z) (p : side -> P) : t :=
  mk (fun x => TcpConnection.make (self x) (fd x) (p x)) (fun _ => false).

Definition upd {A} (x : side) (a : A) (f : side -> A) (y : side) : A :=
  match x, y with L, L | R, R => a | _, _ => f y end.

(** The kernel of [x] will write no more into the wire. *)
Definition ended (x : side) (s : t) : bool :=
  destroyed s x || shut (tr (conn s x)).

(** An input at one end, whose kernel and user answer as [e] says; [Destroy x]
    is the end of the object. *)
Inductive event := At (x : side) (e : env) (i : input) | Destroy (x : side).

Definition step (ev : event) (s : t) : option t :=
  match ev with
  | At x e i =>
      if destroyed s x then None
      else
        c ← TcpConnection.step e i (conn s x);
        Some (mk (upd x c (conn s)) (destroyed s))
  | Destroy x => Some (mk (conn s) (upd x true (destroyed s)))
  end.

Fixpoint run (evs : list event) (s : t) : option t :=
  match evs with
  | [] => Some s
  | ev :: rest => s1 ← step ev s; run rest s1
  end.

(** Nothing reaches a destroyed connection, and the network carries what the
    other end has written. *)
Definition event_ok (ev : event) (s : t) : Prop :=
  match ev with
  | At x e i => destroyed s x = false /\ input_ok i /\ env_ok e /\
      delivers e (written (tr (conn s (other x)))) (ended (other x) s)
  | Destroy _ => True
  end.

Fixpoint run_ok (evs : list event) (s : t) : Prop :=
  match evs with
  | [] => True
  | ev :: rest => event_ok ev s /\ forall s', step ev s = Some s' -> run_ok rest s'
  end.

(** ** Invariant *)

Record inv (s : t) : Prop := {
  inv_end x : TcpConnection.inv (conn s x) /\ fifo (conn s x);
  inv_wire x : reads (written (tr (conn s x))) (ended x s) (tr (conn s (other x)))
}.

Lemma upd_same {A} x (a : A) f : upd x a f x = a.
Proof. by destruct x. Qed.

Lemma upd_other {A} x (a : A) f : upd x a f (other x) = f (other x).
Proof. by destruct x. Qed.

Lemma other_other x : other (other x) = x.
Proof. by destruct x. Qed.

(** Both sides, one of which has moved. *)
Lemma both (Q : side -> Prop) x : Q x -> Q (other x) -> forall y, Q y.
Proof. by destruct x; intros ? ? []. Qed.

(** The writer's progress, as the reader sees it. *)
Lemma reads_grow W W' (ov ov' : bool) l :
  reads W ov l -> W `prefix_of` W' -> (ov = true -> ov' = true /\ W' = W) -> reads W' ov' l.
Proof.
  intros [Hp He] HW Hov. split; [by etrans|]. intros Hin. destruct (He Hin) as [Ho ->]. by destruct (Hov Ho) as [? ->].
Qed.

Lemma pipe_step_inv ev s : inv s -> event_ok ev s -> exists s', step ev s = Some s' /\ inv s'.
Proof.
  intros [Hend Hwire] Hok. destruct ev as [x e i|x]; cbn [step].
  - destruct Hok as (Hd & Hok & He & Hnet). rewrite Hd. destruct (Hend x) as [Hi Hf].
    destruct (connection_step_inv e He i (conn s x) Hi Hok) as (c & E & Hi').
    rewrite E. cbn [mbind option_bind]. eexists. split; [done|].
    destruct (step_honest e He i _ _ E Hf) as [Hf' Hh]. constructor.
    + apply (both _ x); cbn [conn]; [by rewrite upd_same|rewrite upd_other; apply Hend].
    + apply (both _ x); unfold ended; cbn [conn destroyed].
      * rewrite upd_same, upd_other, Hd. cbn [orb]. destruct (writes_honest e _ _ Hnet _ _ Hh) as [Hp Hs].
        apply (reads_grow (written (tr (conn s x))) _ (ended x s)); [apply Hwire|done|].
        unfold ended. by rewrite Hd.
      * rewrite other_other, upd_same, upd_other. eapply (reads_honest e); [exact He|exact Hnet|exact Hh|].
        pose proof (Hwire (other x)) as Hw. by rewrite other_other in Hw.
  - eexists. split; [done|]. constructor; [done|]. intros y. unfold ended. cbn [conn destroyed].
    eapply reads_grow; [apply Hwire|done|]. intros Ho. split; [|done]. unfold ended in Ho.
    by destruct x, y; cbn in *.
Qed.

Lemma pipe_run_inv evs s : inv s -> run_ok evs s -> exists s', run evs s = Some s' /\ inv s'.
Proof.
  revert s. induction evs as [|ev evs IH]; intros s Hs Hok; cbn [run]; [by exists s|].
  destruct Hok as [Hev Hok]. destruct (pipe_step_inv ev s Hs Hev) as (s1 & E & Hs1). rewrite E. cbn [mbind option_bind].
  apply IH; [done|]. by apply Hok.
Qed.

Lemma pipe_make_inv self fd p :
  (forall x, poller_ok (p x)) -> (forall x, interest (p x) !! fd x = None) -> inv (make self fd p).
Proof.
  intros Hp Hfd. constructor; intros x; cbn.
  - split; [by apply connection_make_inv|]. split; [apply ReceiveBuffer.rb_wf_make|done].
  - split; [by apply prefix_nil|]. by intros ?%elem_of_nil.
Qed.

(** *** Draining the wire *)

Lemma pipe_drains x e s (m : nat) :
  inv s -> destroyed s x = false -> open (conn s x) -> env_ok e ->
  delivers e (written (tr (conn s (other x)))) (ended (other x) s) ->
  (forall l, zdrop (zlen (received l)) (written (tr (conn s (other x)))) <> [] -> exists avail, sys_read e l = RData avail) ->
  (length (zdrop (zlen (received (tr (conn s x)))) (written (tr (conn s (other x))))) <= m)%nat ->
  exists n s', run (replicate n (At x e (IEvents POLLIN))) s = Some s' /\ inv s' /\
    conn s' (other x) = conn s (other x) /\ received (tr (conn s' x)) = written (tr (conn s (other x))) /\
    open (conn s' x) /\ destroyed s' = destroyed s.
Proof.
  revert s. induction m as [|m IH]; intros s Hs Hd Ho He Hnet Hn Hm; pose proof Hs as [Hend Hwire];
    pose proof (Hwire (other x)) as [Hp _]; rewrite other_other in Hp; pose proof (prefix_zdrop _ _ Hp) as HW;
    destruct (zdrop _ _) as [|b bs] eqn:Erest.
  1,3: exists 0%nat, s; split; [done|]; split; [done|]; split; [done|]; by rewrite HW, app_nil_r.
  { cbn in Hm. lia. }
  destruct (Hn (tr (conn s x))) as [avail Hr]; [by rewrite Erest|]. destruct (Hend x) as [Hi Hf].
  destruct (read_progress e He (conn s x) avail Hi Ho Hf Hr) as (c & E & Ho' & Hlt).
  destruct (pipe_step_inv (At x e (IEvents POLLIN)) s Hs) as (s1 & E1 & Hs1); [done|].
  pose proof E1 as E1'. cbn [step] in E1'. rewrite Hd, E in E1'. injection E1' as <-.
  destruct (IH _ Hs1) as (n & s' & En & Hs' & Hc & Hrec & Ho2 & Hd2); cbn [conn destroyed];
    rewrite ?upd_same, ?upd_other; try done.
  - unfold ended. cbn [conn destroyed]. by rewrite upd_other.
  - pose proof (inv_wire _ Hs1 (other x)) as [Hp1 _].
    cbn [conn] in Hp1. rewrite other_other, upd_same, upd_other in Hp1. pose proof (prefix_zdrop _ _ Hp1) as HW1.
    apply (f_equal length) in HW1, HW. rewrite length_app in HW1, HW. unfold zlen in Hlt. cbn [length] in *. lia.
  - exists (S n), s'. split; [cbn [replicate run]; by rewrite E1|]. split; [done|].
    cbn [conn] in Hc, Hrec. rewrite upd_other in Hc, Hrec. done.
Qed.

(** ** Properties *)

(** C4: the two ends of a connection are a reliable pipe in each direction: for
    whatever the network, the loops and the users of both ends do, no step is
    undefined, and the bytes that one end took charge of are, in their order,
    those that the calls of [retrieve] and [retrieveAll] at the other end had to
    take (from a queue of what it received), those in its receive buffer, those
    under way, and those in the sender's send buffer. An end sees the end of the
    stream only after the other one has shut down writing or has been destroyed,
    and after it has read everything that was written. *)
Theorem bytes_arrive_in_order (self fd : side -> Z) (p : side -> P) (evs : list event)
  (Hp : forall x, poller_ok (p x)) (Hfd : forall x, interest (p x) !! fd x = None)
  (Hok : run_ok evs (make self fd p)) :
  exists s, run evs (make self fd p) = Some s /\ forall x,
    let sender := conn s x in let receiver := conn s (other x) in
    received (tr receiver) = retrieved (tr receiver) ++ ReceiveBuffer.contents (receiveBuffer_ receiver) /\
    (exists under_way,
       accepted (tr sender) = retrieved (tr receiver) ++ ReceiveBuffer.contents (receiveBuffer_ receiver) ++
         under_way ++ SendBuffer.contents (sendBuffer_ sender)) /\
    (EvRead REof ∈ tr receiver -> ended x s = true /\ received (tr receiver) = written (tr sender)).
Proof.
  destruct (pipe_run_inv evs _ (pipe_make_inv self fd p Hp Hfd) Hok) as (s & E & [Hend Hwire]).
  exists s. split; [done|]. intros x sender receiver. destruct (Hwire x) as [[way Hway] Heof].
  destruct (Hend x) as [(_ & Hst & _) _]. destruct (Hend (other x)) as [_ [_ Hc]].
  pose proof (received_split (tr (conn s (other x)))) as Ht. rewrite <- Hc in Ht.
  split; [exact Ht|]. split; [|exact Heof]. exists way. unfold sender, receiver in *.
  by rewrite Hst, Hway, Ht, <- !app_assoc.
Qed.

(** C7: what is under way gets through: when the network delivers and the receiver
    is open, finitely many readable events bring it everything that the sender
    has written, whatever its read callback does meanwhile; the rest is in the
    sender's send buffer. *)
Theorem wire_drains (self fd : side -> Z) (p : side -> P) (before : list event) (s : t) (x : side) (e : env)
  (Hp : forall y, poller_ok (p y)) (Hfd : forall y, interest (p y) !! fd y = None)
  (Hok : run_ok before (make self fd p)) (Hrun : run before (make self fd p) = Some s)
  (Hd : destroyed s (other x) = false) (Ho : open (conn s (other x)))
  (He : env_ok e) (Hnet : delivers e (written (tr (conn s x))) (ended x s))
  (Harrives : forall l, zdrop (zlen (received l)) (written (tr (conn s x))) <> [] ->
     exists avail, sys_read e l = RData avail) :
  exists n s', run (replicate n (At (other x) e (IEvents POLLIN))) s = Some s' /\
    accepted (tr (conn s x)) = received (tr (conn s' (other x))) ++ SendBuffer.contents (sendBuffer_ (conn s x)).
Proof.
  destruct (pipe_run_inv before _ (pipe_make_inv self fd p Hp Hfd) Hok) as (s0 & E & Hs). simplify_eq.
  rewrite <- (other_other x) in Hnet, Harrives.
  destruct (pipe_drains (other x) e s _ Hs Hd Ho He Hnet Harrives (le_n _)) as (n & s' & En & _ & _ & Hrec & _).
  exists n, s'. split; [done|]. rewrite Hrec, other_other. by destruct (inv_end _ Hs x) as [(_ & Hst & _) _].
Qed.
End Pipe.

(** ** Witnesses *)

#[local] Instance pipe_sample_poller : Poller PollPoller.t :=
  PollPoller.poll_poller (fun i => i) (fun i => eq_refl).

(** A network that takes three bytes per write and delivers two per read; the
    user of [sample_env]. *)
Definition sample_end (wire : list byte) (over : bool) : env := {|
  sys_write l bytes := if shut l then WFail EPIPE else Wrote (Z.min 3 (zlen bytes));
  sys_read l :=
    match ztake 2 (zdrop (zlen (received l)) wire) with
    | [] => if over then REof else RFail EWOULDBLOCK
    | bytes => RData bytes
    end;
  connectCallback_ := connectCallback_ sample_env;
  disconnectCallback_ := disconnectCallback_ sample_env;
  readCallback_ := readCallback_ sample_env;
  closeCallback_ := closeCallback_ sample_env
|}.

Lemma sample_end_ok wire over : env_ok (sample_end wire over).
Proof.
  destruct sample_env_ok as [_ _ H3 H4 H5 H6]. split; try done.
  - intros l bytes n. cbn. destruct (shut l); [done|]. intros [= <-]. pose proof (zlen_nonneg bytes). lia.
  - intros l avail. cbn. destruct (ztake 2 _); [by destruct over|]. by intros [= <-].
Qed.

Lemma sample_end_delivers wire over : delivers (sample_end wire over) wire over.
Proof.
  split.
  - intros l avail. cbn. set (rest := zdrop _ wire). destruct (ztake 2 rest) as [|b bs] eqn:E; [by destruct over|].
    intros [= <-]. rewrite <- E. exists (zdrop 2 rest). by rewrite ztake_zdrop.
  - intros l. cbn. destruct (zdrop (zlen (received l)) wire) as [|b bs]; [by destruct over|done].
  - intros l bytes n Hs. cbn. by rewrite Hs.
Qed.

Lemma sample_end_arrives wire over l :
  zdrop (zlen (received l)) wire <> [] -> exists avail, sys_read (sample_end wire over) l = RData avail.
Proof. cbn. destruct (zdrop (zlen (received l)) wire) as [|b bs]; [done|]. intros _. by exists (b :: ztake 1 bs). Qed.

Abbreviation pipe := (t (P := PollPoller.t)).

Definition sample_make : pipe := make (fun _ => 100) (fun _ => 5) (fun _ => PollPoller.make).

(** The events of a run in which the ends do [moves]; [None] is the end of the
    object. *)
Fixpoint sample_events (moves : list (side * option input)) (s : pipe) : list event :=
  match moves with
  | [] => []
  | (x, m) :: rest =>
      let ev := match m with
                | Some i => At x (sample_end (written (tr (conn s (other x)))) (ended (other x) s)) i
                | None => Destroy x
                end in
      ev :: match step ev s with Some s' => sample_events rest s' | None => [] end
  end.

Definition input_okb (i : input) : bool :=
  match i with
  | IEvents r => negb (has r POLLHUP && negb (has r POLLIN)) || negb (has r (Z.lor (Z.lor POLLIN POLLPRI) POLLRDHUP))
  | IAction (ASendReceive _) | IRemote (RSendReceive _) => false
  | _ => true
  end.

Lemma input_okb_ok i : input_okb i = true -> input_ok i.
Proof.
  destruct i as [r| |[]| |[]]; cbn; try done. intros H H1. rewrite H1 in H. cbn in H. by apply negb_true_iff in H.
Qed.

Fixpoint moves_ok (evs : list event) (s : pipe) : bool :=
  match evs with
  | [] => true
  | ev :: rest =>
      match ev with At x _ i => negb (destroyed s x) && input_okb i | Destroy _ => true end &&
      match step ev s with Some s' => moves_ok rest s' | None => true end
  end.

Lemma sample_pipe_run_ok moves s : moves_ok (sample_events moves s) s = true -> run_ok (sample_events moves s) s.
Proof.
  revert s. induction moves as [|[x m] moves IH]; intros s H; [done|]. cbn [sample_events moves_ok run_ok] in *.
  apply andb_prop in H as [H1 H2]. split.
  - destruct m as [i|]; [|done]. apply andb_prop in H1 as [Hd Hi]. apply negb_true_iff in Hd.
    split; [done|]. split; [by apply input_okb_ok|]. split; [apply sample_end_ok|apply sample_end_delivers].
  - intros s' E. rewrite E in *. by apply IH.
Qed.

(** The left end sends eight bytes while the right end reads, then shuts down;
    the right end meets the end of the stream and is destroyed. *)
Definition sample_start : list (side * option input) :=
  [(L, Some IEstablished); (R, Some IEstablished); (L, Some (IAction (ASend (replicate 8 Byte.x61))));
   (R, Some (IEvents POLLIN))].
Definition sample_moves : list (side * option input) :=
  sample_start ++ [(L, Some (IEvents POLLOUT)); (L, Some (IEvents POLLOUT)); (L, Some (IAction AShutdown))] ++
  replicate 4 (R, Some (IEvents POLLIN)) ++ [(R, Some IFunctor); (R, None)].

Lemma sample_ends : (forall x : side, poller_ok PollPoller.make) /\ forall x : side, interest PollPoller.make !! 5 = None.
Proof. split; intros _; [exact PollPoller.poll_wf_make|done]. Qed.

Definition view (s : pipe) :=
  (zlen (accepted (tr (conn s L))), zlen (written (tr (conn s L))), zlen (received (tr (conn s R))),
   state_ (conn s L), state_ (conn s R), destroyed s R).

Lemma bytes_arrive_in_order_witness :
  option_map view (run (sample_events sample_moves sample_make) sample_make) =
    Some (8, 8, 8, kDisconnecting, kDisconnected, true) /\
  exists s, run (sample_events sample_moves sample_make) sample_make = Some s /\
    (EvRead REof ∈ tr (conn s R) -> received (tr (conn s R)) = written (tr (conn s L))).
Proof.
  split; [vm_compute; reflexivity|]. destruct sample_ends as [Hp Hfd].
  assert (run_ok (sample_events sample_moves sample_make) sample_make) as Hok
    by (apply sample_pipe_run_ok; vm_compute; reflexivity).
  destruct (bytes_arrive_in_order (fun _ => 100) (fun _ => 5) (fun _ => PollPoller.make) _ Hp Hfd Hok) as (s & E & H).
  exists s. split; [exact E|]. intros Hr. destruct (H L) as (_ & _ & H1). by apply H1.
Defined.

Lemma wire_drains_witness :
  exists s, run (sample_events sample_start sample_make) sample_make = Some s /\
    view s = (8, 3, 2, kConnected, kConnected, false) /\
    exists e n s', run (replicate n (At R e (IEvents POLLIN))) s = Some s' /\
      accepted (tr (conn s L)) = received (tr (conn s' R)) ++ SendBuffer.contents (sendBuffer_ (conn s L)).
Proof.
  destruct sample_ends as [Hp Hfd].
  assert (run_ok (sample_events sample_start sample_make) sample_make) as Hok
    by (apply sample_pipe_run_ok; vm_compute; reflexivity).
  destruct (pipe_run_inv _ sample_make (pipe_make_inv _ _ _ Hp Hfd) Hok) as (s & E & _).
  assert (option_map view (Some s) = Some (8, 3, 2, kConnected, kConnected, false)) as Hv
    by (rewrite <- E; vm_compute; reflexivity).
  injection Hv as H1 H2 H3 H4 H5 Hd. exists s. split; [exact E|].
  split; [unfold view; by rewrite H1, H2, H3, H4, H5, Hd|].
  set (e := sample_end (written (tr (conn s L))) (ended L s)).
  destruct (wire_drains (fun _ => 100) (fun _ => 5) (fun _ => PollPoller.make) _ s L e Hp Hfd Hok E Hd (or_introl H5)
    (sample_end_ok _ _) (sample_end_delivers _ _) (sample_end_arrives _ _)) as (n & s' & En & H).
  exists e, n, s'. split; [exact En|exact H].
Defined.
End Pipe.
