(* ===== verification/NetConnector.v ===== *)
(** [nutty/net/Connector.h] and [Connector.cpp]: the client's non-blocking
    connect with retries at growing delays. The kernel and the owner's
    callback are functions of what happened before. *)

From S2P Require Import Prelude BaseWatcher BasePoller.

Module Connector.

Definition kMaxRetryDelayMs : Z := 30 * 1000.
Definition kInitRetryDelayMs : Z := 500.

(** [errno] values ([errno.h]). *)
Definition EINTR : Z := 4.
Definition EAGAIN : Z := 11.
Definition EADDRINUSE : Z := 98.
Definition EADDRNOTAVAIL : Z := 99.
Definition ENETUNREACH : Z := 101.
Definition EISCONN : Z := 106.
Definition ECONNREFUSED : Z := 111.
Definition EINPROGRESS : Z := 115.

(** [EvConnect err]: a [connect(2)] with result [err] (0 for success);
    [EvTimer d]: a retry timer was set; [EvConnected]: the socket was handed to
    the connection callback. *)
Inductive event :=
  | EvConnect (err : Z)
  | EvGetError (err : Z)
  | EvTimer (delay : Z)
  | EvConnected.

Abbreviation trace := (list event).

(** What the owner does with the connector on the loop thread. *)
Inductive action := AStart | AStop | ARestart.

Inductive functor := FStart | FStop | FReset.

Record env := {
  sys_socket : trace -> Z;               (* the descriptor of [new Socket()] *)
  sys_connect : trace -> Z;              (* [errno] of [connect], or 0 *)
  sys_getError : trace -> Z;             (* [SO_ERROR] *)
  sys_self : trace -> bool;              (* local and peer address are equal *)
  connectionCallback_ : trace -> list action
}.

Section Connector.
Context {P : Type} `{!Poller P} (e : env).

(** [timers] are the pending [runAfter]s of [retrying], as delays. *)
Record t := mk {
  connectSocket_ : option Z;
  watcher_ : option Watcher.t;
  connect_ : bool;
  connecting_ : bool;
  retry_ : bool;
  retryDelayMs_ : Z;
  poller : P;
  functors : list functor;
  timers : list Z;
  tr : trace
}.

Definition make (p : P) : t :=
  mk None None false false false kInitRetryDelayMs p [] [] [].

Definition set_socket (x : option Z) (s : t) : t :=
  mk x (watcher_ s) (connect_ s) (connecting_ s) (retry_ s) (retryDelayMs_ s) (poller s)
     (functors s) (timers s) (tr s).
Definition set_watcher (x : option Watcher.t) (p : P) (s : t) : t :=
  mk (connectSocket_ s) x (connect_ s) (connecting_ s) (retry_ s) (retryDelayMs_ s) p
     (functors s) (timers s) (tr s).
Definition set_connect (x : bool) (s : t) : t :=
  mk (connectSocket_ s) (watcher_ s) x (connecting_ s) (retry_ s) (retryDelayMs_ s) (poller s)
     (functors s) (timers s) (tr s).
Definition set_connecting (x : bool) (s : t) : t :=
  mk (connectSocket_ s) (watcher_ s) (connect_ s) x (retry_ s) (retryDelayMs_ s) (poller s)
     (functors s) (timers s) (tr s).
Definition set_retry (x : bool) (s : t) : t :=
  mk (connectSocket_ s) (watcher_ s) (connect_ s) (connecting_ s) x (retryDelayMs_ s) (poller s)
     (functors s) (timers s) (tr s).
Definition set_delay (x : Z) (s : t) : t :=
  mk (connectSocket_ s) (watcher_ s) (connect_ s) (connecting_ s) (retry_ s) x (poller s)
     (functors s) (timers s) (tr s).
Definition set_functors (x : list functor) (s : t) : t :=
  mk (connectSocket_ s) (watcher_ s) (connect_ s) (connecting_ s) (retry_ s) (retryDelayMs_ s)
     (poller s) x (timers s) (tr s).
Definition set_timers (x : list Z) (s : t) : t :=
  mk (connectSocket_ s) (watcher_ s) (connect_ s) (connecting_ s) (retry_ s) (retryDelayMs_ s)
     (poller s) (functors s) x (tr s).
Definition emit (ev : event) (s : t) : t :=
  mk (connectSocket_ s) (watcher_ s) (connect_ s) (connecting_ s) (retry_ s) (retryDelayMs_ s)
     (poller s) (functors s) (timers s) (tr s ++ [ev]).
Definition queueInLoop (f : functor) (s : t) : t := set_functors (functors s ++ [f]) s.

(** The address of the next [Watcher]: fresh, since every attempt is an event. *)
Definition new_address (s : t) : Z := zlen (tr s).

(** [connecting()]: [None] is the dereference of a null [connectSocket_].
    [watcher_.reset(new ...)] also destroys the watcher of the attempt before,
    if its [resetWatcher] has not run yet. It was disabled, so no poller holds
    it - but when the connection callback restarts the connector, it is the one whose
    [handleEvents] is running: that ends with the write callback and does not
    touch the watcher after it, so the model does not count this as undefined
    ([restart_in_callback_replaces_watcher]). *)
Definition connecting (s0 : t) : option t :=
  let s := set_connecting true s0 in
  fd ← connectSocket_ s;
  let w := Watcher.make (new_address s) fd in
  '(w', p') ← WatcherOps.enableWriting w (poller s);
  Some (set_watcher (Some w') p' s).

(** [stopAndResetWatcher()]: [None] is the dereference of a null [watcher_]. *)
Definition stopAndResetWatcher (s : t) : option t :=
  w ← watcher_ s;
  '(w', p') ← WatcherOps.disableAll w (poller s);
  Some (set_connecting false (queueInLoop FReset (set_watcher (Some w') p' s))).

Definition resetWatcher (s : t) : t := set_watcher None (poller s) s.

Definition retry (s0 : t) : t :=
  let s := set_socket None s0 in
  if connect_ s then
    let s1 := set_retry true s in
    let s2 := emit (EvTimer (retryDelayMs_ s1)) (set_timers (timers s1 ++ [retryDelayMs_ s1]) s1) in
    set_delay (Z.min (retryDelayMs_ s2 * 2) kMaxRetryDelayMs) s2
  else s.

Definition in_progress (err : Z) : bool :=
  (err =? 0) || (err =? EINPROGRESS) || (err =? EINTR) || (err =? EISCONN).
Definition transient (err : Z) : bool :=
  (err =? EAGAIN) || (err =? EADDRINUSE) || (err =? EADDRNOTAVAIL) ||
  (err =? ECONNREFUSED) || (err =? ENETUNREACH).

Definition connect (s0 : t) : option t :=
  let s := set_socket (Some (sys_socket e (tr s0))) s0 in
  let err := sys_connect e (tr s) in
  let s1 := emit (EvConnect err) s in
  if in_progress err then connecting s1
  else if transient err then Some (retry s1)
  else Some (set_socket None s1).

Definition retrying (s0 : t) : option t :=
  let s := set_retry false s0 in if connect_ s then connect s else Some s.

Definition startInLoop (s : t) : option t :=
  if negb (connect_ s) then
    let s1 := set_connect true s in
    if negb (retry_ s1) then connect s1 else Some s1
  else Some s.

Definition stopInLoop (s : t) : option t :=
  if connect_ s then
    let s1 := set_connect false s in
    if connecting_ s1 then
      s2 ← stopAndResetWatcher s1; Some (set_socket None s2)
    else Some s1
  else Some s.

Definition restart (s : t) : option t :=
  if connect_ s then
    if negb (connecting_ s) && negb (retry_ s)
    then connect (set_delay kInitRetryDelayMs s)
    else Some s
  else Some s.

Definition do_action (a : action) : t -> option t :=
  match a with AStart => startInLoop | AStop => stopInLoop | ARestart => restart end.

Fixpoint do_actions (acts : list action) (s : t) : option t :=
  match acts with
  | [] => Some s
  | a :: rest => s1 ← do_action a s; do_actions rest s1
  end.

(** [connectSocket_->getError()] *)
Definition getError (s : t) : option (Z * t) :=
  _ ← connectSocket_ s;
  let err := sys_getError e (tr s) in Some (err, emit (EvGetError err) s).

Definition handleError (s : t) : option t :=
  if connecting_ s then
    s1 ← stopAndResetWatcher s;
    '(_, s2) ← getError s1;
    Some (retry s2)
  else Some s.

Definition handleWrite (s : t) : option t :=
  if connecting_ s then
    s1 ← stopAndResetWatcher s;
    '(err, s2) ← getError s1;
    if negb (err =? 0) then Some (retry s2)
    else if sys_self e (tr s2) then Some (retry s2)
    else
      let s3 := emit EvConnected (set_socket None s2) in
      do_actions (connectionCallback_ e (tr s3)) s3
  else Some s.

Definition callbacks : Dispatch.callbacks t :=
  Dispatch.mk None (Some handleError) None (Some handleWrite).

(** *** What the loop and the other threads do *)

(** The poller reports the [Watcher*] registered for [fd]: [None] when that
    object no longer exists. *)
Inductive input :=
  | IEvents (fd revents : Z)
  | IFunctor
  | IAction (a : action)
  | ITimer                    (* the oldest retry timer expires *)
  | IRemoteStart              (* [start()], [stop()] on another thread *)
  | IRemoteStop.

Definition step (i : input) (s : t) : option t :=
  match i with
  | IEvents fd revents =>
      match interest (poller s) !! fd with
      | None => Some s
      | Some (_, a) =>
          w ← watcher_ s;
          if Watcher.self w =? a then Dispatch.handleEvents revents callbacks s else None
      end
  | IFunctor =>
      match functors s with
      | FStart :: fs => startInLoop (set_functors fs s)
      | FStop :: fs => stopInLoop (set_functors fs s)
      | FReset :: fs => Some (resetWatcher (set_functors fs s))
      | [] => Some s
      end
  | IAction a => do_action a s
  | ITimer =>
      match timers s with
      | _ :: ts => retrying (set_timers ts s)
      | [] => Some s
      end
  | IRemoteStart => Some (queueInLoop FStart s)
  | IRemoteStop => Some (queueInLoop FStop s)
  end.

Fixpoint run (ins : list input) (s : t) : option t :=
  match ins with
  | [] => Some s
  | i :: rest => s1 ← step i s; run rest s1
  end.

(** ** Invariant *)

(** A [connect] that failed with an error that is not retried. *)
Definition gave_up (l : trace) : Prop :=
  exists err, last l = Some (EvConnect err) /\ in_progress err = false /\ transient err = false.

(** The control state: one timer per pending retry, a delay within bounds, and
    while the connector is started an attempt is under way, a retry is
    pending, or the last thing that happened settled the matter. *)
Record ctl (s : t) : Prop := {
  ctl_delay : kInitRetryDelayMs <= retryDelayMs_ s <= kMaxRetryDelayMs;
  ctl_timers : length (timers s) = if retry_ s then 1%nat else 0%nat;
  ctl_connecting : connecting_ s = true -> connect_ s = true /\ retry_ s = false;
  ctl_live : connect_ s = true ->
    connecting_ s = true \/ retry_ s = true \/ last (tr s) = Some EvConnected \/ gave_up (tr s)
}.

(** The memory and the poller, whose other registrations are [base]. *)
Record safe (base : gmap Z (Z * Z)) (s : t) : Prop := {
  safe_poller : poller_ok (poller s);
  safe_watcher :
    if connecting_ s
    then exists fd a r, connectSocket_ s = Some fd /\ base !! fd = None /\
      watcher_ s = Some (Watcher.mk a fd POLLOUT r true) /\
      interest (poller s) = <[fd := (POLLOUT, a)]> base
    else connectSocket_ s = None /\ interest (poller s) = base
}.

Definition inv (base : gmap Z (Z * Z)) (s : t) : Prop := safe base s /\ ctl s.

Lemma connector_make_inv p : poller_ok p -> inv (interest p) (make p).
Proof.
  intros Hp. split; [by constructor|]. constructor; cbn; try done.
Qed.

Section Steps.
Context (base : gmap Z (Z * Z)).
(** A new socket's descriptor is not one that is in use. *)
Context (Hfd : forall l, base !! sys_socket e l = None).

Lemma connecting_spec fd s :
  poller_ok (poller s) -> interest (poller s) = base -> base !! fd = None ->
  connectSocket_ s = Some fd ->
  exists s', connecting s = Some s' /\ safe base s' /\ connecting_ s' = true /\
    connect_ s' = connect_ s /\ retry_ s' = retry_ s /\ timers s' = timers s /\
    retryDelayMs_ s' = retryDelayMs_ s /\ tr s' = tr s /\ functors s' = functors s.
Proof.
  intros Hp Hi Hf Hs. unfold connecting. cbn [connectSocket_ set_connecting]. rewrite Hs.
  cbn [mbind option_bind poller set_connecting].
  set (w := Watcher.make _ fd).
  destruct (WatcherOps.apply_op_spec WatcherOps.EnableWriting w (poller s)) as (w' & p' & E & Hp' & _ & Hw & Hi');
    [done|apply WatcherOps.synced_make; by rewrite Hi|].
  cbn [WatcherOps.apply_op] in E. rewrite E. cbn [mbind option_bind].
  eexists. split; [done|]. split; [|done]. constructor; [done|].
  cbn [connecting_ set_watcher set_connecting]. exists fd, (Watcher.self w), 0.
  split; [done|]. split; [done|]. split; [cbn; by rewrite Hw|]. cbn. rewrite Hi', Hi. done.
Qed.

Lemma stopAndResetWatcher_spec s :
  safe base s -> connecting_ s = true ->
  exists s', stopAndResetWatcher s = Some s' /\ poller_ok (poller s') /\
    interest (poller s') = base /\ connectSocket_ s' = connectSocket_ s /\
    is_Some (connectSocket_ s) /\ connecting_ s' = false /\
    connect_ s' = connect_ s /\ retry_ s' = retry_ s /\ timers s' = timers s /\
    retryDelayMs_ s' = retryDelayMs_ s /\ tr s' = tr s /\ functors s' = functors s ++ [FReset].
Proof.
  intros [Hp Hw] Hc. rewrite Hc in Hw. destruct Hw as (fd & a & r & Hs & Hb & Hw & Hi).
  unfold stopAndResetWatcher. rewrite Hw. cbn [mbind option_bind].
  destruct (WatcherOps.apply_op_spec WatcherOps.DisableAll (Watcher.mk a fd POLLOUT r true) (poller s))
    as (w' & p' & E & Hp' & _ & _ & Hi'); [done| |].
  { split; [done|]. cbn. split; [done|]. by rewrite Hi, lookup_insert_eq. }
  cbn [WatcherOps.apply_op] in E. rewrite E. cbn [mbind option_bind].
  eexists. split; [done|]. split; [done|]. split; [|by rewrite Hs].
  cbn. rewrite Hi'. cbn. rewrite Hi. by rewrite delete_insert_id.
Qed.

(** Not connecting: nothing is registered and the socket is closed. *)
Definition idle (s : t) : Prop :=
  poller_ok (poller s) /\ interest (poller s) = base /\ connecting_ s = false.

Lemma idle_safe s : idle s -> connectSocket_ s = None -> safe base s.
Proof. intros (Hp & Hi & Hc) Hs. constructor; [done|]. by rewrite Hc. Qed.

Lemma safe_idle s : safe base s -> connecting_ s = false -> idle s.
Proof. intros [Hp Hw] Hc. rewrite Hc in Hw. by destruct Hw. Qed.

Lemma retry_spec s :
  idle s -> kInitRetryDelayMs <= retryDelayMs_ s <= kMaxRetryDelayMs -> timers s = [] ->
  retry_ s = false -> inv base (retry s) /\ functors (retry s) = functors s /\ connect_ (retry s) = connect_ s.
Proof.
  intros (Hp & Hi & Hc) Hd Ht Hr. unfold retry. cbv zeta. cbn [connect_ set_socket].
  destruct (connect_ s) eqn:Ecn; (split; [|done]).
  - split; [apply idle_safe; done|]. unfold kMaxRetryDelayMs, kInitRetryDelayMs in *.
    constructor; cbn -[Z.min Z.mul kMaxRetryDelayMs kInitRetryDelayMs]; rewrite ?Ht; try done.
    + unfold kMaxRetryDelayMs, kInitRetryDelayMs. lia.
    + by rewrite Hc.
    + intros _. right. by left.
  - split; [apply idle_safe; done|]. constructor; cbn; try done.
    + by rewrite Ht, Hr.
    + by rewrite Hc.
    + by rewrite Ecn.
Qed.

Lemma connect_spec s :
  idle s -> kInitRetryDelayMs <= retryDelayMs_ s <= kMaxRetryDelayMs -> timers s = [] ->
  retry_ s = false -> connect_ s = true ->
  exists s', connect s = Some s' /\ inv base s' /\ functors s' = functors s.
Proof.
  intros Hidle Hd Ht Hr Hcn. pose proof Hidle as (Hp & Hi & Hc). unfold connect. cbv zeta.
  set (s1 := emit _ _). cbn [tr set_socket]. set (err := sys_connect e (tr s)) in *.
  destruct (in_progress err) eqn:E1; [|destruct (transient err) eqn:E2].
  - destruct (connecting_spec (sys_socket e (tr s)) s1 Hp Hi (Hfd _) eq_refl)
      as (s' & E & Hs & Hc' & Hcn' & Hr' & Ht' & Hd' & _ & Hf').
    exists s'. split; [done|]. split; [|by rewrite Hf']. split; [done|].
    constructor; rewrite ?Hd', ?Ht', ?Hr', ?Hcn', ?Hc'; cbn; try done.
    + by rewrite Ht, Hr.
    + by left.
  - destruct (retry_spec s1) as (? & ? & ?); try done. by exists (retry s1).
  - eexists. split; [done|]. split; [|done]. split; [by apply idle_safe|].
    constructor; cbn; try done.
    + by rewrite Ht, Hr.
    + intros _. right. right. right. exists err. by rewrite last_snoc.
Qed.

Lemma ctl_idle_timers s : ctl s -> retry_ s = false -> timers s = [].
Proof. intros Hc Hr. pose proof (ctl_timers _ Hc) as Ht. rewrite Hr in Ht. by destruct (timers s). Qed.

Lemma startInLoop_inv s : inv base s -> exists s', startInLoop s = Some s' /\ inv base s'.
Proof.
  intros [Hs Hc]. unfold startInLoop. destruct (connect_ s) eqn:Ecn; [by exists s|]. cbn [negb].
  assert (connecting_ s = false) as Hcg.
  { destruct (connecting_ s) eqn:E; [|done]. destruct (ctl_connecting _ Hc E). congruence. }
  pose proof (safe_idle _ Hs Hcg) as Hidle.
  cbn [retry_ set_connect]. destruct (retry_ s) eqn:Er; cbn [negb].
  - eexists. split; [done|]. split.
    + destruct Hs as [Hp Hw]. by constructor.
    + destruct Hc as [Hd Ht _ _]. constructor; cbn; try done; [by rewrite Hcg|]. intros _. right. left. done.
  - destruct (connect_spec (set_connect true s)) as (s' & -> & ? & _); try done.
    + apply Hc.
    + exact (ctl_idle_timers s Hc Er).
    + by exists s'.
Qed.

Lemma stopInLoop_inv s : inv base s -> exists s', stopInLoop s = Some s' /\ inv base s'.
Proof.
  intros [Hs Hc]. unfold stopInLoop. destruct (connect_ s) eqn:Ecn; [|by exists s].
  cbn [connecting_ set_connect]. destruct (connecting_ s) eqn:Ecg.
  - assert (safe base (set_connect false s)) as Hs1 by (destruct Hs; by constructor).
    destruct (stopAndResetWatcher_spec _ Hs1 Ecg) as (s' & -> & Hp & Hi & _ & _ & Hcg & Hcn & Hr & Ht & Hd & Htr & _).
    cbn [mbind option_bind]. eexists. split; [done|]. split; [by apply idle_safe|].
    destruct Hc as [Hd0 Ht0 Hcg0 _].
    constructor; cbn; rewrite ?Hd, ?Ht, ?Hr, ?Hcg, ?Hcn; try done.
  - eexists. split; [done|]. split; [destruct Hs; by constructor|].
    destruct Hc as [Hd0 Ht0 _ _]. constructor; cbn; try done. by rewrite Ecg.
Qed.

Lemma restart_inv s : inv base s -> exists s', restart s = Some s' /\ inv base s'.
Proof.
  intros [Hs Hc]. unfold restart. destruct (connect_ s) eqn:Ecn; [|by exists s].
  destruct (negb (connecting_ s) && negb (retry_ s)) eqn:E; [|by exists s].
  apply andb_prop in E as [Ecg Er]. apply negb_true_iff in Ecg, Er.
  destruct (connect_spec (set_delay kInitRetryDelayMs s)) as (s' & -> & ? & _); try done.
  - by apply (safe_idle s).
  - exact (ctl_idle_timers s Hc Er).
  - by exists s'.
Qed.

Lemma do_actions_inv acts s : inv base s -> exists s', do_actions acts s = Some s' /\ inv base s'.
Proof.
  revert s. induction acts as [|a acts IH]; intros s Hinv; cbn [do_actions]; [by exists s|].
  assert (exists s1, do_action a s = Some s1 /\ inv base s1) as (s1 & -> & H1).
  { destruct a; [by apply startInLoop_inv|by apply stopInLoop_inv|by apply restart_inv]. }
  cbn. by apply IH.
Qed.

(** The start of both handlers: the attempt is over. *)
Lemma attempt_over s :
  inv base s -> connecting_ s = true ->
  exists s1 err, stopAndResetWatcher s = Some s1 /\
    getError s1 = Some (err, emit (EvGetError err) s1) /\
    idle (emit (EvGetError err) s1) /\
    kInitRetryDelayMs <= retryDelayMs_ s1 <= kMaxRetryDelayMs /\
    timers s1 = [] /\ retry_ s1 = false /\ functors s1 = functors s ++ [FReset].
Proof.
  intros [Hs Hc] Hcg.
  destruct (stopAndResetWatcher_spec s Hs Hcg) as (s1 & -> & Hp & Hi & Hso & [fd Hfd'] & Hcg1 & _ & Hr & Ht & Hd & _ & Hf).
  destruct (ctl_connecting _ Hc Hcg) as [_ Hr0].
  exists s1, (sys_getError e (tr s1)). split; [done|].
  unfold getError. rewrite Hso, Hfd'. split; [done|]. split; [done|].
  rewrite Hd, Ht, Hr. split; [apply Hc|]. split; [by apply ctl_idle_timers|done].
Qed.

Lemma handleError_inv s :
  inv base s -> exists s', handleError s = Some s' /\ inv base s' /\ connecting_ s' = false.
Proof.
  intros Hinv. unfold handleError. destruct (connecting_ s) eqn:Ecg; [|by exists s].
  destruct (attempt_over s Hinv Ecg) as (s1 & err & -> & Eg & Hidle & Hd & Ht & Hr & _).
  cbn [mbind option_bind]. rewrite Eg. cbn [mbind option_bind].
  destruct (retry_spec (emit (EvGetError err) s1)) as (Hinv' & _ & _); try done.
  eexists. split; [done|]. split; [done|]. unfold retry. cbv zeta.
  destruct Hidle as (_ & _ & Hcg). by destruct (connect_ _).
Qed.

Lemma connector_handleWrite_inv s : inv base s -> exists s', handleWrite s = Some s' /\ inv base s'.
Proof.
  intros Hinv. unfold handleWrite. destruct (connecting_ s) eqn:Ecg; [|by exists s].
  destruct (attempt_over s Hinv Ecg) as (s1 & err & -> & Eg & Hidle & Hd & Ht & Hr & _).
  cbn [mbind option_bind]. rewrite Eg. cbn [mbind option_bind].
  set (s2 := emit (EvGetError err) s1) in *.
  destruct (retry_spec s2) as (Hinv' & _ & _); try done.
  destruct (negb (err =? 0)); [by exists (retry s2)|].
  destruct (sys_self e (tr s2)); [by exists (retry s2)|].
  apply do_actions_inv. split; [by apply idle_safe|].
  destruct Hidle as (_ & _ & Hcg). constructor; try done.
  - cbn. cbn in Ht, Hr. by rewrite Ht, Hr.
  - intros E. cbn in E, Hcg. congruence.
  - intros _. right. right. left. cbn. by rewrite last_snoc.
Qed.

Lemma connector_handleEvents_inv revents s :
  inv base s -> exists s', Dispatch.handleEvents revents callbacks s = Some s' /\ inv base s'.
Proof.
  apply Dispatch.dispatch_handleEvents_inv. intros f Hf x Hx.
  destruct Hf as [Hf|[Hf|[Hf|Hf]]]; cbn in Hf; try discriminate; injection Hf as <-.
  - destruct (handleError_inv x Hx) as (y & ? & ? & _). by exists y.
  - by apply connector_handleWrite_inv.
Qed.

Lemma inv_set_functors fs s : inv base s -> inv base (set_functors fs s).
Proof. intros [[? ?] [? ? ? ?]]. split; by constructor. Qed.

(** The next step runs a [resetWatcher] queued for an earlier attempt. *)
Definition stale_reset (i : input) (s : t) : Prop :=
  i = IFunctor /\ connecting_ s = true /\ exists fs, functors s = FReset :: fs.

Definition input_ok (i : input) : Prop :=
  match i with IEvents fd _ => base !! fd = None | _ => True end.

Lemma connector_step_inv i s :
  inv base s -> input_ok i -> stale_reset i s \/ exists s', step i s = Some s' /\ inv base s'.
Proof.
  intros Hinv Hok. pose proof Hinv as [Hs Hc].
  destruct i as [fd revents| |a| | |]; cbn [step]; [| |right..].
  - right. pose proof (safe_watcher _ _ Hs) as Hw. destruct (connecting_ s) eqn:Ecg.
    + destruct Hw as (fd' & a & r & Hso & Hb & Hw & ->).
      destruct (decide (fd = fd')) as [->|Hne].
      * rewrite lookup_insert_eq, Hw. cbn [mbind option_bind Watcher.self]. rewrite Z.eqb_refl.
        by apply connector_handleEvents_inv.
      * rewrite lookup_insert_ne by done. cbn in Hok. rewrite Hok. by exists s.
    + destruct Hw as [_ ->]. cbn in Hok. rewrite Hok. by exists s.
  - destruct (functors s) as [|[| |] fs] eqn:Ef; [right; by exists s|right|right|].
    + apply startInLoop_inv. by apply inv_set_functors.
    + apply stopInLoop_inv. by apply inv_set_functors.
    + destruct (connecting_ s) eqn:Ecg; [left; split; [done|]; split; [done|by exists fs]|right].
      eexists. split; [done|]. pose proof (safe_idle _ Hs Ecg) as (Hp & Hi & _).
      destruct Hs as [_ Hw]. rewrite Ecg in Hw. destruct Hw as [Hso _].
      split; [by apply idle_safe|]. destruct Hc. by constructor.
  - destruct a; [by apply startInLoop_inv|by apply stopInLoop_inv|by apply restart_inv].
  - destruct (timers s) as [|d ts] eqn:Et; [by exists s|].
    pose proof (ctl_timers _ Hc) as Ht. rewrite Et in Ht. destruct (retry_ s) eqn:Er; [|done].
    destruct ts; [|done].
    assert (connecting_ s = false) as Ecg.
    { destruct (connecting_ s) eqn:E; [|done]. destruct (ctl_connecting _ Hc E). congruence. }
    unfold retrying. cbv zeta. cbn [connect_ set_retry set_timers].
    pose proof (safe_idle _ Hs Ecg) as Hidle.
    destruct (connect_ s) eqn:Ecn.
    + destruct (connect_spec (set_retry false (set_timers [] s))) as (s' & -> & ? & _); try done;
        [apply Hc|by exists s'].
    + eexists. split; [done|]. destruct Hs as [Hp Hw]. split; [by constructor|].
      destruct Hc as [Hd _ _ _]. constructor; cbn; try done; by rewrite ?Ecg, ?Ecn.
  - eexists. split; [done|]. by apply inv_set_functors.
  - eexists. split; [done|]. by apply inv_set_functors.
Qed.

Lemma connector_run_inv ins s :
  inv base s -> Forall input_ok ins ->
  (exists s', run ins s = Some s' /\ inv base s') \/
  (exists ins1 i ins2 s1, ins = ins1 ++ i :: ins2 /\ run ins1 s = Some s1 /\ inv base s1 /\
     stale_reset i s1).
Proof.
  intros Hinv Hok. revert s Hinv. induction Hok as [|i ins Hi _ IH]; intros s Hinv.
  - left. by exists s.
  - destruct (connector_step_inv i s Hinv Hi) as [Hst|(s1 & E & Hinv1)].
    + right. by exists [], i, ins, s.
    + destruct (IH s1 Hinv1) as [(s' & E' & ?)|(ins1 & j & ins2 & s2 & -> & E2 & ? & ?)].
      * left. exists s'. cbn [run]. rewrite E. done.
      * right. exists (i :: ins1), j, ins2, s2. split; [done|]. cbn [run]. rewrite E. done.
Qed.
End Steps.

(** ** Properties *)

(** C22: whatever the order of events, timers, functors, calls by the owner
    and by other threads, the connector makes no undefined access, leaves
    nothing registered and no socket open unless an attempt is under way (then
    exactly its own socket and watcher), keeps at most one retry timer and a
    delay between the initial and the maximal one, and while it is started an
    attempt is under way, a retry is pending, or the last one was settled -
    up to the first time a queued [resetWatcher] runs during a later attempt. *)
Theorem connector_safe_until_stale_reset (p : P) (ins : list input)
  (Hp : poller_ok p) (Hfd : forall l, interest p !! sys_socket e l = None)
  (Hok : Forall (input_ok (interest p)) ins) :
  (exists s, run ins (make p) = Some s /\ safe (interest p) s /\ ctl s) \/
  (exists ins1 i ins2 s1, ins = ins1 ++ i :: ins2 /\ run ins1 (make p) = Some s1 /\
     stale_reset i s1).
Proof.
  destruct (connector_run_inv (interest p) Hfd ins (make p) (connector_make_inv p Hp) Hok)
    as [(s & ? & ?)|(ins1 & i & ins2 & s1 & ? & ? & _ & ?)]; [left; by exists s|right].
  by exists ins1, i, ins2, s1.
Qed.

(** The [resetWatcher] that a stopped attempt has queued destroys the
    watcher of the next one when [stop()] and [start()] are called in one batch:
    the new watcher stays registered, so the next event dereferences a
    destroyed object, and [stop()] a null pointer. *)
Theorem stale_reset_leaves_dangling_watcher (p : P) (revents : Z)
  (Hp : poller_ok p) (Hfd : forall l, interest p !! sys_socket e l = None)
  (Hin : forall l, in_progress (sys_connect e l) = true) :
  exists s, run [IAction AStart; IAction AStop; IAction AStart; IFunctor] (make p) = Some s /\
    connecting_ s = true /\ watcher_ s = None /\
    (exists a, interest (poller s) !! default 0 (connectSocket_ s) = Some (POLLOUT, a)) /\
    step (IEvents (default 0 (connectSocket_ s)) revents) s = None /\
    step (IAction AStop) s = None.
Proof.
  pose proof (connector_make_inv p Hp) as Hinv0.
  assert (forall s, inv (interest p) s -> connect_ s = false -> retry_ s = false ->
    exists s', startInLoop s = Some s' /\ inv (interest p) s' /\ functors s' = functors s /\
      connecting_ s' = true) as Hstart.
  { intros s [Hs Hc] Ecn Er. unfold startInLoop. rewrite Ecn. cbn [negb retry_ set_connect]. rewrite Er.
    assert (connecting_ s = false) as Hcg.
    { destruct (connecting_ s) eqn:E; [|done]. destruct (ctl_connecting _ Hc E). congruence. }
    pose proof (safe_idle _ _ Hs Hcg) as Hidle. cbn [negb].
    destruct (connect_spec _ Hfd (set_connect true s)) as (s' & E & Hinv' & Hf); try done;
      [apply Hc|exact (ctl_idle_timers s Hc Er)|].
    exists s'. split; [done|]. split; [done|]. split; [done|].
    unfold connect in E. cbv zeta in E. rewrite Hin in E. unfold connecting in E.
    apply bind_Some in E as (x & _ & E). apply bind_Some in E as ([w q] & _ & E). by injection E as <-. }
  destruct (Hstart (make p) Hinv0 eq_refl eq_refl) as (s1 & E1 & [Hs1 Hc1] & Hf1 & Hcg1).
  destruct (stopInLoop_inv (interest p) s1 (conj Hs1 Hc1)) as (s2 & E2 & Hinv2).
  assert (connect_ s1 = true) as Hcn1 by (by destruct (ctl_connecting _ Hc1 Hcg1)).
  assert (retry_ s1 = false) as Hr1 by (by destruct (ctl_connecting _ Hc1 Hcg1)).
  assert (functors s2 = [FReset] /\ connect_ s2 = false /\ retry_ s2 = false) as (Hf2 & Hcn2 & Hr2).
  { unfold stopInLoop in E2. rewrite Hcn1 in E2. cbn [connecting_ set_connect] in E2. rewrite Hcg1 in E2.
    assert (safe (interest p) (set_connect false s1)) as Hs1' by (destruct Hs1; by constructor).
    destruct (stopAndResetWatcher_spec (interest p) _ Hs1' Hcg1)
      as (s' & E & _ & _ & _ & _ & _ & Hcn & Hr & _ & _ & _ & Hf).
    rewrite E in E2. cbn in E2. injection E2 as <-. cbn. rewrite Hf, Hcn, Hr. cbn. by rewrite Hf1. }
  destruct (Hstart s2 Hinv2 Hcn2 Hr2) as (s3 & E3 & [Hs3 Hc3] & Hf3 & Hcg3).
  exists (resetWatcher (set_functors [] s3)). cbn [run step do_action]. rewrite E1. cbn [mbind option_bind].
  rewrite E2. cbn [mbind option_bind]. rewrite E3. cbn [mbind option_bind]. rewrite Hf3, Hf2.
  cbn [mbind option_bind]. split; [done|]. split; [done|]. split; [done|].
  destruct Hs3 as [_ Hw]. rewrite Hcg3 in Hw. destruct Hw as (fd' & a & r & Hso & Hb & Hw & Hi).
  cbn. rewrite Hso. cbn. rewrite Hi, lookup_insert_eq.
  split; [by exists a|]. split; [done|]. unfold stopInLoop. cbn.
  destruct (ctl_connecting _ Hc3 Hcg3) as [-> _]. by rewrite Hcg3.
Qed.

(** The delay before the [k]-th retry. *)
Definition backoff (k : nat) : Z := Z.min (kInitRetryDelayMs * 2 ^ Z.of_nat k) kMaxRetryDelayMs.

Lemma backoff_next k : Z.min (backoff k * 2) kMaxRetryDelayMs = backoff (S k).
Proof.
  unfold backoff, kInitRetryDelayMs, kMaxRetryDelayMs.
  rewrite Nat2Z.inj_succ, Z.pow_succ_r by lia. lia.
Qed.

(** The delays of the retries that were set, and the attempts that were made. *)
Definition delays (l : trace) : list Z :=
  omap (fun ev => match ev with EvTimer d => Some d | _ => None end) l.
Definition attempts (l : trace) : nat :=
  length (omap (fun ev => match ev with EvConnect err => Some err | _ => None end) l).

(** How often the connector has waited. *)
Definition waits (s : t) : nat := length (delays (tr s)).

(** Neither the owner nor another thread stops the connector. *)
Definition no_stop (i : input) : Prop := i <> IAction AStop /\ i <> IRemoteStop.

Section Refusals.
Context (base : gmap Z (Z * Z)) (Hfd : forall l, base !! sys_socket e l = None).
(** The peer keeps refusing: at once, or as the result of an attempt that was
    under way - or the attempt connects the socket to itself. *)
Context (Hcon : forall l, in_progress (sys_connect e l) || transient (sys_connect e l) = true).
Context (Href : forall l, sys_getError e l = 0 -> sys_self e (l ++ [EvGetError 0]) = true).

(** What attempt after attempt keeps: the next delay is the one that follows
    those already waited for, and every attempt but the one under way has had
    its retry. *)
Record refused (s : t) : Prop := {
  ref_connect : connect_ s = true;
  ref_delays : delays (tr s) = backoff <$> seq 0 (waits s);
  ref_delay : retryDelayMs_ s = backoff (waits s);
  ref_attempts : attempts (tr s) = ((if connecting_ s then 1 else 0) + waits s)%nat;
  ref_timers : timers s = if connecting_ s then [] else [backoff (pred (waits s))];
  ref_retry : retry_ s = negb (connecting_ s);
  ref_functors : FStop ∉ functors s
}.

(** The same between the end of an attempt and its retry. *)
Record failed (s : t) : Prop := {
  fail_connect : connect_ s = true;
  fail_connecting : connecting_ s = false;
  fail_delays : delays (tr s) = backoff <$> seq 0 (waits s);
  fail_delay : retryDelayMs_ s = backoff (waits s);
  fail_attempts : attempts (tr s) = S (waits s);
  fail_timers : timers s = [];
  fail_functors : FStop ∉ functors s
}.

Lemma retry_refused s :
  failed s -> refused (retry s) /\ connecting_ (retry s) = false /\
    attempts (tr (retry s)) = attempts (tr s).
Proof.
  intros [Hcn Hcg Hds Hd Ha Ht Hf]. unfold retry. cbv zeta. cbn [connect_ set_socket]. rewrite Hcn.
  set (s' := set_delay _ _).
  assert (delays (tr s') = delays (tr s) ++ [backoff (waits s)]) as Hds'.
  { cbn. unfold delays. rewrite omap_app. cbn. by rewrite Hd. }
  assert (waits s' = S (waits s)) as Hw by (unfold waits at 1; rewrite Hds', length_app; cbn; unfold waits; lia).
  assert (attempts (tr s') = attempts (tr s)) as Ha'.
  { cbn. unfold attempts. rewrite omap_app. cbn. by rewrite app_nil_r. }
  split; [|done].
  constructor; rewrite ?Hw, ?Ha', ?Hds'; cbn -[Z.min Z.mul kMaxRetryDelayMs seq]; rewrite ?Hcg, ?Ht, ?Hd; try done.
  - by rewrite seq_S, fmap_app, Hds.
  - apply backoff_next.
Qed.

Lemma connect_refused s :
  idle base s -> connect_ s = true -> retry_ s = false -> timers s = [] ->
  delays (tr s) = backoff <$> seq 0 (waits s) -> retryDelayMs_ s = backoff (waits s) ->
  attempts (tr s) = waits s -> FStop ∉ functors s ->
  exists s', connect s = Some s' /\ refused s' /\ attempts (tr s') = S (attempts (tr s)).
Proof.
  intros (Hp & Hi & Hcg) Hcn Hr Ht Hds Hd Ha Hf. unfold connect. cbv zeta. cbn [tr set_socket].
  set (err := sys_connect e (tr s)). set (s1 := emit _ _).
  assert (delays (tr s1) = delays (tr s)) as Hds1.
  { cbn. unfold delays. rewrite omap_app. cbn. by rewrite app_nil_r. }
  assert (waits s1 = waits s) as Hw1 by (unfold waits; by rewrite Hds1).
  assert (attempts (tr s1) = S (attempts (tr s))) as Ha1.
  { cbn. unfold attempts. rewrite omap_app, length_app. cbn. lia. }
  destruct (in_progress err) eqn:E1.
  - destruct (connecting_spec base (sys_socket e (tr s)) s1 Hp Hi (Hfd _) eq_refl)
      as (s' & E & Hs & Hc' & Hcn' & Hr' & Ht' & Hd' & Htr' & Hf').
    exists s'. split; [done|]. rewrite Htr'. split; [|done].
    assert (waits s' = waits s) as Hw' by (unfold waits; by rewrite Htr', Hds1).
    constructor; rewrite ?Hw', ?Hc', ?Htr', ?Hds1, ?Ha1, ?Hd', ?Ht', ?Hr', ?Hcn', ?Hf'; try done. by rewrite Ha.
  - pose proof (Hcon (tr s)) as Htr. fold err in Htr. rewrite E1 in Htr. cbn in Htr. rewrite Htr.
    destruct (retry_refused s1) as (? & _ & Ha2).
    + constructor; rewrite ?Hw1, ?Hds1, ?Ha1; try done. by rewrite Ha.
    + exists (retry s1). by rewrite Ha2.
Qed.

(** Both handlers, when an attempt is under way. *)
Lemma attempt_failed s :
  inv base s -> refused s -> connecting_ s = true ->
  exists s1 err, stopAndResetWatcher s = Some s1 /\
    getError s1 = Some (err, emit (EvGetError err) s1) /\ failed (emit (EvGetError err) s1) /\
    err = sys_getError e (tr s1) /\ attempts (tr (emit (EvGetError err) s1)) = attempts (tr s).
Proof.
  intros [Hs Hc] [Hcn Hds Hd Ha Ht Hr Hf] Hcg. rewrite Hcg in Ha, Ht, Hr.
  destruct (stopAndResetWatcher_spec base s Hs Hcg)
    as (s1 & -> & _ & _ & Hso & [fd Efd] & Hcg1 & Hcn1 & _ & Ht1 & Hd1 & Htr1 & Hf1).
  exists s1, (sys_getError e (tr s1)). split; [done|]. unfold getError. rewrite Hso, Efd. split; [done|].
  set (s2 := emit _ _).
  assert (delays (tr s2) = delays (tr s)) as Hds2.
  { cbn. unfold delays. rewrite omap_app. cbn. by rewrite app_nil_r, Htr1. }
  assert (attempts (tr s2) = attempts (tr s)) as Ha2.
  { cbn. unfold attempts. rewrite omap_app. cbn. by rewrite app_nil_r, Htr1. }
  assert (waits s2 = waits s) as Hw2 by (unfold waits; by rewrite Hds2).
  split; [|done]. constructor; rewrite ?Hw2, ?Hds2, ?Ha2; cbn; rewrite ?Hcn1, ?Hd1, ?Ht1, ?Hf1; try done.
  rewrite elem_of_app, list_elem_of_singleton. by intros [?|?].
Qed.

Lemma handleError_refused s :
  inv base s -> refused s ->
  exists s', handleError s = Some s' /\ refused s' /\ connecting_ s' = false /\ attempts (tr s') = attempts (tr s).
Proof.
  intros Hinv Hs. unfold handleError. destruct (connecting_ s) eqn:Ecg; [|by exists s].
  destruct (attempt_failed s Hinv Hs Ecg) as (s1 & err & -> & Eg & Hfail & _ & Ha).
  cbn [mbind option_bind]. rewrite Eg. cbn [mbind option_bind].
  destruct (retry_refused _ Hfail) as (? & ? & Ha'). eexists. by rewrite Ha', Ha.
Qed.

Lemma handleWrite_refused s :
  inv base s -> refused s ->
  exists s', handleWrite s = Some s' /\ refused s' /\ connecting_ s' = false /\ attempts (tr s') = attempts (tr s).
Proof.
  intros Hinv Hs. unfold handleWrite. destruct (connecting_ s) eqn:Ecg; [|by exists s].
  destruct (attempt_failed s Hinv Hs Ecg) as (s1 & err & -> & Eg & Hfail & Herr & Ha).
  cbn [mbind option_bind]. rewrite Eg. cbn [mbind option_bind].
  destruct (retry_refused _ Hfail) as (? & ? & Ha').
  destruct (err =? 0) eqn:E0; cbn [negb]; [|eexists; by rewrite Ha', Ha].
  zbool. subst err. rewrite E0 in *. cbn [tr emit]. rewrite Href by done. eexists. by rewrite Ha', Ha.
Qed.

(** The poller says how the attempt has ended. *)
Definition ended (revents : Z) : bool := has revents (Z.lor POLLERR POLLNVAL) || has revents POLLOUT.

Lemma handleEvents_refused revents s :
  inv base s -> refused s ->
  exists s', Dispatch.handleEvents revents callbacks s = Some s' /\ refused s' /\
    attempts (tr s') = attempts (tr s) /\ (ended revents = true -> connecting_ s' = false).
Proof.
  intros Hinv Hs.
  assert (exists s1, (if has revents (Z.lor POLLERR POLLNVAL) then handleError s else Some s) = Some s1 /\
    inv base s1 /\ refused s1 /\ attempts (tr s1) = attempts (tr s) /\
    (has revents (Z.lor POLLERR POLLNVAL) = true -> connecting_ s1 = false)) as (s1 & E1 & Hinv1 & Hs1 & Ha1 & Hc1).
  { destruct (has revents (Z.lor POLLERR POLLNVAL)); [|by exists s].
    destruct (handleError_refused s Hinv Hs) as (s1 & E & ? & ? & ?).
    destruct (handleError_inv base s Hinv) as (y & Ey & ? & _). rewrite Ey in E. injection E as ->. by exists s1. }
  unfold Dispatch.handleEvents, callbacks, ended.
  cbn [Dispatch.call Dispatch.closeCallback_ Dispatch.errorCallback_ Dispatch.readCallback_ Dispatch.writeCallback_].
  rewrite if_same. cbn [mbind option_bind]. rewrite E1. cbn [mbind option_bind].
  rewrite if_same. cbn [mbind option_bind]. destruct (has revents POLLOUT).
  - destruct (handleWrite_refused s1 Hinv1 Hs1) as (s2 & -> & ? & ? & Ha2). exists s2. by rewrite Ha2, Ha1.
  - exists s1. rewrite orb_false_r. done.
Qed.

Lemma refused_set_functors fs s : refused s -> FStop ∉ fs -> refused (set_functors fs s).
Proof. intros [] ?. by constructor. Qed.

(** A retry timer. *)
Lemma timer_refused s :
  inv base s -> refused s -> connecting_ s = false ->
  exists s', step ITimer s = Some s' /\ refused s' /\ attempts (tr s') = S (attempts (tr s)).
Proof.
  intros [Hs Hc] Href0 Hcg. destruct Href0 as [Hcn Hds Hd Ha Ht Hr Hf]. rewrite Hcg in Ha, Ht. cbn [step].
  rewrite Ht. unfold retrying. cbv zeta. cbn [connect_ set_retry set_timers]. rewrite Hcn.
  destruct (connect_refused (set_retry false (set_timers [] s))) as (s' & ? & ? & ?); try done; [|by exists s'].
  by apply (safe_idle base s).
Qed.

Lemma step_refused i s s' :
  inv base s -> refused s -> input_ok base i -> no_stop i -> ~ stale_reset i s ->
  step i s = Some s' -> refused s'.
Proof.
  intros Hinv Hs Hok [Hn1 Hn2] Hst E. pose proof Hs as [Hcn _ _ _ Ht Hr Hf].
  destruct i as [fd revents| |a| | |]; cbn [step] in E; try done.
  - destruct (interest (poller s) !! fd) as [[ev a]|]; [|by simplify_eq].
    destruct (watcher_ s) as [w|]; [|done]. cbn in E. destruct (Watcher.self w =? a); [|done].
    destruct (handleEvents_refused revents s Hinv Hs) as (x & Ex & Hx & _). rewrite Ex in E. by simplify_eq.
  - destruct (functors s) as [|[| |] fs]; [by simplify_eq| |set_solver|].
    + unfold startInLoop in E. cbn in E. rewrite Hcn in E. cbn in E. simplify_eq.
      apply refused_set_functors; set_solver.
    + simplify_eq. destruct (refused_set_functors fs s Hs) as []; [set_solver|]. by constructor.
  - destruct a; [| by destruct Hn1|].
    + cbn in E. unfold startInLoop in E. rewrite Hcn in E. cbn in E. by simplify_eq.
    + cbn in E. unfold restart in E. rewrite Hcn, Hr in E. destruct (connecting_ s); cbn in E; by simplify_eq.
  - destruct (connecting_ s) eqn:Ecg; [rewrite Ht in E; by simplify_eq|].
    destruct (timer_refused s Hinv Hs Ecg) as (x & Ex & Hx & _). cbn [step] in Ex. rewrite Ex in E. by simplify_eq.
  - simplify_eq. apply refused_set_functors; [done|]. set_solver.
Qed.

Lemma run_refused ins s :
  inv base s -> refused s -> Forall (input_ok base) ins -> Forall no_stop ins ->
  (exists s', run ins s = Some s' /\ inv base s' /\ refused s') \/
  (exists ins1 i ins2 s1, ins = ins1 ++ i :: ins2 /\ run ins1 s = Some s1 /\ stale_reset i s1).
Proof.
  intros Hinv Hs Hok Hns. revert s Hinv Hs. induction ins as [|i ins IH]; intros s Hinv Hs; [left; by exists s|].
  apply Forall_cons_1 in Hok as [Hi Hok]. apply Forall_cons_1 in Hns as [Hn Hns].
  assert (stale_reset i s \/ ~ stale_reset i s) as [Hst|Hst].
  { destruct i; try (right; by intros [? _]). destruct (functors s) as [|[| |] fs] eqn:Ef;
      try (right; intros (_ & _ & ? & ?); congruence).
    destruct (connecting_ s) eqn:Ecg; [left; split; [done|split; [done|by exists fs]]|right].
    intros (_ & ? & _). congruence. }
  { right. by exists [], i, ins, s. }
  destruct (connector_step_inv base Hfd i s Hinv Hi) as [?|(s1 & E & Hinv1)]; [done|].
  pose proof (step_refused i s s1 Hinv Hs Hi Hn Hst E) as Hs1. cbn [run]. rewrite E. cbn [mbind option_bind].
  destruct (IH Hok Hns s1 Hinv1 Hs1) as [(s' & ? & ?)|(ins1 & j & ins2 & s2 & -> & E2 & ?)].
  - left. by exists s'.
  - right. exists (i :: ins1), j, ins2, s2. split; [done|]. cbn [run]. by rewrite E.
Qed.
End Refusals.

(** C40: against a peer that keeps refusing - at once, with the error of an
    attempt that was under way, by [POLLERR], or with a connection to itself,
    in any mixture - the retries of a connector that is not stopped come 500
    ms, 1 s, 2 s, ... after the failures, doubling up to 30 s: whatever the order of
    reports, timers, functors and other calls, the delays are these, every
    attempt but the one under way has had its retry, the report that the
    attempt has ended sets the next, and the pending retry, when it is due,
    makes the next attempt - for ever, up to the first time a queued
    [resetWatcher] runs during a later attempt. *)
Theorem retry_delays_double (p : P) (ins : list input)
  (Hp : poller_ok p) (Hfd : forall l, interest p !! sys_socket e l = None)
  (Hok : Forall (input_ok (interest p)) ins) (Hns : Forall no_stop ins)
  (Hcon : forall l, in_progress (sys_connect e l) || transient (sys_connect e l) = true)
  (Href : forall l, sys_getError e l = 0 -> sys_self e (l ++ [EvGetError 0]) = true) :
  (exists s, run (IAction AStart :: ins) (make p) = Some s /\
    delays (tr s) = (fun k => Z.min (500 * 2 ^ Z.of_nat k) 30000) <$> seq 0 (waits s) /\
    attempts (tr s) = ((if connecting_ s then 1 else 0) + waits s)%nat /\
    if connecting_ s
    then timers s = [] /\ exists fd, connectSocket_ s = Some fd /\
      forall revents, ended revents = true -> exists s', step (IEvents fd revents) s = Some s' /\
        timers s' = [Z.min (500 * 2 ^ Z.of_nat (waits s)) 30000]
    else timers s = [Z.min (500 * 2 ^ Z.of_nat (pred (waits s))) 30000] /\
      exists s', step ITimer s = Some s' /\ attempts (tr s') = S (attempts (tr s))) \/
  (exists ins1 i ins2 s1, ins = ins1 ++ i :: ins2 /\
     run (IAction AStart :: ins1) (make p) = Some s1 /\ stale_reset i s1).
Proof.
  pose proof (connector_make_inv p Hp) as Hinv0.
  destruct (connect_refused (interest p) Hfd Hcon (set_connect true (make p)))
    as (s0 & E0 & Hs0 & _); try done; [set_solver|].
  destruct (startInLoop_inv _ Hfd (make p) Hinv0) as (y & Ey & Hinv1).
  change (startInLoop (make p)) with (connect (set_connect true (make p))) in Ey.
  rewrite E0 in Ey. injection Ey as <-. cbn [run step do_action].
  change (startInLoop (make p)) with (connect (set_connect true (make p))). rewrite E0. cbn [mbind option_bind].
  destruct (run_refused _ Hfd Hcon Href ins s0 Hinv1 Hs0 Hok Hns) as [(s & E & Hinv & Hs)|?]; [left|by right].
  exists s. split; [done|]. split; [apply Hs|]. split; [apply Hs|]. pose proof Hs as [_ _ _ Ha Ht _ _].
  destruct (connecting_ s) eqn:Ecg.
  - split; [done|]. pose proof (safe_watcher _ _ (proj1 Hinv)) as Hw. rewrite Ecg in Hw.
    destruct Hw as (fd & a & r & Hso & _ & Hw & Hi). exists fd. split; [done|]. intros revents He.
    cbn [step]. rewrite Hi, lookup_insert_eq, Hw. cbn [mbind option_bind Watcher.self]. rewrite Z.eqb_refl.
    destruct (handleEvents_refused _ Href revents s Hinv Hs) as (s' & -> & Hs' & Ha' & Hc'). exists s'.
    split; [done|]. specialize (Hc' He). destruct Hs' as [_ _ _ Ha'' Ht' _ _]. rewrite Hc' in Ha'', Ht'.
    rewrite Ht'. by replace (waits s') with (S (waits s)) by lia.
  - split; [done|]. destruct (timer_refused _ Hfd Hcon s Hinv Hs Ecg) as (s' & ? & _ & ?). by exists s'.
Qed.

End Connector.

(** ** Witnesses *)

#[local] Instance sample_poller : Poller PollPoller.t :=
  PollPoller.poll_poller (fun i => i) (fun i => eq_refl).

(** Connects on descriptor 9 are under way at once and then succeed. *)
Definition sample_env : env := {|
  sys_socket l := 9;
  sys_connect l := EINPROGRESS;
  sys_getError l := 0;
  sys_self l := false;
  connectionCallback_ l := []
|}.

(** The owner restarts the connector in its first connection callback. *)
Definition restarting_env : env := {|
  sys_socket l := 9;
  sys_connect l := EINPROGRESS;
  sys_getError l := 0;
  sys_self l := false;
  connectionCallback_ l := if (attempts l =? 1)%nat then [ARestart] else []
|}.

(** Every second attempt is refused at once, the others later. *)
Definition refusing_env : env := {|
  sys_socket l := 9;
  sys_connect l := if Nat.even (attempts l) then EINPROGRESS else ECONNREFUSED;
  sys_getError l := ECONNREFUSED;
  sys_self l := false;
  connectionCallback_ l := []
|}.

Lemma sample_fresh l : interest PollPoller.make !! sys_socket sample_env l = None.
Proof. done. Qed.

(** A connection callback that restarts the connector replaces the watcher
    that is calling it, and the [resetWatcher] queued for that one then destroys
    the watcher of the new attempt. *)
Theorem restart_in_callback_replaces_watcher :
  (s ← run restarting_env [IAction AStart] (make PollPoller.make); Some (Watcher.self <$> watcher_ s)) = Some (Some 1) /\
  (s ← run restarting_env [IAction AStart; IEvents 9 POLLOUT] (make PollPoller.make);
   Some (Watcher.self <$> watcher_ s, connecting_ s, functors s)) = Some (Some 4, true, [FReset]) /\
  run restarting_env [IAction AStart; IEvents 9 POLLOUT; IFunctor; IAction AStop] (make PollPoller.make) = None.
Proof. by vm_compute. Qed.

Lemma connector_safe_until_stale_reset_witness :
  let ins := [IAction AStart; IEvents 9 POLLOUT; IFunctor; IAction ARestart] in
  (s ← run sample_env ins (make PollPoller.make); Some (tr s, connecting_ s)) =
    Some ([EvConnect EINPROGRESS; EvGetError 0; EvConnected; EvConnect EINPROGRESS], true) /\
  ((exists s, run sample_env ins (make PollPoller.make) = Some s /\
     safe (interest PollPoller.make) s /\ ctl s) \/
   (exists ins1 i ins2 s1, ins = ins1 ++ i :: ins2 /\
     run sample_env ins1 (make PollPoller.make) = Some s1 /\ stale_reset i s1)).
Proof.
  split; [vm_compute; reflexivity|].
  apply (connector_safe_until_stale_reset sample_env PollPoller.make);
    [apply PollPoller.poll_wf_make|apply sample_fresh|repeat constructor].
Defined.

Lemma stale_reset_leaves_dangling_watcher_witness :
  exists s, run sample_env [IAction AStart; IAction AStop; IAction AStart; IFunctor]
      (make PollPoller.make) = Some s /\
    connecting_ s = true /\ watcher_ s = None /\
    (exists a, interest (poller s) !! default 0 (connectSocket_ s) = Some (POLLOUT, a)) /\
    step sample_env (IEvents (default 0 (connectSocket_ s)) POLLOUT) s = None /\
    step sample_env (IAction AStop) s = None.
Proof.
  apply (stale_reset_leaves_dangling_watcher sample_env PollPoller.make POLLOUT);
    [apply PollPoller.poll_wf_make|apply sample_fresh|reflexivity].
Defined.

Lemma retry_delays_double_witness :
  let ins := [IEvents 9 POLLERR; IFunctor; ITimer; ITimer; IEvents 9 POLLOUT] in
  (s ← run refusing_env (IAction AStart :: ins) (make PollPoller.make); Some (delays (tr s), attempts (tr s))) =
    Some ([500; 1000; 2000], 3%nat) /\
  ((exists s, run refusing_env (IAction AStart :: ins) (make PollPoller.make) = Some s /\
     delays (tr s) = (fun k => Z.min (500 * 2 ^ Z.of_nat k) 30000) <$> seq 0 (waits s)) \/
   (exists ins1 i ins2 s1, ins = ins1 ++ i :: ins2 /\
     run refusing_env (IAction AStart :: ins1) (make PollPoller.make) = Some s1 /\ stale_reset i s1)).
Proof.
  split; [vm_compute; reflexivity|].
  destruct (retry_delays_double refusing_env PollPoller.make
    [IEvents 9 POLLERR; IFunctor; ITimer; ITimer; IEvents 9 POLLOUT]) as [(s & E & Hd & _)|H].
  - apply PollPoller.poll_wf_make.
  - reflexivity.
  - repeat constructor.
  - repeat constructor; discriminate.
  - intros l. cbn [refusing_env sys_connect]. destruct (Nat.even (attempts l)); reflexivity.
  - discriminate.
  - left. exists s. split; [exact E|exact Hd].
  - right. exact H.
Defined.

End Connector.
