(* ===== verification/BaseEventLoop.v ===== *)
(** [nutty/base/EventLoop.h] and [EventLoop.cpp]: the loop thread, the queue of
    pending functors it shares with other threads, and the eventfd that wakes
    it up. The loop thread and any number of other threads interleave; a step
    is one access to the shared state, so a call such as [queueInLoop] made by
    another thread is two steps, the locked [push_back] and the [wakeup]. *)

From S2P Require Import Prelude.

Module EventLoop.

Section EventLoop.
(** Functors ([std::function<void()>]), and what running one does. *)
Context {F : Type}.

(** What callbacks running on the loop thread do to the loop. *)
Inductive action :=
  | AQueue (cb : F)   (* [queueInLoop(cb)] *)
  | ARun (cb : F)     (* [runInLoop(cb)] *)
  | AQuit.            (* [quit()] *)

Context (body : F -> list action).

(** A watcher reported by [poll]: the wakeup watcher, or another one with what
    its handler does. *)
Inductive handler := HWakeup | HUser (acts : list action).

(** Where the loop thread is. The action lists are the continuation of the
    callback being run. *)
Inductive loop_pc :=
  | Outside                                            (* not in [loop()] *)
  | LoopTest                                           (* [while(!quit_)] *)
  | Polling                                            (* in [poller_->poll] *)
  | Handling (k : list action) (hs : list handler)     (* in [handleEvents] *)
  | BeforeSwap                    (* in [doPendingFunctors], before the swap *)
  | Running (k : list action) (batch : list F).        (* after the swap *)

(** [wakeupFd_] is the eventfd's counter; [pushing] and [quitting] count the
    other threads between the two halves of [queueInLoop] and of [quit].
    [queued] and [ran] record, in order, the functors ever queued and those
    taken from the queue and started. *)
Record t := mk {
  quit_ : bool;
  callingPendingFunctors_ : bool;
  pendingFunctors_ : list F;
  wakeupFd_ : Z;
  pc : loop_pc;
  pushing : nat;
  quitting : nat;
  queued : list F;
  ran : list F
}.

(** [EventLoop::EventLoop()] *)
Definition make : t := mk false false [] 0 Outside 0 0 [] [].

Definition set_quit (b : bool) (s : t) : t :=
  mk b (callingPendingFunctors_ s) (pendingFunctors_ s) (wakeupFd_ s) (pc s)
     (pushing s) (quitting s) (queued s) (ran s).
Definition set_calling (b : bool) (s : t) : t :=
  mk (quit_ s) b (pendingFunctors_ s) (wakeupFd_ s) (pc s)
     (pushing s) (quitting s) (queued s) (ran s).
Definition set_pc (c : loop_pc) (s : t) : t :=
  mk (quit_ s) (callingPendingFunctors_ s) (pendingFunctors_ s) (wakeupFd_ s) c
     (pushing s) (quitting s) (queued s) (ran s).
Definition set_threads (np nq : nat) (s : t) : t :=
  mk (quit_ s) (callingPendingFunctors_ s) (pendingFunctors_ s) (wakeupFd_ s) (pc s)
     np nq (queued s) (ran s).
Definition set_wakeupFd (n : Z) (s : t) : t :=
  mk (quit_ s) (callingPendingFunctors_ s) (pendingFunctors_ s) n (pc s)
     (pushing s) (quitting s) (queued s) (ran s).

(** [wakeup()]: write 1 to the eventfd. At its maximum the non-blocking write
    fails and the counter stays (eventfd(2)). *)
Definition wakeup (s : t) : t :=
  if wakeupFd_ s <? 18446744073709551614 then set_wakeupFd (wakeupFd_ s + 1) s else s.

#[local] Arguments wakeup : simpl never.

(** [handleWakeup()]: the read resets the counter. *)
Definition handleWakeup (s : t) : t := set_wakeupFd 0 s.

(** The block of [queueInLoop] under [mutex_]. *)
Definition push_pending (cb : F) (s : t) : t :=
  mk (quit_ s) (callingPendingFunctors_ s) (pendingFunctors_ s ++ [cb]) (wakeupFd_ s) (pc s)
     (pushing s) (quitting s) (queued s ++ [cb]) (ran s).

(** The rest of [queueInLoop]. *)
Definition notify (inLoopThread : bool) (s : t) : t :=
  if negb inLoopThread || callingPendingFunctors_ s then wakeup s else s.

(** [queueInLoop] on the loop thread, which cannot observe the other threads
    between its two halves. *)
Definition queueInLoop (cb : F) (s : t) : t := notify true (push_pending cb s).

(** [quit()] on the loop thread. *)
Definition quit (s : t) : t := set_quit true s.

(** The swap in [doPendingFunctors]. *)
Definition swap_pending (s : t) : t :=
  mk (quit_ s) (callingPendingFunctors_ s) [] (wakeupFd_ s) (Running [] (pendingFunctors_ s))
     (pushing s) (quitting s) (queued s) (ran s).

(** [for (Functor& cb : functors) cb();]: start the next one. *)
Definition start_functor (cb : F) (rest : list F) (s : t) : t :=
  mk (quit_ s) (callingPendingFunctors_ s) (pendingFunctors_ s) (wakeupFd_ s)
     (Running (body cb) rest) (pushing s) (quitting s) (queued s) (ran s ++ [cb]).

(** One action of a callback; [runInLoop] on the loop thread calls its
    argument directly, so its actions come before the continuation. *)
Definition do_action (a : action) (k : list action) (s : t) : list action * t :=
  match a with
  | AQueue cb => (k, queueInLoop cb s)
  | ARun cb => (body cb ++ k, s)
  | AQuit => (k, quit s)
  end.

(** *** Steps *)

(** [early] allows the loop's own thread to queue functors while it is not in
    [loop()]. *)
Inductive step (early : bool) : t -> t -> Prop :=
  (* the loop thread *)
  | step_loop s :
      pc s = Outside -> step early s (set_pc LoopTest (set_quit false s))
  | step_early s a k s' :
      early = true -> pc s = Outside -> do_action a [] s = (k, s') -> step early s s'
  | step_exit s :
      pc s = LoopTest -> quit_ s = true -> step early s (set_pc Outside s)
  | step_poll s :
      pc s = LoopTest -> quit_ s = false -> step early s (set_pc Polling s)
  | step_return s hs :
      (* epoll is level-triggered: the eventfd is reported iff it is readable *)
      pc s = Polling -> (HWakeup ∈ hs <-> 0 < wakeupFd_ s) ->
      step early s (set_pc (Handling [] hs) s)
  | step_handle_wakeup s hs :
      pc s = Handling [] (HWakeup :: hs) ->
      step early s (set_pc (Handling [] hs) (handleWakeup s))
  | step_handle_user s acts hs :
      pc s = Handling [] (HUser acts :: hs) -> step early s (set_pc (Handling acts hs) s)
  | step_handler_action s a k hs k' s' :
      pc s = Handling (a :: k) hs -> do_action a k s = (k', s') ->
      step early s (set_pc (Handling k' hs) s')
  | step_doPending s :
      pc s = Handling [] [] -> step early s (set_pc BeforeSwap (set_calling true s))
  | step_swap s :
      pc s = BeforeSwap -> step early s (swap_pending s)
  | step_functor s cb rest :
      pc s = Running [] (cb :: rest) -> step early s (start_functor cb rest s)
  | step_functor_action s a k batch k' s' :
      pc s = Running (a :: k) batch -> do_action a k s = (k', s') ->
      step early s (set_pc (Running k' batch) s')
  | step_donePending s :
      pc s = Running [] [] -> step early s (set_pc LoopTest (set_calling false s))
  (* other threads *)
  | step_push s cb :
      step early s (set_threads (S (pushing s)) (quitting s) (push_pending cb s))
  | step_push_wakeup s n :
      pushing s = S n -> step early s (set_threads n (quitting s) (notify false s))
  | step_quit s :
      step early s (set_threads (pushing s) (S (quitting s)) (quit s))
  | step_quit_wakeup s n :
      quitting s = S n -> step early s (set_threads (pushing s) n (wakeup s)).

Definition reached (early : bool) : t -> Prop := reachable (fun s => s = make) (step early).

(** ** Invariants *)

Definition batch_of (s : t) : list F :=
  match pc s with Running _ batch => batch | _ => [] end.

(** The loop thread will look at the queue before it blocks. *)
Definition will_swap (s : t) : bool :=
  match pc s with Handling _ _ | BeforeSwap => true | _ => false end.

Record inv (early : bool) (s : t) : Prop := {
  inv_fd : 0 <= wakeupFd_ s;
  inv_calling : callingPendingFunctors_ s = true <->
    match pc s with BeforeSwap | Running _ _ => True | _ => False end;
  inv_fifo : queued s = ran s ++ batch_of s ++ pendingFunctors_ s;
  inv_wakeup : early = false -> will_swap s = false -> pendingFunctors_ s <> [] ->
    0 < wakeupFd_ s \/ (0 < pushing s)%nat;
  inv_quit : pc s = Polling -> quit_ s = true -> 0 < wakeupFd_ s \/ (0 < quitting s)%nat
}.

Lemma wakeup_fields s :
  quit_ (wakeup s) = quit_ s /\
  callingPendingFunctors_ (wakeup s) = callingPendingFunctors_ s /\
  pendingFunctors_ (wakeup s) = pendingFunctors_ s /\ pc (wakeup s) = pc s /\
  pushing (wakeup s) = pushing s /\ quitting (wakeup s) = quitting s /\
  queued (wakeup s) = queued s /\ ran (wakeup s) = ran s /\
  (0 <= wakeupFd_ s -> 0 < wakeupFd_ (wakeup s)).
Proof.
  unfold wakeup. case_if; cbn; repeat split; intros; lia.
Qed.

Lemma loop_inv_make early : inv early make.
Proof. by constructor. Qed.

(** One action of a callback of the loop thread, wherever it runs. *)
Lemma do_action_inv early s a k k' s' :
  inv early s -> do_action a k s = (k', s') ->
  pc s <> LoopTest -> pc s <> Polling ->
  (pc s = Outside -> early = true) ->
  inv early s' /\ pc s' = pc s.
Proof.
  intros Hinv Ha Ht Hp Hout. destruct a as [cb|cb|]; cbn in Ha; injection Ha as <- <-.
  - unfold queueInLoop, notify. cbn [negb orb].
    pose proof (wakeup_fields (push_pending cb s)) as (E1&E2&E3&E4&E5&E6&E7&E8&E9).
    change (callingPendingFunctors_ (push_pending cb s)) with (callingPendingFunctors_ s).
    destruct Hinv as [Hfd Hcall Hfifo Hwake Hquit].
    destruct (callingPendingFunctors_ s) eqn:Ec.
    + split; [|done]. constructor; rewrite ?E1, ?E2, ?E3, ?E4, ?E5, ?E6, ?E7, ?E8; cbn in *.
      * specialize (E9 Hfd). lia.
      * by rewrite Ec.
      * unfold batch_of in *. rewrite E4. cbn. rewrite Hfifo. by rewrite <- !app_assoc.
      * intros. left. by apply E9.
      * done.
    + split; [|done]. constructor; cbn in *; [done|by rewrite Ec| | |done].
      * unfold batch_of in *. cbn. rewrite Hfifo. by rewrite <- !app_assoc.
      * intros He Hw _. exfalso. unfold will_swap in Hw. cbn in Hw.
        destruct (pc s); try done; [by rewrite Hout in He|].
        destruct Hcall as [_ Hc]. by specialize (Hc I).
  - by split.
  - split; [|done]. destruct Hinv as [Hfd Hcall Hfifo Hwake Hquit]. by constructor.
Qed.

Lemma inv_set_pc early s c :
  inv early s ->
  (callingPendingFunctors_ s = true <->
     match c with BeforeSwap | Running _ _ => True | _ => False end) ->
  match c with Running _ batch => batch | _ => [] end = batch_of s ->
  match c with
  | Handling _ _ | BeforeSwap => True
  | Polling => will_swap s = false /\ (quit_ s = true -> 0 < wakeupFd_ s)
  | _ => will_swap s = false
  end -> inv early (set_pc c s).
Proof.
  intros [Hfd Hcall Hfifo Hwake Hquit] Hc Hb Hw. constructor; cbn; try done.
  - unfold batch_of at 1. cbn. by rewrite Hb.
  - intros. unfold will_swap in *. cbn in *. apply Hwake; try done. by destruct c; try done; destruct Hw.
  - intros ->. destruct Hw as [_ Hq]. intros. left. by apply Hq.
Qed.

(** The calling flag is as the invariant says at a given place. *)
Lemma calling_at early s b :
  inv early s ->
  match pc s with BeforeSwap | Running _ _ => True | _ => False end <-> b = true ->
  callingPendingFunctors_ s = b.
Proof.
  intros Hinv Hb. pose proof (inv_calling _ _ Hinv) as Hc.
  destruct (callingPendingFunctors_ s), b; try done.
  - symmetry. by apply Hb, Hc.
  - by apply Hc, Hb.
Qed.

Lemma loop_step_inv early s c :
  inv early s -> callingPendingFunctors_ s = false ->
  match c with
  | Outside | LoopTest => will_swap s = false
  | Handling _ _ => True
  | Polling => will_swap s = false /\ quit_ s = false
  | _ => False
  end -> batch_of s = [] -> inv early (set_pc c s).
Proof.
  intros Hinv Hc Hw Hb. apply inv_set_pc; [done| | |].
  - rewrite Hc. by destruct c; try done.
  - rewrite Hb. by destruct c.
  - destruct c; try done. destruct Hw as [? ->]. done.
Qed.

(** The steps of the other threads. *)
Lemma other_thread_inv early s :
  inv early s ->
  (forall cb, inv early (set_threads (S (pushing s)) (quitting s) (push_pending cb s))) /\
  (forall n, inv early (set_threads n (quitting s) (notify false s))) /\
  inv early (set_threads (pushing s) (S (quitting s)) (quit s)) /\
  (forall n, inv early (set_threads (pushing s) n (wakeup s))).
Proof.
  intros [Hfd Hcall Hfifo Hwake Hquit].
  pose proof (wakeup_fields s) as (E1&E2&E3&E4&E5&E6&E7&E8&E9). specialize (E9 Hfd).
  split; [|split; [|split]].
  - constructor; cbn; try done.
    + unfold batch_of in *. cbn. rewrite Hfifo. by rewrite <- !app_assoc.
    + intros. right. lia.
  - intros n. unfold notify. cbn [negb orb].
    constructor; unfold batch_of, will_swap in *; cbn; rewrite ?E1, ?E2, ?E3, ?E4, ?E7, ?E8;
      try done; try lia; intros; left; lia.
  - constructor; cbn; try done. intros. right. lia.
  - constructor; unfold batch_of, will_swap in *; cbn; rewrite ?E1, ?E2, ?E3, ?E4, ?E7, ?E8;
      try done; try lia; intros; left; lia.
Qed.

(** A move of the loop thread between two places where the flag is clear. *)
Ltac loop_move Hinv Hpc :=
  apply loop_step_inv; unfold will_swap, batch_of; cbn; rewrite ?Hpc; try done;
  apply (calling_at _ _ false Hinv); by rewrite Hpc.

(** The places where the queue or the flag changes. *)
Lemma doPending_inv early s :
  inv early s ->
  (pc s = Handling [] [] -> inv early (set_pc BeforeSwap (set_calling true s))) /\
  (pc s = BeforeSwap -> inv early (swap_pending s)) /\
  (forall cb rest, pc s = Running [] (cb :: rest) -> inv early (start_functor cb rest s)) /\
  (pc s = Running [] [] -> inv early (set_pc LoopTest (set_calling false s))).
Proof.
  intros [Hfd Hcall Hfifo Hwake Hquit]. unfold batch_of in Hfifo. split; [|split; [|split]].
  - intros Hpc. rewrite Hpc in *. by constructor.
  - intros Hpc. rewrite Hpc in *. constructor; try done. unfold batch_of. cbn. by rewrite app_nil_r.
  - intros cb rest Hpc. rewrite Hpc in *. constructor; try done.
    + unfold batch_of. cbn. rewrite Hfifo. by rewrite <- !app_assoc.
    + intros. apply Hwake; try done. unfold will_swap. by rewrite Hpc.
  - intros Hpc. rewrite Hpc in *. constructor; try done.
    intros. apply Hwake; try done. unfold will_swap. by rewrite Hpc.
Qed.

Lemma loop_any_step_inv early s s' : inv early s -> step early s s' -> inv early s'.
Proof.
  intros Hinv Hstep. pose proof (other_thread_inv early s Hinv) as (Hpush & Hnotify & Hquits & Hwakes).
  pose proof (doPending_inv early s Hinv) as (Hdo & Hswap & Hstart & Hdone).
  destruct Hstep as [s Hpc|s a k s' He Hpc Ha|s Hpc Hq|s Hpc Hq|s hs Hpc Hhs|s hs Hpc
    |s acts hs Hpc|s a k hs k' s' Hpc Ha|s Hpc|s Hpc|s cb rest Hpc|s a k batch k' s' Hpc Ha|s Hpc
    |s cb|s n Hn|s|s n Hn]; auto.
  - (* entering loop() *)
    apply loop_step_inv; [|apply (calling_at _ _ false Hinv); by rewrite Hpc| |]; unfold will_swap, batch_of;
      cbn; rewrite ?Hpc; try done; destruct Hinv; by constructor.
  - by eapply do_action_inv; rewrite ?Hpc.
  - loop_move Hinv Hpc.
  - loop_move Hinv Hpc.
  - loop_move Hinv Hpc.
  - (* the counter is reset, but the loop is about to swap *)
    destruct Hinv as [Hfd Hcall Hfifo Hwake Hquit]. unfold batch_of in Hfifo. rewrite Hpc in *. by constructor.
  - loop_move Hinv Hpc.
  - destruct (do_action_inv early s a k k' s' Hinv Ha) as [Hinv' Hpc']; rewrite ?Hpc; try done.
    rewrite Hpc in Hpc'. loop_move Hinv' Hpc'.
  - destruct (do_action_inv early s a k k' s' Hinv Ha) as [Hinv' Hpc']; rewrite ?Hpc; try done.
    rewrite Hpc in Hpc'. apply inv_set_pc; unfold will_swap, batch_of; rewrite ?Hpc'; try done.
    rewrite (calling_at _ _ true Hinv'); [done|]. by rewrite Hpc'.
Qed.

Lemma loop_reached_inv early s : reached early s -> inv early s.
Proof.
  apply reachable_ind_inv; [intros ? ->; apply loop_inv_make | intros; by eapply loop_any_step_inv].
Qed.

(** ** Properties *)

(** C16: no wake-up is lost. If nothing is queued by the loop's own thread
    before it enters [loop()] (which would wait, [functor_queued_before_loop_waits]), then whenever the loop thread blocks in [poll]
    with the eventfd unreadable and no other thread is in the middle of
    [queueInLoop] or [quit], there is no pending functor and [quit()] has not
    been called since [loop()] started: it has nothing to do. *)
Theorem blocked_loop_is_idle (s : t) (Hr : reached false s) (Hpc : pc s = Polling)
  (Hfd : wakeupFd_ s = 0) (Hp : pushing s = 0%nat) (Hq : quitting s = 0%nat) :
  pendingFunctors_ s = [] /\ quit_ s = false.
Proof.
  destruct (loop_reached_inv _ _ Hr) as [_ _ _ Hwake Hquit]. split.
  - destruct (pendingFunctors_ s); [done|]. exfalso.
    destruct Hwake; try done; try lia. unfold will_swap. by rewrite Hpc.
  - destruct (quit_ s); [|done]. exfalso. destruct Hquit; try done; lia.
Qed.

(** C15: functors run in the order they were queued, each exactly once: at any
    point of any interleaving the functors ever queued are those already
    started, the rest of the current batch and the pending ones, in this
    order. *)
Theorem functors_run_in_order (early : bool) (s : t) (Hr : reached early s) :
  queued s = ran s ++ batch_of s ++ pendingFunctors_ s.
Proof. by destruct (loop_reached_inv _ _ Hr). Qed.

(** ** Executable schedules *)

(** A schedule: which thread moves next, and what the environment chooses. *)
Inductive choice :=
  | CLoop                          (* the loop thread, outside [poll] *)
  | CReturn (hs : list handler)    (* [poll] returns these watchers *)
  | CEarly (a : action)            (* the loop's thread, outside [loop()] *)
  | CPush (cb : F) | CPushWakeup | CQuit | CQuitWakeup.

Definition is_wakeup (h : handler) : bool :=
  match h with HWakeup => true | HUser _ => false end.

Definition loop_next (s : t) : option t :=
  match pc s with
  | Outside => Some (set_pc LoopTest (set_quit false s))
  | LoopTest => Some (set_pc (if quit_ s then Outside else Polling) s)
  | Polling => None
  | Handling [] (HWakeup :: hs) => Some (set_pc (Handling [] hs) (handleWakeup s))
  | Handling [] (HUser acts :: hs) => Some (set_pc (Handling acts hs) s)
  | Handling (a :: k) hs =>
      let '(k', s') := do_action a k s in Some (set_pc (Handling k' hs) s')
  | Handling [] [] => Some (set_pc BeforeSwap (set_calling true s))
  | BeforeSwap => Some (swap_pending s)
  | Running [] (cb :: rest) => Some (start_functor cb rest s)
  | Running (a :: k) batch =>
      let '(k', s') := do_action a k s in Some (set_pc (Running k' batch) s')
  | Running [] [] => Some (set_pc LoopTest (set_calling false s))
  end.

Definition next (early : bool) (c : choice) (s : t) : option t :=
  match c with
  | CLoop => loop_next s
  | CReturn hs =>
      match pc s with
      | Polling =>
          if eqb (existsb is_wakeup hs) (0 <? wakeupFd_ s)
          then Some (set_pc (Handling [] hs) s) else None
      | _ => None
      end
  | CEarly a =>
      match pc s with
      | Outside => if early then Some (do_action a [] s).2 else None
      | _ => None
      end
  | CPush cb => Some (set_threads (S (pushing s)) (quitting s) (push_pending cb s))
  | CPushWakeup =>
      match pushing s with
      | S n => Some (set_threads n (quitting s) (notify false s))
      | O => None
      end
  | CQuit => Some (set_threads (pushing s) (S (quitting s)) (quit s))
  | CQuitWakeup =>
      match quitting s with
      | S n => Some (set_threads (pushing s) n (wakeup s))
      | O => None
      end
  end.

Fixpoint schedule (early : bool) (cs : list choice) (s : t) : option t :=
  match cs with
  | [] => Some s
  | c :: rest => s' ← next early c s; schedule early rest s'
  end.

Lemma is_wakeup_elem hs : existsb is_wakeup hs = true <-> HWakeup ∈ hs.
Proof.
  rewrite existsb_exists. split.
  - intros ([|acts] & Hin & Hw); [by apply list_elem_of_In|done].
  - intros Hin. exists HWakeup. split; [by apply list_elem_of_In|done].
Qed.

Lemma loop_next_step early s s' : loop_next s = Some s' -> step early s s'.
Proof.
  unfold loop_next. destruct (pc s) as [| | |[|a k] [|[|acts] hs]| |[|a k] [|cb batch]] eqn:Hpc;
    try (destruct (do_action _ _ _) as [k' s2] eqn:Ha); intros [= <-]; try by econstructor.
  destruct (quit_ s) eqn:Hq; by econstructor.
Qed.

Lemma next_step early c s s' : next early c s = Some s' -> step early s s'.
Proof.
  destruct c as [|hs|a|cb| | |]; cbn [next].
  - apply loop_next_step.
  - destruct (pc s) eqn:Hpc; try done. destruct (eqb _ _) eqn:E; [|done]. intros [= <-].
    apply eqb_prop in E. econstructor; [done|].
    rewrite <- is_wakeup_elem, E. apply Z.ltb_lt.
  - destruct (pc s) eqn:Hpc; try done. destruct early eqn:He; [|done]. intros [= <-].
    destruct (do_action a [] s) as [k s2] eqn:Ha. by eapply step_early.
  - intros [= <-]. constructor.
  - destruct (pushing s) eqn:Hn; [done|]. intros [= <-]. by constructor.
  - intros [= <-]. constructor.
  - destruct (quitting s) eqn:Hn; [done|]. intros [= <-]. by constructor.
Qed.

(** Running a schedule reaches the state it computes. *)
Lemma schedule_from early cs s0 s :
  reached early s0 -> schedule early cs s0 = Some s -> reached early s.
Proof.
  revert s0. induction cs as [|c cs IH]; intros s0 H0 E; cbn in E; [by injection E as <-|].
  destruct (next early c s0) as [s1|] eqn:E1; [|done].
  eapply IH; [|exact E]. eapply reachable_step; [exact H0|]. by eapply next_step.
Qed.

Lemma schedule_reached early cs s :
  schedule early cs make = Some s -> reached early s.
Proof. intros H. eapply schedule_from; [|exact H]. by apply reachable_init. Qed.

(** One uneventful iteration of the loop, from [LoopTest] to [LoopTest]. *)
Definition idle_round (hs : list handler) : list choice :=
  [CLoop; CReturn hs] ++ replicate (length hs) CLoop ++ [CLoop; CLoop; CLoop].

(** [loop()] starts by clearing [quit_], so a [quit()] that completes on
    another thread before the loop has started is lost: the loop then blocks in
    [poll] with an unreadable eventfd. *)
Theorem quit_before_loop_is_lost :
  exists s, schedule false ([CQuit; CQuitWakeup; CLoop] ++ idle_round [HWakeup] ++ [CLoop]) make
      = Some s /\ reached false s /\
    pc s = Polling /\ quit_ s = false /\ wakeupFd_ s = 0 /\
    pushing s = 0%nat /\ quitting s = 0%nat.
Proof.
  exists (mk false false [] 0 Polling 0 0 [] []).
  split; [reflexivity|]. split; [|done].
  apply (schedule_reached false ([CQuit; CQuitWakeup; CLoop] ++ idle_round [HWakeup] ++ [CLoop])).
  reflexivity.
Qed.

(** A functor the loop's own thread queues before it calls [loop()] is not
    announced on the eventfd: the loop's first [poll] blocks while the functor
    is pending. *)
Theorem functor_queued_before_loop_waits (cb : F) :
  exists s, schedule true [CEarly (AQueue cb); CLoop; CLoop] make = Some s /\
    reached true s /\
    pc s = Polling /\ pendingFunctors_ s = [cb] /\ wakeupFd_ s = 0 /\ pushing s = 0%nat.
Proof.
  exists (mk false false [cb] 0 Polling 0 0 [cb] []).
  split; [reflexivity|]. split; [|done].
  apply (schedule_reached true [CEarly (AQueue cb); CLoop; CLoop]). reflexivity.
Qed.

End EventLoop.
Arguments step {F} body early.
Arguments reached {F} body early.
Arguments mk {F}.
Arguments make {F}.
Arguments AQuit {F}.
Arguments HWakeup {F}.
Arguments Outside {F}.
Arguments LoopTest {F}.
Arguments Polling {F}.
Arguments BeforeSwap {F}.

(** ** Witnesses *)

(** Functor 0 queues functor 1; functor 1 does nothing. *)
Definition sample_body (cb : nat) : list (@action nat) :=
  match cb with O => [AQueue 1%nat] | _ => [] end.

(** Another thread queues functor 0 while the loop is blocked; the loop wakes
    up, runs it, is woken by functor 1 and blocks again. *)
Definition sample_schedule : list (@choice nat) :=
  [CLoop; CLoop; CPush 0%nat; CPushWakeup; CReturn [HWakeup]; CLoop; CLoop; CLoop;
   CLoop; CLoop; CLoop; CLoop; CReturn [HWakeup]; CLoop; CLoop; CLoop; CLoop; CLoop; CLoop].

Definition sample_end : t :=
  match schedule sample_body false sample_schedule make with Some s => s | None => make end.

Lemma loop_sample_reached : reached sample_body false sample_end.
Proof. apply (schedule_reached _ _ sample_schedule). vm_compute. reflexivity. Qed.

Lemma blocked_loop_is_idle_witness :
  pc sample_end = Polling /\ wakeupFd_ sample_end = 0 /\ ran sample_end = [0; 1]%nat /\
  pendingFunctors_ sample_end = [] /\ quit_ sample_end = false.
Proof.
  split; [reflexivity|]. split; [reflexivity|]. split; [reflexivity|].
  apply (blocked_loop_is_idle sample_body sample_end loop_sample_reached); reflexivity.
Defined.

Lemma functors_run_in_order_witness :
  queued sample_end = [0; 1]%nat /\
  queued sample_end = ran sample_end ++ batch_of sample_end ++ pendingFunctors_ sample_end.
Proof.
  split; [reflexivity|].
  apply (functors_run_in_order sample_body false sample_end loop_sample_reached).
Defined.
End EventLoop.
