(* ===== verification/BaseTimerQueue.v ===== *)
(** [nutty/base/Timer.h], [Timer.cpp], [TimerQueue.h] and [TimerQueue.cpp]: the
    timers of an event loop, a multimap from expiration times to timers and
    the timerfd that is armed for the earliest of them. Times and durations
    are nanosecond counts of [std::chrono::steady_clock], without the bound of
    its [int64_t], which a clock that counts from the start of the system reaches
    after 292 years - or an interval that long. *)

From stdpp Require Import sorting.
From S2P Require Import Prelude.

(** ** Timers *)

Module Timer.

Section Timer.
Context {C : Type}.   (* [TimerCallback] *)

Record t := mk {
  timerCallback_ : C;
  expiration_ : Z;
  interval_ : Z
}.

Definition repeat (tm : t) : bool := negb (interval_ tm =? 0).

(** [time_point += duration] on [int64_t] nanoseconds, taken not to overflow. *)
Definition restart (tm : t) : t :=
  mk (timerCallback_ tm) (expiration_ tm + interval_ tm) (interval_ tm).
End Timer.
Arguments t : clear implicits.
End Timer.

(** ** The multimap *)

(** [std::multimap<time_point, TimerPtr>]: pairs sorted by key, equal keys in
    the order of insertion. An iterator is a position. *)
Module TimerMap.

Abbreviation t := (list (Z * nat)).

Fixpoint upper_bound (k : Z) (m : t) : nat :=
  match m with
  | [] => O
  | (k', _) :: rest => if k <? k' then O else S (upper_bound k rest)
  end.

Fixpoint lower_bound (k : Z) (m : t) : nat :=
  match m with
  | [] => O
  | (k', _) :: rest => if k' <? k then S (lower_bound k rest) else O
  end.

(** [insert(std::make_pair(k, x))], with the position of the new element: it
    goes after those with an equal key. *)
Definition insert (k : Z) (x : nat) (m : t) : t * nat :=
  let pos := upper_bound k m in (take pos m ++ (k, x) :: drop pos m, pos).

Definition sorted (m : t) : Prop := StronglySorted (fun a b => a.1 <= b.1) m.

Lemma take_upper_bound k m : Forall (fun e => e.1 <= k) (take (upper_bound k m) m).
Proof.
  induction m as [|[k' x] m IH]; cbn [upper_bound]; [constructor|].
  case_if; cbn; [constructor|]. by constructor.
Qed.

Lemma drop_upper_bound k m : sorted m -> Forall (fun e => k < e.1) (drop (upper_bound k m) m).
Proof.
  intros Hs. induction Hs as [|[k' x] m Hs IH Hall]; cbn [upper_bound]; [constructor|].
  case_if; cbn; [|done]. constructor; [done|].
  eapply Forall_impl; [|exact Hall]. cbn. lia.
Qed.

(** In a sorted map the elements before the upper bound are those with at most
    the key. *)
Lemma take_upper_bound_filter k m :
  sorted m -> take (upper_bound k m) m = filter (fun e => e.1 <= k) m.
Proof.
  intros Hs. rewrite <- (take_drop (upper_bound k m) m) at 3. rewrite list.filter_app.
  pose proof (take_upper_bound k m) as Ht. pose proof (drop_upper_bound k m Hs) as Hd.
  replace (filter _ (drop _ _)) with (@nil (Z * nat)).
  - rewrite app_nil_r. symmetry. by apply list_filter_all.
  - symmetry. apply list_filter_none. eapply Forall_impl; [|exact Hd]. cbn. lia.
Qed.

Lemma drop_upper_bound_filter k m :
  sorted m -> drop (upper_bound k m) m = filter (fun e => k < e.1) m.
Proof.
  intros Hs. rewrite <- (take_drop (upper_bound k m) m) at 3. rewrite list.filter_app.
  pose proof (take_upper_bound k m) as Ht. pose proof (drop_upper_bound k m Hs) as Hd.
  replace (filter _ (take _ _)) with (@nil (Z * nat)).
  - cbn. symmetry. by apply list_filter_all.
  - symmetry. apply list_filter_none. eapply Forall_impl; [|exact Ht]. cbn. lia.
Qed.

Lemma sorted_drop n m : sorted m -> sorted (drop n m).
Proof.
  intros Hs. rewrite <- (take_drop n m) in Hs. by eapply StronglySorted_app_1_r.
Qed.

Lemma sorted_first k x m e : sorted ((k, x) :: m) -> e ∈ (k, x) :: m -> k <= e.1.
Proof.
  intros [Hall _]%StronglySorted_cons. rewrite list.Forall_forall in Hall.
  intros [->|Hin]%elem_of_cons; [done|]. by apply (Hall e).
Qed.

Lemma insert_sorted k x m : sorted m -> sorted (insert k x m).1.
Proof.
  intros Hs. cbn. pose proof (take_upper_bound k m) as Ht.
  pose proof (drop_upper_bound k m Hs) as Hd.
  assert (sorted (drop (upper_bound k m) m)) by by apply sorted_drop.
  assert (sorted (take (upper_bound k m) m)).
  { rewrite <- (take_drop (upper_bound k m) m) in Hs. by eapply StronglySorted_app_1_l. }
  apply StronglySorted_app_2; [| done |].
  - intros a b Ha Hb. rewrite list.Forall_forall in Ht. specialize (Ht a Ha). cbn in Ht.
    apply elem_of_cons in Hb as [->|Hb]; [done|].
    rewrite list.Forall_forall in Hd. specialize (Hd b Hb). cbn in Hd. lia.
  - apply StronglySorted_cons. split; [|done].
    eapply Forall_impl; [|exact Hd]. cbn. lia.
Qed.

Lemma insert_perm k x m : Permutation ((k, x) :: m) (insert k x m).1.
Proof.
  cbn. rewrite <- (take_drop (upper_bound k m) m) at 1. apply Permutation_middle.
Qed.

(** The new element is first exactly when the position is that of [begin()]. *)
Lemma insert_head k x m :
  head (insert k x m).1 = if decide ((insert k x m).2 = O) then Some (k, x) else head m.
Proof. cbn. destruct m as [|[k' y] m]; cbn [upper_bound]; [done|]. by case_if. Qed.

Lemma sorted_delete n m : sorted m -> sorted (delete n m).
Proof.
  intros Hs. rewrite delete_take_drop. pose proof Hs as Hs2.
  rewrite <- (take_drop n m) in Hs. apply StronglySorted_app_2.
  - intros a b Ha Hb. apply (StronglySorted_app_1_elem_of (fun a b => a.1 <= b.1) _ _ _ _ Hs Ha).
    apply list_elem_of_lookup in Hb as [i Hi]. apply list_elem_of_lookup.
    exists (S i). rewrite lookup_drop in *. by replace (n + S i)%nat with (S n + i)%nat by lia.
  - by eapply StronglySorted_app_1_l.
  - by apply sorted_drop.
Qed.

(** In a sorted map the elements with key [k] are those between the bounds. *)
Lemma lower_le_upper k m : (lower_bound k m <= upper_bound k m)%nat.
Proof.
  induction m as [|[k' x] m IH]; cbn; [done|]. repeat case_if; lia.
Qed.

Lemma equal_range_elem k x m :
  sorted m -> (k, x) ∈ m ->
  (k, x) ∈ take (upper_bound k m - lower_bound k m) (drop (lower_bound k m) m).
Proof.
  intros Hs Hin. induction Hs as [|[k' y] m Hs IH Hall]; [by apply not_elem_of_nil in Hin|].
  cbn [upper_bound lower_bound]. pose proof (lower_le_upper k m).
  apply elem_of_cons in Hin as [[= -> ->]|Hin].
  - rewrite Z.ltb_irrefl. cbn. by left.
  - specialize (IH Hin).
    destruct (k <? k') eqn:E1, (k' <? k) eqn:E2; zbool; try lia.
    + exfalso. rewrite list.Forall_forall in Hall. specialize (Hall _ Hin). cbn in Hall. lia.
    + cbn. done.
    + assert (k' = k) as -> by lia. cbn. right.
      destruct (lower_bound k m) eqn:El; [by rewrite Nat.sub_0_r in IH|].
      exfalso. destruct m as [|[k2 z] m]; cbn in El; [done|].
      destruct (k2 <? k) eqn:E; zbool; [|done].
      apply Forall_cons_1 in Hall as [? _]. cbn in *. lia.
Qed.

End TimerMap.

(** ** The timer queue *)

Module TimerQueue.

(** The [it_value] that [resetTimer] gives to [timerfd_settime]: the duration
    casts truncate. *)
Definition itimerspec (time : Z) : Z * Z :=
  let secs := Z.quot time 1000000000 in (secs, time - secs * 1000000000).

Section TimerQueue.
Context {C : Type}.

(** A [TimerPtr] is the number of its timer, in the order of creation. *)
Inductive event := EvAdd (id : nat) | EvCancel (id : nat) | EvRun (id : nat).

(** A functor queued on the loop by [addTimer] or [cancel] of another thread. *)
Inductive functor := AddTimerInLoop (id : nat) | CancelInLoop (id : nat).

(** [utmr] is the last argument of [timerfd_settime]; [timers] holds the timer
    objects and [log] what happened to them so far. *)
Record t := mk {
  timers_ : TimerMap.t;
  callingExpiredTimers_ : bool;
  cancelingTimers_ : gset nat;
  utmr : Z * Z;
  timers : list (Timer.t C);
  queued : list functor;
  log : list event
}.

Definition make : t := mk [] false ∅ (0, 0) [] [] [].

Definition set_timers_ (m : TimerMap.t) (s : t) : t :=
  mk m (callingExpiredTimers_ s) (cancelingTimers_ s) (utmr s) (timers s) (queued s) (log s).
Definition set_timers (l : list (Timer.t C)) (s : t) : t :=
  mk (timers_ s) (callingExpiredTimers_ s) (cancelingTimers_ s) (utmr s) l (queued s) (log s).
Definition set_queued (q : list functor) (s : t) : t :=
  mk (timers_ s) (callingExpiredTimers_ s) (cancelingTimers_ s) (utmr s) (timers s) q (log s).
Definition set_calling (b : bool) (s : t) : t :=
  mk (timers_ s) b (cancelingTimers_ s) (utmr s) (timers s) (queued s) (log s).
Definition set_canceling (c : gset nat) (s : t) : t :=
  mk (timers_ s) (callingExpiredTimers_ s) c (utmr s) (timers s) (queued s) (log s).
Definition record (e : event) (s : t) : t :=
  mk (timers_ s) (callingExpiredTimers_ s) (cancelingTimers_ s) (utmr s) (timers s) (queued s)
     (log s ++ [e]).

(** [resetTimer] *)
Definition resetTimer (time : Z) (s : t) : t :=
  mk (timers_ s) (callingExpiredTimers_ s) (cancelingTimers_ s) (itimerspec time) (timers s)
     (queued s) (log s).

Definition expiration (id : nat) (s : t) : option Z := Timer.expiration_ <$> timers s !! id.

(** [addTimerInLoop] *)
Definition addTimerInLoop (id : nat) (s0 : t) : t :=
  let s := record (EvAdd id) s0 in
  match expiration id s with
  | Some time =>
      let '(m, it) := TimerMap.insert time id (timers_ s) in
      if decide (it = O) then resetTimer time (set_timers_ m s) else set_timers_ m s
  | None => s
  end.

(** [cancelInLoop] *)
Definition cancelInLoop (id : nat) (s0 : t) : t :=
  let s := record (EvCancel id) s0 in
  match expiration id s with
  | Some time =>
      let first := TimerMap.lower_bound time (timers_ s) in
      let second := TimerMap.upper_bound time (timers_ s) in
      match list_find (fun e => e = (time, id)) (take (second - first) (drop first (timers_ s))) with
      | Some (i, _) => set_timers_ (delete (first + i)%nat (timers_ s)) s
      | None =>
          if callingExpiredTimers_ s then set_canceling ({[id]} ∪ cancelingTimers_ s) s else s
      end
  | None => s
  end.

(** The [std::make_shared<Timer>] of [addTimer]. *)
Definition new_timer (cb : C) (time interval : Z) (s : t) : nat * t :=
  (length (timers s), set_timers (timers s ++ [Timer.mk cb time interval]) s).

(** [addTimer] on the loop thread: [runInLoop] calls its argument. *)
Definition addTimer (cb : C) (time interval : Z) (s : t) : nat * t :=
  let '(id, s1) := new_timer cb time interval s in (id, addTimerInLoop id s1).

(** [addTimer] on another thread: [runInLoop] queues its argument. *)
Definition addTimer_remote (cb : C) (time interval : Z) (s : t) : nat * t :=
  let '(id, s1) := new_timer cb time interval s in
  (id, set_queued (queued s1 ++ [AddTimerInLoop id]) s1).

(** [cancel] on another thread. *)
Definition cancel_remote (id : nat) (s : t) : t :=
  set_queued (queued s ++ [CancelInLoop id]) s.

(** [EventLoop::runAt], [runAfter], [runEvery], with the time of the call. *)
Definition runAt (time : Z) (cb : C) (s : t) : nat * t := addTimer cb time 0 s.
Definition runAfter (now delay : Z) (cb : C) (s : t) : nat * t := addTimer cb (now + delay) 0 s.
Definition runEvery (now interval : Z) (cb : C) (s : t) : nat * t :=
  addTimer cb (now + interval) interval s.

(** *** Callbacks and [handleRead] *)

(** What a timer callback does to the queue. A callback names a timer by the
    [TimerPtr] it was given; a number for which there is no timer yet is
    ignored. *)
Inductive action := AddTimer (cb : C) (time interval : Z) | CancelTimer (id : nat).

(** The actions of a callback, given all that happened before. *)
Context (body : C -> list event -> list action).

Definition do_action (a : action) (s : t) : t :=
  match a with
  | AddTimer cb time interval => (addTimer cb time interval s).2
  | CancelTimer id => if decide (id < length (timers s))%nat then cancelInLoop id s else s
  end.

(** [timer->run()] *)
Definition run_timer (id : nat) (s : t) : t :=
  match timers s !! id with
  | Some tm =>
      let s1 := record (EvRun id) s in
      fold_left (fun s a => do_action a s) (body (Timer.timerCallback_ tm) (log s1)) s1
  | None => s
  end.

(** The body of the second loop of [handleRead]. *)
Definition reinsert (s : t) (id : nat) : t :=
  match timers s !! id with
  | Some tm =>
      if Timer.repeat tm && negb (bool_decide (id ∈ cancelingTimers_ s)) then
        let tm' := Timer.restart tm in
        let s1 := set_timers (<[id := tm']> (timers s)) s in
        set_timers_ (TimerMap.insert (Timer.expiration_ tm') id (timers_ s1)).1 s1
      else s
  | None => s
  end.

(** [handleRead], where [now] is the time it reads. *)
Definition handleRead (now : Z) (s : t) : t :=
  let bound := TimerMap.upper_bound now (timers_ s) in
  let expired := (take bound (timers_ s)).*2 in
  let s1 := set_timers_ (drop bound (timers_ s)) s in
  let s2 := set_canceling ∅ (set_calling true s1) in
  let s3 := fold_left (fun s id => run_timer id s) expired s2 in
  let s4 := set_calling false s3 in
  let s5 := fold_left reinsert expired s4 in
  match timers_ s5 with
  | (time, _) :: _ => resetTimer time s5
  | [] => resetTimer 0 s5
  end.

(** *** Operations, in the order the loop thread performs them *)

Inductive op :=
  | OpAct (a : action)                       (* by a handler on the loop thread *)
  | OpRemoteAdd (cb : C) (time interval : Z) (* on another thread *)
  | OpRemoteCancel (id : nat)
  | OpFunctor                                (* the loop runs the next functor *)
  | OpRead (now : Z).                        (* the timerfd is readable *)

Definition do_op (o : op) (s : t) : t :=
  match o with
  | OpAct a => do_action a s
  | OpRemoteAdd cb time interval => (addTimer_remote cb time interval s).2
  | OpRemoteCancel id =>
      if decide (id < length (timers s))%nat then cancel_remote id s else s
  | OpFunctor =>
      match queued s with
      | AddTimerInLoop id :: q => addTimerInLoop id (set_queued q s)
      | CancelInLoop id :: q => cancelInLoop id (set_queued q s)
      | [] => s
      end
  | OpRead now => handleRead now s
  end.

Definition do_ops (os : list op) (s : t) : t := fold_left (fun s o => do_op o s) os s.

(** *** Well-formedness *)

(** The timers whose [addTimerInLoop] is still queued. *)
Definition adds (q : list functor) : list nat :=
  omap (fun f => match f with AddTimerInLoop id => Some id | _ => None end) q.

(** A timer was canceled after it had been added. *)
Definition canceled (id : nat) (l : list event) : Prop :=
  exists l1 l2, l = l1 ++ EvCancel id :: l2 /\ EvAdd id ∈ l1.

(** The time for which the timerfd is armed, when [it_value] is one the kernel
    accepts and that arms it. *)
Definition armed_for (u : Z * Z) (time : Z) : Prop :=
  u.1 * 1000000000 + u.2 = time /\ 0 <= u.1 /\ 0 <= u.2 < 1000000000 /\ u <> (0, 0).

(** [b] is the batch of expired timers being run. *)
Record wf (b : list nat) (s : t) : Prop := {
  wf_sorted : TimerMap.sorted (timers_ s);
  wf_keys k id : (k, id) ∈ timers_ s -> 0 < k /\ expiration id s = Some k;
  wf_nodup : NoDup ((timers_ s).*2 ++ b ++ adds (queued s));
  wf_range id : id ∈ b ++ adds (queued s) -> (id < length (timers s))%nat;
  wf_added id : EvAdd id ∈ log s -> (id < length (timers s))%nat /\ id ∉ adds (queued s);
  wf_positive : Forall (fun tm => 0 < Timer.expiration_ tm /\ 0 <= Timer.interval_ tm) (timers s);
  wf_canceled id : canceled id (log s) ->
    id ∉ (timers_ s).*2 /\ (id ∈ b -> id ∈ cancelingTimers_ s)
}.

(** The timerfd is armed for a time no later than that of the first timer. *)
Definition armed (s : t) : Prop :=
  forall k id m, timers_ s = (k, id) :: m -> exists time, armed_for (utmr s) time /\ time <= k.

Definition action_ok (a : action) : Prop :=
  match a with AddTimer _ time interval => 0 < time /\ 0 <= interval | CancelTimer _ => True end.

Definition op_ok (o : op) : Prop :=
  match o with
  | OpAct a => action_ok a
  | OpRemoteAdd _ time interval => 0 < time /\ 0 <= interval
  | _ => True
  end.

Lemma itimerspec_armed time : 0 < time -> armed_for (itimerspec time) time.
Proof.
  intros. unfold armed_for, itimerspec. cbn.
  rewrite Z.quot_div_nonneg by lia.
  pose proof (Z.div_mod time 1000000000 ltac:(lia)).
  pose proof (Z.mod_pos_bound time 1000000000 ltac:(lia)).
  pose proof (Z.div_pos time 1000000000 ltac:(lia) ltac:(lia)).
  repeat split; try lia. intros [= ? ?]. lia.
Qed.

Lemma canceled_snoc id l e :
  canceled id (l ++ [e]) <-> canceled id l \/ (e = EvCancel id /\ EvAdd id ∈ l).
Proof.
  split.
  - intros (l1 & l2 & E & Hin). destruct (exists_last_dec l2) as [->|(l2' & x & ->)].
    + apply app_inj_tail in E as [-> ->]. by right.
    + left. rewrite app_comm_cons, app_assoc in E. apply app_inj_tail in E as [-> ->].
      by exists l1, l2'.
  - intros [(l1 & l2 & -> & Hin)|[-> Hin]].
    + exists l1, (l2 ++ [e]). by rewrite <- app_assoc.
    + by exists l, [].
Qed.

Lemma adds_app q1 q2 : adds (q1 ++ q2) = adds q1 ++ adds q2.
Proof. apply omap_app. Qed.

Lemma expiration_in_range id s k : expiration id s = Some k -> (id < length (timers s))%nat.
Proof.
  unfold expiration. destruct (timers s !! id) eqn:E; [|done]. intros _.
  by eapply lookup_lt_Some.
Qed.

(** *** Every operation preserves well-formedness *)

(** Insertion of a timer that is in none of the lists. *)
Lemma insert_wf b id time s m :
  wf b s -> id ∉ (timers_ s).*2 ++ b ++ adds (queued s) -> (0 < time) ->
  expiration id s = Some time -> ~ canceled id (log s) ->
  m = (TimerMap.insert time id (timers_ s)).1 -> wf b (set_timers_ m s).
Proof.
  intros [Hs Hk Hn Hr Ha Hp Hc] Hid Ht He Hnc ->.
  pose proof (TimerMap.insert_perm time id (timers_ s)) as Hperm.
  constructor; cbn [timers_ set_timers_ timers queued log cancelingTimers_]; try done.
  - by apply TimerMap.insert_sorted.
  - intros k x Hin. rewrite <- Hperm in Hin. apply elem_of_cons in Hin as [[= -> ->]|Hin]; [done|].
    by apply Hk.
  - rewrite <- Hperm. cbn. by constructor.
  - intros x Hx. destruct (Hc x Hx) as [H1 H2]. split; [|done].
    rewrite <- Hperm. cbn. apply not_elem_of_cons. split; [|done]. by intros ->.
Qed.

Lemma record_wf b e s :
  wf b s ->
  (forall id, e = EvAdd id -> (id < length (timers s))%nat /\ id ∉ adds (queued s)) ->
  (forall id, e = EvCancel id -> EvAdd id ∈ log s ->
     id ∉ (timers_ s).*2 /\ (id ∈ b -> id ∈ cancelingTimers_ s)) ->
  wf b (record e s).
Proof.
  intros [Hs Hk Hn Hr Ha Hp Hc] Hadd Hcan. constructor; cbn; try done.
  - intros id Hin. apply elem_of_app in Hin as [Hin|Hin]; [by apply Ha|].
    apply list_elem_of_singleton in Hin. by apply Hadd.
  - intros id Hin. apply canceled_snoc in Hin as [Hin|[-> Hin]]; [by apply Hc|]. by apply Hcan.
Qed.

(** [addTimerInLoop] of a timer that is not in the queue yet. *)
Lemma addTimerInLoop_wf b id s :
  wf b s -> armed s -> (id < length (timers s))%nat ->
  id ∉ (timers_ s).*2 ++ b ++ adds (queued s) -> EvAdd id ∉ log s ->
  wf b (addTimerInLoop id s) /\ armed (addTimerInLoop id s) /\
  callingExpiredTimers_ (addTimerInLoop id s) = callingExpiredTimers_ s.
Proof.
  intros Hwf Harm Hlt Hid Hnew. unfold addTimerInLoop.
  set (s1 := record (EvAdd id) s).
  assert (wf b s1) as Hwf1.
  { apply record_wf; [done| |done]. intros ? [= <-]. split; [done|].
    intros Hin. apply Hid. rewrite !elem_of_app. auto. }
  destruct (lookup_lt_is_Some_2 _ _ Hlt) as [tm Htm].
  assert (expiration id s1 = Some (Timer.expiration_ tm)) as He by (unfold expiration; cbn; by rewrite Htm).
  rewrite He. set (time := Timer.expiration_ tm) in *.
  assert (0 < time) as Hpos by (by apply (proj1 (list.Forall_forall _ _) (wf_positive _ _ Hwf) tm); 
    apply list_elem_of_lookup; exists id).
  assert (wf b (set_timers_ (TimerMap.insert time id (timers_ s1)).1 s1)) as Hwf2.
  { eapply insert_wf; try done. cbn. intros Hc. apply canceled_snoc in Hc as [(l1 & l2 & E & Hin)|[? ?]]; [|done].
    apply Hnew. rewrite E. apply elem_of_app. by left. }
  pose proof (TimerMap.insert_head time id (timers_ s1)) as Hhead.
  destruct (TimerMap.insert time id (timers_ s1)) as [m it]. cbn [fst snd] in *.
  destruct (decide (it = 0%nat)) as [->|Hne].
  - split; [|split; [|done]].
    + destruct Hwf2. by constructor.
    + intros k x m' E. cbn in E. subst m. cbn in Hhead. injection Hhead as -> ->.
      exists time. split; [|lia]. cbn. by apply itimerspec_armed.
  - split; [done|]. split; [|done]. intros k x m' E. cbn in E. subst m. cbn in Hhead.
    destruct (timers_ s) as [|[k' x'] m0] eqn:E0; [done|]. injection Hhead as -> ->.
    cbn. by apply (Harm _ _ _ E0).
Qed.

Lemma in_range b s id :
  wf b s -> id ∈ (timers_ s).*2 ++ b ++ adds (queued s) -> (id < length (timers s))%nat.
Proof.
  intros Hwf Hin. apply elem_of_app in Hin as [Hin|Hin]; [|by eapply wf_range].
  apply list_elem_of_fmap in Hin as ([k x] & -> & Hin). cbn.
  eapply expiration_in_range. by eapply wf_keys.
Qed.

(** The search of [cancelInLoop] finds the timer when it is in the map. *)
Lemma cancelInLoop_find b id time s :
  wf b s -> expiration id s = Some time ->
  match list_find (fun e => e = (time, id))
    (take (TimerMap.upper_bound time (timers_ s) - TimerMap.lower_bound time (timers_ s))
       (drop (TimerMap.lower_bound time (timers_ s)) (timers_ s))) with
  | Some (i, _) =>
      timers_ s !! (TimerMap.lower_bound time (timers_ s) + i)%nat = Some (time, id)
  | None => id ∉ (timers_ s).*2
  end.
Proof.
  intros Hwf He. destruct (list_find _ _) as [[i e]|] eqn:E.
  - apply list_find_Some in E as (E & -> & _). apply lookup_take_Some in E as [E _].
    by rewrite lookup_drop in E.
  - apply list_find_None in E. rewrite list.Forall_forall in E. intros Hin.
    apply list_elem_of_fmap in Hin as ([k x] & -> & Hin). cbn in *.
    destruct (wf_keys _ _ Hwf _ _ Hin) as [_ Hk]. rewrite He in Hk. injection Hk as ->.
    eapply E; [|reflexivity]. apply TimerMap.equal_range_elem; [apply Hwf|done].
Qed.

Lemma delete_wf b i time id s :
  wf b s -> armed s -> timers_ s !! i = Some (time, id) ->
  wf b (set_timers_ (delete i (timers_ s)) s) /\ armed (set_timers_ (delete i (timers_ s)) s) /\
  id ∉ (delete i (timers_ s)).*2 ++ b.
Proof.
  intros [Hs Hk Hn Hr Ha Hp Hc] Harm Hi.
  pose proof (delete_Permutation _ _ _ Hi) as Hperm.
  rewrite Hperm in Hn. cbn in Hn. apply list.NoDup_cons in Hn as [Hid Hn].
  split; [|split].
  - constructor; cbn; try done.
    + by apply TimerMap.sorted_delete.
    + intros k x Hin. apply Hk. rewrite Hperm. by right.
    + intros x Hx. destruct (Hc x Hx) as [H1 H2]. split; [|done]. intros Hin. apply H1.
      rewrite Hperm. cbn. by right.
  - intros k x m E. cbn in E.
    destruct (timers_ s) as [|[k0 x0] m0] eqn:E0; [done|].
    destruct (Harm _ _ _ E0) as (T & HT & Hle). exists T. split; [done|].
    assert ((k, x) ∈ (k0, x0) :: m0) as Hin by (rewrite Hperm, E; right; left).
    pose proof (TimerMap.sorted_first _ _ _ _ Hs Hin) as Hfirst. cbn in Hfirst. lia.
  - rewrite !elem_of_app in *. tauto.
Qed.

Lemma cancelInLoop_wf b id s :
  wf b s -> armed s -> (b <> [] -> callingExpiredTimers_ s = true) ->
  (id < length (timers s))%nat ->
  wf b (cancelInLoop id s) /\ armed (cancelInLoop id s) /\
  callingExpiredTimers_ (cancelInLoop id s) = callingExpiredTimers_ s.
Proof.
  intros Hwf Harm Hcall Hlt. unfold cancelInLoop. cbv zeta.
  destruct (lookup_lt_is_Some_2 _ _ Hlt) as [tm Htm].
  assert (expiration id s = Some (Timer.expiration_ tm)) as He by (unfold expiration; by rewrite Htm).
  change (expiration id (record (EvCancel id) s)) with (expiration id s). rewrite He.
  pose proof (cancelInLoop_find b id _ s Hwf He) as Hfind.
  change (timers_ (record (EvCancel id) s)) with (timers_ s).
  destruct (list_find _ _) as [[i e]|].
  - destruct (delete_wf b _ _ _ s Hwf Harm Hfind) as (Hwf' & Harm' & Hid).
    change (set_timers_ ?m (record ?e s)) with (record e (set_timers_ m s)).
    split; [|done]. apply record_wf; [done|done|]. intros ? [= <-] _. cbn.
    rewrite elem_of_app in Hid. tauto.
  - change (callingExpiredTimers_ (record (EvCancel id) s)) with (callingExpiredTimers_ s).
    change (cancelingTimers_ (record (EvCancel id) s)) with (cancelingTimers_ s).
    destruct (callingExpiredTimers_ s) eqn:Ec.
    + change (set_canceling ?c (record ?e s)) with (record e (set_canceling c s)).
      split; [|done]. apply record_wf.
      * destruct Hwf as [Hs Hk Hn Hr Ha Hp Hc]. constructor; cbn; try done.
        intros x Hx. destruct (Hc x Hx). split; [done|]. set_solver.
      * done.
      * intros ? [= <-] _. cbn. set_solver.
    + split; [|done]. apply record_wf; [done|done|]. intros ? [= <-] _. split; [done|].
      destruct b; [by intros ?%not_elem_of_nil|]. by specialize (Hcall ltac:(done)).
Qed.

Lemma new_timer_wf b cb time interval s :
  wf b s -> 0 < time -> 0 <= interval ->
  let '(id, s1) := new_timer cb time interval s in
  wf b s1 /\ (id < length (timers s1))%nat /\
  id ∉ (timers_ s1).*2 ++ b ++ adds (queued s1) /\ EvAdd id ∉ log s1.
Proof.
  intros Hwf Ht Hi. pose proof (in_range b s (length (timers s)) Hwf) as Hfresh.
  destruct Hwf as [Hs Hk Hn Hr Ha Hp Hc]. cbn.
  split; [|split; [rewrite length_app; cbn; lia|split]].
  - constructor; cbn; try done.
    + intros k id Hin. destruct (Hk k id Hin) as [? He]. split; [done|].
      pose proof (expiration_in_range _ _ _ He). unfold expiration in *. cbn.
      by rewrite lookup_app_l.
    + intros id Hin. rewrite length_app. specialize (Hr id Hin). lia.
    + intros id Hin. rewrite length_app. destruct (Ha id Hin). split; [lia|done].
    + by apply Forall_snoc.
  - intros Hin. apply Hfresh in Hin. lia.
  - intros Hin. apply Ha in Hin as [? _]. lia.
Qed.

Lemma do_action_wf b a s :
  wf b s -> armed s -> (b <> [] -> callingExpiredTimers_ s = true) -> action_ok a ->
  wf b (do_action a s) /\ armed (do_action a s) /\
  callingExpiredTimers_ (do_action a s) = callingExpiredTimers_ s.
Proof.
  intros Hwf Harm Hcall Ha. destruct a as [cb time interval|id]; cbn [do_action].
  - destruct Ha as [Ht Hi]. unfold addTimer.
    pose proof (new_timer_wf b cb time interval s Hwf Ht Hi) as Hnew.
    cbn [new_timer] in *. destruct Hnew as (Hwf' & Hlt & Hid & Hlog). cbn [snd].
    destruct (addTimerInLoop_wf b _ _ Hwf' Harm Hlt Hid Hlog) as (? & ? & ->). done.
  - case_decide; [|done]. by apply cancelInLoop_wf.
Qed.

(** *** What the callbacks of a batch may change *)

(** The timers started, in order. *)
Definition runs (l : list event) : list nat :=
  omap (fun e => match e with EvRun id => Some id | _ => None end) l.

(** From [s] to [s'] the timers [rn] were run: no timer object changed, and
    exactly the timers of the batch [b] that were canceled are recorded. *)
Definition ext (rn b : list nat) (s s' : t) : Prop :=
  exists new, log s' = log s ++ new /\ runs new = rn /\
    timers s `prefix_of` timers s' /\
    forall id, id ∈ b ->
      (id ∈ cancelingTimers_ s' <-> id ∈ cancelingTimers_ s \/ EvCancel id ∈ new).

Lemma ext_refl b s : ext [] b s s.
Proof.
  exists []. rewrite app_nil_r. split; [done|]. split; [done|]. split; [done|].
  intros. rewrite elem_of_nil. tauto.
Qed.

Lemma ext_trans r1 r2 b s1 s2 s3 : ext r1 b s1 s2 -> ext r2 b s2 s3 -> ext (r1 ++ r2) b s1 s3.
Proof.
  intros (n1 & E1 & <- & P1 & C1) (n2 & E2 & <- & P2 & C2). exists (n1 ++ n2).
  rewrite E2, E1, app_assoc. split; [done|]. split; [apply omap_app|].
  split; [by etrans|]. intros id Hid. rewrite C2, C1, elem_of_app by done. tauto.
Qed.

Lemma addTimer_ext b cb time interval s : ext [] b s (addTimer cb time interval s).2.
Proof.
  unfold addTimer, new_timer, addTimerInLoop. cbn [snd].
  set (s1 := set_timers _ s). exists [EvAdd (length (timers s))].
  assert (timers s `prefix_of` timers s1) as Hp by by eexists.
  assert (forall id, id ∈ b -> (id ∈ cancelingTimers_ s <->
    id ∈ cancelingTimers_ s \/ EvCancel id ∈ [EvAdd (length (timers s))])) as Hc.
  { intros. rewrite list_elem_of_singleton. naive_solver. }
  destruct (expiration _ _); [|by split].
  destruct (TimerMap.insert _ _ _) as [m it]. case_decide; by split.
Qed.

Lemma cancelInLoop_ext b id s :
  wf b s -> callingExpiredTimers_ s = true -> (id < length (timers s))%nat ->
  ext [] b s (cancelInLoop id s).
Proof.
  intros Hwf Hcall Hlt. unfold cancelInLoop. cbv zeta.
  destruct (lookup_lt_is_Some_2 _ _ Hlt) as [tm Htm].
  assert (expiration id s = Some (Timer.expiration_ tm)) as He by (unfold expiration; by rewrite Htm).
  change (expiration id (record (EvCancel id) s)) with (expiration id s). rewrite He.
  pose proof (cancelInLoop_find b id _ s Hwf He) as Hfind.
  change (timers_ (record (EvCancel id) s)) with (timers_ s).
  exists [EvCancel id].
  destruct (list_find _ _) as [[i e]|].
  - split; [done|]. split; [done|]. split; [done|]. intros x Hx. cbn.
    rewrite list_elem_of_singleton. split; [auto|]. intros [?|[= ->]]; [done|]. exfalso.
    apply list_elem_of_lookup_2 in Hfind.
    pose proof (wf_nodup _ _ Hwf) as Hn. apply list.NoDup_app in Hn as (_ & Hn & _).
    apply (Hn id); [|apply elem_of_app; by left].
    apply list_elem_of_fmap. by eexists (_, _).
  - cbn. rewrite Hcall. split; [done|]. split; [done|]. split; [done|]. intros x Hx. cbn.
    rewrite list_elem_of_singleton. set_solver.
Qed.

Lemma do_action_ext b a s :
  wf b s -> callingExpiredTimers_ s = true -> ext [] b s (do_action a s).
Proof.
  intros Hwf Hcall. destruct a; cbn [do_action]; [apply addTimer_ext|].
  case_decide; [by apply cancelInLoop_ext|apply ext_refl].
Qed.

Lemma do_actions_spec b acts s :
  wf b s -> armed s -> callingExpiredTimers_ s = true -> Forall action_ok acts ->
  let s' := fold_left (fun s a => do_action a s) acts s in
  wf b s' /\ armed s' /\ callingExpiredTimers_ s' = true /\ ext [] b s s'.
Proof.
  intros Hwf Harm Hcall Hok. revert s Hwf Harm Hcall.
  induction Hok as [|a acts Ha _ IH]; intros s Hwf Harm Hcall; cbn [fold_left].
  - split; [done|]. split; [done|]. split; [done|]. apply ext_refl.
  - destruct (do_action_wf b a s Hwf Harm (fun _ => Hcall) Ha) as (H1 & H2 & H3).
    rewrite Hcall in H3. destruct (IH _ H1 H2 H3) as (H4 & H5 & H6 & H7).
    split; [done|]. split; [done|]. split; [done|].
    eapply (ext_trans [] []); [by apply do_action_ext|done].
Qed.

(** The callbacks of timers only ask for timers at positive times. *)
Context (body_ok : forall cb l, Forall action_ok (body cb l)).

Lemma run_timer_spec b id s :
  wf b s -> armed s -> callingExpiredTimers_ s = true -> id ∈ b ->
  wf b (run_timer id s) /\ armed (run_timer id s) /\
  callingExpiredTimers_ (run_timer id s) = true /\ ext [id] b s (run_timer id s).
Proof.
  intros Hwf Harm Hcall Hid. unfold run_timer.
  assert (id < length (timers s))%nat as Hlt by (eapply wf_range; [done|]; apply elem_of_app; by left).
  destruct (lookup_lt_is_Some_2 _ _ Hlt) as [tm ->]. cbv zeta.
  assert (wf b (record (EvRun id) s)) as Hwf1 by by apply record_wf.
  destruct (do_actions_spec b _ _ Hwf1 Harm Hcall
    (body_ok (Timer.timerCallback_ tm) (log (record (EvRun id) s)))) as (H1 & H2 & H3 & H4).
  split; [done|]. split; [done|]. split; [done|].
  eapply (ext_trans [id] []); [|exact H4].
  exists [EvRun id]. split; [done|]. split; [done|]. split; [done|].
  intros x _. cbn. rewrite list_elem_of_singleton. naive_solver.
Qed.

Lemma run_timers_spec b ids s :
  wf b s -> armed s -> callingExpiredTimers_ s = true -> ids ⊆ b ->
  let s' := fold_left (fun s id => run_timer id s) ids s in
  wf b s' /\ armed s' /\ ext ids b s s'.
Proof.
  revert s. induction ids as [|id ids IH]; intros s Hwf Harm Hcall Hsub; cbn [fold_left].
  - split; [done|]. split; [done|]. apply ext_refl.
  - destruct (run_timer_spec b id s) as (H1 & H2 & H3 & H4); try done; [set_solver|].
    destruct (IH _ H1 H2 H3) as (H5 & H6 & H7); [set_solver|].
    split; [done|]. split; [done|]. by apply (ext_trans [id] ids _ _ _ _ H4).
Qed.

(** *** The second loop of [handleRead] *)

(** Where a timer of the batch is afterwards. *)
Definition rescheduled (s : t) (id : nat) (k : Z) : Prop :=
  exists tm, timers s !! id = Some tm /\ Timer.interval_ tm <> 0 /\
    id ∉ cancelingTimers_ s /\ k = Timer.expiration_ tm + Timer.interval_ tm.

Lemma wf_shrink b id s : wf (id :: b) s -> wf b s.
Proof.
  intros [Hs Hk Hn Hr Ha Hp Hc]. constructor; try done.
  - rewrite list.NoDup_app in *. destruct Hn as (? & Hn & Hn2). cbn in Hn2.
    apply list.NoDup_cons in Hn2 as [? ?]. set_solver.
  - set_solver.
  - set_solver.
Qed.

Lemma reinsert_spec b id s :
  wf (id :: b) s ->
  let s' := reinsert s id in
  wf b s' /\ log s' = log s /\ cancelingTimers_ s' = cancelingTimers_ s /\
  (forall x, x <> id -> timers s' !! x = timers s !! x) /\
  (forall k x, (k, x) ∈ timers_ s' <->
     (k, x) ∈ timers_ s \/ (x = id /\ rescheduled s id k)).
Proof.
  intros Hwf. pose proof (wf_shrink _ _ _ Hwf) as Hwf'.
  assert (id < length (timers s))%nat as Hlt by (eapply wf_range; [exact Hwf|]; left).
  destruct (lookup_lt_is_Some_2 _ _ Hlt) as [tm Htm]. unfold reinsert. rewrite Htm. cbv zeta.
  destruct (Timer.repeat tm && negb (bool_decide (id ∈ cancelingTimers_ s))) eqn:E.
  2: { split; [done|]. split; [done|]. split; [done|]. split; [done|]. intros k x.
    split; [auto|]. intros [?|[-> (tm' & Htm' & Hrep & Hcan & _)]]; [done|]. exfalso.
    simplify_eq. unfold Timer.repeat in E. apply Z.eqb_neq in Hrep. rewrite Hrep in E.
    by rewrite bool_decide_eq_false_2 in E. }
  apply andb_prop in E as [Hrep Hcan]. apply negb_true_iff, bool_decide_eq_false in Hcan.
  unfold Timer.repeat in Hrep. zbool.
  set (tm' := Timer.restart tm). set (s1 := set_timers _ s).
  assert (id ∉ (timers_ s).*2 ++ b ++ adds (queued s)) as Hid.
  { pose proof (wf_nodup _ _ Hwf) as Hn. cbn in Hn.
    rewrite <- Permutation_middle in Hn. by apply list.NoDup_cons in Hn as [? _]. }
  pose proof (proj1 (list.Forall_forall _ _) (wf_positive _ _ Hwf) tm
    (list_elem_of_lookup_2 _ _ _ Htm)) as [Hpos Hint].
  assert (wf b s1) as Hwf1.
  { destruct Hwf' as [Hs Hk Hn Hr Ha Hp Hc]. constructor; cbn; rewrite ?length_insert; try done.
    - intros k x Hin. destruct (Hk k x Hin) as [? He]. split; [done|].
      unfold expiration in *. cbn. rewrite list_lookup_insert_ne; [done|].
      intros ->. apply Hid, elem_of_app. left. apply list_elem_of_fmap. by exists (k, x).
    - apply list.Forall_insert; [done|]. unfold tm'. cbn. lia. }
  split; [|split; [done|split; [done|split]]].
  - eapply (insert_wf b id (Timer.expiration_ tm')); try done.
    + unfold tm'. cbn. lia.
    + unfold expiration. cbn. by rewrite list_lookup_insert_eq.
    + intros Hc. apply (wf_canceled _ _ Hwf) in Hc as [_ Hc]. apply Hcan, Hc. left.
  - intros x Hx. cbn. by rewrite list_lookup_insert_ne.
  - intros k x. cbn [timers_ set_timers_]. rewrite <- TimerMap.insert_perm, elem_of_cons.
    split; [intros [[= -> ->]|?]; [right|by left]|intros [?|[-> (tm2 & ? & _ & _ & ->)]]; [by right|left]].
    + split; [done|]. by exists tm.
    + by simplify_eq.
Qed.

Lemma reinserts_spec ids s :
  wf ids s ->
  let s' := fold_left reinsert ids s in
  wf [] s' /\ log s' = log s /\
  (forall k x, (k, x) ∈ timers_ s' <->
     (k, x) ∈ timers_ s \/ (x ∈ ids /\ rescheduled s x k)).
Proof.
  revert s. induction ids as [|id ids IH]; intros s Hwf; cbn [fold_left].
  - split; [done|]. split; [done|]. intros k x. rewrite elem_of_nil. tauto.
  - destruct (reinsert_spec ids id s Hwf) as (H1 & H2 & H3 & H4 & H5).
    destruct (IH _ H1) as (H6 & H7 & H8). split; [done|]. split; [by rewrite H7|].
    assert (id ∉ ids) as Hid.
    { pose proof (wf_nodup _ _ Hwf) as Hn. apply list.NoDup_app in Hn as (_ & _ & Hn).
      apply list.NoDup_cons in Hn as [Hn _]. set_solver. }
    intros k x. rewrite H8, H5, elem_of_cons. unfold rescheduled. rewrite H3.
    destruct (decide (x = id)) as [->|Hne]; [tauto|]. rewrite H4 by done. tauto.
Qed.

(** *** [handleRead] *)

(** The timers that [handleRead] takes out of the map. *)
Definition expired_at (now : Z) (s : t) : list nat :=
  (filter (fun e => e.1 <= now) (timers_ s)).*2.

(** The state in which the callbacks start. *)
Lemma batch_wf now s c :
  wf [] s -> armed s ->
  let bound := TimerMap.upper_bound now (timers_ s) in
  let s2 := set_canceling ∅ (set_calling c (set_timers_ (drop bound (timers_ s)) s)) in
  wf ((take bound (timers_ s)).*2) s2 /\ armed s2.
Proof.
  intros [Hs Hk Hn Hr Ha Hp Hc] Harm. cbv zeta.
  set (bound := TimerMap.upper_bound now (timers_ s)).
  pose proof (take_drop bound (timers_ s)) as Hsplit.
  assert (forall e, e ∈ drop bound (timers_ s) -> e ∈ timers_ s) as Hdrop
    by (intros e; rewrite <- Hsplit at 2; set_solver).
  assert (forall e, e ∈ take bound (timers_ s) -> e ∈ timers_ s) as Htake
    by (intros e; rewrite <- Hsplit at 2; set_solver).
  split; [constructor|]; cbn; try done.
  - by apply TimerMap.sorted_drop.
  - intros k id Hin. apply Hk. by apply Hdrop.
  - cbn in Hn. rewrite <- Hsplit, fmap_app in Hn. by rewrite app_assoc, (Permutation_app_comm (_ <$> drop _ _)).
  - intros id Hin. apply elem_of_app in Hin as [Hin|Hin]; [|by apply Hr].
    apply list_elem_of_fmap in Hin as ([k x] & -> & Hin). eapply expiration_in_range.
    by apply (Hk k), Htake.
  - intros id Hid. destruct (Hc id Hid) as [Hnot _]. split.
    + intros Hin. apply Hnot. apply list_elem_of_fmap in Hin as (e & -> & Hin).
      apply list_elem_of_fmap. eauto.
    + intros Hin. exfalso. apply Hnot. apply list_elem_of_fmap in Hin as (e & -> & Hin).
      apply list_elem_of_fmap. eauto.
  - intros k id m E. cbn in E. destruct (timers_ s) as [|[k0 id0] m0] eqn:E0; [by rewrite drop_nil in E|].
    destruct (Harm _ _ _ E0) as (T & HT & Hle). exists T. split; [done|].
    assert ((k, id) ∈ (k0, id0) :: m0) as Hin by (apply Hdrop; rewrite E; left).
    pose proof (TimerMap.sorted_first _ _ _ _ Hs Hin) as Hfirst. cbn in Hfirst. lia.
Qed.

Lemma reset_first_spec s :
  wf [] s ->
  let s' := match timers_ s with (time, _) :: _ => resetTimer time s | [] => resetTimer 0 s end in
  wf [] s' /\ armed s' /\ log s' = log s /\ timers_ s' = timers_ s.
Proof.
  intros [Hs Hk Hn Hr Ha Hp Hc]. destruct (timers_ s) as [|[k id] m] eqn:E.
  - split; [by constructor; cbn; rewrite ?E|]. split; [|done]. intros ? ? ?. cbn. by rewrite E.
  - split; [by constructor; cbn; rewrite ?E|]. split; [|done]. intros k' id' m' E'. cbn in E'.
    rewrite E in E'. injection E' as <- <- <-. exists k. split; [|lia].
    apply itimerspec_armed. apply (Hk k id). left.
Qed.

Lemma handleRead_spec now s :
  wf [] s -> armed s ->
  let s' := handleRead now s in
  wf [] s' /\ armed s' /\
  exists new, log s' = log s ++ new /\ runs new = expired_at now s /\
    forall id k, id ∈ expired_at now s ->
      ((k, id) ∈ timers_ s' <->
       exists tm, timers s !! id = Some tm /\ Timer.interval_ tm <> 0 /\
         EvCancel id ∉ new /\ k = Timer.expiration_ tm + Timer.interval_ tm).
Proof.
  intros Hwf Harm. unfold handleRead, expired_at.
  rewrite <- TimerMap.take_upper_bound_filter by apply Hwf.
  set (bound := TimerMap.upper_bound now (timers_ s)). set (expired := _.*2).
  destruct (batch_wf now s true Hwf Harm) as [Hwf2 Harm2]. fold bound expired in Hwf2.
  cbv zeta. set (s2 := set_canceling ∅ _).
  destruct (run_timers_spec expired expired s2 Hwf2 Harm2 eq_refl ltac:(done))
    as (Hwf3 & _ & new & Hlog & Hruns & [ext Hpre] & Hcan).
  set (s3 := fold_left _ expired s2) in *.
  assert (wf expired (set_calling false s3)) as Hwf4 by (destruct Hwf3; by constructor).
  destruct (reinserts_spec expired _ Hwf4) as (Hwf5 & Hlog5 & Htimers).
  set (s5 := fold_left reinsert expired _) in *.
  destruct (reset_first_spec s5 Hwf5) as (Hwf6 & Harm6 & Hlog6 & Ht6).
  split; [done|]. split; [done|]. exists new.
  split; [by rewrite Hlog6, Hlog5|]. split; [done|].
  intros id k Hid. rewrite Ht6, Htimers. unfold rescheduled. cbn [timers cancelingTimers_ set_calling timers_].
  assert (timers s3 !! id = timers s !! id) as ->.
  { rewrite Hpre. cbn. apply lookup_app_l. eapply (wf_range _ _ Hwf2). apply elem_of_app. by left. }
  assert ((k, id) ∉ timers_ s3) as Hnot.
  { intros Hin. pose proof (wf_nodup _ _ Hwf3) as Hn. apply list.NoDup_app in Hn as (_ & Hn & _).
    apply (Hn id); [|apply elem_of_app; by left]. apply list_elem_of_fmap. by exists (k, id). }
  pose proof (Hcan id Hid) as Hcid. cbn in Hcid. split.
  - intros [?|(_ & tm & ? & ? & Hx & ?)]; [done|]. exists tm. split; [done|]. split; [done|].
    split; [|done]. intros ?. apply Hx, Hcid. by right.
  - intros (tm & ? & ? & Hx & ?). right. split; [done|]. exists tm. split; [done|]. split; [done|].
    split; [|done]. rewrite Hcid. set_solver.
Qed.

(** *** Reached states *)

Lemma make_wf : wf [] make /\ armed make.
Proof.
  split; [|done]. constructor; cbn; try done; try (by constructor).
  all: set_solver.
Qed.

Lemma set_queued_wf f q s :
  wf [] s -> queued s = f :: q -> wf [] (set_queued q s).
Proof.
  intros [Hs Hk Hn Hr Ha Hp Hc] E. rewrite E in *.
  assert (forall x, x ∈ adds q -> x ∈ adds (f :: q)) as Hq.
  { intros x Hx. destruct f; cbn; [by right|done]. }
  constructor; cbn; try done.
  - destruct f; cbn in Hn; [|done]. rewrite <- Permutation_middle in Hn.
    by apply list.NoDup_cons in Hn as [_ ?].
  - intros id Hin. apply Hr. cbn. by apply Hq.
  - intros id Hin. destruct (Ha id Hin). auto.
Qed.

Lemma cancelInLoop_rest_wf id s :
  wf [] s -> armed s -> wf [] (cancelInLoop id s) /\ armed (cancelInLoop id s).
Proof.
  intros Hwf Harm. destruct (decide (id < length (timers s))%nat) as [Hlt|Hge].
  - by destruct (cancelInLoop_wf [] id s Hwf Harm ltac:(done) Hlt) as (? & ? & _).
  - unfold cancelInLoop, expiration. cbv zeta. cbn.
    rewrite (lookup_ge_None_2 (timers s)) by lia. cbn. split; [|done].
    apply record_wf; [done|done|]. intros ? [= <-] Hin. apply (wf_added _ _ Hwf) in Hin. lia.
Qed.

Lemma do_op_wf o s : wf [] s -> armed s -> op_ok o -> wf [] (do_op o s) /\ armed (do_op o s).
Proof.
  intros Hwf Harm Hok. destruct o as [a|cb time interval|id| |now]; cbn [do_op].
  - by destruct (do_action_wf [] a s Hwf Harm ltac:(done) Hok) as (? & ? & _).
  - destruct Hok as [Ht Hi]. pose proof (new_timer_wf [] cb time interval s Hwf Ht Hi) as Hnew.
    unfold addTimer_remote. destruct (new_timer cb time interval s) as [id s1] eqn:E.
    destruct Hnew as (Hwf1 & Hlt & Hid & Hlog). injection E as <- <-. cbn [snd]. split; [|done].
    destruct Hwf1 as [Hs Hk Hn Hr Ha Hp Hc]. constructor; cbn [timers_ queued log timers set_queued]; try done.
    + rewrite adds_app. cbn [adds omap list_omap]. cbn in Hid, Hn.
      rewrite (app_assoc _ []), app_nil_r, app_assoc.
      rewrite (Permutation_app_comm _ [_]). cbn. by constructor.
    + intros x Hx. rewrite adds_app in Hx. cbn in Hx. apply elem_of_app in Hx as [Hx|Hx].
      * apply Hr. by apply elem_of_app; right.
      * apply list_elem_of_singleton in Hx as ->. done.
    + intros x Hx. destruct (Ha x Hx) as [? ?]. split; [done|]. rewrite adds_app. cbn.
      intros [?|Hin]%elem_of_app; [done|]. apply list_elem_of_singleton in Hin as ->. done.
  - case_decide; [|done]. split; [|done]. unfold cancel_remote.
    destruct Hwf as [Hs Hk Hn Hr Ha Hp Hc]. constructor; cbn; rewrite ?adds_app; cbn; rewrite ?app_nil_r; done.
  - destruct (queued s) as [|[id|id] q] eqn:E; [done| |].
    + pose proof (set_queued_wf _ _ _ Hwf E) as Hwf1.
      assert (id ∈ adds (queued s)) as Hin by (rewrite E; left).
      destruct (addTimerInLoop_wf [] id (set_queued q s) Hwf1 Harm) as (? & ? & _); [| | |done].
      * eapply (wf_range _ _ Hwf). done.
      * pose proof (wf_nodup _ _ Hwf) as Hn. rewrite E in Hn. cbn in Hn.
        rewrite <- Permutation_middle in Hn. by apply list.NoDup_cons in Hn as [? _].
      * intros Hlog. by apply (wf_added _ _ Hwf) in Hlog as [_ ?].
    + apply cancelInLoop_rest_wf; [by eapply set_queued_wf|done].
  - destruct (handleRead_spec now s Hwf Harm) as (? & ? & _). done.
Qed.

Lemma do_ops_wf os s :
  wf [] s -> armed s -> Forall op_ok os -> wf [] (do_ops os s) /\ armed (do_ops os s).
Proof.
  intros Hwf Harm Hok. revert s Hwf Harm. induction Hok as [|o os Ho _ IH]; intros s Hwf Harm; [done|].
  cbn. destruct (do_op_wf o s Hwf Harm Ho). by apply IH.
Qed.

Lemma addTimerInLoop_log id s : log (addTimerInLoop id s) = log s ++ [EvAdd id].
Proof.
  unfold addTimerInLoop. destruct (expiration _ _); [|done].
  destruct (TimerMap.insert _ _ _). by case_decide.
Qed.

Lemma cancelInLoop_log id s : log (cancelInLoop id s) = log s ++ [EvCancel id].
Proof.
  unfold cancelInLoop. cbv zeta. destruct (expiration _ _); [|done].
  destruct (list_find _ _) as [[]|]; [done|]. by destruct (callingExpiredTimers_ _).
Qed.

(** Only [handleRead] runs timers, and only those in the map. *)
Lemma do_op_log o s :
  wf [] s -> armed s ->
  exists new, log (do_op o s) = log s ++ new /\ runs new ⊆ (timers_ s).*2.
Proof.
  intros Hwf Harm. destruct o as [[cb time interval|id]|cb time interval|id| |now]; cbn [do_op do_action].
  - exists [EvAdd (length (timers s))]. split; [|set_solver].
    exact (addTimerInLoop_log _ (set_timers _ s)).
  - case_decide; [|exists []; split; [by rewrite app_nil_r|set_solver]].
    exists [EvCancel id]. split; [|set_solver]. apply cancelInLoop_log.
  - exists []. split; [by rewrite app_nil_r|set_solver].
  - exists []. split; [|set_solver]. rewrite app_nil_r. by case_decide.
  - destruct (queued s) as [|[id|id] q]; [exists []; split; [by rewrite app_nil_r|set_solver]| |].
    + exists [EvAdd id]. split; [|set_solver]. exact (addTimerInLoop_log id (set_queued q s)).
    + exists [EvCancel id]. split; [|set_solver]. exact (cancelInLoop_log id (set_queued q s)).
  - destruct (handleRead_spec now s Hwf Harm) as (_ & _ & new & Hlog & Hruns & _).
    exists new. split; [done|]. rewrite Hruns. unfold expired_at. intros id Hin.
    apply list_elem_of_fmap in Hin as (e & -> & Hin). apply list_elem_of_filter in Hin as [_ Hin].
    apply list_elem_of_fmap. by exists e.
Qed.

Lemma canceled_app id l l' : canceled id l -> canceled id (l ++ l').
Proof.
  intros (l1 & l2 & -> & Hin). exists l1, (l2 ++ l'). by rewrite <- app_assoc.
Qed.

Lemma canceled_stays_out id os s :
  wf [] s -> armed s -> Forall op_ok os -> canceled id (log s) ->
  exists new, log (do_ops os s) = log s ++ new /\ id ∉ runs new.
Proof.
  intros Hwf Harm Hok. revert s Hwf Harm.
  induction Hok as [|o os Ho _ IH]; intros s Hwf Harm Hc.
  - exists []. split; [by rewrite app_nil_r|]. apply not_elem_of_nil.
  - destruct (do_op_wf o s Hwf Harm Ho) as [Hwf1 Harm1].
    destruct (do_op_log o s Hwf Harm) as (n1 & E1 & Hr1).
    destruct (IH _ Hwf1 Harm1) as (n2 & E2 & Hr2); [rewrite E1; by apply canceled_app|].
    exists (n1 ++ n2). cbn. unfold do_ops in E2. rewrite E2, E1, app_assoc. split; [done|].
    unfold runs. rewrite omap_app. intros [Hin|Hin]%elem_of_app; [|done].
    apply Hr1 in Hin. by destruct (wf_canceled _ _ Hwf id Hc).
Qed.

(** One operation runs a timer at most once. *)
Lemma do_op_runs_once o s :
  wf [] s -> armed s -> exists new, log (do_op o s) = log s ++ new /\ NoDup (runs new).
Proof.
  intros Hwf Harm.
  assert (log s = log s ++ [] /\ NoDup (runs (@nil event))) as Hnone
    by (rewrite app_nil_r; split; [done|exact NoDup_nil_2]).
  destruct o as [[cb time interval|id]|cb time interval|id| |now]; cbn [do_op do_action].
  - exists [EvAdd (length (timers s))]. split; [exact (addTimerInLoop_log _ (set_timers _ s))|exact NoDup_nil_2].
  - case_decide; [exists [EvCancel id]; split; [apply cancelInLoop_log|exact NoDup_nil_2]|by exists []].
  - by exists [].
  - exists []. by case_decide.
  - destruct (queued s) as [|[id|id] q]; [by exists []| |].
    + exists [EvAdd id]. split; [exact (addTimerInLoop_log id (set_queued q s))|exact NoDup_nil_2].
    + exists [EvCancel id]. split; [exact (cancelInLoop_log id (set_queued q s))|exact NoDup_nil_2].
  - destruct (handleRead_spec now s Hwf Harm) as (_ & _ & new & Hlog & Hruns & _).
    exists new. split; [done|]. rewrite Hruns. unfold expired_at.
    eapply sublist_NoDup; [|apply fmap_sublist, sublist_filter].
    pose proof (wf_nodup _ _ Hwf) as Hn. by apply list.NoDup_app in Hn as [? _].
Qed.

(** How often the timer [id] was run. *)
Definition times_run (id : nat) (l : list event) : nat := length (filter (fun x => x = id) (runs l)).

Lemma times_run_app id l1 l2 : times_run id (l1 ++ l2) = (times_run id l1 + times_run id l2)%nat.
Proof. unfold times_run, runs. by rewrite omap_app, list.filter_app, length_app. Qed.

Lemma times_run_none id l : id ∉ runs l -> times_run id l = O.
Proof.
  intros H. unfold times_run. rewrite list_filter_none; [done|]. apply list.Forall_forall. by intros x Hx ->.
Qed.

Lemma times_run_once id l : NoDup (runs l) -> (times_run id l <= 1)%nat.
Proof.
  unfold times_run. generalize (runs l). intros ids Hn. induction Hn as [|x ids Hx Hn IH]; [cbn; lia|].
  rewrite filter_cons. case_decide as E; [|done]. subst x. rewrite list_filter_none; [cbn; lia|].
  apply list.Forall_forall. by intros x Hin ->.
Qed.

(** From the cancellation on, which may come from the batch of the timer. *)
Lemma canceled_runs_once id os l1 l2 :
  Forall op_ok os -> log (do_ops os make) = l1 ++ EvCancel id :: l2 -> EvAdd id ∈ l1 ->
  (times_run id l2 <= 1)%nat.
Proof.
  intros Hok. revert l1 l2. induction os as [|o os IH] using rev_ind; intros l1 l2 E Hadd.
  { by destruct l1. }
  apply Forall_app in Hok as [Hok Ho]. destruct (do_ops_wf os make (proj1 make_wf) (proj2 make_wf) Hok) as [Hwf Harm].
  unfold do_ops in E. rewrite fold_left_app in E. cbn [fold_left] in E. fold (do_ops os make) in E.
  destruct (do_op_runs_once o _ Hwf Harm) as (new & Hlog & Hn). rewrite Hlog in E.
  assert (forall k, new = k ++ EvCancel id :: l2 -> (times_run id l2 <= 1)%nat) as Hnew.
  { intros k ->. apply times_run_once. unfold runs in *. rewrite omap_app in Hn. by apply list.NoDup_app in Hn as (_ & _ & Hn). }
  apply app_eq_app in E as (k & [[E1 E2]|[E1 E2]]); [|by eapply Hnew].
  destruct k as [|e k]; [by apply (Hnew [])|]. injection E2 as <- ->.
  rewrite times_run_app, (times_run_none id new), Nat.add_0_r; [by eapply (IH Hok)|].
  destruct (do_op_log o _ Hwf Harm) as (new' & Hlog' & Hr). rewrite Hlog in Hlog'. apply app_inv_head in Hlog' as <-.
  intros Hin%Hr. apply (wf_canceled _ _ Hwf id); [|done]. by exists l1, k.
Qed.

(** ** Properties *)

(** After any sequence of operations with positive times, by handlers of
    the loop thread, by other threads and by timer callbacks, the map is
    sorted, holds each timer at most once and under its own expiration time,
    and the timerfd was last set to a valid absolute time no later than the
    first expiration: no timer is missed. *)
Theorem timers_are_armed (os : list op) (Hok : Forall op_ok os) :
  let s := do_ops os make in
  TimerMap.sorted (timers_ s) /\ NoDup (timers_ s).*2 /\
  (forall k id, (k, id) ∈ timers_ s -> expiration id s = Some k) /\
  forall k id m, timers_ s = (k, id) :: m ->
    exists time, armed_for (utmr s) time /\ time <= k.
Proof.
  destruct (do_ops_wf os make (proj1 make_wf) (proj2 make_wf) Hok) as [Hwf Harm].
  split; [apply Hwf|]. split.
  - pose proof (wf_nodup _ _ Hwf) as Hn. by apply list.NoDup_app in Hn as [? _].
  - split; [|done]. intros k id Hin. by apply (wf_keys _ _ Hwf).
Qed.

(** C19: [handleRead] at time [now] runs exactly the timers that expire at
    [now] or before, once each, earliest first and in order of insertion for
    equal times, whatever their callbacks add or cancel; afterwards such a
    timer is in the map, at its expiration plus its interval, exactly if it
    repeats and was not canceled by a callback of the batch. *)
Theorem handleRead_runs_expired (os : list op) (now : Z) (Hok : Forall op_ok os) :
  let s := do_ops os make in
  let s' := handleRead now s in
  exists new, log s' = log s ++ new /\
    runs new = (filter (fun e => e.1 <= now) (timers_ s)).*2 /\
    forall id k, id ∈ runs new ->
      ((k, id) ∈ timers_ s' <->
       exists tm, timers s !! id = Some tm /\ Timer.interval_ tm <> 0 /\
         EvCancel id ∉ new /\ k = Timer.expiration_ tm + Timer.interval_ tm).
Proof.
  destruct (do_ops_wf os make (proj1 make_wf) (proj2 make_wf) Hok) as [Hwf Harm].
  destruct (handleRead_spec now _ Hwf Harm) as (_ & _ & new & Hlog & Hruns & H).
  exists new. split; [done|]. split; [done|]. rewrite Hruns. exact H.
Qed.

(** C20: once a timer that was added is canceled, no operation after the one
    in which this happened runs it, even if it repeats. If that operation is the
    [handleRead] whose batch the timer belongs to, it may still run there: in
    all it runs at most once after it was canceled. *)
Theorem canceled_timer_never_runs (os1 os2 : list op) (id : nat)
  (Hok1 : Forall op_ok os1) (Hok2 : Forall op_ok os2)
  (Hc : canceled id (log (do_ops os1 make))) :
  (exists new, log (do_ops (os1 ++ os2) make) = log (do_ops os1 make) ++ new /\ id ∉ runs new) /\
  forall l1 l2, log (do_ops (os1 ++ os2) make) = l1 ++ EvCancel id :: l2 -> EvAdd id ∈ l1 ->
    (times_run id l2 <= 1)%nat.
Proof.
  split.
  - destruct (do_ops_wf os1 make (proj1 make_wf) (proj2 make_wf) Hok1) as [Hwf Harm].
    unfold do_ops at 1. rewrite fold_left_app. by apply canceled_stays_out.
  - intros l1 l2. apply canceled_runs_once. by apply Forall_app.
Qed.

(** [cancel] on the loop thread is ineffective for a timer that another
    thread has created but whose [addTimerInLoop] is still queued: the timer
    is then added and expires. *)
Theorem cancel_before_queued_add_is_lost (cb : C) (time : Z) :
  let s := do_ops [OpRemoteAdd cb time 0; OpAct (CancelTimer 0); OpFunctor] make in
  log s = [EvCancel 0; EvAdd 0] /\ timers_ s = [(time, 0%nat)] /\ expired_at time s = [0%nat].
Proof.
  split; [done|]. split; [done|]. unfold expired_at.
  change (timers_ _) with [(time, 0%nat)]. by rewrite filter_cons_True by (cbn; lia).
Qed.

(** A timer for the clock's epoch disarms the timerfd, which then stays
    silent for every timer in the map. *)
Theorem epoch_timer_disarms (cb : C) (time : Z) (Ht : 0 < time) :
  let s := do_ops [OpAct (AddTimer cb time 0); OpAct (AddTimer cb 0 0)] make in
  timers_ s = [(0, 1%nat); (time, 0%nat)] /\ utmr s = (0, 0).
Proof. by destruct time; [lia| |lia]. Qed.

End TimerQueue.

(** ** Witnesses *)

(** Timer 0 repeats, cancels timer 1 (due in the same batch) and adds one. *)
Definition sample_body (cb : nat) (l : list event) : list (@action nat) :=
  match cb with O => [CancelTimer 1; AddTimer 7%nat 5 0] | _ => [] end.

Lemma sample_body_ok cb l : Forall action_ok (sample_body cb l).
Proof. destruct cb; repeat constructor; cbn; lia. Qed.

Definition sample_ops : list (@op nat) :=
  [OpAct (AddTimer 0%nat 10 10); OpRemoteAdd 1%nat 12 4; OpFunctor; OpAct (AddTimer 2%nat 30 0)].

Lemma sample_ops_ok : Forall op_ok sample_ops.
Proof. repeat constructor; cbn; lia. Qed.

Lemma timers_are_armed_witness :
  timers_ (do_ops sample_body sample_ops make) = [(10, 0%nat); (12, 1%nat); (30, 2%nat)] /\
  (let s := do_ops sample_body sample_ops make in
   TimerMap.sorted (timers_ s) /\ NoDup (timers_ s).*2 /\
   (forall k id, (k, id) ∈ timers_ s -> expiration id s = Some k) /\
   forall k id m, timers_ s = (k, id) :: m ->
     exists time, armed_for (utmr s) time /\ time <= k).
Proof.
  split; [reflexivity|]. apply (timers_are_armed sample_body sample_body_ok sample_ops sample_ops_ok).
Defined.

Lemma handleRead_runs_expired_witness :
  log (handleRead sample_body 20 (do_ops sample_body sample_ops make)) =
    [EvAdd 0; EvAdd 1; EvAdd 2; EvRun 0; EvCancel 1; EvAdd 3; EvRun 1]%nat /\
  timers_ (handleRead sample_body 20 (do_ops sample_body sample_ops make)) =
    [(5, 3%nat); (20, 0%nat); (30, 2%nat)] /\
  (let s := do_ops sample_body sample_ops make in
   let s' := handleRead sample_body 20 s in
   exists new, log s' = log s ++ new /\
    runs new = (filter (fun e => e.1 <= 20) (timers_ s)).*2 /\
    forall id k, id ∈ runs new ->
      ((k, id) ∈ timers_ s' <->
       exists tm, timers s !! id = Some tm /\ Timer.interval_ tm <> 0 /\
         EvCancel id ∉ new /\ k = Timer.expiration_ tm + Timer.interval_ tm)).
Proof.
  split; [vm_compute; reflexivity|]. split; [vm_compute; reflexivity|].
  apply (handleRead_runs_expired sample_body sample_body_ok sample_ops 20 sample_ops_ok).
Defined.

Lemma canceled_timer_never_runs_witness :
  (exists new, log (do_ops sample_body ((sample_ops ++ [OpRead 20]) ++ [OpRead 100]) make) =
    log (do_ops sample_body (sample_ops ++ [OpRead 20]) make) ++ new /\ 1%nat ∉ runs new) /\
  forall l1 l2, log (do_ops sample_body ((sample_ops ++ [OpRead 20]) ++ [OpRead 100]) make) =
    l1 ++ EvCancel 1 :: l2 -> EvAdd 1 ∈ l1 -> (times_run 1 l2 <= 1)%nat.
Proof.
  apply (canceled_timer_never_runs sample_body sample_body_ok (sample_ops ++ [OpRead 20]) [OpRead 100] 1).
  - apply Forall_app. split; [apply sample_ops_ok|by repeat constructor].
  - by repeat constructor.
  - exists [EvAdd 0; EvAdd 1; EvAdd 2; EvRun 0], [EvAdd 3; EvRun 1].
    split; [vm_compute; reflexivity|]. right. left.
Defined.

Lemma epoch_timer_disarms_witness :
  timers_ (do_ops sample_body [OpAct (AddTimer 2%nat 30 0); OpAct (AddTimer 2%nat 0 0)] make)
    = [(0, 1%nat); (30, 0%nat)] /\
  utmr (do_ops sample_body [OpAct (AddTimer 2%nat 30 0); OpAct (AddTimer 2%nat 0 0)] make) = (0, 0).
Proof. apply (epoch_timer_disarms sample_body 2%nat 30). lia. Defined.

End TimerQueue.
