(* ===== verification/BaseTimerLoop.v ===== *)
(** The timer queue of [BaseTimerQueue] inside the rounds of its event loop, with
    the clock and the timerfd of the kernel: what a user of [runAt], [runAfter]
    and [runEvery] can rely on. *)

From S2P Require Import Prelude BaseTimerQueue.

Module TimerLoop.
Import TimerQueue.

Section TimerLoop.
Context {C : Type} (body : C -> list event -> list (@action C)).

Abbreviation tqueue := (@TimerQueue.t C).

(** A watcher that has become active: that of the timerfd, or another one,
    whose handler does [acts] to the timers. *)
Inductive source := TimerFd | Other (acts : list (@action C)).

(** Where the loop thread is: about to call [poll], going through
    [activeWatchers_], or in [doPendingFunctors] with [n] functors left. *)
Inductive place := AtPoll | Dispatching (active : list source) | Functors (n : nat).

(** [clock] is [CLOCK_MONOTONIC], the clock of [steady_clock] and of the
    timerfd; [fired] is the history of the timers taken out of the map to be
    run: the time of each, and the entry of the map. *)
Record t := mk {
  queue : tqueue;
  pc : place;
  clock : Z;
  fired : list (Z * (Z * nat))
}.

Definition make (now : Z) : t := mk TimerQueue.make AtPoll now [].


Definition do (o : @op C) (s : t) : t := mk (do_op body o (queue s)) (pc s) (clock s) (fired s).
Definition do_acts (acts : list (@action C)) (s : t) : t :=
  fold_left (fun s a => do (OpAct a) s) acts s.
Definition go (p : place) (s : t) : t := mk (queue s) p (clock s) (fired s).

Inductive event :=
  | Tick (d : Z)                                     (* time passes *)
  | Remote (o : @op C)                               (* [addTimer] or [cancel] of another thread *)
  | Poll (active : list source)                      (* [poll] returns *)
  | Handle                                           (* [handleEvents] of the next active watcher *)
  | Swap                                             (* [doPendingFunctors] takes the functors *)
  | Functor                                          (* and runs the next, or ends *)
  | OtherFunctor (acts : list (@action C)).          (* one that is not of the timer queue *)

(** One step of the loop thread, of another thread or of the clock; [None] when
    the loop thread is elsewhere. *)
Definition step (ev : event) (s : t) : option t :=
  match ev, pc s with
  | Tick d, _ => Some (mk (queue s) (pc s) (clock s + d) (fired s))
  | Remote o, _ => Some (do o s)
  | Poll active, AtPoll => Some (go (Dispatching active) s)
  | Handle, Dispatching (TimerFd :: rest) =>
      let expired := take (TimerMap.upper_bound (clock s) (timers_ (queue s))) (timers_ (queue s)) in
      let s1 := do (OpRead (clock s)) s in
      Some (mk (queue s1) (Dispatching rest) (clock s1) (fired s1 ++ map (pair (clock s)) expired))
  | Handle, Dispatching (Other acts :: rest) =>
      Some (go (Dispatching rest) (do_acts acts s))
  | Swap, Dispatching [] => Some (go (Functors (length (queued (queue s)))) s)
  | Functor, Functors (S n) => Some (go (Functors n) (do OpFunctor s))
  | Functor, Functors O => Some (go AtPoll s)
  | OtherFunctor acts, Functors _ => Some (do_acts acts s)
  | _, _ => None
  end.

Fixpoint run (evs : list event) (s : t) : option t :=
  match evs with
  | [] => Some s
  | ev :: rest => s1 ← step ev s; run rest s1
  end.

(** Time does not run backwards, other threads only queue, and callers ask for
    positive times. A [poll] may be interrupted or report only some of what is
    ready, as [epoll_wait] does when its array is full. *)
Definition event_ok (ev : event) (s : t) : Prop :=
  match ev with
  | Tick d => 0 <= d
  | Remote (OpRemoteAdd cb time interval) => op_ok (OpRemoteAdd cb time interval)
  | Remote (OpRemoteCancel id) => True
  | Remote _ => False
  | Poll active => forall acts, Other acts ∈ active -> Forall action_ok acts
  | OtherFunctor acts => Forall action_ok acts
  | _ => True
  end.

Fixpoint run_ok (evs : list event) (s : t) : Prop :=
  match evs with
  | [] => True
  | ev :: rest => event_ok ev s /\ forall s', step ev s = Some s' -> run_ok rest s'
  end.

(** ** What an operation does to the timers in the map *)

(** A timer that is not in the map yet: one not created, or still queued. *)
Definition fresh (x : nat) (q : tqueue) : Prop :=
  (length (timers q) <= x)%nat \/ x ∈ adds (queued q).

(** From [q] to [q'] the timers [E] were run: the others stay in the map unless
    they are canceled, and nothing enters the map but what is new or was run. *)
Record moves (E : list nat) (q q' : tqueue) : Prop := {
  moves_log : exists new, log q' = log q ++ new /\
    forall k x, (k, x) ∈ timers_ q -> (k, x) ∈ timers_ q' \/ x ∈ E \/ EvCancel x ∈ new;
  moves_old k x : (k, x) ∈ timers_ q' -> (k, x) ∈ timers_ q \/ x ∈ E \/ fresh x q;
  moves_queue x : x ∈ adds (queued q') -> fresh x q;
  moves_timers x tm : timers q !! x = Some tm ->
    exists tm', timers q' !! x = Some tm' /\ Timer.interval_ tm' = Timer.interval_ tm /\
      (x ∉ E -> tm' = tm)
}.

Lemma moves_refl q : moves [] q q.
Proof.
  constructor; [exists []; rewrite app_nil_r; auto|auto|by right|]. intros x tm Hx. by exists tm.
Qed.

Lemma moves_length E q q' : moves E q q' -> (length (timers q) <= length (timers q'))%nat.
Proof.
  intros [_ _ _ Ht]. destruct (length (timers q)) as [|n] eqn:E0; [lia|].
  destruct (lookup_lt_is_Some_2 (timers q) n) as [tm Hn]; [lia|].
  destruct (Ht n tm Hn) as (tm' & Hn' & _). by apply lookup_lt_Some in Hn'.
Qed.

Lemma moves_trans E1 E2 q1 q2 q3 : moves E1 q1 q2 -> moves E2 q2 q3 -> moves (E1 ++ E2) q1 q3.
Proof.
  intros M1 M2. pose proof (moves_length _ _ _ M1) as Hlen.
  destruct M1 as [(n1 & L1 & K1) O1 Q1 T1], M2 as [(n2 & L2 & K2) O2 Q2 T2].
  assert (forall x, fresh x q2 -> fresh x q1) as Hf by (intros x [?|?]; [left; lia|by apply Q1]).
  constructor.
  - exists (n1 ++ n2). split; [by rewrite L2, L1, app_assoc|]. intros k x Hx.
    destruct (K1 k x Hx) as [H|[H|H]]; [destruct (K2 k x H) as [?|[?|?]]|..]; rewrite ?elem_of_app; auto.
  - intros k x Hx. rewrite elem_of_app. destruct (O2 k x Hx) as [H|[H|H]]; [destruct (O1 k x H) as [?|[?|?]]|..]; auto.
  - auto.
  - intros x tm Hx. destruct (T1 x tm Hx) as (tm1 & H1 & I1 & S1). destruct (T2 x tm1 H1) as (tm2 & H2 & I2 & S2).
    exists tm2. split; [done|]. split; [by rewrite I2|]. intros [? ?]%not_elem_of_app. by rewrite S2, S1.
Qed.

Lemma moves_sub E E' q q' : moves E q q' -> E ⊆ E' -> moves E' q q'.
Proof.
  intros [(n & L & K) O Q T] Hsub.
  assert (forall x, x ∈ E -> x ∈ E') as Hs by exact Hsub. constructor; [|intros k x Hx; destruct (O k x Hx) as [?|[?|?]]; auto|done|].
  - exists n. split; [done|]. intros k x Hx. destruct (K k x Hx) as [?|[?|?]]; auto.
  - intros x tm Hx. destruct (T x tm Hx) as (tm' & ? & ? & ?). exists tm'. naive_solver.
Qed.

(** The fields of which [moves] speaks. *)
Lemma moves_eq E q q1 q2 :
  moves E q q1 -> log q2 = log q1 -> timers_ q2 = timers_ q1 -> timers q2 = timers q1 ->
  adds (queued q2) ⊆ adds (queued q1) -> moves E q q2.
Proof.
  intros [L O Q T] EL EM ET EQ. constructor; rewrite ?EL, ?EM, ?ET; auto.
Qed.

Lemma add_moves E q0 q id : moves E q0 q -> fresh id q0 -> moves E q0 (addTimerInLoop id q).
Proof.
  intros [(n & L & K) O Q T] Hf. unfold addTimerInLoop. set (s := record _ _).
  assert (moves E q0 s) as M.
  { constructor; [|done|done|done]. exists (n ++ [EvAdd id]). cbn. split; [by rewrite L, app_assoc|].
    intros k x Hx. destruct (K k x Hx) as [?|[?|?]]; rewrite ?elem_of_app; auto. }
  clearbody s. destruct (expiration id s) as [time|]; [|done].
  pose proof (TimerMap.insert_perm time id (timers_ s)) as Hperm.
  destruct (TimerMap.insert time id (timers_ s)) as [m it]. cbn in Hperm.
  assert (moves E q0 (set_timers_ m s)) as M'.
  { destruct M as [(n' & L' & K') O' Q' T']. constructor; cbn; [|intros k x|done|done].
    - exists n'. split; [done|]. intros k x Hx. rewrite <- Hperm, elem_of_cons. destruct (K' k x Hx); auto.
    - rewrite <- Hperm. intros [[= -> ->]|Hx]%elem_of_cons; auto. }
  case_decide; [|done]. by eapply moves_eq.
Qed.

Lemma cancel_moves id q : moves [] q (cancelInLoop id q).
Proof.
  unfold cancelInLoop. set (s := record _ _).
  assert (moves [] q s) as M.
  { destruct (moves_refl q) as [_ O Q T]. constructor; [|done|done|done].
    exists [EvCancel id]. split; [done|]. auto. }
  assert (exists new, log s = log q ++ new /\ EvCancel id ∈ new) as Hc by (exists [EvCancel id]; split; [done|left]).
  change (timers_ q) with (timers_ s). clearbody s. cbv zeta. destruct (expiration id s) as [time|]; [|done].
  destruct (list_find _ _) as [[i e]|] eqn:Ef; [|destruct (callingExpiredTimers_ s); [by eapply moves_eq|done]].
  apply list_find_Some in Ef as (Ef & -> & _). apply lookup_take_Some in Ef as [Ef _].
  rewrite lookup_drop in Ef. pose proof (delete_Permutation _ _ _ Ef) as Hperm.
  destruct M as [(n & L & K) O Q T], Hc as (n2 & L2 & Hc). rewrite L in L2. apply app_inv_head in L2 as <-.
  constructor; cbn; [|intros k x|done|done].
  - exists n. split; [done|]. intros k x Hx. destruct (K k x Hx) as [H|H]; [|auto].
    rewrite Hperm in H. apply elem_of_cons in H as [[= -> ->]|H]; auto.
  - intros Hx. apply O. rewrite Hperm. by right.
Qed.

Lemma moves_then q q1 q2 : moves [] q q1 -> moves [] q1 q2 -> moves [] q q2.
Proof. apply (moves_trans [] []). Qed.

Lemma action_moves a q : moves [] q (do_action a q).
Proof.
  destruct a as [cb time interval|id]; cbn [do_action].
  - unfold addTimer, new_timer. cbn [snd]. apply add_moves; [|by left].
    destruct (moves_refl q) as [L O Q T]. constructor; [done|done|done|]. intros x tm Hx. exists tm.
    split; [|done]. cbn. rewrite lookup_app_l by (by eapply lookup_lt_Some). done.
  - case_decide; [apply cancel_moves|apply moves_refl].
Qed.

Lemma actions_moves acts q : moves [] q (fold_left (fun s a => do_action a s) acts q).
Proof.
  revert q. induction acts as [|a acts IH]; intros q; cbn; [apply moves_refl|].
  eapply moves_then; [apply action_moves|apply IH].
Qed.

Lemma run_timer_moves id q : moves [] q (run_timer body id q).
Proof.
  unfold run_timer. destruct (timers q !! id) as [tm|]; [|apply moves_refl].
  eapply moves_then; [|apply actions_moves]. destruct (moves_refl q) as [_ O Q T].
  constructor; [|done|done|done]. exists [EvRun id]. auto.
Qed.

Lemma run_timers_moves ids q : moves [] q (fold_left (fun s id => run_timer body id s) ids q).
Proof.
  revert q. induction ids as [|id ids IH]; intros q; cbn; [apply moves_refl|].
  eapply moves_then; [apply run_timer_moves|apply IH].
Qed.

Lemma reinsert_moves id q : moves [id] q (reinsert q id).
Proof.
  assert (id ∈ [id]) as Hid by left. unfold reinsert.
  destruct (timers q !! id) as [tm|] eqn:E; [|by eapply moves_sub; [apply moves_refl|set_solver]].
  destruct (_ && _); [|by eapply moves_sub; [apply moves_refl|set_solver]]. cbv zeta. cbn [timers_ set_timers].
  pose proof (TimerMap.insert_perm (Timer.expiration_ (Timer.restart tm)) id (timers_ q)) as Hperm.
  constructor; cbn [timers_ log queued timers set_timers_ set_timers].
  - exists []. rewrite app_nil_r. split; [done|]. intros k x Hx. left. rewrite <- Hperm. by right.
  - intros k x. rewrite <- Hperm. intros [[= -> ->]|Hx]%elem_of_cons; auto.
  - by right.
  - intros x tm' Hx. destruct (decide (x = id)) as [->|Hne].
    + exists (Timer.restart tm). rewrite list_lookup_insert_eq by (by eapply lookup_lt_Some). simplify_eq. done.
    + exists tm'. by rewrite list_lookup_insert_ne.
Qed.

Lemma reinserts_moves ids q : moves ids q (fold_left reinsert ids q).
Proof.
  revert q. induction ids as [|id ids IH]; intros q; cbn; [apply moves_refl|].
  eapply (moves_trans [id]); [apply reinsert_moves|apply IH].
Qed.

Lemma handleRead_moves now q :
  moves (take (TimerMap.upper_bound now (timers_ q)) (timers_ q)).*2 q (handleRead body now q).
Proof.
  unfold handleRead. set (bound := TimerMap.upper_bound _ _). set (ids := _.*2). cbv zeta.
  assert (moves ids q (set_canceling ∅ (set_calling true (set_timers_ (drop bound (timers_ q)) q)))) as M1.
  { destruct (moves_refl q) as [_ O Q T]. constructor; cbn; [|intros k x Hx; left|done|].
    - exists []. rewrite app_nil_r. split; [done|]. intros k x Hx.
      rewrite <- (take_drop bound (timers_ q)) in Hx. apply elem_of_app in Hx as [Hx|Hx]; [|auto].
      right. left. unfold ids. apply list_elem_of_fmap. by exists (k, x).
    - rewrite <- (take_drop bound (timers_ q)). apply elem_of_app. by right.
    - intros x tm Hx. by exists tm. }
  set (s2 := set_canceling _ _) in *. clearbody s2.
  pose proof (run_timers_moves ids s2) as M2. set (s3 := fold_left _ ids s2) in *. clearbody s3.
  pose proof (reinserts_moves ids (set_calling false s3)) as M3. set (s5 := fold_left _ ids _) in *. clearbody s5.
  assert (moves ids q s5) as M.
  { eapply moves_sub; [eapply moves_trans; [exact M1|]; eapply moves_trans; [|exact M3]|].
    - eapply moves_eq; [exact M2|done..].
    - set_solver. }
  destruct (timers_ s5) as [|[time id] m]; by eapply moves_eq.
Qed.

(** ** Steps and runs *)

Lemma do_acts_spec acts s :
  do_acts acts s = mk (fold_left (fun q a => do_action a q) acts (queue s)) (pc s) (clock s) (fired s).
Proof.
  unfold do_acts. revert s. induction acts as [|a acts IH]; intros s; cbn [fold_left]; [by destruct s|]. by rewrite IH.
Qed.

Lemma do_ops_actions acts q : do_ops body (map OpAct acts) q = fold_left (fun q a => do_action a q) acts q.
Proof. revert q. induction acts as [|a acts IH]; intros q; [done|apply IH]. Qed.

Lemma actions_quiet acts (q : tqueue) : exists new,
  log (fold_left (fun q a => do_action a q) acts q) = log q ++ new /\ runs new = [].
Proof.
  revert q. induction acts as [|a acts IH]; intros q; cbn; [by exists []; rewrite app_nil_r|].
  destruct (IH (do_action a q)) as (n2 & -> & R2).
  assert (exists n1, log (do_action a q) = log q ++ n1 /\ runs n1 = []) as (n1 & -> & R1).
  { destruct a as [cb time interval|id]; cbn [do_action].
    - exists [EvAdd (length (timers q))]. split; [|done]. exact (addTimerInLoop_log _ (set_timers _ q)).
    - case_decide; [exists [EvCancel id]; by split; [apply cancelInLoop_log|]|].
      exists []. by rewrite app_nil_r. }
  exists (n1 ++ n2). split; [by rewrite app_assoc|]. unfold runs in *. by rewrite omap_app, R1, R2.
Qed.

(** The callbacks of timers only ask for timers at positive times. *)
Context (body_ok : forall cb l, Forall action_ok (body cb l)).

Definition active_ok (l : list source) : Prop := forall acts, Other acts ∈ l -> Forall action_ok acts.

Record good (s : t) : Prop := {
  good_wf : wf [] (queue s);
  good_armed : armed (queue s);
  good_active : match pc s with Dispatching l => active_ok l | _ => True end
}.

Lemma make_good now : good (make now).
Proof. destruct (make_wf body body_ok). by constructor. Qed.

(** From [s] to [s'] the timers [F] were run. *)
Record ran (F : list (Z * (Z * nat))) (s s' : t) : Prop := {
  ran_good : good s';
  ran_clock : clock s <= clock s';
  ran_log : exists new, log (queue s') = log (queue s) ++ new /\ runs new = F.*2.*2;
  ran_fired : fired s' = fired s ++ F;
  ran_moves : moves F.*2.*2 (queue s) (queue s')
}.

Lemma ran_trans F1 F2 s1 s2 s3 : ran F1 s1 s2 -> ran F2 s2 s3 -> ran (F1 ++ F2) s1 s3.
Proof.
  intros [G1 C1 (n1 & L1 & R1) E1 M1] [G2 C2 (n2 & L2 & R2) E2 M2].
  constructor; [done|lia| |by rewrite E2, E1, app_assoc|rewrite !fmap_app; by eapply moves_trans].
  exists (n1 ++ n2). rewrite L2, L1, app_assoc. split; [done|].
  unfold runs in *. by rewrite omap_app, R1, R2, !fmap_app.
Qed.

(** A step in which no timer runs. *)
Lemma quiet_ran s s' new :
  good s' -> clock s <= clock s' -> log (queue s') = log (queue s) ++ new -> runs new = [] ->
  fired s' = fired s -> moves [] (queue s) (queue s') -> ran [] s s'.
Proof.
  intros ? ? HL HR HF HM. constructor; [done|done|by exists new|by rewrite app_nil_r|done].
Qed.

Ltac quiet new :=
  apply (quiet_ran _ _ new); cbn; rewrite ?app_nil_r; try done; try lia; try apply moves_refl.

Lemma ran_refl s : good s -> ran [] s s.
Proof. intros. quiet (@nil TimerQueue.event). Qed.

Lemma acts_ran acts s p :
  good s -> Forall action_ok acts -> match p with Dispatching l => active_ok l | _ => True end ->
  ran [] s (go p (do_acts acts s)).
Proof.
  intros [Hwf Harm _] Hok Hp. rewrite do_acts_spec.
  destruct (actions_quiet acts (queue s)) as (new & L & R).
  quiet new; [|apply actions_moves].
  assert (Forall op_ok (map OpAct acts)) as Hops by (apply Forall_map; by eapply Forall_impl).
  pose proof (do_ops_wf body body_ok _ _ Hwf Harm Hops) as H.
  rewrite do_ops_actions in H. by constructor; [apply H|apply H|].
Qed.

Lemma remote_add_ran cb time interval s :
  good s -> 0 < time /\ 0 <= interval -> ran [] s (do (OpRemoteAdd cb time interval) s).
Proof.
  intros [Hwf Harm Ha] Hok. destruct (do_op_wf body body_ok (OpRemoteAdd cb time interval) _ Hwf Harm Hok).
  quiet (@nil TimerQueue.event).
  constructor; cbn.
  - exists []. rewrite app_nil_r. auto.
  - auto.
  - intros x. rewrite adds_app. cbn. intros [Hx|Hx%list_elem_of_singleton]%elem_of_app; [by right|left; lia].
  - intros x tm Hx. exists tm. split; [|done]. by rewrite lookup_app_l by (by eapply lookup_lt_Some).
Qed.

Lemma remote_cancel_ran id s : good s -> ran [] s (do (OpRemoteCancel id) s).
Proof.
  intros [Hwf Harm Ha]. destruct (do_op_wf body body_ok (OpRemoteCancel id) _ Hwf Harm I) as [? ?].
  unfold do in *. cbn in *. case_decide.
  - quiet (@nil TimerQueue.event).
    eapply moves_eq; [apply moves_refl|done..|]. cbn. rewrite adds_app. cbn. by rewrite app_nil_r.
  - quiet (@nil TimerQueue.event).
Qed.

Lemma functor_ran n s : good s -> ran [] s (go (Functors n) (do OpFunctor s)).
Proof.
  intros [Hwf Harm Ha]. destruct (do_op_wf body body_ok OpFunctor _ Hwf Harm I) as [? ?].
  assert (exists new, log (do_op body OpFunctor (queue s)) = log (queue s) ++ new /\ runs new = [] /\
    moves [] (queue s) (do_op body OpFunctor (queue s))) as (new & ? & ? & ?).
  { cbn. destruct (queued (queue s)) as [|f q] eqn:E.
    - exists []. rewrite app_nil_r. split; [done|]. split; [done|apply moves_refl].
    - assert (moves [] (queue s) (set_queued q (queue s))) as M.
      { eapply moves_eq; [apply moves_refl|done..|]. rewrite E. destruct f; cbn; set_solver. }
      destruct f as [id|id].
      + exists [EvAdd id]. split; [exact (addTimerInLoop_log id (set_queued q (queue s)))|].
        split; [done|]. apply add_moves; [done|]. right. rewrite E. left.
      + exists [EvCancel id]. split; [exact (cancelInLoop_log id (set_queued q (queue s)))|].
        split; [done|]. eapply moves_then; [exact M|apply cancel_moves]. }
  quiet new.
Qed.

(** The entries that [handleRead] takes out of the map. *)
Definition due (s : t) : list (Z * (Z * nat)) :=
  map (pair (clock s)) (take (TimerMap.upper_bound (clock s) (timers_ (queue s))) (timers_ (queue s))).

Lemma due_ids s : (due s).*2 = take (TimerMap.upper_bound (clock s) (timers_ (queue s))) (timers_ (queue s)).
Proof. unfold due. generalize (clock s) at 1. intros c. by induction (take _ _) as [|e l IH]; cbn; [|f_equal]. Qed.

Lemma read_ran rest s s' :
  good s -> pc s = Dispatching (TimerFd :: rest) -> step Handle s = Some s' ->
  ran (due s) s s' /\ pc s' = Dispatching rest /\ clock s' = clock s /\
  queue s' = handleRead body (clock s) (queue s).
Proof.
  intros [Hwf Harm Ha] Hp Hs. unfold step in Hs. rewrite Hp in *. injection Hs as <-. split; [|done].
  destruct (handleRead_spec body body_ok (clock s) (queue s) Hwf Harm) as (? & ? & new & HL & HR & _).
  constructor; cbn; [|lia| |done|rewrite due_ids; apply handleRead_moves].
  - constructor; [done|done|]. intros acts Hx. apply Ha. by right.
  - exists new. split; [done|]. rewrite HR. unfold expired_at.
    by rewrite due_ids, TimerMap.take_upper_bound_filter by apply Hwf.
Qed.

Lemma step_ran ev s s' :
  good s -> event_ok ev s -> step ev s = Some s' ->
  exists F, ran F s s' /\ (F = [] \/ F = due s /\ queue s' = handleRead body (clock s) (queue s)).
Proof.
  intros Hg Hok Hs.
  assert (forall F, F = [] -> ran F s s' ->
    exists F, ran F s s' /\ (F = [] \/ F = due s /\ queue s' = handleRead body (clock s) (queue s))) as Q by eauto.
  destruct ev as [d|o|active| | | |acts].
  - apply (Q [] eq_refl). injection Hs as <-. destruct Hg as [? ? ?]. cbn in Hok.
    apply (quiet_ran _ _ []); cbn; rewrite ?app_nil_r; try done; [lia|apply moves_refl].
  - apply (Q [] eq_refl). injection Hs as <-. destruct o; try done; cbn in Hok.
    + by apply remote_add_ran.
    + by apply remote_cancel_ran.
  - apply (Q [] eq_refl). unfold step in Hs. destruct (pc s); [|done|done]. injection Hs as <-.
    apply (acts_ran [] s (Dispatching active)); [done|by apply Forall_nil_2|exact Hok].
  - destruct (pc s) as [|[|[|acts] rest]|] eqn:E; try by (unfold step in Hs; rewrite E in Hs).
    + destruct (read_ran rest s s' Hg E Hs) as (? & _ & _ & ?). eauto.
    + apply (Q [] eq_refl). unfold step in Hs. rewrite E in Hs. injection Hs as <-.
      pose proof (good_active _ Hg) as Ha. rewrite E in Ha.
      apply acts_ran; [done|apply Ha; left|]. intros a Hin. apply Ha. by right.
  - apply (Q [] eq_refl). unfold step in Hs. destruct (pc s) as [|[|? ?]|]; try done. injection Hs as <-.
    by apply (acts_ran [] s (Functors _)).
  - apply (Q [] eq_refl). unfold step in Hs. destruct (pc s) as [| |[|n]]; try done; injection Hs as <-.
    + by apply (acts_ran [] s AtPoll).
    + by apply functor_ran.
  - apply (Q [] eq_refl). unfold step in Hs. destruct (pc s) as [| |n] eqn:E; try done. injection Hs as <-.
    pose proof (acts_ran acts s (Functors n) Hg Hok I) as R. rewrite do_acts_spec in *. by rewrite E.
Qed.

Lemma run_ran evs s s' : good s -> run_ok evs s -> run evs s = Some s' -> exists F, ran F s s'.
Proof.
  revert s. induction evs as [|ev evs IH]; intros s Hg Hok Hr; cbn in *.
  - injection Hr as <-. exists []. by apply ran_refl.
  - destruct Hok as [Hev Hok]. destruct (step ev s) as [s1|] eqn:E; [|done]. cbn in Hr.
    destruct (step_ran ev s s1 Hg Hev E) as (F1 & R1 & _).
    destruct (IH s1 (ran_good _ _ _ R1) (Hok _ eq_refl) Hr) as (F2 & R2).
    exists (F1 ++ F2). by eapply ran_trans.
Qed.

Lemma timer_run_ok_app evs1 evs2 s s1 :
  run_ok (evs1 ++ evs2) s -> run evs1 s = Some s1 -> run_ok evs1 s /\ run_ok evs2 s1.
Proof.
  revert s. induction evs1 as [|ev evs1 IH]; intros s Hok Hr; cbn in *; [by simplify_eq|].
  destruct Hok as [Hev Hok]. destruct (step ev s) as [s2|] eqn:E; [|done].
  destruct (IH s2 (Hok _ eq_refl) Hr) as [H1 H2]. split; [|done]. split; [done|]. intros s3 [= <-]. done.
Qed.

(** *** A timer that is due is settled in the round *)









(** *** The times at which a timer runs *)

Lemma filter_unique {A} (f : A -> nat) l e :
  NoDup (f <$> l) -> e ∈ l -> filter (fun x => f x = f e) l = [e].
Proof.
  induction l as [|a l IH]; intros Hn Hin; [by apply not_elem_of_nil in Hin|].
  rewrite fmap_cons in Hn.
  apply list.NoDup_cons in Hn as [Ha Hn]. apply elem_of_cons in Hin as [->|Hin].
  - rewrite filter_cons_True by done. f_equal. apply list_filter_none, list.Forall_forall.
    intros x Hx E. apply Ha. rewrite <- E. by apply list_elem_of_fmap_2.
  - rewrite filter_cons_False; [by apply IH|]. intros E. apply Ha. rewrite E. by apply list_elem_of_fmap_2.
Qed.

Lemma moves_fresh E q q' x : moves E q q' -> fresh x q' -> fresh x q.
Proof. intros M [H|H]; [left|by eapply moves_queue]. pose proof (moves_length _ _ _ M). lia. Qed.

Lemma in_map_not_fresh (q : tqueue) k id : wf [] q -> (k, id) ∈ timers_ q -> ~ fresh id q.
Proof.
  intros Hwf Hin [H|H].
  - destruct (wf_keys _ _ Hwf k id Hin) as [_ He]. apply expiration_in_range in He. lia.
  - pose proof (wf_nodup _ _ Hwf) as Hn. apply list.NoDup_app in Hn as (_ & Hn & _).
    apply (Hn id); [apply list_elem_of_fmap; by exists (k, id)|done].
Qed.

(** Not in the map, and not to come back. *)
Definition gone (id : nat) (q : tqueue) : Prop := id ∉ (timers_ q).*2 /\ ~ fresh id q.

Lemma gone_moves E id q q' : gone id q -> id ∉ E -> moves E q q' -> gone id q'.
Proof.
  intros [Hm Hf] HE M. split; [|by intros H%(moves_fresh _ _ _ _ M)].
  intros ([k x] & -> & Hin)%list_elem_of_fmap. cbn in *.
  destruct (moves_old _ _ _ M k x Hin) as [H|[H|H]]; [|done..].
  apply Hm, list_elem_of_fmap. by exists (k, x).
Qed.

(** A timer that does not run stays under its key, or is gone. *)
Lemma kept_or_gone E (q q' : tqueue) k id :
  wf [] q -> wf [] q' -> (k, id) ∈ timers_ q -> id ∉ E -> moves E q q' ->
  (k, id) ∈ timers_ q' \/ gone id q'.
Proof.
  intros Hwf Hwf' Hin HE M. destruct (decide ((k, id) ∈ timers_ q')) as [|Hnot]; [by left|right].
  pose proof (in_map_not_fresh q k id Hwf Hin) as Hf.
  split; [|by intros H%(moves_fresh _ _ _ _ M)]. intros ([k' x] & -> & Hin')%list_elem_of_fmap. cbn in *.
  destruct (moves_old _ _ _ M k' x Hin') as [H|[H|H]]; [|done..].
  destruct (wf_keys _ _ Hwf k x Hin) as [_ E1]. destruct (wf_keys _ _ Hwf k' x H) as [_ E2].
  rewrite E1 in E2. by injection E2 as ->.
Qed.

(** The [j]-th time of a timer added for [k], [k + i], ... *)
Definition nth_time (k i : Z) (j : nat) : Z := k + Z.of_nat j * i.

Record tracked (k i : Z) (id : nat) (F : list (Z * (Z * nat))) (s : t) : Prop := {
  tracked_times : exists n,
    (filter (fun e => e.2.2 = id) F).*2.*1 = map (nth_time k i) (seq 0 n) /\
    ((nth_time k i n, id) ∈ timers_ (queue s) /\ (i = 0 -> n = O) \/
     gone id (queue s) /\ (i = 0 -> (n <= 1)%nat));
  tracked_interval : exists tm, timers (queue s) !! id = Some tm /\ Timer.interval_ tm = i;
  tracked_due : Forall (fun e => e.2.1 <= e.1) F
}.

Lemma due_due s : Forall (fun e => e.2.1 <= e.1) (due s).
Proof. unfold due. apply Forall_map. exact (TimerMap.take_upper_bound (clock s) _). Qed.

Lemma ids_not_in id (F : list (Z * (Z * nat))) :
  id ∉ F.*2.*2 -> filter (fun e => e.2.2 = id) F = [].
Proof.
  intros H. apply list_filter_none, list.Forall_forall. intros e He E. apply H. rewrite <- E.
  by apply list_elem_of_fmap_2, list_elem_of_fmap_2.
Qed.

(** What [handleRead] does to a timer that is due. *)
Lemma read_reschedules s s' k id tm :
  good s -> queue s' = handleRead body (clock s) (queue s) -> ran (due s) s s' ->
  (k, id) ∈ timers_ (queue s) -> timers (queue s) !! id = Some tm -> id ∈ (due s).*2.*2 ->
  let i := Timer.interval_ tm in
  (filter (fun e => e.2.2 = id) (due s)).*2.*1 = [k] /\
  ((k + i, id) ∈ timers_ (queue s') /\ i <> 0 \/ gone id (queue s')).
Proof.
  intros [Hwf Harm _] Hq R Hin Htm Hid i.
  assert (Timer.expiration_ tm = k) as Hk.
  { destruct (wf_keys _ _ Hwf k id Hin) as [_ He]. unfold expiration in He. rewrite Htm in He. by injection He. }
  assert (NoDup (timers_ (queue s)).*2) as Hn by (pose proof (wf_nodup _ _ Hwf) as Hn; by apply list.NoDup_app in Hn as [? _]).
  split.
  - apply list_elem_of_fmap in Hid as ([k' x] & -> & Hid). cbn [fst snd] in *.
    assert ((k', x) ∈ timers_ (queue s)) as Hin'.
    { rewrite due_ids in Hid. rewrite <- (take_drop (TimerMap.upper_bound (clock s) (timers_ (queue s))) (timers_ (queue s))).
      apply elem_of_app. by left. }
    destruct (wf_keys _ _ Hwf k' x Hin') as [_ He]. destruct (wf_keys _ _ Hwf k x Hin) as [_ He2].
    rewrite He2 in He. injection He as <-.
    apply list_elem_of_fmap in Hid as ([c e] & [= <-] & Hid).
    assert (filter (fun e : Z * (Z * nat) => e.2.2 = x) (due s) = [(c, (k, x))]) as ->; [|done].
    apply (filter_unique (fun e : Z * (Z * nat) => e.2.2) (due s) (c, (k, x))); [|done].
    change ((fun e : Z * (Z * nat) => e.2.2) <$> due s) with ((snd ∘ snd) <$> due s).
    rewrite list_fmap_compose, due_ids. rewrite <- (take_drop (TimerMap.upper_bound (clock s) (timers_ (queue s))) (timers_ (queue s))) in Hn.
    rewrite fmap_app in Hn. by apply list.NoDup_app in Hn as [? _].
  - destruct (handleRead_spec body body_ok (clock s) (queue s) Hwf Harm) as (_ & _ & new & _ & HR & H).
    rewrite <- Hq in *. assert (id ∈ expired_at (clock s) (queue s)) as Hid'.
    { unfold expired_at. rewrite <- TimerMap.take_upper_bound_filter by apply Hwf. by rewrite <- due_ids. }
    assert (forall k', (k', id) ∈ timers_ (queue s') -> k' = k + i /\ i <> 0) as Honly.
    { intros k' Hk'. apply (H id k' Hid') in Hk' as (tm' & Htm' & Hi & _ & ->). rewrite Htm in Htm'.
      injection Htm' as <-. by rewrite Hk. }
    destruct (decide ((k + i, id) ∈ timers_ (queue s'))) as [Hin'|Hnot]; [left; split; [done|by eapply Honly]|right].
    split.
    + intros ([k' x] & -> & Hk')%list_elem_of_fmap. destruct (Honly k' Hk') as [-> _]. done.
    + intros Hf%(moves_fresh _ _ _ _ (ran_moves _ _ _ R)). by eapply in_map_not_fresh.
Qed.

Lemma tracked_start s k id tm :
  (k, id) ∈ timers_ (queue s) -> timers (queue s) !! id = Some tm ->
  tracked k (Timer.interval_ tm) id [] s.
Proof.
  intros Hin Htm. constructor; [|by exists tm|constructor]. exists O. split; [done|]. left.
  split; [|done]. unfold nth_time. by rewrite Z.add_0_r.
Qed.

(** The map part of [tracked], from one state to the next. *)
Lemma tracked_step k i id F F1 s s' :
  good s -> tracked k i id F s -> ran F1 s s' ->
  F1 = [] \/ F1 = due s /\ queue s' = handleRead body (clock s) (queue s) ->
  tracked k i id (F ++ F1) s'.
Proof.
  intros Hg [(n & Hn & Hst) (tm & Htm & Hi) Hdue] R HF.
  pose proof (ran_moves _ _ _ R) as M. pose proof (good_wf _ Hg) as Hwf.
  pose proof (good_wf _ (ran_good _ _ _ R)) as Hwf'.
  constructor.
  - destruct (decide (id ∈ F1.*2.*2)) as [Hid|Hid].
    + destruct HF as [->|[-> Hq]]; [by apply not_elem_of_nil in Hid|].
      destruct Hst as [[Hin H0]|[[Hout _] _]].
      * destruct (read_reschedules s s' _ id tm Hg Hq R Hin Htm Hid) as [Hk Hnext]. subst i.
        exists (S n). rewrite list.filter_app, !fmap_app, Hn, Hk, seq_S, map_app. split; [done|].
        replace (nth_time k _ (S n)) with (nth_time k (Timer.interval_ tm) n + Timer.interval_ tm)
          by (unfold nth_time; lia).
        destruct Hnext as [[? ?]|?]; [left; by split|right]. split; [done|]. intros Hz. by rewrite H0.
      * exfalso. apply Hout. rewrite due_ids in Hid. apply list_elem_of_fmap in Hid as (e & -> & He).
        apply list_elem_of_fmap_2. rewrite <- (take_drop (TimerMap.upper_bound (clock s) (timers_ (queue s))) (timers_ (queue s))).
        apply elem_of_app. by left.
    + exists n. rewrite list.filter_app, (ids_not_in id F1 Hid), app_nil_r. split; [done|].
      destruct Hst as [[Hin H0]|[Hgone H0]]; [|right; split; [by eapply gone_moves|done]].
      destruct (kept_or_gone _ _ _ _ id Hwf Hwf' Hin Hid M) as [?|?]; [by left|right].
      split; [done|]. intros Hz. by rewrite H0 by done; lia.
  - destruct (moves_timers _ _ _ M id tm Htm) as (tm' & ? & E & _). exists tm'. split; [done|by rewrite E].
  - apply Forall_app. split; [done|]. destruct HF as [->|[-> _]]; [constructor|apply due_due].
Qed.

Lemma tracked_run k i id evs F s s' :
  good s -> run_ok evs s -> run evs s = Some s' -> tracked k i id F s ->
  exists F1, ran F1 s s' /\ tracked k i id (F ++ F1) s'.
Proof.
  revert F s. induction evs as [|ev evs IH]; intros F s Hg Hok Hr Ht; cbn in *.
  - injection Hr as <-. exists []. rewrite app_nil_r. split; [by apply ran_refl|done].
  - destruct Hok as [Hev Hok]. destruct (step ev s) as [s1|] eqn:E; [|done]. cbn in Hr.
    destruct (step_ran ev s s1 Hg Hev E) as (F1 & R1 & HF).
    pose proof (tracked_step _ _ _ _ _ _ _ Hg Ht R1 HF) as Ht1.
    destruct (IH _ s1 (ran_good _ _ _ R1) (Hok _ eq_refl) Hr Ht1) as (F2 & R2 & Ht2).
    exists (F1 ++ F2). split; [by eapply ran_trans|by rewrite app_assoc].
Qed.

(** ** Properties *)


(** C18: in any run of the loop, a timer with interval [i] that is in the map
    for time [k] is run for the times [k], [k + i], [k + 2 * i], ... in this
    order, none of them skipped, repeated or shifted however late the loop
    is; it is never run before the time, and at most once if [i] is 0. *)
Theorem timer_keeps_its_schedule (now k : Z) (id : nat) (tm : Timer.t C) (evs0 evs : list event)
  (s0 s : t)
  (H0 : run evs0 (make now) = Some s0) (H1 : run evs s0 = Some s)
  (Hok : run_ok (evs0 ++ evs) (make now))
  (Hin : (k, id) ∈ timers_ (queue s0)) (Htm : timers (queue s0) !! id = Some tm) :
  exists new F n, log (queue s) = log (queue s0) ++ new /\ fired s = fired s0 ++ F /\
    runs new = F.*2.*2 /\
    (filter (fun e => e.2.2 = id) F).*2.*1 = map (fun j => k + Z.of_nat j * Timer.interval_ tm) (seq 0 n) /\
    Forall (fun e => e.2.1 <= e.1) F /\
    (Timer.interval_ tm = 0 -> (n <= 1)%nat).
Proof.
  destruct (timer_run_ok_app _ _ _ _ Hok H0) as [Hok0 Hok1].
  destruct (run_ran _ _ _ (make_good now) Hok0 H0) as (F0 & R0).
  destruct (tracked_run k _ id evs [] s0 s (ran_good _ _ _ R0) Hok1 H1 (tracked_start s0 k id tm Hin Htm))
    as (F & [_ _ (new & L & HR) HF _] & [(n & Hn & Hst) _ Hdue]).
  exists new, F, n. split; [done|]. split; [done|]. split; [done|]. split; [exact Hn|]. split; [exact Hdue|].
  intros Hi. destruct Hst as [[_ H]|[_ H]]; specialize (H Hi); lia.
Qed.

End TimerLoop.

(** ** Witnesses *)

(** A repeating timer, first run late and then in time, with a timer canceled
    by its callback and one added by another thread. *)
Definition sample_run0 : list (@event nat) :=
  [Poll [Other [AddTimer 0%nat 10 10; AddTimer 1%nat 12 0]]; Handle; Remote (OpRemoteAdd 2%nat 30 0)].

Definition sample_run1 : list (@event nat) :=
  [Swap; Functor; Functor; Tick 25].

Definition sample_run2 : list (@event nat) :=
  [Handle; Tick 1; Swap; Functor; Poll [TimerFd]; Handle; Swap; Functor].

Lemma timer_sample_run_ok : run_ok sample_body (sample_run0 ++ sample_run1 ++ Poll [TimerFd] :: sample_run2) (make 3).
Proof.
  cbn [app sample_run0 sample_run1 sample_run2].
  repeat first
    [ split; [cbn; repeat first [lia | split | done | intros ? [= ->]%list_elem_of_singleton; repeat constructor; cbn; lia | intros ? [=]%list_elem_of_singleton | intros ?]|]
    | intros ? [= <-] ].
  done.
Qed.


Lemma timer_keeps_its_schedule_witness :
  exists s0 s2,
    run sample_body sample_run0 (make 3) = Some s0 /\
    run sample_body (sample_run1 ++ Poll [TimerFd] :: sample_run2) s0 = Some s2 /\
    exists new F n, log (queue s2) = log (queue s0) ++ new /\ fired s2 = fired s0 ++ F /\
      runs new = F.*2.*2 /\
      (filter (fun e => e.2.2 = 0%nat) F).*2.*1 = map (fun j => 10 + Z.of_nat j * 10) (seq 0 n) /\
      Forall (fun e => e.2.1 <= e.1) F /\ (10 = 0 -> (n <= 1)%nat).
Proof.
  do 2 eexists. split; [vm_compute; reflexivity|]. split; [vm_compute; reflexivity|].
  eapply (timer_keeps_its_schedule sample_body sample_body_ok 3 10 0 (Timer.mk 0%nat 10 10) sample_run0
    (sample_run1 ++ Poll [TimerFd] :: sample_run2));
    [vm_compute; reflexivity|vm_compute; reflexivity|exact timer_sample_run_ok|left|reflexivity].
Defined.

End TimerLoop.
