(* ===== verification/BaseThreads.v ===== *)
(** [nutty/base/EventLoopThread.*], [EventLoopThreadPool.*] and [Thread.*]: a
    thread that owns an event loop, the round-robin pool of them, and the cached
    thread id. *)

From S2P Require Import Prelude.

(** ** [EventLoopThreadPool] *)

Module EventLoopThreadPool.

Section Pool.
(** [new_loop i] is the loop of the [i]-th [EventLoopThread] created. *)
Context {L : Type} (new_loop : nat -> L).

Record t := mk {
  baseLoop_ : L;
  started_ : bool;
  numThreads_ : Z;
  next_ : Z;
  loops_ : list L
}.

Definition make (baseLoop : L) : t := mk baseLoop false 0 0 [].

Definition setThreadNum (numThreads : Z) (s : t) : t :=
  mk (baseLoop_ s) (started_ s) numThreads (next_ s) (loops_ s).

(** [for (int i = 0; i < numThreads_; ++i)] pushes [numThreads_] loops. *)
Definition start (s : t) : t :=
  if started_ s then s
  else mk (baseLoop_ s) true (numThreads_ s) (next_ s)
          (loops_ s ++ (new_loop <$> seq 0 (Z.to_nat (numThreads_ s)))).

(** [None] is an access outside [loops_]. *)
Definition getLoop (s : t) : option (L * t) :=
  match loops_ s with
  | [] => Some (baseLoop_ s, s)
  | _ =>
      loop ← loops_ s !! Z.to_nat (next_ s);
      let next := next_ s + 1 in
      let next := if zlen (loops_ s) <=? u64 next then 0 else next in
      Some (loop, mk (baseLoop_ s) (started_ s) (numThreads_ s) next (loops_ s))
  end.

(** [n] consecutive calls. *)
Fixpoint getLoops (n : nat) (s : t) : option (list L * t) :=
  match n with
  | O => Some ([], s)
  | S n' => '(loop, s1) ← getLoop s; '(rest, s2) ← getLoops n' s1; Some (loop :: rest, s2)
  end.

Definition wf (s : t) : Prop :=
  zlen (loops_ s) < 2147483648 /\ 0 <= next_ s /\ (loops_ s <> [] -> next_ s < zlen (loops_ s)).

Lemma getLoop_spec s :
  wf s -> loops_ s <> [] ->
  exists loop s', getLoop s = Some (loop, s') /\ wf s' /\ loops_ s' = loops_ s /\
    loops_ s !! Z.to_nat (next_ s) = Some loop /\
    next_ s' = (next_ s + 1) `mod` zlen (loops_ s).
Proof.
  intros (Hlen & Hn & Hb) Hne. specialize (Hb Hne). unfold getLoop.
  destruct (lookup_lt_is_Some_2 (loops_ s) (Z.to_nat (next_ s))) as [loop Hl];
    [unfold zlen in Hb; lia|].
  destruct (loops_ s) as [|l0 ls] eqn:E; [done|]. rewrite <- E in *. rewrite Hl. cbn [mbind option_bind].
  rewrite u64_small by zlia.
  do 2 eexists. split; [done|]. unfold wf. cbn [loops_ next_].
  case_if.
  - assert (next_ s + 1 = zlen (loops_ s)) as -> by lia. rewrite Z.mod_same by lia.
    split; [split; [done|split; [lia|intros; lia]]|done].
  - rewrite Z.mod_small by lia. split; [split; [done|split; [lia|intros; lia]]|done].
Qed.

(** The [i]-th of the following calls returns loop [(next_ + i) mod n]. *)
Lemma getLoops_spec n s :
  wf s -> loops_ s <> [] ->
  exists ls s', getLoops n s = Some (ls, s') /\ wf s' /\ length ls = n /\
    forall i, (i < n)%nat ->
      ls !! i = loops_ s !! Z.to_nat ((next_ s + Z.of_nat i) `mod` zlen (loops_ s)).
Proof.
  revert s. induction n as [|n IH]; intros s Hwf Hne; cbn [getLoops].
  { exists [], s. split; [done|]. split; [done|]. split; [done|]. lia. }
  destruct (getLoop_spec s Hwf Hne) as (loop & s1 & -> & Hwf1 & Hl1 & Hloop & Hn1).
  cbn [mbind option_bind]. destruct (IH s1 Hwf1) as (ls & s2 & -> & Hwf2 & Hlen & Hls); [by rewrite Hl1|].
  cbn [mbind option_bind]. exists (loop :: ls), s2. split; [done|]. split; [done|].
  split; [cbn; by rewrite Hlen|]. destruct Hwf as (_ & H0 & Hb). specialize (Hb Hne).
  intros [|i] Hi.
  - cbn. rewrite Z.add_0_r, Z.mod_small by lia. by rewrite Hloop.
  - cbn. rewrite Hls, Hl1, Hn1 by lia. rewrite Zplus_mod_idemp_l. do 2 f_equal. f_equal. lia.
Qed.
End Pool.

(** Once started with [n] > 0 threads the pool hands out its loops round
    robin: the [k]-th call of [getLoop] returns the loop of thread [k mod n],
    never indexing outside [loops_]; without threads it returns the base
    loop. *)
Theorem pool_is_round_robin {L : Type} (new_loop : nat -> L) (base : L) (n : Z) (k : nat)
  (Hn : n < 2147483648) :
  exists ls s', getLoops (S k) (start new_loop (setThreadNum n (make base))) = Some (ls, s') /\
    ls !! k = Some (if 0 <? n then new_loop (Z.to_nat (Z.of_nat k `mod` n)) else base).
Proof.
  set (s := start new_loop _). assert (loops_ s = new_loop <$> seq 0 (Z.to_nat n)) as Hl by done.
  case_if.
  - assert (zlen (loops_ s) = n) as Hz by (rewrite Hl; unfold zlen; rewrite length_fmap, length_seq; lia).
    destruct (getLoops_spec (S k) s) as (ls & s' & E & _ & _ & Hls).
    + split; [lia|]. change (next_ s) with 0. split; [done|]. intros _. lia.
    + intros Hnil. rewrite Hnil in Hz. change (zlen []) with 0 in Hz. lia.
    + exists ls, s'. split; [done|]. rewrite (Hls k) by lia. rewrite Hz, Hl.
      change (next_ s) with 0. rewrite Z.add_0_l.
      pose proof (Z.mod_pos_bound (Z.of_nat k) n ltac:(lia)).
      rewrite list_lookup_fmap, lookup_seq_lt by lia. done.
  - assert (loops_ s = []) as Hnil by (rewrite Hl; by replace (Z.to_nat n) with 0%nat by lia).
    assert (forall m, exists ls, getLoops m s = Some (ls, s) /\ ls = replicate m base) as Hall.
    { induction m as [|m (ls & E & ->)]; [by exists []|]. exists (replicate (S m) base).
      cbn [getLoops]. unfold getLoop at 1. rewrite Hnil. cbn [mbind option_bind]. by rewrite E. }
    destruct (Hall (S k)) as (ls & E & ->). exists (replicate (S k) base), s. split; [done|].
    apply lookup_replicate_2. lia.
Qed.

Lemma pool_is_round_robin_witness :
  exists ls s', getLoops 8 (start (fun i => i) (setThreadNum 3 (make 99%nat))) = Some (ls, s') /\
    ls !! 7%nat = Some 1%nat.
Proof. apply (pool_is_round_robin (fun i => i) 99%nat 3 7). lia. Defined.
End EventLoopThreadPool.

(** ** [EventLoopThread] *)

Module EventLoopThread.

(** The owner: [OStart] is the constructor before [thread_] is initialised,
    [OMembers] before [mutex_] and [cv_] are (they are declared after
    [thread_]), [OLock] and [OLocked] its body, [OWait] inside [cv_.wait];
    [ODone] between constructor and destructor; [OJoin] and [OEnd] the
    destructor. *)
Inductive owner_pc := OStart | OMembers | OLock | OLocked | OWait | ODone | OJoin | OEnd.

(** [threadFunc]: [TLoop] is the test of [while(!quit_)] and [TPoll] blocks in
    [poll]. *)
Inductive thread_pc := TNone | TStart | TLocked | TBefore | TLoop | TPoll | TExit | TEnd.

(** [published] records that [loop_] was ever set; [wakeup] is a wake-up
    pending for [poll]; [notified] one pending for [cv_.wait]; [broken] is an
    access the code may not make. *)
Record t := mk {
  opc : owner_pc;
  tpc : thread_pc;
  loop_ : bool;
  quit_ : bool;
  wakeup : bool;
  mutex_constructed : bool;
  mutex_free : bool;
  notified : bool;
  published : bool;
  broken : bool
}.

Definition make : t := mk OStart TNone false false false false true false false false.

Inductive step : t -> t -> Prop :=
  | o_start s : opc s = OStart ->
      step s (mk OMembers TStart (loop_ s) (quit_ s) (wakeup s) false true (notified s) (published s) (broken s))
  | o_members s : opc s = OMembers ->
      step s (mk OLock (tpc s) (loop_ s) (quit_ s) (wakeup s) true (mutex_free s) (notified s) (published s) (broken s))
  | o_lock s : opc s = OLock -> mutex_free s = true ->
      step s (mk OLocked (tpc s) (loop_ s) (quit_ s) (wakeup s) (mutex_constructed s) false (notified s) (published s) (broken s))
  | o_done s : opc s = OLocked -> loop_ s = true ->
      step s (mk ODone (tpc s) (loop_ s) (quit_ s) (wakeup s) (mutex_constructed s) true (notified s) (published s) (broken s))
  | o_wait s : opc s = OLocked -> loop_ s = false ->
      step s (mk OWait (tpc s) (loop_ s) (quit_ s) (wakeup s) (mutex_constructed s) true false (published s) (broken s))
  | o_wake s : opc s = OWait -> notified s = true ->
      step s (mk OLock (tpc s) (loop_ s) (quit_ s) (wakeup s) (mutex_constructed s) (mutex_free s) (notified s) (published s) (broken s))
  | o_spurious s : opc s = OWait ->
      step s (mk OLock (tpc s) (loop_ s) (quit_ s) (wakeup s) (mutex_constructed s) (mutex_free s) (notified s) (published s) (broken s))
  (* somebody calls [getLoop()->quit()] *)
  | o_user_quit s : opc s = ODone -> loop_ s = true ->
      step s (mk ODone (tpc s) (loop_ s) true true (mutex_constructed s) (mutex_free s) (notified s) (published s) (broken s))
  (* the destructor: [loop_->quit()] *)
  | o_destroy s : opc s = ODone -> loop_ s = true ->
      step s (mk OJoin (tpc s) (loop_ s) true true (mutex_constructed s) (mutex_free s) (notified s) (published s) (broken s))
  | o_destroy_null s : opc s = ODone -> loop_ s = false ->
      step s (mk OJoin (tpc s) (loop_ s) (quit_ s) (wakeup s) (mutex_constructed s) (mutex_free s) (notified s) (published s) true)
  | o_join s : opc s = OJoin -> tpc s = TEnd ->
      step s (mk OEnd (tpc s) (loop_ s) (quit_ s) (wakeup s) (mutex_constructed s) (mutex_free s) (notified s) (published s) (broken s))
  | t_lock s : tpc s = TStart -> mutex_constructed s = true -> mutex_free s = true ->
      step s (mk (opc s) TLocked (loop_ s) (quit_ s) (wakeup s) true false (notified s) (published s) (broken s))
  | t_lock_early s : tpc s = TStart -> mutex_constructed s = false ->
      step s (mk (opc s) TLocked (loop_ s) (quit_ s) (wakeup s) false false (notified s) (published s) true)
  | t_publish s : tpc s = TLocked ->
      step s (mk (opc s) TBefore true (quit_ s) (wakeup s) (mutex_constructed s) true true true (broken s))
  | t_enter s : tpc s = TBefore ->
      step s (mk (opc s) TLoop (loop_ s) false (wakeup s) (mutex_constructed s) (mutex_free s) (notified s) (published s) (broken s))
  | t_poll s : tpc s = TLoop -> quit_ s = false ->
      step s (mk (opc s) TPoll (loop_ s) (quit_ s) (wakeup s) (mutex_constructed s) (mutex_free s) (notified s) (published s) (broken s))
  | t_polled s : tpc s = TPoll ->
      step s (mk (opc s) TLoop (loop_ s) (quit_ s) false (mutex_constructed s) (mutex_free s) (notified s) (published s) (broken s))
  | t_exit s : tpc s = TLoop -> quit_ s = true ->
      step s (mk (opc s) TExit (loop_ s) (quit_ s) (wakeup s) (mutex_constructed s) (mutex_free s) (notified s) (published s) (broken s))
  | t_end s : tpc s = TExit ->
      step s (mk (opc s) TEnd false (quit_ s) (wakeup s) (mutex_constructed s) (mutex_free s) (notified s) (published s) (broken s)).

Definition reached : t -> Prop := reachable (fun s => s = make) step.

(** ** The handshake of the constructor *)

Definition built (c : owner_pc) : bool :=
  match c with ODone | OJoin | OEnd => true | _ => false end.

(** What holds for each place of the thread, given the owner's. *)
Definition thread_ok (s : t) : Prop :=
  match tpc s with
  | TNone => loop_ s = false /\ published s = false /\ opc s = OStart
  | TStart | TLocked => loop_ s = false /\ published s = false /\ opc s <> OStart
  | TBefore | TLoop | TPoll => loop_ s = true /\ published s = true /\ opc s <> OStart
  | TExit => loop_ s = true /\ published s = true /\ built (opc s) = true
  | TEnd => loop_ s = false /\ published s = true /\ built (opc s) = true
  end.

Definition lock_ok (s : t) : Prop :=
  match opc s, tpc s with
  | OLocked, TLocked => False
  | OLocked, _ | _, TLocked => mutex_free s = false
  | _, _ => mutex_free s = true
  end.

Record inv (s : t) : Prop := {
  inv_thread : thread_ok s;
  inv_lock : lock_ok s;
  inv_constructed :
    mutex_constructed s = match opc s with OStart | OMembers => false | _ => true end;
  inv_quit : quit_ s = true -> built (opc s) = true;
  inv_published : built (opc s) = true -> published s = true;
  inv_notified : opc s = OWait -> published s = true -> notified s = true
}.

Lemma thread_inv_make : inv make.
Proof. by constructor. Qed.

Lemma thread_step_inv s s' : inv s -> step s s' -> broken s' = false -> inv s'.
Proof.
  intros [Ht Hl Hc Hq Hp Hn] Hs Hb. unfold thread_ok, lock_ok in *.
  destruct Hs; cbn in Hb; try discriminate Hb; destruct s as [o p l q w mc mf n pub br]; cbn in *; subst;
    constructor; unfold thread_ok, lock_ok; cbn; try done;
    try (destruct p); try (destruct o); cbn in *; intuition congruence.
Qed.

Lemma broken_stays s s' : step s s' -> broken s = true -> broken s' = true.
Proof. by destruct 1. Qed.

Lemma thread_reached_inv s : reached s -> broken s = false -> inv s.
Proof.
  intros (s0 & -> & Hr). revert s Hr. apply (rtc_ind_r (fun y => broken y = false -> inv y) make).
  { intros _. apply thread_inv_make. }
  intros y z _ Hyz IH Hb. destruct (broken y) eqn:Ey.
  - by rewrite (broken_stays _ _ Hyz Ey) in Hb.
  - eapply thread_step_inv; [by apply IH|done|done].
Qed.

(** The constructor returns only after the thread has published its loop,
    and it cannot miss the notification: if the loop is published while the
    constructor waits, the wait has been notified. Nor can the thread have left
    [loop()] before the constructor is done. *)
Theorem constructor_waits_for_loop (s : t) (Hr : reached s) (Hb : broken s = false) :
  (built (opc s) = true -> published s = true) /\
  (opc s = OWait -> published s = true -> notified s = true) /\
  (built (opc s) = false -> published s = true -> loop_ s = true).
Proof.
  destruct (thread_reached_inv s Hr Hb) as [Ht _ _ _ Hp Hn]. split; [done|]. split; [done|].
  intros Hnb Hpub. unfold thread_ok in Ht. destruct (tpc s), Ht as (? & ? & ?); congruence.
Qed.

(** ** Findings *)

(** [thread_] is declared before [mutex_] and [cv_], so the thread can run
    [threadFunc] up to locking [mutex_] before that mutex is constructed. *)
Theorem thread_may_lock_unconstructed_mutex :
  exists s, reached s /\ tpc s = TLocked /\ mutex_constructed s = false /\ broken s = true.
Proof.
  exists (mk OMembers TLocked false false false false false false false true). split; [|done].
  eapply reachable_step;
    [|by apply (t_lock_early (mk OMembers TStart false false false false true false false false))].
  eapply reachable_step; [|by apply (o_start make)]. by apply reachable_init.
Qed.

(** The thread is in its loop, with [quit_] cleared, and the owner joins it. *)
Definition stuck (s : t) : Prop :=
  opc s = OJoin /\ quit_ s = false /\ (tpc s = TLoop \/ tpc s = TPoll).

Lemma stuck_step s s' : stuck s -> step s s' -> stuck s'.
Proof.
  intros (Ho & Hq & Ht) Hs. destruct Hs; unfold stuck; cbn; try congruence;
    try (split; [done|split; [done|auto]]); destruct Ht; congruence.
Qed.

(** A destructor that runs right after the constructor can lose its
    [quit()]: the thread has published its loop but not yet entered [loop()],
    which then clears [quit_]. The destructor's [join()] never returns. *)
Theorem early_destructor_hangs :
  exists s, reached s /\ broken s = false /\ forall s', rtc step s s' -> opc s' = OJoin.
Proof.
  exists (mk OJoin TLoop true false true true true true true false). split; [|split; [done|]].
  - eapply reachable_step; [|by apply (t_enter (mk OJoin TBefore true true true true true true true false))].
    eapply reachable_step; [|by apply (o_destroy (mk ODone TBefore true false false true true true true false))].
    eapply reachable_step; [|by apply (o_done (mk OLocked TBefore true false false true false true true false))].
    eapply reachable_step; [|by apply (o_lock (mk OLock TBefore true false false true true true true false))].
    eapply reachable_step; [|by apply (t_publish (mk OLock TLocked false false false true false false false false))].
    eapply reachable_step; [|by apply (t_lock (mk OLock TStart false false false true true false false false))].
    eapply reachable_step; [|by apply (o_members (mk OMembers TStart false false false false true false false false))].
    eapply reachable_step; [|by apply (o_start make)]. by apply reachable_init.
  - intros s' Hr. enough (stuck s') as [? _] by done.
    assert (stuck (mk OJoin TLoop true false true true true true true false)) as H0
      by (split; [done|split; [done|by left]]).
    induction Hr as [|x y z Hxy _ IH]; [done|]. apply IH. by eapply stuck_step.
Qed.

(** If the loop of the thread is quit by somebody else, the thread sets
    [loop_] to null when it ends, and the destructor calls [quit()] through it. *)
Theorem destructor_after_quit_dereferences_null :
  exists s, reached s /\ mutex_constructed s = true /\ opc s = OJoin /\ loop_ s = false /\ broken s = true.
Proof.
  exists (mk OJoin TEnd false true true true true true true true). split; [|done].
  eapply reachable_step; [|by apply (o_destroy_null (mk ODone TEnd false true true true true true true false))].
  eapply reachable_step; [|by apply (t_end (mk ODone TExit true true true true true true true false))].
  eapply reachable_step; [|by apply (t_exit (mk ODone TLoop true true true true true true true false))].
  eapply reachable_step; [|by apply (o_user_quit (mk ODone TLoop true false false true true true true false))].
  eapply reachable_step; [|by apply (t_enter (mk ODone TBefore true false false true true true true false))].
  eapply reachable_step; [|by apply (o_done (mk OLocked TBefore true false false true false true true false))].
  eapply reachable_step; [|by apply (o_lock (mk OLock TBefore true false false true true true true false))].
  eapply reachable_step; [|by apply (t_publish (mk OLock TLocked false false false true false false false false))].
  eapply reachable_step; [|by apply (t_lock (mk OLock TStart false false false true true false false false))].
  eapply reachable_step; [|by apply (o_members (mk OMembers TStart false false false false true false false false))].
  eapply reachable_step; [|by apply (o_start make)]. by apply reachable_init.
Qed.

Lemma constructor_waits_for_loop_witness :
  let s := mk OWait TBefore true false false true true true true false in
  notified s = true /\ reached s /\ (opc s = OWait -> published s = true -> notified s = true).
Proof.
  assert (reached (mk OWait TBefore true false false true true true true false)) as Hr.
  { eapply reachable_step; [|apply (t_publish (mk OWait TLocked false false false true false false false false)); reflexivity].
    eapply reachable_step; [|apply (t_lock (mk OWait TStart false false false true true false false false)); reflexivity].
    eapply reachable_step; [|apply (o_wait (mk OLocked TStart false false false true false false false false)); reflexivity].
    eapply reachable_step; [|apply (o_lock (mk OLock TStart false false false true true false false false)); reflexivity].
    eapply reachable_step; [|apply (o_members (mk OMembers TStart false false false false true false false false)); reflexivity].
    eapply reachable_step; [|apply (o_start make); reflexivity]. apply reachable_init. reflexivity. }
  split; [reflexivity|]. split; [exact Hr|].
  apply (constructor_waits_for_loop _ Hr). reflexivity.
Defined.
End EventLoopThread.

(** ** [CurrentThread] *)

Module CurrentThread.

Section CurrentThread.
(** What [gettid] returns in each thread, and [getpid]. *)
Context (gettid : nat -> Z) (getpid : Z).

(** The threads' [t_cachedTid], 0 at first, and the threads that have made the
    system call so far. *)
Record t := mk { t_cachedTid : gmap nat Z; syscalls : list nat }.

Definition make : t := mk ∅ [].

Definition getTid (i : nat) (s : t) : Z * t := (i32 (gettid i), mk (t_cachedTid s) (syscalls s ++ [i])).

(** [tid()], called in thread [i]. *)
Definition tid (i : nat) (s : t) : Z * t :=
  if default 0 (t_cachedTid s !! i) =? 0 then
    let '(v, s1) := getTid i s in (v, mk (<[i := v]> (t_cachedTid s1)) (syscalls s1))
  else (default 0 (t_cachedTid s !! i), s).

Definition isMainThread (i : nat) (s : t) : bool * t :=
  let '(v, s1) := tid i s in (v =? getpid, s1).

(** The results of calls in the threads given. *)
Fixpoint tids (calls : list nat) (s : t) : list Z * t :=
  match calls with
  | [] => ([], s)
  | i :: rest => let '(v, s1) := tid i s in let '(vs, s2) := tids rest s1 in (v :: vs, s2)
  end.

(** Each thread's cache is empty or right, and full once it made the call. *)
Definition cached (s : t) : Prop :=
  NoDup (syscalls s) /\
  forall i, t_cachedTid s !! i = (if decide (i ∈ syscalls s) then Some (gettid i) else None).

Context (Hgettid : forall i, 0 < gettid i < 2147483648).

Lemma tid_spec i s : cached s -> (tid i s).1 = gettid i /\ cached (tid i s).2.
Proof.
  intros [Hnd Hc]. pose proof (Hgettid i). unfold tid, getTid. rewrite (Hc i).
  case_decide as Hi.
  - change (default 0 (Some (gettid i))) with (gettid i). rewrite (proj2 (Z.eqb_neq (gettid i) 0)) by lia. done.
  - assert (i32 (gettid i) = gettid i) as E by (unfold i32; rewrite Z.mod_small; lia).
    change (default 0 None =? 0) with true. cbv iota beta. rewrite E. cbn [fst snd]. split; [done|]. split.
    + cbn. apply list.NoDup_app. split; [done|]. split; [|by apply list.NoDup_singleton].
      by intros x ? ->%list_elem_of_singleton.
    + intros j. cbn. destruct (decide (j = i)) as [->|Hne].
      * rewrite lookup_insert_eq, decide_True; [done|]. rewrite elem_of_app, list_elem_of_singleton. by right.
      * rewrite lookup_insert_ne, Hc by done. apply decide_ext. rewrite elem_of_app, list_elem_of_singleton. naive_solver.
Qed.

(** Caching is invisible: whatever the order of calls in any number of
    threads, each returns what [gettid] would, and no thread makes the system
    call twice. *)
Theorem cached_tids_are_gettid (calls : list nat) :
  (tids calls make).1 = gettid <$> calls /\ NoDup (syscalls (tids calls make).2).
Proof.
  enough (forall s, cached s -> (tids calls s).1 = gettid <$> calls /\ cached (tids calls s).2) as H.
  { destruct (H make) as [H1 [H2 _]]; [|done]. split; [by apply list.NoDup_nil|]. intros i. cbn.
    by rewrite lookup_empty, decide_False by apply not_elem_of_nil. }
  induction calls as [|i calls IH]; intros s Hs; cbn [tids]; [done|].
  destruct (tid_spec i s Hs) as [H1 H2]. destruct (tid i s) as [v s1]. cbn in H1, H2.
  destruct (IH s1 H2) as [H3 H4]. destruct (tids calls s1) as [vs s2]. cbn in *. by rewrite H1, H3.
Qed.
End CurrentThread.

Definition sample_gettid (i : nat) : Z := if (i =? 1)%nat then 101 else 102.

Lemma sample_gettid_ok i : 0 < sample_gettid i < 2147483648.
Proof. unfold sample_gettid. destruct (i =? 1)%nat; lia. Qed.

Lemma cached_tids_are_gettid_witness :
  tids sample_gettid [2; 1; 2; 2; 1]%nat make =
    ([102; 101; 102; 102; 101], mk (<[1%nat := 101]> {[2%nat := 102]}) [2; 1]%nat) /\
  (tids sample_gettid [2; 1; 2; 2; 1]%nat make).1 = sample_gettid <$> [2; 1; 2; 2; 1]%nat /\
  NoDup (syscalls (tids sample_gettid [2; 1; 2; 2; 1]%nat make).2).
Proof.
  split; [vm_compute; reflexivity|].
  exact (cached_tids_are_gettid sample_gettid sample_gettid_ok [2; 1; 2; 2; 1]%nat).
Defined.
End CurrentThread.
