(* ===== verification/UtilMonitors.v ===== *)
(** [nutty/util/Semaphore.h], [CountDownLatch.*], [BlockingQueue.h] and
    [BoundedBlockingQueue.h]: monitors built from one mutex and condition
    variables. A step is one critical section: from the acquisition of the
    mutex to its release at the end of the call or inside [wait]. Any number
    of threads take part. *)

From S2P Require Import Prelude.

(** ** Condition variables *)

(** The threads blocked in [wait], and those that have been notified, or woken
    up spuriously, and have yet to get the mutex back. *)
Module CondVar.

Record t := mk { sleeping : nat; awake : nat }.

Definition make : t := mk 0 0.

Definition wait (cv : t) : t := mk (S (sleeping cv)) (awake cv).

Definition notify_one (cv : t) : t :=
  match sleeping cv with
  | O => cv
  | S n => mk n (S (awake cv))
  end.

Definition notify_all (cv : t) : t := mk 0 (sleeping cv + awake cv).

(** A notified thread gets the mutex back. *)
Definition resume (cv : t) : option t :=
  match awake cv with O => None | S n => Some (mk (sleeping cv) n) end.

(** A spurious wake-up. *)
Definition spurious (cv : t) : option t :=
  match sleeping cv with O => None | S n => Some (mk n (S (awake cv))) end.

(** No wake-up is lost for [n] available units: if a thread sleeps, at least
    [n] threads are on their way to take them. *)
Definition covers (n : nat) (cv : t) : Prop := sleeping cv <> O -> (n <= awake cv)%nat.

Lemma covers_make n : covers n make.
Proof. by intros []. Qed.

Lemma covers_0 cv : covers 0 cv.
Proof. intros _. lia. Qed.

Lemma covers_le n m cv : (m <= n)%nat -> covers n cv -> covers m cv.
Proof. unfold covers. intros ? H ?. specialize (H ltac:(done)). lia. Qed.

Lemma covers_notify n cv : covers n cv -> covers (S n) (notify_one cv).
Proof. unfold covers, notify_one. destruct cv as [[|s] a]; cbn; [done|]. intros H ?. specialize (H ltac:(done)). lia. Qed.

Lemma covers_notify_all n cv : covers n (notify_all cv).
Proof. by intros []. Qed.

Lemma covers_resume n cv cv' : resume cv = Some cv' -> covers n cv -> covers (n - 1) cv'.
Proof.
  unfold covers, resume. destruct cv as [s [|a]]; [done|]. cbn. intros [= <-] H ?. cbn in *.
  specialize (H ltac:(done)). lia.
Qed.

Lemma covers_spurious n cv cv' : spurious cv = Some cv' -> covers n cv -> covers n cv'.
Proof.
  unfold covers, spurious. destruct cv as [[|s] a]; [done|]. cbn. intros [= <-] H ?. cbn in *.
  specialize (H ltac:(done)). lia.
Qed.

End CondVar.

(** ** [BlockingQueue] *)

Module BlockingQueue.

Section BlockingQueue.
Context {T : Type}.

(** [put_] and [taken] are the values of all completed calls, in order. *)
Record t := mk {
  queue_ : list T;
  cv_ : CondVar.t;
  put_ : list T;
  taken : list T
}.

Definition make : t := mk [] CondVar.make [] [].

Definition put (value : T) (s : t) : t :=
  mk (queue_ s ++ [value]) (CondVar.notify_one (cv_ s)) (put_ s ++ [value]) (taken s).

(** [take()] with the mutex held: return the front, or [wait]. *)
Definition take_locked (s : t) : option T * t :=
  match queue_ s with
  | [] => (None, mk [] (CondVar.wait (cv_ s)) (put_ s) (taken s))
  | front :: rest => (Some front, mk rest (cv_ s) (put_ s) (taken s ++ [front]))
  end.

Definition size (s : t) : nat := length (queue_ s).

Definition set_cv (cv : CondVar.t) (s : t) : t := mk (queue_ s) cv (put_ s) (taken s).

Inductive step : t -> t -> Prop :=
  | step_put value s : step s (put value s)
  | step_take s : step s (take_locked s).2
  | step_resume cv s : CondVar.resume (cv_ s) = Some cv -> step s (take_locked (set_cv cv s)).2
  | step_spurious cv s : CondVar.spurious (cv_ s) = Some cv -> step s (set_cv cv s).

Definition reached : t -> Prop := reachable (fun s => s = make) step.

Definition inv (s : t) : Prop :=
  put_ s = taken s ++ queue_ s /\ CondVar.covers (length (queue_ s)) (cv_ s).

Lemma queue_take_locked_inv s :
  put_ s = taken s ++ queue_ s -> CondVar.covers (length (queue_ s) - 1) (cv_ s) ->
  inv (take_locked s).2.
Proof.
  intros Hp Hc. unfold take_locked. destruct (queue_ s) as [|x q] eqn:E; split; cbn.
  - done.
  - apply CondVar.covers_0.
  - rewrite Hp. by rewrite <- app_assoc.
  - cbn in Hc. by rewrite Nat.sub_0_r in Hc.
Qed.

Lemma queue_step_inv s s' : inv s -> step s s' -> inv s'.
Proof.
  intros [Hp Hc] Hs. destruct Hs as [v s|s|cv s Hr|cv s Hr].
  - split; cbn.
    + by rewrite Hp, app_assoc.
    + rewrite length_app, Nat.add_1_r. by apply CondVar.covers_notify.
  - apply queue_take_locked_inv; [done|]. eapply CondVar.covers_le; [|done]. lia.
  - apply queue_take_locked_inv; [done|]. by eapply CondVar.covers_resume.
  - split; [done|]. by eapply CondVar.covers_spurious.
Qed.

Lemma queue_reached_inv s : reached s -> inv s.
Proof.
  apply reachable_ind_inv; [intros ? ->; split; [done|apply CondVar.covers_make]|].
  intros; by eapply queue_step_inv.
Qed.

(** The queue is first-in first-out across all threads, every value taken
    exactly once, and no wake-up is lost: while a taker sleeps, at least as
    many notified takers are on their way as there are values, so a value
    never waits for a sleeping taker alone. *)
Theorem blocking_queue_fifo_no_lost_wakeup (s : t) (Hr : reached s) :
  put_ s = taken s ++ queue_ s /\
  (CondVar.sleeping (cv_ s) <> O -> (size s <= CondVar.awake (cv_ s))%nat).
Proof. by apply queue_reached_inv. Qed.

End BlockingQueue.
Arguments t : clear implicits.
Arguments make {T}.

(** A taker sleeps, a value is put, another one is put. *)
Lemma blocking_queue_fifo_no_lost_wakeup_witness :
  let s := put 8 (put 7 (take_locked make).2) in
  CondVar.awake (cv_ s) = 1%nat /\ put_ s = taken s ++ queue_ s /\
  (CondVar.sleeping (cv_ s) <> O -> (size s <= CondVar.awake (cv_ s))%nat).
Proof.
  split; [reflexivity|]. apply (blocking_queue_fifo_no_lost_wakeup (T := Z)).
  eapply reachable_step; [|apply step_put]. eapply reachable_step; [|apply step_put].
  eapply reachable_step; [|apply step_take]. apply reachable_init. reflexivity.
Defined.
End BlockingQueue.

(** ** [BoundedBlockingQueue] *)

Module BoundedBlockingQueue.

Section BoundedBlockingQueue.
Context {T : Type} (capacity_ : nat).

Record t := mk {
  queue_ : list T;
  cvnotempty_ : CondVar.t;
  cvnotfull_ : CondVar.t;
  put_ : list T;
  taken : list T
}.

Definition make : t := mk [] CondVar.make CondVar.make [] [].

(** [put(value)] with the mutex held; whether it completed. *)
Definition put_locked (value : T) (s : t) : bool * t :=
  if decide (capacity_ <= length (queue_ s))%nat
  then (false, mk (queue_ s) (cvnotempty_ s) (CondVar.wait (cvnotfull_ s)) (put_ s) (taken s))
  else (true, mk (queue_ s ++ [value]) (CondVar.notify_one (cvnotempty_ s)) (cvnotfull_ s)
                 (put_ s ++ [value]) (taken s)).

Definition take_locked (s : t) : option T * t :=
  match queue_ s with
  | [] => (None, mk [] (CondVar.wait (cvnotempty_ s)) (cvnotfull_ s) (put_ s) (taken s))
  | front :: rest =>
      (Some front, mk rest (cvnotempty_ s) (CondVar.notify_one (cvnotfull_ s)) (put_ s)
                      (taken s ++ [front]))
  end.

Definition empty (s : t) : bool := bool_decide (queue_ s = []).
Definition full (s : t) : bool := bool_decide (capacity_ <= length (queue_ s))%nat.
Definition size (s : t) : nat := length (queue_ s).

Definition set_cvs (e f : CondVar.t) (s : t) : t := mk (queue_ s) e f (put_ s) (taken s).

(** A notified [put] still has its own value. *)
Inductive step : t -> t -> Prop :=
  | step_put value s : step s (put_locked value s).2
  | step_take s : step s (take_locked s).2
  | step_resume_put value cv s :
      CondVar.resume (cvnotfull_ s) = Some cv ->
      step s (put_locked value (set_cvs (cvnotempty_ s) cv s)).2
  | step_resume_take cv s :
      CondVar.resume (cvnotempty_ s) = Some cv ->
      step s (take_locked (set_cvs cv (cvnotfull_ s) s)).2
  | step_spurious_put cv s :
      CondVar.spurious (cvnotfull_ s) = Some cv -> step s (set_cvs (cvnotempty_ s) cv s)
  | step_spurious_take cv s :
      CondVar.spurious (cvnotempty_ s) = Some cv -> step s (set_cvs cv (cvnotfull_ s) s).

Definition reached : t -> Prop := reachable (fun s => s = make) step.

Record inv (s : t) : Prop := {
  inv_fifo : put_ s = taken s ++ queue_ s;
  inv_bound : (length (queue_ s) <= capacity_)%nat;
  inv_takers : CondVar.covers (length (queue_ s)) (cvnotempty_ s);
  inv_putters : CondVar.covers (capacity_ - length (queue_ s)) (cvnotfull_ s)
}.

Lemma put_locked_inv v s :
  put_ s = taken s ++ queue_ s -> (length (queue_ s) <= capacity_)%nat ->
  CondVar.covers (length (queue_ s)) (cvnotempty_ s) ->
  CondVar.covers (capacity_ - length (queue_ s) - 1) (cvnotfull_ s) ->
  inv (put_locked v s).2.
Proof.
  intros Hp Hb Ht Hf. unfold put_locked. case_decide as Hc; constructor; cbn; try done.
  - replace (capacity_ - length (queue_ s))%nat with O by lia. apply CondVar.covers_0.
  - by rewrite Hp, app_assoc.
  - rewrite length_app. cbn. lia.
  - rewrite length_app, Nat.add_1_r. by apply CondVar.covers_notify.
  - rewrite length_app. cbn. eapply CondVar.covers_le; [|exact Hf]. lia.
Qed.

Lemma bounded_take_locked_inv s :
  put_ s = taken s ++ queue_ s -> (length (queue_ s) <= capacity_)%nat ->
  CondVar.covers (length (queue_ s) - 1) (cvnotempty_ s) ->
  CondVar.covers (capacity_ - length (queue_ s)) (cvnotfull_ s) ->
  inv (take_locked s).2.
Proof.
  intros Hp Hb Ht Hf. unfold take_locked. destruct (queue_ s) as [|x q] eqn:E; constructor; cbn in *; try done.
  - apply CondVar.covers_0.
  - rewrite Hp. by rewrite <- app_assoc.
  - lia.
  - by rewrite Nat.sub_0_r in Ht.
  - eapply CondVar.covers_le; [|by apply CondVar.covers_notify]. lia.
Qed.

Lemma bounded_step_inv s s' : inv s -> step s s' -> inv s'.
Proof.
  intros [Hp Hb Ht Hf] Hs. destruct Hs as [v s|s|v cv s Hr|cv s Hr|cv s Hr|cv s Hr].
  - apply put_locked_inv; try done. eapply CondVar.covers_le; [|done]. lia.
  - apply bounded_take_locked_inv; try done. eapply CondVar.covers_le; [|done]. lia.
  - apply put_locked_inv; try done. by eapply CondVar.covers_resume.
  - apply bounded_take_locked_inv; try done. by eapply CondVar.covers_resume.
  - constructor; try done. by eapply CondVar.covers_spurious.
  - constructor; try done. by eapply CondVar.covers_spurious.
Qed.

Lemma bounded_reached_inv s : reached s -> inv s.
Proof.
  apply reachable_ind_inv; [|intros; by eapply bounded_step_inv].
  intros ? ->. constructor; cbn; try done; try lia; apply CondVar.covers_make.
Qed.

(** C37: the bounded queue is first-in first-out, never holds more than
    [capacity_] values, and loses no wake-up on either side: while a taker
    sleeps the values are covered by notified takers, and while a putter sleeps
    the free places are covered by notified putters. *)
Theorem bounded_queue_safe (s : t) (Hr : reached s) :
  put_ s = taken s ++ queue_ s /\ (size s <= capacity_)%nat /\
  (CondVar.sleeping (cvnotempty_ s) <> O -> (size s <= CondVar.awake (cvnotempty_ s))%nat) /\
  (CondVar.sleeping (cvnotfull_ s) <> O -> (capacity_ - size s <= CondVar.awake (cvnotfull_ s))%nat).
Proof. by destruct (bounded_reached_inv s Hr). Qed.

End BoundedBlockingQueue.
Arguments make {T}.

(** Capacity one: a put, a second putter sleeps, a take wakes it. *)
Lemma bounded_queue_safe_witness :
  let s := (take_locked (put_locked 1 8 (put_locked 1 7 make).2).2).2 in
  CondVar.awake (cvnotfull_ s) = 1%nat /\ taken s = [7] /\
  put_ s = taken s ++ queue_ s /\ (size s <= 1)%nat /\
  (CondVar.sleeping (cvnotempty_ s) <> O -> (size s <= CondVar.awake (cvnotempty_ s))%nat) /\
  (CondVar.sleeping (cvnotfull_ s) <> O -> (1 - size s <= CondVar.awake (cvnotfull_ s))%nat).
Proof.
  split; [reflexivity|]. split; [reflexivity|].
  apply (bounded_queue_safe (T := Z) 1).
  eapply reachable_step; [|apply step_take]. eapply reachable_step; [|apply step_put].
  eapply reachable_step; [|apply step_put]. apply reachable_init. reflexivity.
Defined.
End BoundedBlockingQueue.

(** ** [Semaphore] *)

Module Semaphore.

Section Semaphore.
(** The constructor's argument, and whether [wait_for] or [wait_until] is used. *)
Context (count : Z) (timed : bool).

(** [notified] and [acquired] count the calls of [notify] and the successful
    waits. *)
Record t := mk { count_ : Z; cv_ : CondVar.t; notified : nat; acquired : nat }.

Definition make : t := mk count CondVar.make 0 0.

Definition notify (s : t) : t :=
  mk (count_ s + 1) (CondVar.notify_one (cv_ s)) (S (notified s)) (acquired s).

Definition acquire (s : t) : t :=
  mk (count_ s - 1) (cv_ s) (notified s) (S (acquired s)).

(** The loop of [wait], [wait_for] and [wait_until], with the mutex held. *)
Definition wait_locked (s : t) : bool * t :=
  if count_ s =? 0
  then (false, mk (count_ s) (CondVar.wait (cv_ s)) (notified s) (acquired s))
  else (true, acquire s).

Definition try_wait (s : t) : bool * t :=
  if count_ s =? 0 then (false, s) else (true, acquire s).

Definition set_cv (cv : CondVar.t) (s : t) : t := mk (count_ s) cv (notified s) (acquired s).

(** A timed wait gives up, and its call returns [false], in two ways: nobody
    notified it, or it was notified, but the deadline has passed when it looks
    at the clock again, and [cv_status::timeout] is what it gets. *)
Inductive step : t -> t -> Prop :=
  | step_notify s : step s (notify s)
  | step_wait s : step s (wait_locked s).2
  | step_try_wait s : step s (try_wait s).2
  | step_resume cv s : CondVar.resume (cv_ s) = Some cv -> step s (wait_locked (set_cv cv s)).2
  | step_spurious cv s : CondVar.spurious (cv_ s) = Some cv -> step s (set_cv cv s)
  | step_timeout n s :
      timed = true -> CondVar.sleeping (cv_ s) = S n ->
      step s (set_cv (CondVar.mk n (CondVar.awake (cv_ s))) s)
  | step_late cv s :
      timed = true -> CondVar.resume (cv_ s) = Some cv -> step s (set_cv cv s).

Definition reached : t -> Prop := reachable (fun s => s = make) step.

Record inv (s : t) : Prop := {
  inv_count : count_ s = count + Z.of_nat (notified s) - Z.of_nat (acquired s);
  inv_nonneg : 0 <= count -> 0 <= count_ s;
  inv_covers : timed = false -> CondVar.covers (Z.to_nat (count_ s)) (cv_ s)
}.

Lemma acquire_inv s :
  count_ s = count + Z.of_nat (notified s) - Z.of_nat (acquired s) ->
  (0 <= count -> 0 <= count_ s) -> count_ s <> 0 ->
  (timed = false -> CondVar.covers (Z.to_nat (count_ s) - 1) (cv_ s)) -> inv (acquire s).
Proof.
  intros Hc Hn H0 Hv. constructor; cbn; [lia|lia|]. intros Ht.
  eapply CondVar.covers_le; [|by apply Hv]. lia.
Qed.

Lemma semaphore_wait_locked_inv s :
  count_ s = count + Z.of_nat (notified s) - Z.of_nat (acquired s) ->
  (0 <= count -> 0 <= count_ s) ->
  (timed = false -> CondVar.covers (Z.to_nat (count_ s) - 1) (cv_ s)) ->
  inv (wait_locked s).2.
Proof.
  intros Hc Hn Hv. unfold wait_locked. case_if; [|by apply acquire_inv].
  constructor; cbn; try done. rewrite Heqb. intros _. apply CondVar.covers_0.
Qed.

Lemma semaphore_step_inv s s' : inv s -> step s s' -> inv s'.
Proof.
  intros [Hc Hn Hv] Hs. destruct Hs as [s|s|s|cv s Hr|cv s Hr|n s Ht Hsl|cv s Ht Hr].
  - constructor; cbn; [lia|lia|]. intros Ht. specialize (Hv Ht).
    eapply CondVar.covers_le; [|by apply CondVar.covers_notify]. lia.
  - apply semaphore_wait_locked_inv; try done. intros Ht. eapply CondVar.covers_le; [|by apply Hv]. lia.
  - unfold try_wait. case_if; [by constructor|]. apply acquire_inv; try done.
    intros Ht. eapply CondVar.covers_le; [|by apply Hv]. lia.
  - apply semaphore_wait_locked_inv; try done. intros Ht. eapply CondVar.covers_resume; [done|by apply Hv].
  - constructor; try done. intros Ht. eapply CondVar.covers_spurious; [done|by apply Hv].
  - constructor; try done. by rewrite Ht.
  - constructor; try done. by rewrite Ht.
Qed.

Lemma semaphore_reached_inv s : reached s -> inv s.
Proof.
  apply reachable_ind_inv; [|intros; by eapply semaphore_step_inv].
  intros ? ->. constructor; cbn; [lia|done|]. intros _. apply CondVar.covers_make.
Qed.

End Semaphore.

(** A semaphore counts: its value is the initial one plus the notifies
    minus the successful waits and is never negative, so no more waits succeed
    than there were units; and if no timed wait is used no wake-up is lost:
    while a thread sleeps, the available units are covered by notified
    threads. *)
Theorem semaphore_counts (count : Z) (timed : bool) (s : t)
  (Hr : reached count timed s) (H0 : 0 <= count) :
  count_ s = count + Z.of_nat (notified s) - Z.of_nat (acquired s) /\
  Z.of_nat (acquired s) <= count + Z.of_nat (notified s) /\
  (timed = false -> CondVar.sleeping (cv_ s) <> O -> count_ s <= Z.of_nat (CondVar.awake (cv_ s))).
Proof.
  destruct (semaphore_reached_inv _ _ _ Hr) as [Hc Hn Hv]. specialize (Hn H0). split; [done|]. split; [lia|].
  intros Ht Hs. specialize (Hv Ht Hs). lia.
Qed.

(** With timed waits a notification can be swallowed: a [wait_for] that
    was notified but finds its deadline passed returns [false] without looking
    at [count_] again, and an untimed waiter keeps sleeping although a unit is
    available and no notified thread is left to take it. *)
Theorem timed_wait_swallows_notification :
  exists s, reached 0 true s /\
    count_ s = 1 /\ CondVar.sleeping (cv_ s) = 1%nat /\ CondVar.awake (cv_ s) = 0%nat.
Proof.
  exists (set_cv (CondVar.mk 1 0) (notify (wait_locked (wait_locked (make 0)).2).2)).
  split; [|done].
  eapply reachable_step; [|by apply step_late].
  eapply reachable_step; [|apply step_notify]. eapply reachable_step; [|apply step_wait].
  eapply reachable_step; [|apply step_wait]. by apply reachable_init.
Qed.

Lemma semaphore_counts_witness :
  let s := notify (wait_locked (make 0)).2 in
  CondVar.awake (cv_ s) = 1%nat /\
  count_ s = 0 + Z.of_nat (notified s) - Z.of_nat (acquired s) /\
  Z.of_nat (acquired s) <= 0 + Z.of_nat (notified s) /\
  (false = false -> CondVar.sleeping (cv_ s) <> O -> count_ s <= Z.of_nat (CondVar.awake (cv_ s))).
Proof.
  split; [reflexivity|]. apply (semaphore_counts 0 false); [|lia].
  eapply reachable_step; [|apply step_notify]. eapply reachable_step; [|apply step_wait].
  apply reachable_init. reflexivity.
Defined.
End Semaphore.

(** ** [CountDownLatch] *)

Module CountDownLatch.

Section CountDownLatch.
Context (init : Z).

(** [downs] counts the calls of [countDown]. *)
Record t := mk { count_ : Z; cv_ : CondVar.t; downs : nat }.

Definition make : t := mk init CondVar.make 0.

(** The loop of [wait()], with the mutex held; whether the call returns. *)
Definition wait_locked (s : t) : bool * t :=
  if 0 <? count_ s
  then (false, mk (count_ s) (CondVar.wait (cv_ s)) (downs s))
  else (true, s).

Definition countDown (s : t) : t :=
  let n := count_ s - 1 in
  mk n (if n =? 0 then CondVar.notify_all (cv_ s) else cv_ s) (S (downs s)).

Definition set_cv (cv : CondVar.t) (s : t) : t := mk (count_ s) cv (downs s).

Inductive step : t -> t -> Prop :=
  | step_wait s : step s (wait_locked s).2
  | step_countDown s : step s (countDown s)
  | step_resume cv s : CondVar.resume (cv_ s) = Some cv -> step s (wait_locked (set_cv cv s)).2
  | step_spurious cv s : CondVar.spurious (cv_ s) = Some cv -> step s (set_cv cv s).

Definition reached : t -> Prop := reachable (fun s => s = make) step.

Definition inv (s : t) : Prop :=
  count_ s = init - Z.of_nat (downs s) /\ (CondVar.sleeping (cv_ s) <> O -> 0 < count_ s).

Lemma latch_wait_locked_inv s : inv s -> inv (wait_locked s).2.
Proof. intros [Hc Hs]. unfold wait_locked. case_if; split; cbn; auto. Qed.

Lemma latch_step_inv s s' : inv s -> step s s' -> inv s'.
Proof.
  intros [Hc Hs] Hst. destruct Hst as [s|s|cv s Hr|cv s Hr].
  - by apply latch_wait_locked_inv.
  - split; cbn; [lia|]. case_if; [done|]. intros H. specialize (Hs H). lia.
  - apply latch_wait_locked_inv. split; [done|]. unfold CondVar.resume in Hr. cbn.
    destruct (CondVar.awake (cv_ s)); [done|]. by injection Hr as <-.
  - split; [done|]. unfold CondVar.spurious in Hr. cbn.
    destruct (CondVar.sleeping (cv_ s)) as [|n]; [done|]. intros _. by apply Hs.
Qed.

Lemma latch_reached_inv s : reached s -> inv s.
Proof. apply reachable_ind_inv; [by intros ? ->; split; cbn; [lia|]|intros; by eapply latch_step_inv]. Qed.

(** A latch opens exactly at the count: [wait] returns if and only if
    [countDown] has been called as often as the initial count, and once it has
    been, no thread is left sleeping. *)
Theorem latch_opens_at_count (s : t) (Hr : reached s) :
  ((wait_locked s).1 = true <-> init <= Z.of_nat (downs s)) /\
  (init <= Z.of_nat (downs s) -> CondVar.sleeping (cv_ s) = O).
Proof.
  destruct (latch_reached_inv s Hr) as [Hc Hs]. split.
  - unfold wait_locked. case_if; cbn; split; intros; (done || lia).
  - intros. destruct (CondVar.sleeping (cv_ s)); [done|]. specialize (Hs ltac:(done)). lia.
Qed.
End CountDownLatch.

Lemma latch_opens_at_count_witness :
  let s := countDown (countDown (wait_locked (make 2)).2) in
  CondVar.awake (cv_ s) = 1%nat /\
  ((wait_locked s).1 = true <-> 2 <= Z.of_nat (downs s)) /\
  (2 <= Z.of_nat (downs s) -> CondVar.sleeping (cv_ s) = O).
Proof.
  split; [reflexivity|]. apply (latch_opens_at_count 2).
  eapply reachable_step; [|apply step_countDown]. eapply reachable_step; [|apply step_countDown].
  eapply reachable_step; [|apply step_wait]. apply reachable_init. reflexivity.
Defined.
End CountDownLatch.
