(* ===== verification/UtilSingleton.v ===== *)
(** [nutty/util/Singleton.h]: threads that call [instance()], interleaved at
    the steps of [std::call_once] and [init], and the handler registered with
    [atexit]. [call_once] runs its function in one thread, lets the others
    wait, and starts again when the function throws. *)

From S2P Require Import Prelude.

Module Singleton.

(** [s_once_] *)
Inductive once_flag := Fresh | Running | Done.

(** Where a thread is: outside, in [call_once], before [new T()], before the
    registration of [destroy], before the end of [init], before
    [return *s_value_], back with a reference, or with an exception of [T()]. *)
Inductive pc :=
  | Outside
  | Calling
  | Constructing
  | Registering
  | Finishing
  | Loading
  | Returned (p : nat)
  | Threw.

Section Singleton.
(** [has_no_destroy::value] *)
Context (has_no_destroy : bool).

(** Objects are numbered in the order of their construction. *)
Record t := mk {
  s_once_ : once_flag;
  s_value_ : option nat;
  live : gset nat;
  constructed : nat;
  atexit : nat;
  pcs : gmap nat pc
}.

Definition make : t := mk Fresh None ∅ 0 0 ∅.

Definition pc_of (i : nat) (s : t) : pc := default Outside (pcs s !! i).
Definition go (i : nat) (c : pc) (s : t) : t :=
  mk (s_once_ s) (s_value_ s) (live s) (constructed s) (atexit s) (<[i := c]> (pcs s)).
Definition set_once (f : once_flag) (s : t) : t :=
  mk f (s_value_ s) (live s) (constructed s) (atexit s) (pcs s).

(** [s_value_ = new T()] *)
Definition new_value (s : t) : t :=
  mk (s_once_ s) (Some (constructed s)) ({[constructed s]} ∪ live s) (S (constructed s)) (atexit s) (pcs s).

(** [if (!has_no_destroy::value) std::atexit(destroy)] *)
Definition register (s : t) : t :=
  if has_no_destroy then s
  else mk (s_once_ s) (s_value_ s) (live s) (constructed s) (S (atexit s)) (pcs s).

(** [destroy()]: deleting a null pointer does nothing, deleting an object twice
    is undefined. *)
Definition destroy (s : t) : option t :=
  match s_value_ s with
  | None => Some s
  | Some p =>
      if decide (p ∈ live s) then
        Some (mk (s_once_ s) None (live s ∖ {[p]}) (constructed s) (atexit s) (pcs s))
      else None
  end.

(** One step of thread [i]; [throws] says whether [T()] throws, when it is
    called. *)
Definition step_thread (i : nat) (throws : bool) (s : t) : option t :=
  match pc_of i s with
  | Outside | Returned _ | Threw => Some (go i Calling s)
  | Calling =>
      match s_once_ s with
      | Fresh => Some (go i Constructing (set_once Running s))
      | Running => Some s
      | Done => Some (go i Loading s)
      end
  | Constructing =>
      if throws then Some (go i Threw (set_once Fresh s)) else Some (go i Registering (new_value s))
  | Registering => Some (go i Finishing (register s))
  | Finishing => Some (go i Loading (set_once Done s))
  | Loading => p ← s_value_ s; Some (go i (Returned p) s)
  end.

(** The handlers registered with [atexit], at the end of the program. *)
Fixpoint run_handlers (n : nat) (s : t) : option t :=
  match n with
  | O => Some s
  | S n' =>
      s1 ← destroy (mk (s_once_ s) (s_value_ s) (live s) (constructed s) n' (pcs s));
      run_handlers n' s1
  end.

Inductive input := Thread (i : nat) (throws : bool) | Exit.

Definition step (ev : input) (s : t) : option t :=
  match ev with
  | Thread i throws => step_thread i throws s
  | Exit => run_handlers (atexit s) s
  end.

Fixpoint run (evs : list input) (s : t) : option t :=
  match evs with
  | [] => Some s
  | ev :: rest => s1 ← step ev s; run rest s1
  end.

(** ** Invariant *)

(** Inside [init]. *)
Definition busy (c : pc) : bool :=
  match c with Constructing | Registering | Finishing => true | _ => false end.

Definition registered : nat := if has_no_destroy then 0 else 1.

(** What a thread that is at [c] may rely on. *)
Definition pc_ok (c : pc) (s : t) : Prop :=
  match c with
  | Outside | Calling | Threw => True
  | Constructing => s_once_ s = Running /\ s_value_ s = None /\ atexit s = 0%nat
  | Registering => s_once_ s = Running /\ s_value_ s = Some 0%nat /\ atexit s = 0%nat
  | Finishing => s_once_ s = Running /\ s_value_ s = Some 0%nat /\ atexit s = registered
  | Loading => s_once_ s = Done
  | Returned p => s_once_ s = Done /\ p = 0%nat
  end.

(** One thread is in [init] while the flag says so, and there is one object
    from [new T()] on. *)
Record inv (s : t) : Prop := {
  inv_pc i : pc_ok (pc_of i s) s;
  inv_flag :
    match s_once_ s with
    | Fresh => s_value_ s = None /\ atexit s = 0%nat
    | Running => exists i, busy (pc_of i s) = true /\ forall j, busy (pc_of j s) = true -> j = i
    | Done => s_value_ s = Some 0%nat /\ atexit s = registered
    end;
  inv_value : (s_value_ s = None /\ constructed s = 0%nat /\ live s = ∅) \/
    (s_value_ s = Some 0%nat /\ constructed s = 1%nat /\ live s = {[0%nat]})
}.

Lemma pc_of_go i j c s : pc_of j (go i c s) = if decide (j = i) then c else pc_of j s.
Proof.
  unfold pc_of. cbn. case_decide as E; [subst; by rewrite lookup_insert_eq|by rewrite lookup_insert_ne].
Qed.

Lemma singleton_make_inv : inv make.
Proof. constructor; try done; by left. Qed.

Lemma busy_running c s : busy c = true -> pc_ok c s -> s_once_ s = Running.
Proof. by destruct c; try done; intros _ (? & _). Qed.

(** While one thread is in [init] the others rely on nothing. *)
Lemma others_idle i j s s' :
  inv s -> busy (pc_of i s) = true -> j <> i -> pc_ok (pc_of j s) s' /\ busy (pc_of j s) = false.
Proof.
  intros Hs Hi Hne. pose proof (busy_running _ s Hi (inv_pc _ Hs i)) as Hrun.
  pose proof (inv_flag _ Hs) as Hf. rewrite Hrun in Hf. destruct Hf as (k & _ & Huniq).
  pose proof (inv_pc _ Hs j) as Hj. pose proof (Huniq i Hi) as ->.
  destruct (pc_of j s) eqn:E; cbn in Hj |- *; try done;
    try (exfalso; apply Hne, Huniq; by rewrite E); rewrite Hrun in Hj; [done|by destruct Hj].
Qed.

(** A step of the thread in [init], to the next point of it. *)
Lemma busy_step i c s s' :
  inv s -> busy (pc_of i s) = true -> pc_of i s' = c -> (forall j, j <> i -> pc_of j s' = pc_of j s) ->
  pc_ok c s' ->
  match s_once_ s' with
  | Fresh => busy c = false /\ s_value_ s' = None /\ atexit s' = 0%nat
  | Running => busy c = true
  | Done => s_value_ s' = Some 0%nat /\ atexit s' = registered
  end ->
  (s_value_ s' = None /\ constructed s' = 0%nat /\ live s' = ∅) \/
    (s_value_ s' = Some 0%nat /\ constructed s' = 1%nat /\ live s' = {[0%nat]}) ->
  inv s'.
Proof.
  intros Hs Hi Hc Hj Hok Hf Hv. constructor; [| |done].
  - intros j. destruct (decide (j = i)) as [->|Hne]; [by rewrite Hc|]. rewrite Hj by done.
    by apply (others_idle i).
  - destruct (s_once_ s'); [by destruct Hf|exists i|done]. rewrite Hc. split; [done|].
    intros j Hb. destruct (decide (j = i)) as [|Hne]; [done|]. rewrite Hj in Hb by done.
    by rewrite (proj2 (others_idle i j s s Hs Hi Hne)) in Hb.
Qed.

(** A thread outside of [init] moves to another point outside. *)
Lemma idle_step i c s :
  inv s -> busy (pc_of i s) = false -> busy c = false -> pc_ok c s -> inv (go i c s).
Proof.
  intros [Hpc Hf Hv] Hi Hc Hok. constructor; [| |done].
  - intros j. rewrite pc_of_go. case_decide; [by destruct c|]. specialize (Hpc j). by destruct (pc_of j s).
  - cbn. destruct (s_once_ s); [done| |done]. destruct Hf as (k & Hk & Huniq). exists k.
    rewrite pc_of_go, decide_False by (intros ->; congruence). split; [done|].
    intros j. rewrite pc_of_go. case_decide; [congruence|]. apply Huniq.
Qed.

Lemma step_thread_inv i throws s : inv s -> exists s', step_thread i throws s = Some s' /\ inv s'.
Proof.
  intros Hs. pose proof (inv_pc _ Hs i) as Hi. pose proof (inv_value _ Hs) as Hv.
  assert (forall c s0, pcs s0 = pcs s -> pc_of i (go i c s0) = c /\ forall j, j <> i -> pc_of j (go i c s0) = pc_of j s) as Hgo.
  { intros c s0 Hp. split; [by rewrite pc_of_go, decide_True|]. intros j Hne. rewrite pc_of_go, decide_False by done.
    unfold pc_of. by rewrite Hp. }
  unfold step_thread. destruct (pc_of i s) eqn:E; cbn in Hi.
  - eexists. split; [done|]. apply idle_step; by rewrite ?E.
  - pose proof (inv_flag _ Hs) as Hf. destruct (s_once_ s) eqn:Eo.
    + eexists. split; [done|]. destruct Hf as [Hf1 Hf2].
      constructor; [| |done].
      * intros j. destruct (Hgo Constructing (set_once Running s)) as [H1 H2]; [done|].
        destruct (decide (j = i)) as [->|Hne]; [by rewrite H1|]. rewrite H2 by done.
        pose proof (inv_pc _ Hs j) as Hj. destruct (pc_of j s); cbn in Hj |- *; rewrite ?Eo in Hj; naive_solver.
      * cbn. exists i. rewrite pc_of_go, decide_True by done. split; [done|]. intros j. rewrite pc_of_go.
        case_decide; [done|]. intros Hb. change (pc_of j s) with (pc_of j s) in Hb.
        pose proof (busy_running _ s Hb (inv_pc _ Hs j)). congruence.
    + by exists s.
    + eexists. split; [done|]. apply idle_step; by rewrite ?E.
  - assert (busy (pc_of i s) = true) as Hb by by rewrite E. destruct Hi as (Hr & Hn & Ha).
    assert (constructed s = 0%nat /\ live s = ∅) as [Hc Hl] by (destruct Hv as [[_ ?]|[? _]]; [done|congruence]).
    destruct throws; (eexists; split; [done|]).
    + destruct (Hgo Threw (set_once Fresh s)); [done|]. eapply (busy_step i Threw s); try done.
    + destruct (Hgo Registering (new_value s)); [done|]. eapply (busy_step i Registering s); try done; cbn; rewrite ?Hc, ?Hl, ?Hr; try done.
      right. split; [done|]. split; [done|]. set_solver.
  - assert (busy (pc_of i s) = true) as Hb by by rewrite E. destruct Hi as (Hr & Hn & Ha).
    eexists. split; [done|]. unfold register. destruct has_no_destroy eqn:Eh.
    + destruct (Hgo Finishing s); [done|]. eapply (busy_step i Finishing s); try done; cbn; rewrite ?Hr; try done.
      unfold registered. by rewrite Eh.
    + destruct (Hgo Finishing (mk (s_once_ s) (s_value_ s) (live s) (constructed s) (S (atexit s)) (pcs s))); [done|].
      eapply (busy_step i Finishing s); try done; cbn; rewrite ?Hr; try done. unfold registered. by rewrite Eh, Ha.
  - assert (busy (pc_of i s) = true) as Hb by by rewrite E. destruct Hi as (Hr & Hn & Ha).
    eexists. split; [done|]. destruct (Hgo Loading (set_once Done s)); [done|].
    eapply (busy_step i Loading s); try done.
  - pose proof (inv_flag _ Hs) as Hf. rewrite Hi in Hf. destruct Hf as [-> _]. cbn [mbind option_bind].
    eexists. split; [done|]. apply idle_step; rewrite ?E; try done.
  - eexists. split; [done|]. apply idle_step; by rewrite ?E.
  - eexists. split; [done|]. apply idle_step; by rewrite ?E.
Qed.

Lemma singleton_run_inv evs s :
  inv s -> Forall (fun ev => ev <> Exit) evs -> exists s', run evs s = Some s' /\ inv s'.
Proof.
  intros Hs Hev. revert s Hs. induction Hev as [|ev evs Hne _ IH]; intros s Hs; cbn [run]; [by exists s|].
  destruct ev as [i throws|]; [|done]. cbn [step].
  destruct (step_thread_inv i throws s Hs) as (s1 & -> & Hs1). by apply IH.
Qed.

(** The end of the program. *)
Lemma exit_spec s :
  inv s -> exists s', run_handlers (atexit s) s = Some s' /\ atexit s' = 0%nat /\ pcs s' = pcs s /\
    s_once_ s' = s_once_ s /\ (s_once_ s = Done -> live s' = if has_no_destroy then {[0%nat]} else ∅).
Proof.
  intros [Hpc Hf Hv].
  assert (atexit s = 0%nat \/ (atexit s = registered /\ s_value_ s = Some 0%nat)) as Ha.
  { destruct (s_once_ s); [left; apply Hf| |right; by destruct Hf].
    destruct Hf as (i & Hb & _). specialize (Hpc i). destruct (pc_of i s); try done; cbn in Hpc; tauto. }
  assert (s_value_ s = Some 0%nat -> live s = {[0%nat]}) as Hlive
    by (intros Hs; destruct Hv as [(? & _)|(_ & _ & ?)]; [congruence|done]).
  destruct (decide (atexit s = 0%nat)) as [E|Hne].
  - rewrite E. exists s. split; [done|]. split; [done|]. split; [done|]. split; [done|]. intros Hd.
    rewrite Hd in Hf. destruct Hf as [Hs Hr]. rewrite E in Hr. unfold registered in Hr.
    destruct has_no_destroy; [by apply Hlive|done].
  - destruct Ha as [?|[Hr Hs]]; [done|]. unfold registered in Hr. destruct has_no_destroy; [done|].
    rewrite Hr. cbn [run_handlers]. unfold destroy. cbn [s_value_ live]. rewrite Hs, (Hlive Hs).
    rewrite decide_True by set_solver. cbn [mbind option_bind]. eexists. split; [done|]. cbn.
    split; [done|]. split; [done|]. split; [done|]. intros _. set_solver.
Qed.

(** ** Properties *)

(** C38: until the program exits, however the threads' calls of [instance()]
    are interleaved and however often [T()] throws, at most one object is ever
    constructed, every call that returns gives that object, which is alive, no
    null pointer is dereferenced, and a thread waits in [call_once] only while
    another one is in [init]. An exit is safe at any time and a second one
    changes nothing; when [init] is done it destroys the object if [T] has no
    [no_destroy] and leaves it alive if it has. Calls after the exit are not
    covered: they use a null pointer ([instance_after_exit]). *)
Theorem singleton_constructed_once (evs : list input) (Hev : Forall (fun ev => ev <> Exit) evs) :
  exists s, run evs make = Some s /\
    (constructed s <= 1)%nat /\
    (forall i p, pc_of i s = Returned p -> p = 0%nat /\ live s = {[p]}) /\
    (s_once_ s = Running -> exists i, busy (pc_of i s) = true) /\
    exists s', step Exit s = Some s' /\ step Exit s' = Some s' /\
      (s_once_ s = Done -> live s' = if has_no_destroy then {[0%nat]} else ∅).
Proof.
  destruct (singleton_run_inv evs make singleton_make_inv Hev) as (s & E & [Hpc Hf Hv]). exists s.
  split; [done|]. split; [destruct Hv as [(_ & -> & _)|(_ & -> & _)]; lia|]. split; [|split].
  - intros i p Hr. specialize (Hpc i). rewrite Hr in Hpc. destruct Hpc as [Hd ->]. rewrite Hd in Hf.
    destruct Hf as [Hf _]. split; [done|]. destruct Hv as [(? & _)|(_ & _ & ?)]; [congruence|done].
  - intros Hr. rewrite Hr in Hf. destruct Hf as (i & ? & _). by exists i.
  - destruct (exit_spec s) as (s' & Ex & H0 & _ & _ & Hl); [by constructor|]. exists s'. split; [done|].
    split; [|done]. cbn [step]. by rewrite H0.
Qed.

(** A call that comes after the destruction binds a reference to a null
    pointer: [call_once] does not construct the object again. *)
Theorem instance_after_exit (evs : list input) (i : nat) (s s' : t)
  (Hev : Forall (fun ev => ev <> Exit) evs) (Hrun : run evs make = Some s)
  (Hdone : s_once_ s = Done) (Hdestroy : has_no_destroy = false) (Hi : pc_of i s = Outside)
  (Hexit : step Exit s = Some s') :
  run [Thread i false; Thread i false; Thread i false] s' = None.
Proof.
  destruct (singleton_run_inv evs make singleton_make_inv Hev) as (s0 & E & Hs). rewrite Hrun in E. injection E as <-.
  destruct (exit_spec s Hs) as (s1 & Ex & _ & Hp & Ho & _). cbn [step] in Hexit. rewrite Hexit in Ex.
  injection Ex as <-. pose proof (inv_flag _ Hs) as Hf. rewrite Hdone in Hf. destruct Hf as [Hv Ha].
  assert (s_value_ s' = None) as Hnone.
  { rewrite Ha in Hexit. unfold registered in Hexit. rewrite Hdestroy in Hexit. cbn in Hexit.
    unfold destroy in Hexit. cbn in Hexit. rewrite Hv in Hexit. case_decide; [|done]. by injection Hexit as <-. }
  assert (pc_of i s' = Outside) as Hi' by (unfold pc_of in *; by rewrite Hp).
  assert (step_thread i false s' = Some (go i Calling s')) as E1 by (unfold step_thread; by rewrite Hi').
  assert (step_thread i false (go i Calling s') = Some (go i Loading (go i Calling s'))) as E2.
  { unfold step_thread. rewrite pc_of_go, decide_True by done. cbn [s_once_ go]. by rewrite Ho, Hdone. }
  assert (step_thread i false (go i Loading (go i Calling s')) = None) as E3.
  { unfold step_thread. rewrite pc_of_go, decide_True by done. cbn [s_value_ go]. by rewrite Hnone. }
  cbn [run step]. rewrite E1. cbn [mbind option_bind]. rewrite E2. cbn [mbind option_bind]. by rewrite E3.
Qed.
End Singleton.

(** Two threads race for the object, whose first construction fails. *)
Definition two_callers : list input :=
  [Thread 1 false; Thread 2 false; Thread 1 false; Thread 2 false; Thread 1 true; Thread 2 false; Thread 2 false;
   Thread 2 false; Thread 2 false; Thread 2 false; Thread 1 false; Thread 1 false; Thread 1 false].

Lemma two_callers_stay : Forall (fun ev => ev <> Exit) two_callers.
Proof. by repeat constructor. Qed.

Definition view (s : t) := (pc_of 1 s, pc_of 2 s, constructed s, s_once_ s, elements (live s)).

Lemma singleton_constructed_once_witness :
  option_map view (run false two_callers make) = Some (Returned 0, Returned 0, 1%nat, Done, [0%nat]) /\
  exists s, run false two_callers make = Some s /\ (constructed s <= 1)%nat /\
    exists s', step false Exit s = Some s' /\ (s_once_ s = Done -> live s' = ∅).
Proof.
  split; [vm_compute; reflexivity|].
  destruct (singleton_constructed_once false two_callers two_callers_stay) as (s & E & H1 & _ & _ & s' & Ex & _ & Hl).
  exists s. split; [exact E|]. split; [exact H1|]. exists s'. split; [exact Ex|exact Hl].
Defined.
End Singleton.
