(* ===== verification/LogStreams.v ===== *)
(** [nutty/log/LogStream.*], [LogBuffer.*] and [LogFormat.*]: integer to text
    conversion, the growing buffer a log line is formatted into, and values
    formatted by the C library, whose text is a parameter. *)

From S2P Require Import Prelude.

(** ** [convert] and [convertHex] *)

Module Convert.

(** [digits], the decimal digits around [zero = digits + 9]. *)
Definition digits : list byte :=
  [Byte.x39; Byte.x38; Byte.x37; Byte.x36; Byte.x35; Byte.x34; Byte.x33; Byte.x32; Byte.x31;
   Byte.x30; Byte.x31; Byte.x32; Byte.x33; Byte.x34; Byte.x35; Byte.x36; Byte.x37; Byte.x38; Byte.x39].

(** [digitsHex] *)
Definition digitsHex : list byte :=
  [Byte.x30; Byte.x31; Byte.x32; Byte.x33; Byte.x34; Byte.x35; Byte.x36; Byte.x37; Byte.x38; Byte.x39;
   Byte.x41; Byte.x42; Byte.x43; Byte.x44; Byte.x45; Byte.x46].

Definition minus : byte := Byte.x2d.

(** [zero[lsd]]: [None] outside [digits]. *)
Definition zero (lsd : Z) : option byte :=
  if (0 <=? 9 + lsd) then digits !! Z.to_nat (9 + lsd) else None.

(** The [do ... while] loop of [convert]: [%] and [/] truncate. The characters
    come least significant first. *)
Fixpoint convert_loop (fuel : nat) (i : Z) : option (list byte) :=
  match fuel with
  | O => None
  | S fuel' =>
      c ← zero (Z.rem i 10);
      let i' := Z.quot i 10 in
      if i' =? 0 then Some [c] else rest ← convert_loop fuel' i'; Some (c :: rest)
  end.

(** The characters that [convert] leaves in [buf], without the final NUL. Twenty
    digits are enough for 64 bits. *)
Definition convert (value : Z) : option (list byte) :=
  cs ← convert_loop 20 value;
  let cs' := if value <? 0 then cs ++ [minus] else cs in
  Some (rev cs').

Fixpoint convertHex_loop (fuel : nat) (i : Z) : option (list byte) :=
  match fuel with
  | O => None
  | S fuel' =>
      c ← digitsHex !! Z.to_nat (i `mod` 16);
      let i' := i `div` 16 in
      if i' =? 0 then Some [c] else rest ← convertHex_loop fuel' i'; Some (c :: rest)
  end.

Definition convertHex (value : Z) : option (list byte) :=
  cs ← convertHex_loop 16 value; Some (rev cs).

(** *** Reading numbers back *)

Definition code (c : byte) : Z := Z.of_N (Byte.to_N c).

Definition digit_value (c : byte) : Z :=
  if code c <? 58 then code c - 48 else code c - 55.

(** The value of a digit string in a base, most significant digit first. *)
Definition value_of (base : Z) (cs : list byte) : Z :=
  fold_left (fun acc c => acc * base + digit_value c) cs 0.

Definition parse (cs : list byte) : Z :=
  match cs with
  | c :: rest => if code c =? code minus then - value_of 10 rest else value_of 10 cs
  | [] => 0
  end.

Lemma value_of_snoc base cs c : value_of base (cs ++ [c]) = value_of base cs * base + digit_value c.
Proof. unfold value_of. by rewrite fold_left_app. Qed.

Lemma zero_spec lsd : -10 < lsd < 10 ->
  exists c, zero lsd = Some c /\ digit_value c = Z.abs lsd /\ code c <> code minus.
Proof.
  intros. assert (lsd = -9 \/ lsd = -8 \/ lsd = -7 \/ lsd = -6 \/ lsd = -5 \/ lsd = -4 \/ lsd = -3 \/
    lsd = -2 \/ lsd = -1 \/ lsd = 0 \/ lsd = 1 \/ lsd = 2 \/ lsd = 3 \/ lsd = 4 \/ lsd = 5 \/ lsd = 6 \/
    lsd = 7 \/ lsd = 8 \/ lsd = 9) as Hl by lia.
  repeat (destruct Hl as [->|Hl]; [eexists; split; [reflexivity|split; [reflexivity|by vm_compute]]|]).
  subst. eexists. split; [reflexivity|]. split; [reflexivity|by vm_compute].
Qed.

Lemma hex_spec d : 0 <= d < 16 ->
  exists c, digitsHex !! Z.to_nat d = Some c /\ digit_value c = d.
Proof.
  intros. assert (d = 0 \/ d = 1 \/ d = 2 \/ d = 3 \/ d = 4 \/ d = 5 \/ d = 6 \/ d = 7 \/ d = 8 \/ d = 9 \/
    d = 10 \/ d = 11 \/ d = 12 \/ d = 13 \/ d = 14 \/ d = 15) as Hl by lia.
  repeat (destruct Hl as [->|Hl]; [eexists; split; reflexivity|]). subst. eexists. split; reflexivity.
Qed.

(** The loop produces the digits of the absolute value; [n] digits are enough
    below [10 ^ n], and no more are produced. *)
Lemma convert_loop_spec n i :
  - 10 ^ Z.of_nat n < i < 10 ^ Z.of_nat n -> (0 < n)%nat ->
  exists cs, convert_loop n i = Some cs /\ value_of 10 (rev cs) = Z.abs i /\
    (0 < length cs <= n)%nat /\ Forall (fun c => code c <> code minus) cs.
Proof.
  revert i. induction n as [|n IH]; intros i Hi Hn; [lia|]. cbn [convert_loop].
  rewrite Nat2Z.inj_succ, Z.pow_succ_r in Hi by lia.
  pose proof (Z.quot_rem' i 10) as Hqr.
  pose proof (Z.rem_bound_abs i 10 ltac:(lia)) as Hrem.
  destruct (zero_spec (Z.rem i 10)) as (c & -> & Hc & Hm); [lia|]. cbn [mbind option_bind].
  assert (Z.abs i = Z.abs (Z.quot i 10) * 10 + Z.abs (Z.rem i 10)) as Habs.
  { destruct (decide (0 <= i)).
    - pose proof (Z.quot_pos i 10 ltac:(lia) ltac:(lia)).
      pose proof (Z.rem_nonneg i 10 ltac:(lia) ltac:(lia)). lia.
    - pose proof (Z.rem_nonpos i 10 ltac:(lia) ltac:(lia)).
      assert (Z.quot i 10 <= 0) by (pose proof (Z.quot_opp_l i 10 ltac:(lia));
        pose proof (Z.quot_pos (- i) 10 ltac:(lia) ltac:(lia)); lia). lia. }
  case_if.
  - exists [c]. split; [done|]. split; [|split; [cbn; lia|by repeat constructor]].
    unfold value_of. cbn. rewrite Hc. lia.
  - assert (n <> O) as Hn0 by (intros ->; change (10 ^ Z.of_nat 0) with 1 in Hi; lia).
    destruct (IH (Z.quot i 10)) as (cs & -> & Hv & Hl & Hf); [lia|lia|]. cbn [mbind option_bind].
    exists (c :: cs). split; [done|]. split; [|split; [cbn; lia|by constructor]].
    cbn [rev]. rewrite value_of_snoc, Hv, Hc. lia.
Qed.

Lemma convertHex_loop_spec n i :
  0 <= i < 16 ^ Z.of_nat n -> (0 < n)%nat ->
  exists cs, convertHex_loop n i = Some cs /\ value_of 16 (rev cs) = i /\ (0 < length cs <= n)%nat.
Proof.
  revert i. induction n as [|n IH]; intros i Hi Hn; [lia|]. cbn [convertHex_loop].
  rewrite Nat2Z.inj_succ, Z.pow_succ_r in Hi by lia.
  pose proof (Z.div_mod i 16 ltac:(lia)) as Hdm.
  pose proof (Z.mod_pos_bound i 16 ltac:(lia)) as Hmod.
  destruct (hex_spec (i `mod` 16) Hmod) as (c & -> & Hc). cbn [mbind option_bind].
  case_if.
  - exists [c]. split; [done|]. split; [|cbn; lia]. unfold value_of. cbn. rewrite Hc. lia.
  - assert (n <> O) as Hn0 by (intros ->; change (16 ^ Z.of_nat 0) with 1 in Hi; lia).
    destruct (IH (i `div` 16)) as (cs & -> & Hv & Hl); [lia|lia|]. cbn [mbind option_bind].
    exists (c :: cs). split; [done|]. split; [|cbn; lia].
    cbn [rev]. rewrite value_of_snoc, Hv, Hc. lia.
Qed.

(** More fuel changes nothing. *)
Lemma convert_loop_fuel n i cs : convert_loop n i = Some cs -> convert_loop (S n) i = Some cs.
Proof.
  revert i cs. induction n as [|n IH]; intros i cs E; [done|].
  cbn [convert_loop] in E. change (convert_loop (S (S n)) i) with
    (c ← zero (Z.rem i 10);
     if Z.quot i 10 =? 0 then Some [c] else rest ← convert_loop (S n) (Z.quot i 10); Some (c :: rest)).
  destruct (zero (Z.rem i 10)) as [c|]; [|done]. cbn [mbind option_bind] in *.
  destruct (Z.quot i 10 =? 0); [done|].
  destruct (convert_loop n (Z.quot i 10)) as [rest|] eqn:Er; [|done]. by rewrite (IH _ _ Er).
Qed.

Lemma parse_unsigned cs :
  cs <> [] -> Forall (fun c => code c <> code minus) cs -> parse (rev cs) = value_of 10 (rev cs).
Proof.
  intros Hne Hf. apply Forall_rev in Hf. destruct (rev cs) as [|c rest] eqn:E.
  - by apply (f_equal (@rev byte)) in E; rewrite rev_involutive in E.
  - apply Forall_cons_1 in Hf as [Hc _]. cbn [parse]. by rewrite (proj2 (Z.eqb_neq _ _) Hc).
Qed.

Lemma convert_spec v : -9223372036854775808 <= v < 18446744073709551616 ->
  exists cs, convert v = Some cs /\ parse cs = v /\ (0 < length cs <= 20)%nat.
Proof.
  intros Hv. unfold convert. destruct (decide (v < 0)) as [Hneg|Hpos].
  - destruct (convert_loop_spec 19 v) as (cs & E & Hval & Hl & Hf); [lia|lia|].
    rewrite (convert_loop_fuel _ _ _ E). cbn [mbind option_bind]. rewrite (proj2 (Z.ltb_lt _ _) Hneg).
    eexists. split; [done|]. rewrite rev_app_distr. cbn [rev app parse]. rewrite Z.eqb_refl, Hval.
    split; [lia|]. cbn [length]. rewrite length_rev. lia.
  - destruct (convert_loop_spec 20 v) as (cs & -> & Hval & Hl & Hf); [lia|lia|].
    cbn [mbind option_bind]. rewrite (proj2 (Z.ltb_ge _ _)) by lia.
    eexists. split; [done|]. rewrite parse_unsigned, Hval, length_rev by (done || (by intros ->; cbn in Hl; lia)).
    split; lia.
Qed.

Lemma convertHex_spec h : 0 <= h < 18446744073709551616 ->
  exists cs, convertHex h = Some cs /\ value_of 16 cs = h /\ (0 < length cs <= 16)%nat.
Proof.
  intros Hh. unfold convertHex. destruct (convertHex_loop_spec 16 h) as (cs & -> & Hval & Hl); [lia|lia|].
  cbn [mbind option_bind]. exists (rev cs). rewrite length_rev. done.
Qed.

(** C36: for every 64-bit integer, signed or unsigned (the minimum included),
    [convert] produces text that reads back as the integer, in at most 20
    characters; [convertHex] does so for every 64-bit value in at most 16. Both
    leave room in [kMaxNumericSize] = 32 bytes for the NUL and "0x". *)
Theorem convert_round_trip (v h : Z)
  (Hv : -9223372036854775808 <= v < 18446744073709551616) (Hh : 0 <= h < 18446744073709551616) :
  (exists cs, convert v = Some cs /\ parse cs = v /\ (0 < length cs <= 20)%nat) /\
  (exists cs, convertHex h = Some cs /\ value_of 16 cs = h /\ (0 < length cs <= 16)%nat).
Proof. split; [exact (convert_spec v Hv)|exact (convertHex_spec h Hh)]. Qed.

Lemma convert_round_trip_witness :
  (exists cs, convert (-9223372036854775808) = Some cs /\ parse cs = -9223372036854775808 /\
     (0 < length cs <= 20)%nat) /\
  (exists cs, convertHex 3735928559 = Some cs /\ value_of 16 cs = 3735928559 /\
     (0 < length cs <= 16)%nat).
Proof. apply (convert_round_trip (-9223372036854775808) 3735928559); lia. Defined.
End Convert.

(** ** [LogBuffer] *)

Module LogBuffer.

(** The block [buf_] points to, and the fields. *)
Record t := mk { buf_ : list byte; size_ : Z; capacity_ : Z }.

Definition kBufferSize : Z := 512.

(** [malloc(n)]: a block of unspecified bytes. *)
Definition malloc (n : Z) : list byte := replicate (Z.to_nat n) Byte.x00.

Definition make : t := mk (malloc kBufferSize) 0 kBufferSize.

Definition current (b : t) : ptr := (buf_ b, size_ b).
Definition size (b : t) : Z := size_ b.
Definition capacity (b : t) : Z := capacity_ b.

Definition add (n : Z) (b : t) : t := mk (buf_ b) (u64 (size_ b + n)) (capacity_ b).

(** [reserve(capacity)] *)
Definition reserve (capacity : Z) (b : t) : option t :=
  let new_capacity := Z.max (u64 (capacity_ b + capacity_ b / 2)) capacity in
  buf ← memcpy (malloc new_capacity) 0 (buf_ b, 0) (size_ b);
  Some (mk buf (size_ b) new_capacity).

(** [append(buf, count)] *)
Definition append (buf : ptr) (count : Z) (b : t) : option t :=
  let newSize := u64 (size_ b + count) in
  b1 ← (if capacity_ b <? newSize then reserve newSize b else Some b);
  block ← memcpy (buf_ b1) (size_ b1) buf count;
  Some (mk block newSize (capacity_ b1)).

(** Storing through [current()]. *)
Definition store (off : Z) (bytes : list byte) (b : t) : option t :=
  block ← memcpy (buf_ b) off (bytes, 0) (zlen bytes);
  Some (mk block (size_ b) (capacity_ b)).

#[global] Arguments malloc : simpl never.

(** The buffer's size stays below 2^62, so that [capacity_ + capacity_ / 2] does
    not wrap. *)
Definition wf (b : t) : Prop :=
  0 <= size_ b <= capacity_ b /\ zlen (buf_ b) = capacity_ b /\ capacity_ b < 4611686018427387904.

Definition contents (b : t) : list byte := slice 0 (size_ b) (buf_ b).

Lemma zlen_malloc n : 0 <= n -> zlen (malloc n) = n.
Proof. intros. unfold malloc. zlia. Qed.

Lemma log_buffer_wf_make : wf make.
Proof. unfold wf, make. cbn. rewrite zlen_malloc; unfold kBufferSize; lia. Qed.

Lemma reserve_spec n b :
  wf b -> capacity_ b <= n < 4611686018427387904 ->
  exists b', reserve n b = Some b' /\ size_ b' = size_ b /\ n <= capacity_ b' /\
    capacity_ b' < 6917529027641081856 /\ zlen (buf_ b') = capacity_ b' /\
    contents b' = contents b.
Proof.
  intros (Hs & Hz & Hc) Hn. unfold reserve.
  assert (0 <= capacity_ b / 2 <= capacity_ b) by (split; [apply Z.div_pos|apply Z.div_le_upper_bound]; lia).
  assert (capacity_ b / 2 <= 2305843009213693952) by (apply Z.div_le_upper_bound; lia).
  rewrite u64_small by (unfold in_u64; lia). set (m := Z.max _ n).
  rewrite memcpy_ok by (rewrite ?zlen_malloc; lia). cbn [mbind option_bind].
  eexists. split; [done|]. cbn [size_ capacity_ buf_].
  assert (zlen (slice 0 (size_ b) (buf_ b)) = size_ b) as Hl by (apply zlen_slice; lia).
  split; [done|]. split; [lia|]. split; [lia|]. split.
  - rewrite zlen_splice; rewrite ?zlen_malloc, ?Hl; lia.
  - unfold contents. cbn [size_ buf_]. rewrite <- Hl at 1. apply slice_splice_same; [lia|].
    rewrite zlen_malloc, Hl; lia.
Qed.

(** Writing at the end of a buffer that has room for it. *)
Lemma store_add bytes b :
  0 <= size_ b -> size_ b + zlen bytes <= capacity_ b -> zlen (buf_ b) = capacity_ b -> in_u64 (capacity_ b) ->
  exists b', store (size_ b) bytes b = Some b' /\ size_ b' = size_ b /\ capacity_ b' = capacity_ b /\
    zlen (buf_ b') = capacity_ b /\
    contents (mk (buf_ b') (size_ b + zlen bytes) (capacity_ b')) = contents b ++ bytes.
Proof.
  intros H0 Hr Hz H64. pose proof (zlen_nonneg bytes). unfold store. rewrite memcpy_ok by lia.
  rewrite slice_all. eexists. split; [done|]. cbn [size_ capacity_ buf_].
  split; [done|]. split; [done|]. split; [rewrite zlen_splice; lia|].
  unfold contents. cbn [size_ buf_]. rewrite <- slice_app by lia.
  rewrite slice_splice_below by lia. rewrite Z.add_0_l, slice_splice_same by lia. done.
Qed.

Lemma log_buffer_append_spec bytes b :
  wf b -> size_ b + zlen bytes < 4611686018427387904 ->
  exists b', append (bytes, 0) (zlen bytes) b = Some b' /\ contents b' = contents b ++ bytes /\
    size_ b' = size_ b + zlen bytes /\ size_ b' <= capacity_ b' /\ zlen (buf_ b') = capacity_ b'.
Proof.
  intros Hwf Hb. pose proof Hwf as (Hs & Hz & Hc). pose proof (zlen_nonneg bytes). unfold append.
  rewrite u64_small by (unfold in_u64; lia). cbv zeta.
  assert (exists b1, (if capacity_ b <? size_ b + zlen bytes then reserve (size_ b + zlen bytes) b else Some b)
    = Some b1 /\ size_ b1 = size_ b /\ size_ b + zlen bytes <= capacity_ b1 /\
    capacity_ b1 < 6917529027641081856 /\ zlen (buf_ b1) = capacity_ b1 /\ contents b1 = contents b)
    as (b1 & -> & Hs1 & Hr1 & Hc1 & Hz1 & Hcon1).
  { case_if.
    - destruct (reserve_spec (size_ b + zlen bytes) b Hwf) as (b1 & ? & ? & ? & ? & ? & ?); [lia|].
      by exists b1.
    - exists b. split; [done|]. split; [done|]. split; [lia|]. split; [lia|done]. }
  cbn [mbind option_bind].
  destruct (store_add bytes b1) as (b2 & E & _ & Hc2 & Hz2 & Hcon2); [lia|lia|done|unfold in_u64; lia|].
  unfold store in E. destruct (memcpy _ _ _ _) as [block|]; [|done]. cbn [mbind option_bind] in *.
  injection E as <-. eexists. split; [done|]. cbn in *. rewrite Hs1, Hcon1 in Hcon2.
  split; [exact Hcon2|]. rewrite Hz2. split; [done|]. split; [lia|done].
Qed.
End LogBuffer.

(** ** [LogFormat] *)

(** [snprintf(buf, n, ...)] of what formats to [text]: the characters it
    stores, with a NUL, and what it returns. *)
Definition snprintf (n : Z) (text : list byte) : list byte * Z := (ztake (n - 1) text ++ [Byte.x00], zlen text).

Module LogFormat.

Definition kBufferSize : Z := 32.

Record t := mk { data_ : list byte; length_ : Z }.

(** [LogFormat(fmt, val)], where [val] formats to [text]; [None] is the failed
    assertion. *)
Definition make (text : list byte) : option t :=
  let '(stored, n) := snprintf kBufferSize text in
  let length := i32 n in
  data ← memcpy (replicate (Z.to_nat kBufferSize) Byte.x00) 0 (stored, 0) (zlen stored);
  if u64 length <? kBufferSize then Some (mk data length) else None.

Definition data (f : t) : list byte := data_ f.
Definition length (f : t) : Z := length_ f.

(** The characters of a formatted value. *)
Definition text (f : t) : list byte := ztake (length_ f) (data_ f).

(** The buffer holds the text and its NUL. *)
Definition wf (f : t) : Prop := zlen (data_ f) = kBufferSize /\ 0 <= length_ f < kBufferSize.

(** A value is formatted as the C library formats it when its text and the NUL
    fit into the 32 bytes; otherwise the assertion stops the program. *)
Lemma format_spec txt :
  zlen txt < 2147483648 ->
  match make txt with
  | Some f => wf f /\ text f = txt /\ zlen txt < kBufferSize
  | None => kBufferSize <= zlen txt
  end.
Proof.
  intros Hl. pose proof (zlen_nonneg txt). unfold make, snprintf, kBufferSize, i32.
  rewrite memcpy_ok by (rewrite ?zlen_replicate; zlia). cbn [mbind option_bind].
  replace ((zlen txt + 2147483648) `mod` 4294967296 - 2147483648) with (zlen txt)
    by (rewrite Z.mod_small by lia; lia).
  rewrite u64_small by zlia. case_if; [|done]. unfold wf, text. cbn [data_ length_].
  rewrite slice_all, (ztake_all (32 - 1)) by lia. rewrite zlen_splice; [|lia|rewrite zlen_replicate; zlia].
  rewrite zlen_replicate. split; [split; [reflexivity|unfold kBufferSize; lia]|]. split; [|done].
  unfold splice. rewrite ztake_0. cbn [app]. rewrite <- app_assoc, ztake_app_le, ztake_all by lia. done.
Qed.
End LogFormat.

(** ** [LogStream] *)

Module LogStream.
Import LogBuffer.

Definition kMaxNumericSize : Z := 32.

(** [needSize] is a [uint32_t]. *)
Definition need (b : LogBuffer.t) : Z := u32 (size b + kMaxNumericSize).

Definition make_room (b : LogBuffer.t) : option LogBuffer.t :=
  if capacity b <? need b then reserve (need b) b else Some b.

(** [formatInteger(v)]: the characters and the NUL are stored at [current()]. *)
Definition formatInteger (v : Z) (b : LogBuffer.t) : option LogBuffer.t :=
  b1 ← make_room b;
  cs ← Convert.convert v;
  b2 ← store (size b1) (cs ++ [Byte.x00]) b1;
  Some (add (zlen cs) b2).

(** The integer types, by signedness and bits. *)
Inductive int_type := Short | UShort | Int | UInt | Long | ULong | LongLong | ULongLong.

Definition signed (T : int_type) : bool :=
  match T with Short | Int | Long | LongLong => true | _ => false end.
Definition half_range (T : int_type) : Z :=
  match T with
  | Short | UShort => 32768
  | Int | UInt => 2147483648
  | _ => 9223372036854775808
  end.

Definition in_type (T : int_type) (v : Z) : Prop :=
  if signed T then - half_range T <= v < half_range T else 0 <= v < 2 * half_range T.

(** Conversion to a type. *)
Definition to_type (T : int_type) (v : Z) : Z :=
  if signed T then (v + half_range T) `mod` (2 * half_range T) - half_range T else v `mod` (2 * half_range T).

(** [operator<<(short)], [operator<<(unsigned short)] etc.: the former two call
    [formatInteger] with a wider type. *)
Definition put_integer (T : int_type) (v : Z) (b : LogBuffer.t) : option LogBuffer.t :=
  match T with
  | Short => formatInteger (to_type Int v) b
  | UShort => formatInteger (to_type UInt v) b
  | _ => formatInteger v b
  end.

Lemma to_type_id T v : in_type T v -> to_type T v = v.
Proof.
  unfold in_type, to_type. destruct (signed T), T; cbn; intros; rewrite Z.mod_small; lia.
Qed.

Lemma put_integer_spec T v b :
  in_type T v -> put_integer T v b = formatInteger v b /\ -9223372036854775808 <= v < 18446744073709551616.
Proof.
  intros Hv. destruct T; cbn [put_integer]; rewrite ?to_type_id;
    unfold in_type in *; cbn in *; (split; [done|lia]) || lia.
Qed.

(** [operator<<(const void* )] *)
Definition put_pointer (v : Z) (b : LogBuffer.t) : option LogBuffer.t :=
  b1 ← make_room b;
  b2 ← store (size b1) [Byte.x30; Byte.x78] b1;
  let b3 := add 2 b2 in
  cs ← Convert.convertHex v;
  b4 ← store (size b3) (cs ++ [Byte.x00]) b3;
  Some (add (zlen cs) b4).

Section LogStream.
(** Floating-point numbers, and their text in the format "%.12g": a sign, 12
    digits, a point and an exponent at most. *)
Context {D : Type} (g12 : D -> list byte).

(** [operator<<(double v)] *)
Definition put_double (v : D) (b : LogBuffer.t) : option LogBuffer.t :=
  b1 ← make_room b;
  let '(stored, n) := snprintf kMaxNumericSize (g12 v) in
  b2 ← store (size b1) stored b1;
  Some (add (u64 (i32 n)) b2).

(** What can be streamed: integers of every width, floating-point numbers,
    pointers, the types that are appended as they are (strings, characters,
    [bool] as "1" or "0") and formatted values. [LogStream::append] takes its
    length as an [int], which [LogBuffer::append] converts to [size_t]. *)
Inductive item :=
  | Integer (T : int_type) (v : Z)
  | Double (v : D)
  | Pointer (v : Z)
  | Text (bytes : list byte)
  | Bool (v : bool)
  | Format (fmt : LogFormat.t).

Definition put (i : item) (b : LogBuffer.t) : option LogBuffer.t :=
  match i with
  | Integer T v => put_integer T v b
  | Double v => put_double v b
  | Pointer v => put_pointer v b
  | Text bytes => append (bytes, 0) (u64 (i32 (zlen bytes))) b
  | Bool v => append ([if v then Byte.x31 else Byte.x30], 0) 1 b
  | Format fmt => append (LogFormat.data fmt, 0) (u64 (LogFormat.length fmt)) b
  end.

Fixpoint put_all (items : list item) (b : LogBuffer.t) : option LogBuffer.t :=
  match items with
  | [] => Some b
  | i :: rest => b1 ← put i b; put_all rest b1
  end.

(** *** Specification *)

Definition render (i : item) : list byte :=
  match i with
  | Integer _ v => default [] (Convert.convert v)
  | Double v => g12 v
  | Pointer v => [Byte.x30; Byte.x78] ++ default [] (Convert.convertHex v)
  | Text bytes => bytes
  | Bool v => [if v then Byte.x31 else Byte.x30]
  | Format fmt => LogFormat.text fmt
  end.

Definition item_ok (i : item) : Prop :=
  match i with
  | Integer T v => in_type T v
  | Pointer v => 0 <= v < 18446744073709551616
  | Double v => zlen (g12 v) <= 19
  | Text bytes => zlen bytes < 2147483648
  | Bool _ => True
  | Format fmt => LogFormat.wf fmt
  end.

(** Growing never makes the buffer larger than one and a half times what is
    needed, hence the bound. *)
Definition ok (b : LogBuffer.t) : Prop :=
  0 <= size_ b <= capacity_ b /\ zlen (buf_ b) = capacity_ b /\ capacity_ b <= 6442450944.

Lemma ok_wf b : ok b -> wf b.
Proof. intros (? & ? & ?). split; [done|]. split; [done|lia]. Qed.

Lemma reserve_ok n b :
  ok b -> capacity_ b < n < 4294967296 ->
  exists b', reserve n b = Some b' /\ ok b' /\ size_ b' = size_ b /\ n <= capacity_ b' /\
    contents b' = contents b.
Proof.
  intros Hok Hn. destruct (reserve_spec n b (ok_wf b Hok)) as (b' & E & Hs & Hr & _ & Hz & Hc); [lia|].
  exists b'. split; [done|]. split; [|done]. destruct Hok as (Hs0 & Hz0 & Hc0).
  split; [lia|]. split; [done|]. unfold reserve in E.
  destruct (memcpy _ _ _ _); [|done]. injection E as <-. cbn [capacity_].
  assert (0 <= capacity_ b / 2) by (apply Z.div_pos; lia).
  assert (2 * (capacity_ b / 2) <= capacity_ b) by (apply Z.mul_div_le; lia).
  rewrite u64_small by (unfold in_u64; lia). lia.
Qed.

Lemma make_room_spec b :
  ok b -> size_ b + 32 < 4294967296 ->
  exists b', make_room b = Some b' /\ ok b' /\ size_ b' = size_ b /\ size_ b + 32 <= capacity_ b' /\
    contents b' = contents b.
Proof.
  intros Hok Hs. pose proof Hok as ([H0 _] & _). unfold make_room, need, size, capacity, kMaxNumericSize, u32.
  rewrite Z.mod_small by lia. case_if.
  - apply reserve_ok; [done|lia].
  - exists b. split; [done|]. split; [done|]. split; [done|]. split; [lia|done].
Qed.

(** Storing characters and a NUL, and advancing over the characters. *)
Lemma store_text cs b :
  ok b -> size_ b + zlen cs + 1 <= capacity_ b ->
  exists b', (b2 ← store (size_ b) (cs ++ [Byte.x00]) b; Some (add (zlen cs) b2)) = Some b' /\
    ok b' /\ size_ b' = size_ b + zlen cs /\ capacity_ b' = capacity_ b /\ contents b' = contents b ++ cs.
Proof.
  intros (H0 & Hz & Hc) Hr. pose proof (zlen_nonneg cs).
  assert (zlen (cs ++ [Byte.x00]) = zlen cs + 1) as Hl by zlia.
  destruct (store_add (cs ++ [Byte.x00]) b) as (b2 & -> & Hs2 & Hc2 & Hz2 & Hcon);
    [lia|lia|done|unfold in_u64; lia|].
  cbn [mbind option_bind]. eexists. split; [done|]. unfold add, ok, contents in *.
  cbn [size_ capacity_ buf_] in *. rewrite Hs2, Hc2 in *. rewrite u64_small by (unfold in_u64; lia).
  split; [split; [lia|done]|]. split; [done|]. split; [done|].
  rewrite Hl in Hcon. apply (f_equal (ztake (size_ b + zlen cs))) in Hcon.
  rewrite ztake_slice in Hcon by lia. rewrite Hcon.
  assert (zlen (slice 0 (size_ b) (buf_ b)) = size_ b) as Hls by (apply zlen_slice; lia).
  rewrite app_assoc, ztake_app_le by zlia. apply ztake_all. zlia.
Qed.

Lemma put_pointer_spec v b :
  ok b -> size_ b + 32 < 4294967296 -> 0 <= v < 18446744073709551616 ->
  exists b', put_pointer v b = Some b' /\ ok b' /\
    contents b' = contents b ++ render (Pointer v) /\ size_ b' = size_ b + zlen (render (Pointer v)).
Proof.
  intros Hok Hs Hv. unfold put_pointer.
  destruct (make_room_spec b Hok Hs) as (b1 & -> & Hok1 & Hs1 & Hr1 & Hcon1). cbn [mbind option_bind].
  pose proof Hok1 as (H01 & Hz1 & Hc1). unfold size.
  destruct (store_add [Byte.x30; Byte.x78] b1) as (b2 & -> & Hs2 & Hc2 & Hz2 & Hcon2);
    [lia|change (zlen [Byte.x30; Byte.x78]) with 2; lia|done|unfold in_u64; lia|].
  change (zlen [Byte.x30; Byte.x78]) with 2 in Hcon2. cbn [mbind option_bind].
  assert (add 2 b2 = mk (buf_ b2) (size_ b1 + 2) (capacity_ b2)) as ->
    by (unfold add; rewrite Hs2, u64_small by (unfold in_u64; lia); done).
  set (b3 := mk _ _ _) in *.
  destruct (Convert.convertHex_spec v Hv) as (cs & E & _ & Hl).
  cbn [render]. rewrite E. cbn [mbind option_bind default].
  destruct (store_text cs b3) as (b4 & E4 & Hok4 & Hs4 & _ & Hcon4).
  { unfold b3, ok. cbn [size_ capacity_ buf_]. rewrite Hc2, Hz2. split; [lia|]. split; [done|lia]. }
  { unfold b3. cbn [size_ capacity_]. rewrite Hc2. unfold zlen. lia. }
  exists b4. split; [exact E4|]. split; [done|]. rewrite Hcon4, Hcon2, Hcon1, Hs4.
  unfold b3. cbn [size_]. split; [by rewrite <- app_assoc|].
  rewrite Hs1. unfold zlen, id. rewrite length_app. cbn [length]. lia.
Qed.

Lemma put_double_spec v b :
  ok b -> item_ok (Double v) -> size_ b + 32 < 4294967296 ->
  exists b', put_double v b = Some b' /\ ok b' /\
    contents b' = contents b ++ g12 v /\ size_ b' = size_ b + zlen (g12 v).
Proof.
  intros Hok Hv Hs. cbn [item_ok] in Hv. pose proof (zlen_nonneg (g12 v)). unfold put_double, snprintf.
  destruct (make_room_spec b Hok ltac:(lia)) as (b1 & -> & Hok1 & Hs1 & Hr1 & Hcon1). cbn [mbind option_bind].
  unfold kMaxNumericSize, size, i32. rewrite (ztake_all (32 - 1)) by lia.
  rewrite Z.mod_small, u64_small by (unfold in_u64; lia).
  replace (zlen (g12 v) + 2147483648 - 2147483648) with (zlen (g12 v)) by lia.
  destruct (store_text (g12 v) b1 Hok1) as (b2 & E2 & Hok2 & Hs2 & _ & Hcon2); [lia|].
  exists b2. split; [exact E2|]. split; [done|]. by rewrite Hcon2, Hcon1, Hs2, Hs1.
Qed.

(** Appending from the front of a larger block. *)
Lemma append_prefix blk n b :
  0 <= n <= zlen blk -> append (blk, 0) n b = append (ztake n blk, 0) n b.
Proof.
  intros Hn. unfold append, memcpy. rewrite Z.add_0_l, zlen_ztake.
  rewrite (proj2 (Z.leb_le n (zlen blk))), (proj2 (Z.leb_le n (Z.max 0 _))) by lia.
  unfold slice. by rewrite !zdrop_0, ztake_ztake, Z.min_id.
Qed.

Lemma append_ok bytes b :
  ok b -> size_ b + zlen bytes < 4294967296 ->
  exists b', append (bytes, 0) (zlen bytes) b = Some b' /\ ok b' /\
    contents b' = contents b ++ bytes /\ size_ b' = size_ b + zlen bytes.
Proof.
  intros Hok Hs. pose proof Hok as (H0 & _ & Hc). pose proof (zlen_nonneg bytes).
  destruct (log_buffer_append_spec bytes b (ok_wf b Hok)) as (b' & E & Hcon & Hs' & Hr & Hz); [lia|].
  exists b'. split; [done|]. split; [|done]. split; [lia|]. split; [done|].
  unfold append in E. rewrite u64_small in E by (unfold in_u64; lia). cbv zeta in E.
  destruct (capacity_ b <? size_ b + zlen bytes) eqn:Eb; zbool.
  - destruct (reserve_ok (size_ b + zlen bytes) b Hok) as (b1 & E1 & (_ & _ & ?) & _); [lia|].
    rewrite E1 in E. cbn [mbind option_bind] in E.
    destruct (memcpy _ _ _ _); [|done]. by injection E as <-.
  - cbn [mbind option_bind] in E. destruct (memcpy _ _ _ _); [|done]. by injection E as <-.
Qed.

Lemma put_spec i b :
  ok b -> item_ok i -> size_ b + zlen (render i) + 32 < 4294967296 ->
  exists b', put i b = Some b' /\ ok b' /\
    contents b' = contents b ++ render i /\ size_ b' = size_ b + zlen (render i).
Proof.
  intros Hok Hi Hs. pose proof (zlen_nonneg (render i)). destruct i as [T v|v|v|bytes|v|fmt]; cbn [put].
  - destruct (put_integer_spec T v b Hi) as [-> Hv]. unfold formatInteger.
    destruct (make_room_spec b Hok ltac:(lia)) as (b1 & -> & Hok1 & Hs1 & Hr1 & Hcon1).
    cbn [mbind option_bind].
    destruct (Convert.convert_spec v Hv) as (cs & E & _ & Hl).
    cbn [render]. rewrite E. cbn [mbind option_bind default].
    destruct (store_text cs b1 Hok1) as (b2 & E2 & Hok2 & Hs2 & _ & Hcon2); [unfold zlen; lia|].
    exists b2. split; [exact E2|]. split; [done|]. by rewrite Hcon2, Hcon1, Hs2, Hs1.
  - apply put_double_spec; [done|done|lia].
  - apply put_pointer_spec; [done|lia|done].
  - cbn [render] in *. cbn [item_ok] in Hi. unfold i32.
    rewrite Z.mod_small, u64_small by (unfold in_u64; lia).
    replace (zlen bytes + 2147483648 - 2147483648) with (zlen bytes) by lia.
    apply append_ok; [done|lia].
  - apply (append_ok [if v then Byte.x31 else Byte.x30]); [done|]. cbn [render] in *. lia.
  - destruct Hi as [Hz Hl]. cbn [render] in *. unfold LogFormat.kBufferSize in *.
    unfold LogFormat.data, LogFormat.length. rewrite u64_small by (unfold in_u64; lia).
    assert (zlen (LogFormat.text fmt) = LogFormat.length_ fmt) as E by (unfold LogFormat.text; zlia).
    rewrite append_prefix by lia. fold (LogFormat.text fmt).
    pose proof (append_ok (LogFormat.text fmt) b Hok) as Ha. rewrite E in Ha, Hs |- *. apply Ha. lia.
Qed.

Lemma put_all_spec items b :
  ok b -> Forall item_ok items -> size_ b + zlen (mjoin (render <$> items)) + 32 < 4294967296 ->
  exists b', put_all items b = Some b' /\ contents b' = contents b ++ mjoin (render <$> items).
Proof.
  intros Hb Hok. revert b Hb.
  induction Hok as [|i items Hi _ IH]; intros b Hb Hlen; cbn [put_all fmap list_fmap] in *.
  - exists b. split; [done|]. by rewrite app_nil_r.
  - change (mjoin (?x :: ?l)) with (x ++ mjoin l) in *.
    rewrite zlen_app in Hlen. pose proof (zlen_nonneg (mjoin (render <$> items))).
    destruct (put_spec i b Hb Hi) as (b1 & -> & Hb1 & Hcon1 & Hs1); [lia|]. cbn [mbind option_bind].
    destruct (IH b1 Hb1) as (b2 & E2 & Hcon2); [rewrite Hs1; lia|].
    exists b2. split; [done|]. by rewrite Hcon2, Hcon1, app_assoc.
Qed.

Lemma make_ok : ok make.
Proof. unfold ok, make. cbn. rewrite zlen_malloc; unfold kBufferSize; lia. Qed.

(** C35: streaming any sequence of integers, floating-point numbers, pointers,
    strings, booleans and formatted values writes inside the buffer at every
    growth step and leaves exactly the concatenation of their texts, as long as
    each string is shorter than 2^31 bytes, the C library's text of a
    floating-point number has the 19 characters it needs at most, and the line
    is shorter than 2^32 - 32 ([need_size_wraps]). *)
Theorem stream_renders (items : list item) (Hok : Forall item_ok items)
  (Hlen : zlen (mjoin (render <$> items)) + 32 < 4294967296) :
  exists b, put_all items make = Some b /\ contents b = mjoin (render <$> items).
Proof. by apply (put_all_spec items make make_ok). Qed.

(** The bound is needed: [needSize] is a [uint32_t], so for a full buffer
    within 32 bytes of 4 GiB it wraps around, nothing is reserved and the
    digits are written behind the block. *)
Theorem need_size_wraps (b : LogBuffer.t) (v : Z) (Hwf : wf b) (Hfull : size_ b = capacity_ b)
  (Hs : 4294967264 <= size_ b < 4294967296) :
  formatInteger v b = None.
Proof.
  destruct Hwf as (_ & Hz & Hc). unfold formatInteger, make_room, need, size, capacity, kMaxNumericSize, u32.
  replace (size_ b + 32) with ((size_ b - 4294967264) + 1 * 4294967296) by lia.
  rewrite Z.mod_add, Z.mod_small, (proj2 (Z.ltb_ge _ _)) by lia. cbn [mbind option_bind].
  destruct (Convert.convert v) as [cs|]; [|done]. cbn [mbind option_bind]. unfold store, memcpy.
  assert (zlen (cs ++ [Byte.x00]) = zlen cs + 1) as -> by zlia. pose proof (zlen_nonneg cs).
  rewrite (proj2 (Z.leb_le 0 (zlen cs + 1))), (proj2 (Z.leb_le 0 (size_ b))) by lia.
  rewrite (proj2 (Z.leb_gt (size_ b + (zlen cs + 1)) (zlen (buf_ b)))) by lia. done.
Qed.

End LogStream.

(** A stand-in for floating-point numbers: their text. *)
Definition one_half : list byte := [Byte.x30; Byte.x2e; Byte.x35].

Lemma stream_renders_witness :
  let items := [Integer Short (-42); Text [Byte.x20]; Pointer 255; Bool true; Double one_half] in
  mjoin (render id <$> items) =
    [Byte.x2d; Byte.x34; Byte.x32; Byte.x20; Byte.x30; Byte.x78; Byte.x46; Byte.x46; Byte.x31;
     Byte.x30; Byte.x2e; Byte.x35] /\
  exists b, put_all id items make = Some b /\ contents b = mjoin (render id <$> items).
Proof.
  split; [vm_compute; reflexivity|]. apply stream_renders.
  - repeat constructor; cbn; try lia; discriminate.
  - vm_compute. reflexivity.
Defined.

Lemma need_size_wraps_witness :
  formatInteger 7 (LogBuffer.mk (replicate (Z.to_nat 4294967290) Byte.x00) 4294967290 4294967290) = None.
Proof.
  apply need_size_wraps; cbn [size_ capacity_]; [|reflexivity|lia].
  unfold wf. cbn [size_ capacity_ buf_]. rewrite zlen_replicate. lia.
Defined.
End LogStream.
