(* ===== verification/LogMessages.v ===== *)
(** [nutty/log/LogMessage.*]: the head of a log line, a time stamp that each
    thread formats at most once a second, and the level. The clock and
    [localtime_r] are parameters. *)

From S2P Require Import Prelude LogStreams.

Module LogMessage.

(** [enum class LogLevel] *)
Inductive LogLevel := TRACE | DEBUG | INFO | WARN | ERROR | FATAL | NUM_LOG_LEVELS.

(** [static_cast<int>(level)] *)
Definition level_int (level : LogLevel) : Z :=
  match level with
  | TRACE => 0 | DEBUG => 1 | INFO => 2 | WARN => 3 | ERROR => 4 | FATAL => 5 | NUM_LOG_LEVELS => 6
  end.

Definition LogLevelName : list (list byte) :=
  [[Byte.x54; Byte.x52; Byte.x41; Byte.x43; Byte.x45; Byte.x20];
   [Byte.x44; Byte.x45; Byte.x42; Byte.x55; Byte.x47; Byte.x20];
   [Byte.x49; Byte.x4e; Byte.x46; Byte.x4f; Byte.x20; Byte.x20];
   [Byte.x57; Byte.x41; Byte.x52; Byte.x4e; Byte.x20; Byte.x20];
   [Byte.x45; Byte.x52; Byte.x52; Byte.x4f; Byte.x52; Byte.x20];
   [Byte.x46; Byte.x41; Byte.x54; Byte.x41; Byte.x4c; Byte.x20]].

(** The fields of [struct tm] that are used. *)
Record tm := mk_tm {
  tm_year : Z; tm_mon : Z; tm_mday : Z;
  tm_hour : Z; tm_min : Z; tm_sec : Z
}.

(** [%<w>d], padded with blanks, or [%0<w>d], with zeros after the sign. *)
Definition decimal (v : Z) : list byte := default [] (Convert.convert v).
Definition pad (c : byte) (w : nat) (cs : list byte) : list byte := replicate (w - length cs) c ++ cs.
Definition format_d (zero : bool) (w : nat) (v : Z) : list byte :=
  if zero then
    if v <? 0 then Byte.x2d :: pad Byte.x30 (w - 1) (decimal (- v)) else pad Byte.x30 w (decimal v)
  else pad Byte.x20 w (decimal v).

(** ["%4d%02d%02d %02d:%02d:%02d"] of the time *)
Definition format_time (t : tm) : list byte :=
  format_d false 4 (tm_year t + 1900) ++ format_d true 2 (tm_mon t + 1) ++ format_d true 2 (tm_mday t) ++
  [Byte.x20] ++ format_d true 2 (tm_hour t) ++ [Byte.x3a] ++ format_d true 2 (tm_min t) ++
  [Byte.x3a] ++ format_d true 2 (tm_sec t).

Section LogMessage.
(** [localtime_r], from seconds since the epoch. *)
Context (localtime : Z -> tm).

(** The [thread_local] variables of a thread. *)
Record t := mk { t_time : list byte; t_lastSecond : Z }.

Definition make : t := mk (replicate 32 Byte.x00) 0.

(** [duration_cast<seconds>] and [to_time_t] of a time point in nanoseconds,
    which both truncate. *)
Definition to_seconds (now : Z) : Z := Z.quot now 1000000000.

(** The time stamp is formatted anew when the second has changed; [None] is
    the failed assertion [len == 17], or a store outside of [t_time]. *)
Definition update (now : Z) (th : t) : option t :=
  let seconds := to_seconds now in
  let time := to_seconds now in
  if seconds =? t_lastSecond th then Some th
  else
    let '(stored, len) := snprintf 32 (format_time (localtime time)) in
    buf ← memcpy (t_time th) 0 (stored, 0) (zlen stored);
    if len =? 17 then Some (mk buf seconds) else None.

(** [LogMessage(filename, line, level)] and [LogMessage(logger, filename,
    line, level)], which have the same body, at time [now]: the thread's
    variables after it, and [stream_]. *)
Definition construct (now : Z) (level : LogLevel) (th : t) : option (t * LogBuffer.t) :=
  th' ← update now th;
  name ← LogLevelName !! Z.to_nat (level_int level);
  stream ← LogStream.put_all (D := unit) (fun _ => []) [LogStream.Text (c_str (t_time th')); LogStream.Text name] LogBuffer.make;
  Some (th', stream).

(** The constructors with [func] have an empty body. *)
Definition construct_func (th : t) : t * LogBuffer.t := (th, LogBuffer.make).

(** The construction of a message, at a time and with a level: with one of the
    constructors that have [func], or without. *)
Record msg := mk_msg { msg_time : Z; msg_level : LogLevel; msg_func : bool }.

(** [NUTTY_TRACE], [NUTTY_DEBUG], [NUTTY_INFO], ... *)
Definition NUTTY (level : LogLevel) (now : Z) : msg :=
  mk_msg now level (match level with TRACE | DEBUG => true | _ => false end).

(** Messages of one thread. *)
Fixpoint run (msgs : list msg) (th : t) : option (t * list (list byte)) :=
  match msgs with
  | [] => Some (th, [])
  | m :: rest =>
      '(th1, stream) ← if msg_func m then Some (construct_func th) else construct (msg_time m) (msg_level m) th;
      '(th2, texts) ← run rest th1;
      Some (th2, LogBuffer.contents stream :: texts)
  end.

(** ** Reference *)

(** What a message begins with, without any cache: its own second and its level,
    or nothing with [func]. *)
Definition stamp (now : Z) (level : LogLevel) : list byte :=
  format_time (localtime (to_seconds now)) ++ default [] (LogLevelName !! Z.to_nat (level_int level)).
Definition head_of (m : msg) : list byte :=
  if msg_func m then [] else stamp (msg_time m) (msg_level m).

(** What [localtime_r] guarantees, for years of four digits. *)
Definition tm_ok (t : tm) : Prop :=
  -900 <= tm_year t < 8100 /\ 0 <= tm_mon t < 12 /\ 1 <= tm_mday t <= 31 /\
  0 <= tm_hour t < 24 /\ 0 <= tm_min t < 60 /\ 0 <= tm_sec t <= 60.

(** After the first second of the epoch, with one of the six levels. *)
Definition msg_ok (m : msg) : Prop :=
  1000000000 <= msg_time m /\ tm_ok (localtime (to_seconds (msg_time m))) /\ msg_level m <> NUM_LOG_LEVELS.
End LogMessage.

#[global] Arguments format_time : simpl never.

(** *** Formatting *)

Lemma convert_loop_more k n i cs :
  Convert.convert_loop n i = Some cs -> Convert.convert_loop (k + n) i = Some cs.
Proof. intros H. induction k as [|k IH]; [done|]. by apply Convert.convert_loop_fuel. Qed.

Lemma convert_loop_no_nul n i cs : Convert.convert_loop n i = Some cs -> Byte.x00 ∉ cs.
Proof.
  revert i cs. induction n as [|n IH]; intros i cs E; [done|]. cbn [Convert.convert_loop] in E.
  destruct (Convert.zero (Z.rem i 10)) as [c|] eqn:Ec; [|done]. cbn [mbind option_bind] in E.
  assert (c <> Byte.x00) as Hc.
  { unfold Convert.zero in Ec. destruct (0 <=? _); [|done]. apply list_elem_of_lookup_2 in Ec.
    intros ->. revert Ec. apply (bool_decide_unpack _). vm_compute. exact I. }
  destruct (_ =? 0).
  - injection E as <-. intros [?|[]%elem_of_nil]%elem_of_cons. by destruct Hc.
  - destruct (Convert.convert_loop n _) as [rest|] eqn:Er; [|done]. cbn in E. injection E as <-.
    intros [?|?]%elem_of_cons; [by destruct Hc|by eapply IH].
Qed.

(** The text of a number of at most [n] digits. *)
Lemma decimal_spec n v :
  0 <= v < 10 ^ Z.of_nat n -> (0 < n <= 20)%nat ->
  (length (decimal v) <= n)%nat /\ Byte.x00 ∉ decimal v.
Proof.
  intros Hv Hn. destruct (Convert.convert_loop_spec n v) as (cs & E & _ & Hl & _); [lia|lia|].
  apply (convert_loop_more (20 - n)) in E. replace (20 - n + n)%nat with 20%nat in E by lia.
  unfold decimal, Convert.convert. rewrite E. cbn [mbind option_bind].
  rewrite (proj2 (Z.ltb_ge v 0)) by lia. cbn. split; [rewrite length_rev; lia|].
  intros Hin%list_elem_of_In%in_rev%list_elem_of_In. by eapply convert_loop_no_nul.
Qed.

Lemma pad_spec c n cs :
  (length cs <= n)%nat -> c <> Byte.x00 -> Byte.x00 ∉ cs ->
  length (pad c n cs) = n /\ Byte.x00 ∉ pad c n cs.
Proof.
  intros Hl Hc Hcs. unfold pad. split; [rewrite length_app, length_replicate; lia|].
  intros [[? _]%elem_of_replicate|?]%elem_of_app; [congruence|done].
Qed.

Lemma format_d_spec zero n v :
  0 <= v < 10 ^ Z.of_nat n -> (0 < n <= 20)%nat ->
  length (format_d zero n v) = n /\ Byte.x00 ∉ format_d zero n v.
Proof.
  intros Hv Hn. destruct (decimal_spec n v Hv Hn). unfold format_d.
  destruct zero; [rewrite (proj2 (Z.ltb_ge v 0)) by lia|]; by apply pad_spec.
Qed.

(** The assertion [len == 17] holds, and the text ends at its NUL. *)
Lemma format_time_spec tm : tm_ok tm -> length (format_time tm) = 17%nat /\ Byte.x00 ∉ format_time tm.
Proof.
  intros (? & ? & ? & ? & ? & ?). unfold format_time.
  destruct (format_d_spec false 4 (tm_year tm + 1900)) as [Hy Hy0]; [lia|lia|].
  destruct (format_d_spec true 2 (tm_mon tm + 1)) as [Hm Hm0]; [lia|lia|].
  destruct (format_d_spec true 2 (tm_mday tm)) as [Hd Hd0]; [lia|lia|].
  destruct (format_d_spec true 2 (tm_hour tm)) as [Hh Hh0]; [lia|lia|].
  destruct (format_d_spec true 2 (tm_min tm)) as [Hi Hi0]; [lia|lia|].
  destruct (format_d_spec true 2 (tm_sec tm)) as [Hs Hs0]; [lia|lia|].
  split; [rewrite !length_app, Hy, Hm, Hd, Hh, Hi, Hs; done|].
  rewrite !not_elem_of_app, !list_elem_of_singleton. repeat split; done.
Qed.

(** ** The cache *)

Section Cache.
Context (localtime : Z -> tm).

(** [t_time] holds the formatted [t_lastSecond], or nothing yet. *)
Record cached (th : t) : Prop := {
  cached_size : zlen (t_time th) = 32;
  cached_time : t_lastSecond th <> 0 ->
    c_str (t_time th) = format_time (localtime (t_lastSecond th)) /\ tm_ok (localtime (t_lastSecond th))
}.

Lemma to_seconds_pos now : 1000000000 <= now -> 0 < to_seconds now.
Proof. intros. unfold to_seconds. apply Z.quot_str_pos. lia. Qed.

Lemma message_update_spec now th :
  cached th -> 1000000000 <= now -> tm_ok (localtime (to_seconds now)) ->
  exists th', update localtime now th = Some th' /\ cached th' /\
    c_str (t_time th') = format_time (localtime (to_seconds now)).
Proof.
  intros [Hsz Hc] Hnow Htm. unfold update. cbv zeta. pose proof (to_seconds_pos now Hnow).
  destruct (to_seconds now =? t_lastSecond th) eqn:E; zbool.
  - exists th. split; [done|]. split; [done|]. rewrite E. apply Hc. lia.
  - destruct (format_time_spec _ Htm) as [Hl Hn]. set (text := format_time (localtime (to_seconds now))) in *.
    assert (zlen text = 17) as Hz by (unfold zlen; lia). unfold snprintf.
    rewrite (ztake_all (32 - 1)), memcpy_ok by zlia. cbn [mbind option_bind]. rewrite slice_all, Hz, Z.eqb_refl.
    assert (splice 0 (text ++ [Byte.x00]) (t_time th) = text ++ Byte.x00 :: zdrop 18 (t_time th)) as Hsp.
    { unfold splice. rewrite ztake_0. cbn [app]. rewrite <- app_assoc. do 3 f_equal. zlia. }
    eexists. split; [done|]. rewrite Hsp. split; [constructor|]; cbn [t_time t_lastSecond].
    + rewrite zlen_app, zlen_cons, zlen_zdrop, Hz, Hsz; lia.
    + intros _. split; [by apply c_str_nul|done].
    + by apply c_str_nul.
Qed.

Lemma level_name level :
  level <> NUM_LOG_LEVELS ->
  exists name, LogLevelName !! Z.to_nat (level_int level) = Some name /\ zlen name = 6.
Proof. intros. destruct level; try done; eexists; split; reflexivity. Qed.

Lemma construct_spec now level th :
  cached th -> 1000000000 <= now -> tm_ok (localtime (to_seconds now)) -> level <> NUM_LOG_LEVELS ->
  exists th' stream, construct localtime now level th = Some (th', stream) /\ cached th' /\
    LogBuffer.contents stream = stamp localtime now level.
Proof.
  intros Hc Hnow Htm Hlevel.
  destruct (message_update_spec now th Hc Hnow Htm) as (th' & E & Hc' & Hstr).
  destruct (level_name level Hlevel) as (name & En & Hln). unfold construct. rewrite E, En. cbn [mbind option_bind]. rewrite Hstr.
  destruct (format_time_spec _ Htm) as [Hl _]. set (text := format_time (localtime (to_seconds now))) in *.
  assert (zlen text = 17) as Hz by (unfold zlen; lia). cbn [mbind option_bind].
  destruct (LogStream.put_all_spec (D := unit) (fun _ => []) [LogStream.Text text; LogStream.Text name] LogBuffer.make)
    as (b & Eb & Hcon).
  { apply LogStream.make_ok. }
  { repeat constructor; cbn; lia. }
  { change (LogBuffer.size_ LogBuffer.make) with 0. cbn [fmap list_fmap LogStream.render].
    change (mjoin [text; name]) with (text ++ name ++ []). rewrite !zlen_app. change (zlen []) with 0. lia. }
  rewrite Eb. cbn [mbind option_bind]. exists th', b. split; [done|]. split; [done|]. rewrite Hcon. unfold stamp.
  rewrite En. cbn [fmap list_fmap LogStream.render default].
  change (mjoin [text; name]) with (text ++ name ++ []). by rewrite app_nil_r.
Qed.

Lemma cached_make : cached make.
Proof. by constructor. Qed.

(** C34: although a thread formats the time only when the second differs from
    the one of its previous message, in whatever order the times come (the
    clock may be set back), each message constructed without [func] begins with
    the text of its own second and its level, as if formatted anew, for times
    after the first second of the epoch and years of four digits; the assertion
    on the length of the time stamp then never fails, and [t_time] and the
    line's buffer are never overrun. Messages constructed with [func], those of
    [NUTTY_TRACE] and [NUTTY_DEBUG], have neither time nor level. *)
Theorem time_stamps_are_current (msgs : list msg) (Hok : Forall (msg_ok localtime) msgs) :
  exists th, run localtime msgs make = Some (th, head_of localtime <$> msgs) /\ cached th.
Proof.
  enough (forall th, cached th -> exists th', run localtime msgs th = Some (th', head_of localtime <$> msgs) /\ cached th')
    as H by apply (H make cached_make).
  induction Hok as [|[now level func] msgs (Hnow & Htm & Hlevel) _ IH]; intros th Hth; cbn [run].
  - by exists th.
  - cbn [msg_func msg_time msg_level] in *. destruct func.
    + cbn [construct_func mbind option_bind]. destruct (IH th Hth) as (th2 & -> & Hth2). by exists th2.
    + destruct (construct_spec now level th Hth Hnow Htm Hlevel) as (th1 & stream & -> & Hth1 & Hhead). cbn [mbind option_bind].
      destruct (IH th1 Hth1) as (th2 & -> & Hth2). cbn [mbind option_bind]. exists th2. by rewrite Hhead.
Qed.
End Cache.

(** A clock that shows the seconds of the first minute of 2026. *)
Definition new_year (seconds : Z) : tm := mk_tm 126 0 1 0 0 (seconds `mod` 60).

Definition new_year_messages : list msg :=
  [NUTTY INFO 1767225600999999999; NUTTY TRACE 1767225601000000000; NUTTY WARN 1767225601000000000;
   NUTTY ERROR 1767225601500000000].

Lemma time_stamps_are_current_witness :
  option_map snd (run new_year new_year_messages make) = Some (head_of new_year <$> new_year_messages) /\
  exists th, run new_year new_year_messages make = Some (th, head_of new_year <$> new_year_messages) /\
    cached new_year th.
Proof.
  split; [vm_compute; reflexivity|]. apply time_stamps_are_current.
  unfold new_year_messages. repeat apply Forall_cons_2; [..|by apply Forall_nil];
    (split; [cbn; lia|]); (split; [unfold tm_ok; vm_compute; intuition discriminate|discriminate]).
Defined.

(** In the first second of the epoch the stamp is empty: [t_lastSecond] is
    0 from the start. *)
Lemma epoch_has_no_stamp localtime th stream :
  construct localtime 5 INFO make = Some (th, stream) -> LogBuffer.contents stream = default [] (LogLevelName !! 2%nat).
Proof.
  destruct (construct localtime 5 INFO make) as [[th' s]|] eqn:E; [|done].
  intros [= <- <-]. vm_compute in E. by injection E as <- <-.
Qed.
End LogMessage.
