(* ===== verification/LogAsync.v ===== *)
(** [nutty/log/AsyncLogger.*] and [AsyncLogging.*]: loggers that collect lines
    in memory buffers, and the background thread that writes full and partial
    buffers to files. [LogFile.h] is not part of the repository: a file is the
    sequence of buffers appended to it, and [writtenBytes()] a parameter. *)

From stdpp Require Import sorting.
From S2P Require Import Prelude.

(** ** [AsyncLogger::Buffer] *)

Module LogBlock.

(** The bytes from [data_] up to [cur_]. *)
Record t := mk { bytes : list byte }.

Definition kBufferSize : Z := 4096 * 1024.

(** [Buffer()] *)
Definition make : t := mk [].

Definition length (b : t) : Z := zlen (bytes b).
Definition avail (b : t) : Z := kBufferSize - zlen (bytes b).

(** [append(buf, len)] does nothing when there is no room. *)
Definition append (buf : list byte) (b : t) : t :=
  if zlen buf <? avail b then mk (bytes b ++ buf) else b.

Definition reset (b : t) : t := mk [].

Definition all (bs : list t) : list byte := mjoin (bytes <$> bs).

#[global] Arguments all : simpl never.

Lemma all_app bs1 bs2 : all (bs1 ++ bs2) = all bs1 ++ all bs2.
Proof. unfold all. by rewrite fmap_app, join_app. Qed.

Lemma all_cons b bs : all (b :: bs) = bytes b ++ all bs.
Proof. done. Qed.

Lemma all_one b : all [b] = bytes b.
Proof. apply app_nil_r. Qed.

Lemma length_0 b : length b <= 0 -> bytes b = [].
Proof. apply zlen_0_nil. Qed.
End LogBlock.

(** ** [AsyncLogger] *)

Module AsyncLogger.
Import LogBlock (kBufferSize).

Definition kCheckTimeRoll_ : Z := 1024.
Definition kRollPerSeconds_ : Z := 60 * 60 * 24.

(** [EvOpen now]: a new [LogFile] with a name made from the second [now]. *)
Inductive event := EvOpen (now : Z) | EvAppend (bytes : list byte) | EvFlush.

Abbreviation trace := (list event).

Section AsyncLogger.
(** [rollSize_], [logFile_->writtenBytes()] after what happened so far, and
    the [k]-th reading of the clock, in seconds. *)
Context (rollSize_ : Z) (writtenBytes : trace -> Z) (clock : nat -> Z).

(** The pointers are owned by one field each, a null pointer being [None].
    [logFile_] says whether there is a file, [readings] counts those of the
    clock; [accepted] are the bytes of the lines accepted so far, in order. *)
Record t := mk {
  count_ : Z;
  startOfPeriod_ : Z;
  lastRoll_ : Z;
  logFile_ : bool;
  notEmpty_ : bool;
  currentBuffer_ : option LogBlock.t;
  nextBuffer_ : option LogBlock.t;
  buffers_ : list LogBlock.t;
  buffersToWrite_ : list LogBlock.t;
  buffer1_ : option LogBlock.t;
  buffer2_ : option LogBlock.t;
  readings : nat;
  tr : trace;
  accepted : list byte
}.

(** *** The appenders' side, with the mutex of [AsyncLogging] held *)

Definition set_front (cur nxt : option LogBlock.t) (bs : list LogBlock.t) (acc : list byte) (s : t) : t :=
  mk (count_ s) (startOfPeriod_ s) (lastRoll_ s) (logFile_ s) true cur nxt bs (buffersToWrite_ s)
     (buffer1_ s) (buffer2_ s) (readings s) (tr s) acc.

(** A line is accepted unless it is as large as a buffer. *)
Definition accept (line acc : list byte) : list byte :=
  if zlen line <? kBufferSize then acc ++ line else acc.

(** [appendToBuffer_locked]: [None] is the dereference of a null
    [currentBuffer_]. *)
Definition appendToBuffer_locked (line : list byte) (s : t) : option t :=
  cur ← currentBuffer_ s;
  let acc := accept line (accepted s) in
  if zlen line <? LogBlock.avail cur then
    Some (set_front (Some (LogBlock.append line cur)) (nextBuffer_ s) (buffers_ s) acc s)
  else
    let bs := buffers_ s ++ [cur] in
    match nextBuffer_ s with
    | Some nxt => Some (set_front (Some (LogBlock.append line nxt)) None bs acc s)
    | None => Some (set_front (Some (LogBlock.append line LogBlock.make)) None bs acc s)
    end.

(** *** The writer's side *)

(** [swapBuffersToWrite_locked] *)
Definition swapBuffersToWrite_locked (s : t) : option t :=
  cur ← currentBuffer_ s;
  let '(bs, cur', b1) :=
    if 0 <? LogBlock.length cur then (buffers_ s ++ [cur], buffer1_ s, None)
    else (buffers_ s, Some cur, buffer1_ s) in
  let '(nxt, b2) :=
    match nextBuffer_ s with
    | None => (buffer2_ s, None)
    | Some b => (Some b, buffer2_ s)
    end in
  Some (mk (count_ s) (startOfPeriod_ s) (lastRoll_ s) (logFile_ s) false cur' nxt
          (buffersToWrite_ s) bs b1 b2 (readings s) (tr s) (accepted s)).

Definition set_roll (count : Z) (s : t) : t :=
  mk count (startOfPeriod_ s) (lastRoll_ s) (logFile_ s) (notEmpty_ s) (currentBuffer_ s)
     (nextBuffer_ s) (buffers_ s) (buffersToWrite_ s) (buffer1_ s) (buffer2_ s) (readings s) (tr s)
     (accepted s).
Definition emit (ev : event) (s : t) : t :=
  mk (count_ s) (startOfPeriod_ s) (lastRoll_ s) (logFile_ s) (notEmpty_ s) (currentBuffer_ s)
     (nextBuffer_ s) (buffers_ s) (buffersToWrite_ s) (buffer1_ s) (buffer2_ s) (readings s)
     (tr s ++ [ev]) (accepted s).
Definition set_backup (bs : list LogBlock.t) (b1 b2 : option LogBlock.t) (s : t) : t :=
  mk (count_ s) (startOfPeriod_ s) (lastRoll_ s) (logFile_ s) (notEmpty_ s) (currentBuffer_ s)
     (nextBuffer_ s) (buffers_ s) bs b1 b2 (readings s) (tr s) (accepted s).

(** Reading the clock. *)
Definition now (s : t) : Z * t :=
  (clock (readings s),
   mk (count_ s) (startOfPeriod_ s) (lastRoll_ s) (logFile_ s) (notEmpty_ s) (currentBuffer_ s)
      (nextBuffer_ s) (buffers_ s) (buffersToWrite_ s) (buffer1_ s) (buffer2_ s) (S (readings s))
      (tr s) (accepted s)).

(** [now / kRollPerSeconds_ * kRollPerSeconds_] *)
Definition period (time : Z) : Z := Z.quot time kRollPerSeconds_ * kRollPerSeconds_.

Definition rollFile (s0 : t) : t :=
  let '(time, s) := now s0 in
  if lastRoll_ s <? time then
    emit (EvOpen time)
      (mk (count_ s) (period time) time true (notEmpty_ s) (currentBuffer_ s) (nextBuffer_ s)
          (buffers_ s) (buffersToWrite_ s) (buffer1_ s) (buffer2_ s) (readings s) (tr s) (accepted s))
  else s.

(** [append_unlocked]: [None] is the dereference of a null [logFile_]. *)
Definition append_unlocked (buffer : list byte) (s0 : t) : option t :=
  if logFile_ s0 then
    let s := emit (EvAppend buffer) s0 in
    Some (if rollSize_ <? writtenBytes (tr s) then rollFile (set_roll 0 s)
          else if kCheckTimeRoll_ <? count_ s then
            let '(time, s1) := now (set_roll 0 s) in
            if negb (period time =? startOfPeriod_ s1) then rollFile s1 else s1
          else set_roll (count_ s + 1) s)
  else None.

Fixpoint append_loop (bs : list LogBlock.t) (s : t) : option t :=
  match bs with
  | [] => Some s
  | b :: rest => s1 ← append_unlocked (LogBlock.bytes b) s; append_loop rest s1
  end.

(** [if (!buffer) { buffer = bs.back(); bs.pop_back(); buffer->reset(); }]:
    [None] is [back()] of an empty vector. *)
Definition recycle (buffer : option LogBlock.t) (bs : list LogBlock.t)
  : option (option LogBlock.t * list LogBlock.t) :=
  match buffer with
  | Some b => Some (Some b, bs)
  | None => b ← last bs; Some (Some (LogBlock.reset b), take (length bs - 1) bs)
  end.

(** [appendBuffers_unlocked] *)
Definition appendBuffers_unlocked (s : t) : option t :=
  s1 ← append_loop (buffersToWrite_ s) s;
  '(b1, bs1) ← recycle (buffer1_ s1) (buffersToWrite_ s1);
  '(b2, _) ← recycle (buffer2_ s1) bs1;
  if logFile_ s1 then Some (emit EvFlush (set_backup [] b1 b2 s1)) else None.

(** The constructor. *)
Definition make : t :=
  rollFile (mk 0 0 0 false false (Some LogBlock.make) (Some LogBlock.make) [] []
              (Some LogBlock.make) (Some LogBlock.make) 0 [] []).

(** *** Observations *)

(** Everything appended to files, in order. *)
Definition filed (l : trace) : list byte :=
  mjoin (omap (fun ev => match ev with EvAppend b => Some b | _ => None end) l).

Definition opened (l : trace) : list Z :=
  omap (fun ev => match ev with EvOpen time => Some time | _ => None end) l.

#[local] Arguments filed : simpl never.
#[local] Arguments opened : simpl never.

Definition pending (s : t) : list byte :=
  LogBlock.all (buffersToWrite_ s) ++ LogBlock.all (buffers_ s) ++
  match currentBuffer_ s with Some b => LogBlock.bytes b | None => [] end.

Lemma filed_app l1 l2 : filed (l1 ++ l2) = filed l1 ++ filed l2.
Proof. unfold filed. by rewrite omap_app, join_app. Qed.

Lemma opened_app l1 l2 : opened (l1 ++ l2) = opened l1 ++ opened l2.
Proof. apply omap_app. Qed.

(** *** Invariant *)

(** The number of backup buffers that a swap has taken. *)
Definition missing (s : t) : nat :=
  (match buffer1_ s with Some _ => 0 | None => 1 end) + (match buffer2_ s with Some _ => 0 | None => 1 end).

Definition blank (b : option LogBlock.t) : Prop :=
  match b with Some b => b = LogBlock.make | None => True end.

(** [writing]: between the swap and the end of [appendBuffers_unlocked]. *)
Record inv (writing : bool) (s : t) : Prop := {
  inv_file : logFile_ s = true;
  inv_current : is_Some (currentBuffer_ s);
  inv_next : nextBuffer_ s = None -> buffers_ s <> [];
  inv_blank : blank (nextBuffer_ s) /\ blank (buffer1_ s) /\ blank (buffer2_ s);
  inv_missing : (missing s <= length (buffersToWrite_ s))%nat;
  inv_idle : writing = false -> buffersToWrite_ s = [];
  inv_quiet : notEmpty_ s = false -> buffers_ s = [] /\ currentBuffer_ s = Some LogBlock.make;
  inv_bytes : filed (tr s) ++ pending s = accepted s;
  inv_rolls : StronglySorted Z.lt (opened (tr s)) /\ Forall (fun x => x <= lastRoll_ s) (opened (tr s))
}.

Ltac log_inv H := destruct H as [Hfile [cur Hcur] Hnext (Hb0 & Hb1 & Hb2) Hmiss Hidle Hquiet Hbytes Hrolls].

(** *** Rolling *)

Lemma rollFile_spec s :
  StronglySorted Z.lt (opened (tr s)) /\ Forall (fun x => x <= lastRoll_ s) (opened (tr s)) ->
  let s' := rollFile s in
  (exists l, tr s' = tr s ++ l /\ filed l = []) /\
  StronglySorted Z.lt (opened (tr s')) /\ Forall (fun x => x <= lastRoll_ s') (opened (tr s')) /\
  logFile_ s' = (logFile_ s || (lastRoll_ s <? clock (readings s)))%bool /\
  notEmpty_ s' = notEmpty_ s /\ currentBuffer_ s' = currentBuffer_ s /\ nextBuffer_ s' = nextBuffer_ s /\
  buffers_ s' = buffers_ s /\ buffersToWrite_ s' = buffersToWrite_ s /\ buffer1_ s' = buffer1_ s /\
  buffer2_ s' = buffer2_ s /\ accepted s' = accepted s.
Proof.
  intros [Hsort Hall]. unfold rollFile. cbn [now]. cbv zeta. cbn [lastRoll_]. case_if.
  - cbn. split; [exists [EvOpen (clock (readings s))]; done|]. rewrite opened_app. cbn.
    rewrite orb_true_r. split; [|split; [|done]].
    + apply StronglySorted_app_2; [|done|by repeat constructor]. intros x y Hx Hy.
      apply list_elem_of_singleton in Hy as ->. rewrite list.Forall_forall in Hall. specialize (Hall x Hx). lia.
    + apply Forall_snoc; [|lia]. eapply Forall_impl; [|exact Hall]. cbn. lia.
  - cbn. rewrite orb_false_r. split; [by exists []; rewrite app_nil_r|done].
Qed.

(** The clock read by the constructor is past the epoch. *)
Lemma logger_make_inv : 0 < clock 0 -> inv false make.
Proof.
  intros Hc. unfold make.
  match goal with |- context [rollFile ?s] => set (s0 := s); destruct (rollFile_spec s0)
    as ((l & Htr & Hl) & Hs & Ha & Hf & Hne & Hcb & Hnb & Hb & Hw & H1 & H2 & Hacc); [by split; constructor|] end.
  constructor; try (rewrite ?Hne, ?Hcb, ?Hnb, ?Hb, ?Hw, ?H1, ?H2; done).
  - rewrite Hf. cbn. by apply Z.ltb_lt.
  - unfold missing. rewrite H1, H2. cbn. lia.
  - unfold pending. rewrite Hb, Hw, Hcb, Htr, Hacc, filed_app, Hl. done.
Qed.

(** *** Appending a line *)

Lemma appendToBuffer_inv w line s :
  inv w s -> exists s', appendToBuffer_locked line s = Some s' /\ inv w s' /\
    notEmpty_ s' = true /\ accepted s' = accept line (accepted s).
Proof.
  intros H. log_inv H. unfold appendToBuffer_locked. rewrite Hcur. cbn [mbind option_bind].
  unfold pending in Hbytes. rewrite Hcur in Hbytes. pose proof (zlen_nonneg (LogBlock.bytes cur)).
  assert (forall b, blank b -> default [] (LogBlock.bytes <$> b) = []) as Hblank by (intros [b|]; [by intros ->|done]).
  case_if.
  - eexists. split; [done|]. split; [|done].
    assert (zlen line < kBufferSize) as Hl by (unfold LogBlock.avail in *; lia).
    constructor; cbn; try done.
    unfold pending, accept, LogBlock.append. cbn. do 2 rewrite (proj2 (Z.ltb_lt _ _)) by done. cbn.
    rewrite <- Hbytes. by rewrite !app_assoc.
  - assert (forall nxt, LogBlock.bytes nxt = [] ->
      filed (tr s) ++ LogBlock.all (buffersToWrite_ s) ++ LogBlock.all (buffers_ s ++ [cur]) ++
        LogBlock.bytes (LogBlock.append line nxt) = accept line (accepted s)) as Hacc.
    { intros nxt Hn. unfold accept, LogBlock.append, LogBlock.avail. rewrite Hn.
      change (zlen []) with 0. rewrite Z.sub_0_r, LogBlock.all_app, LogBlock.all_one.
      destruct (zlen line <? kBufferSize); cbn; rewrite ?Hn, ?app_nil_r, <- Hbytes;
        by rewrite ?app_assoc. }
    destruct (nextBuffer_ s) as [nxt|] eqn:En; eexists; (split; [done|]); (split; [|done]);
      constructor; cbn; try done; try (intros _; by destruct (buffers_ s)).
    + apply Hacc. by rewrite Hb0.
    + by apply Hacc.
Qed.

(** *** Swapping *)

Lemma swap_inv s :
  inv false s -> exists s', swapBuffersToWrite_locked s = Some s' /\ inv true s' /\
    notEmpty_ s' = false /\ accepted s' = accepted s.
Proof.
  intros H. log_inv H. unfold swapBuffersToWrite_locked. rewrite Hcur. cbn [mbind option_bind].
  specialize (Hidle eq_refl). rewrite Hidle in *. unfold pending in Hbytes. rewrite Hcur, Hidle in Hbytes.
  cbn in Hbytes.
  assert (missing s = 0%nat) as Hm by (cbn in Hmiss; lia). unfold missing in Hm.
  destruct (buffer1_ s) as [b1|] eqn:E1, (buffer2_ s) as [b2|] eqn:E2; try discriminate Hm.
  cbn in Hb1, Hb2. subst b1 b2.
  assert (LogBlock.length cur <= 0 -> cur = LogBlock.make) as Hc0.
  { intros Hl. destruct cur as [l]. by rewrite (LogBlock.length_0 _ Hl : l = []). }
  destruct (0 <? LogBlock.length cur) eqn:El, (nextBuffer_ s) as [nxt|] eqn:En; zbool; cbn in Hb0;
    (eexists; split; [reflexivity|]; split; [|done]);
    constructor; cbn; try done; unfold missing, pending; cbn;
    rewrite ?length_app, ?LogBlock.all_app, ?LogBlock.all_one; cbn; rewrite ?app_nil_r; try lia; try done;
    try (specialize (Hc0 El); subst cur); try (intros _; split; [done|]); try (by subst);
    try (by rewrite app_nil_r in Hbytes); try (specialize (Hnext eq_refl); destruct (buffers_ s); [done|cbn; lia]).
Qed.

(** *** Writing *)

Definition rolls (s : t) : Prop :=
  logFile_ s = true /\
  StronglySorted Z.lt (opened (tr s)) /\ Forall (fun x => x <= lastRoll_ s) (opened (tr s)).

(** [s'] differs from [s] only in what rolling and filing touch, and [bytes]
    were filed. *)
Definition files (bytes : list byte) (s s' : t) : Prop :=
  rolls s' /\ filed (tr s') = filed (tr s) ++ bytes /\
  notEmpty_ s' = notEmpty_ s /\ currentBuffer_ s' = currentBuffer_ s /\ nextBuffer_ s' = nextBuffer_ s /\
  buffers_ s' = buffers_ s /\ buffersToWrite_ s' = buffersToWrite_ s /\ buffer1_ s' = buffer1_ s /\
  buffer2_ s' = buffer2_ s /\ accepted s' = accepted s.

Lemma files_trans b1 b2 s1 s2 s3 : files b1 s1 s2 -> files b2 s2 s3 -> files (b1 ++ b2) s1 s3.
Proof.
  unfold files. intros (? & Hf1 & ? & ? & ? & ? & ? & ? & ? & ?) (? & Hf2 & ? & ? & ? & ? & ? & ? & ? & ?).
  split; [done|]. split; [by rewrite Hf2, Hf1, app_assoc|]. repeat split; congruence.
Qed.

Lemma rollFile_files s : rolls s -> files [] s (rollFile s).
Proof.
  intros [Hf Hr]. destruct (rollFile_spec s Hr) as ((l & Htr & Hl) & ? & ? & Hf' & H).
  split; [split; [by rewrite Hf', Hf|done]|]. split; [by rewrite Htr, filed_app, Hl|done].
Qed.

Lemma append_unlocked_files buffer s :
  rolls s -> exists s', append_unlocked buffer s = Some s' /\ files buffer s s'.
Proof.
  intros [Hf Hr]. unfold append_unlocked. rewrite Hf. eexists. split; [done|].
  set (s1 := emit _ s).
  assert (files buffer s s1) as H1.
  { split; [|split; [|done]]; unfold s1, rolls; cbn [tr emit logFile_ lastRoll_].
    - rewrite opened_app. change (opened [_]) with (@nil Z). by rewrite app_nil_r.
    - rewrite filed_app. f_equal. apply app_nil_r. }
  assert (forall s2, rolls s2 -> files buffer s s2 -> files buffer s (rollFile s2)) as Hroll.
  { intros s2 H2 Hs2. rewrite <- (app_nil_r buffer). eapply files_trans; [done|]. by apply rollFile_files. }
  destruct (rollSize_ <? _); [apply Hroll; [apply H1|done]|].
  destruct (kCheckTimeRoll_ <? _); [|done]. cbn [now]. cbv zeta.
  destruct (negb _); [|done]. apply Hroll; [apply H1|done].
Qed.

Lemma append_loop_files bs s :
  rolls s -> exists s', append_loop bs s = Some s' /\ files (LogBlock.all bs) s s'.
Proof.
  revert s. induction bs as [|b bs IH]; intros s Hr; cbn [append_loop].
  - exists s. split; [done|]. split; [done|]. by rewrite app_nil_r.
  - destruct (append_unlocked_files (LogBlock.bytes b) s Hr) as (s1 & -> & H1). cbn [mbind option_bind].
    destruct (IH s1 (proj1 H1)) as (s2 & -> & H2). exists s2. split; [done|]. by eapply files_trans.
Qed.

Lemma recycle_spec buffer bs :
  blank buffer -> (match buffer with Some _ => 0 | None => 1 end <= length bs)%nat ->
  exists bs', recycle buffer bs = Some (Some LogBlock.make, bs') /\
    (length bs' = length bs - match buffer with Some _ => 0 | None => 1 end)%nat.
Proof.
  destruct buffer as [b|]; cbn; intros Hb Hl.
  - exists bs. subst b. split; [done|lia].
  - destruct (exists_last_dec bs) as [->|(bs' & b & ->)]; [cbn in Hl; lia|].
    rewrite last_snoc. cbn. eexists. split; [done|]. rewrite length_take. lia.
Qed.

(** Under the invariant no null pointer is dereferenced and [back()] is not
    called on an empty vector. *)
Lemma appendBuffers_inv s :
  inv true s -> exists s', appendBuffers_unlocked s = Some s' /\ inv false s' /\
    notEmpty_ s' = notEmpty_ s /\ accepted s' = accepted s.
Proof.
  intros H. log_inv H. unfold appendBuffers_unlocked.
  destruct (append_loop_files (buffersToWrite_ s) s (conj Hfile Hrolls))
    as (s1 & -> & (Hf1 & Hr1) & Hfiled & Hne & Hc1 & Hn1 & Hbs1 & Hw1 & H1 & H2 & Hacc).
  cbn [mbind option_bind]. rewrite H1, H2, Hw1. unfold missing in Hmiss.
  destruct (recycle_spec (buffer1_ s) (buffersToWrite_ s) Hb1) as (bs1 & -> & Hl1); [lia|].
  cbn [mbind option_bind].
  destruct (recycle_spec (buffer2_ s) bs1 Hb2) as (bs2 & -> & Hl2); [lia|].
  cbn [mbind option_bind]. rewrite Hf1. eexists. split; [done|]. split; [|split; [exact Hne|exact Hacc]].
  constructor; cbn; rewrite ?opened_app, ?app_nil_r, ?Hc1, ?Hn1, ?Hbs1, ?Hne, ?Hacc; try done.
  unfold pending in *. cbn. rewrite filed_app, Hfiled. rewrite Hc1, Hbs1.
  rewrite <- Hbytes, <- !app_assoc. done.
Qed.

End AsyncLogger.
End AsyncLogger.

(** ** [AsyncLogging] *)

Module AsyncLogging.
Import AsyncLogger.

(** The background thread: [WTest] is the test of [while (running_)], [WSwap]
    before the lock of [swapAsyncLoggersToWrite], [WWait] blocked in
    [cv_.wait], [WAwake] woken up, [WWrite ids] in the [for] loop with the
    loggers still to write. *)
Inductive writer_pc := WTest | WSwap | WWait | WAwake | WWrite (ids : list nat) | WExit.

(** [stop()]: before it, between its first two statements, and in [join()]. *)
Inductive owner_pc := ORunning | OStopping | OJoining.

Section AsyncLogging.
(** The loggers' parameters, by number. *)
Context (rollSize_ : nat -> Z) (writtenBytes : nat -> AsyncLogger.trace -> Z) (clock : nat -> nat -> Z).

Record t := mk {
  running_ : bool;
  asyncLoggers_ : list nat;
  loggers : list AsyncLogger.t;
  wpc : writer_pc;
  opc : owner_pc
}.

(** [n] loggers, right after [start()]. *)
Definition make (n : nat) : t :=
  mk true [] ((fun i => AsyncLogger.make (clock i)) <$> seq 0 n) WTest ORunning.

Definition set_wpc (pc : writer_pc) (s : t) : t :=
  mk (running_ s) (asyncLoggers_ s) (loggers s) pc (opc s).

(** [cv_.notify_one()]; the background thread is the only one that waits. *)
Definition notify_one (s : t) : t :=
  match wpc s with WWait => set_wpc WAwake s | _ => s end.

(** [append(asyncLogger, logline, len)], in one critical section. *)
Definition append (id : nat) (line : list byte) (s : t) : option t :=
  logger ← loggers s !! id;
  let notEmpty := notEmpty_ logger in
  logger' ← appendToBuffer_locked line logger;
  let s1 := mk (running_ s) (asyncLoggers_ s) (<[id := logger']> (loggers s)) (wpc s) (opc s) in
  Some (if negb notEmpty
        then notify_one (mk (running_ s1) (asyncLoggers_ s1 ++ [id]) (loggers s1) (wpc s1) (opc s1))
        else s1).

Fixpoint swap_loop (ids : list nat) (ls : list AsyncLogger.t) : option (list AsyncLogger.t) :=
  match ids with
  | [] => Some ls
  | id :: rest =>
      logger ← ls !! id;
      logger' ← swapBuffersToWrite_locked logger;
      swap_loop rest (<[id := logger']> ls)
  end.

(** [swapAsyncLoggersToWrite] after the wait. *)
Definition swap (s : t) : option t :=
  ls ← swap_loop (asyncLoggers_ s) (loggers s);
  Some (mk (running_ s) [] ls (WWrite (asyncLoggers_ s)) (opc s)).

(** One round of the [for] loop of [threadFunc]. What it touches belongs to the
    background thread alone. *)
Definition write (id : nat) (rest : list nat) (s : t) : option t :=
  logger ← loggers s !! id;
  logger' ← appendBuffers_unlocked (rollSize_ id) (writtenBytes id) (clock id) logger;
  Some (mk (running_ s) (asyncLoggers_ s) (<[id := logger']> (loggers s)) (WWrite rest) (opc s)).

Inductive label :=
  | LAppend (id : nat) (line : list byte)   (* any thread *)
  | LWriter                                 (* the background thread goes on *)
  | LSpurious                               (* it wakes up spuriously *)
  | LStop                                   (* [running_ = false] *)
  | LNotify.                                (* the rest of [stop()] *)

Definition enabled (l : label) (s : t) : bool :=
  match l with
  | LAppend id _ => bool_decide (id < length (loggers s))%nat
  | LWriter => match wpc s with WWait | WExit => false | _ => true end
  | LSpurious => match wpc s with WWait => true | _ => false end
  | LStop => match opc s with ORunning => true | _ => false end
  | LNotify => match opc s with OStopping => true | _ => false end
  end.

(** What a label does: [append] by some thread, the next step of [threadFunc],
    a spurious wake-up, and the two steps of [stop()]. [None] is an access the
    code may not make. *)
Definition exec (l : label) (s : t) : option t :=
  match l with
  | LAppend id line => append id line s
  | LWriter =>
      match wpc s with
      | WTest => Some (set_wpc (if running_ s then WSwap else WExit) s)
      | WSwap => match asyncLoggers_ s with [] => Some (set_wpc WWait s) | _ => swap s end
      | WAwake => swap s
      | WWrite (id :: rest) => write id rest s
      | WWrite [] => Some (set_wpc WTest s)
      | WWait | WExit => Some s
      end
  | LSpurious => Some (set_wpc WAwake s)
  | LStop => Some (mk false (asyncLoggers_ s) (loggers s) (wpc s) OStopping)
  | LNotify =>
      let s1 := notify_one s in
      Some (mk (running_ s1) (asyncLoggers_ s1) (loggers s1) (wpc s1) OJoining)
  end.

Definition step (s s' : t) : Prop := exists l, enabled l s = true /\ exec l s = Some s'.

Definition reached (n : nat) : t -> Prop := reachable (fun s => s = make n) step.

(** A schedule. *)
Fixpoint run (ls : list label) (s : t) : option t :=
  match ls with
  | [] => Some s
  | l :: rest => if enabled l s then s1 ← exec l s; run rest s1 else None
  end.

Lemma run_reached n ls s s' : reached n s -> run ls s = Some s' -> reached n s'.
Proof.
  revert s. induction ls as [|l ls IH]; intros s Hr E; cbn [run] in E; [by injection E as <-|].
  destruct (enabled l s) eqn:El; [|done]. apply bind_Some in E as (s1 & E1 & E).
  apply (IH s1); [|done]. eapply reachable_step; [done|]. by exists l.
Qed.

(** *** Invariant *)

(** The loggers whose buffers have been swapped but not written. *)
Definition to_write (s : t) : list nat := match wpc s with WWrite ids => ids | _ => [] end.

Record sys_inv (n : nat) (s : t) : Prop := {
  sys_length : length (loggers s) = n;
  sys_loggers id l : loggers s !! id = Some l -> inv (bool_decide (id ∈ to_write s)) l;
  sys_listed id l : loggers s !! id = Some l -> (id ∈ asyncLoggers_ s <-> notEmpty_ l = true);
  sys_nodup : NoDup (asyncLoggers_ s) /\ NoDup (to_write s);
  sys_range : Forall (fun id => (id < n)%nat) (asyncLoggers_ s ++ to_write s);
  sys_waiting : wpc s = WWait -> asyncLoggers_ s = []
}.

Hypothesis clock_ok : forall i, 0 < clock i 0%nat.

Lemma make_sys_inv n : sys_inv n (make n).
Proof.
  assert (forall id l, loggers (make n) !! id = Some l -> l = AsyncLogger.make (clock id)) as Hl.
  { intros id l. cbn. rewrite list_lookup_fmap. intros E. apply fmap_Some in E as (i & E & ->).
    apply lookup_seq in E as [-> _]. done. }
  constructor; cbn; try done.
  - by rewrite length_fmap, length_seq.
  - intros id l E. rewrite (Hl id l E). rewrite bool_decide_eq_false_2 by apply not_elem_of_nil.
    apply logger_make_inv. apply clock_ok.
  - intros id l E. rewrite (Hl id l E). split; [by intros ?%elem_of_nil|].
    unfold AsyncLogger.make, rollFile. cbn. by destruct (0 <? _).
  - split; constructor.
Qed.

Lemma append_sys_inv n id line s :
  sys_inv n s -> (id < n)%nat -> exists s', append id line s = Some s' /\ sys_inv n s'.
Proof.
  intros [Hlen Hls Hlisted [Hnd1 Hnd2] Hrange Hwait] Hid. unfold append.
  destruct (lookup_lt_is_Some_2 (loggers s) id) as [l El]; [lia|]. rewrite El. cbn [mbind option_bind].
  destruct (appendToBuffer_inv _ line l (Hls id l El)) as (l' & -> & Hinv' & Hne' & _). cbn [mbind option_bind].
  eexists. split; [done|]. pose proof (Hlisted id l El) as Hlist.
  assert (forall i x, <[id := l']> (loggers s) !! i = Some x ->
    (i = id /\ x = l') \/ (i <> id /\ loggers s !! i = Some x)) as Hins.
  { intros i x E. apply list_lookup_insert_Some in E as [(-> & -> & _)|[? ?]]; auto. }
  destruct (notEmpty_ l) eqn:Ene; cbn [negb].
  - constructor; cbn; rewrite ?length_insert; try done.
    + intros i x [[-> ->]|[_ E]]%Hins; [exact Hinv'|by apply Hls].
    + intros i x [[-> ->]|[_ E]]%Hins; [by rewrite Hlist, Hne'|by apply Hlisted].
  - assert (id ∉ asyncLoggers_ s) as Hni by (intros Hin; by apply Hlist in Hin).
    unfold notify_one. cbn [wpc]. 
    assert (sys_inv n (mk (running_ s) (asyncLoggers_ s ++ [id]) (<[id := l']> (loggers s))
      (match wpc s with WWait => WAwake | pc => pc end) (opc s))) as Hnew.
    { assert (to_write (mk (running_ s) (asyncLoggers_ s ++ [id]) (<[id := l']> (loggers s))
        (match wpc s with WWait => WAwake | pc => pc end) (opc s)) = to_write s) as Htw
        by (unfold to_write; cbn; by destruct (wpc s)).
      constructor; rewrite ?Htw; cbn; rewrite ?length_insert; try done.
      - intros i x [[-> ->]|[_ E]]%Hins; [exact Hinv'|by apply Hls].
      - intros i x [[-> ->]|[Hne E]]%Hins; rewrite elem_of_app, list_elem_of_singleton.
        + rewrite Hne'. split; [done|by right].
        + rewrite <- (Hlisted i x E). split; [by intros [?|?]|by left].
      - split; [|done]. apply list.NoDup_app. split; [done|].
        split; [by intros x Hx ->%list_elem_of_singleton|apply NoDup_singleton].
      - rewrite <- app_assoc. apply Forall_app in Hrange as [? ?]. apply Forall_app. split; [done|].
        by constructor.
      - by destruct (wpc s). }
    by destruct (wpc s) eqn:Epc.
Qed.

Lemma swap_loop_spec ids ls :
  NoDup ids -> (forall id, id ∈ ids -> exists l, ls !! id = Some l /\ inv false l) ->
  exists ls', swap_loop ids ls = Some ls' /\ length ls' = length ls /\
    (forall id, id ∉ ids -> ls' !! id = ls !! id) /\
    (forall id l', id ∈ ids -> ls' !! id = Some l' -> inv true l' /\ notEmpty_ l' = false).
Proof.
  revert ls. induction ids as [|id ids IH]; intros ls Hnd Hall; cbn [swap_loop].
  { exists ls. split; [done|]. split; [done|]. split; [done|]. by intros ? ? ?%elem_of_nil. }
  apply list.NoDup_cons in Hnd as [Hni Hnd].
  destruct (Hall id) as (l & El & Hl); [by left|]. rewrite El. cbn [mbind option_bind].
  destruct (swap_inv l Hl) as (l' & -> & Hl' & Hne & _). cbn [mbind option_bind].
  destruct (IH (<[id := l']> ls) Hnd) as (ls' & -> & Hlen & Hout & Hin).
  { intros j Hj. rewrite list_lookup_insert_ne by (by intros ->). apply Hall. by right. }
  exists ls'. split; [done|]. split; [by rewrite Hlen, length_insert|]. split.
  - intros j Hj. apply not_elem_of_cons in Hj as [Hne1 Hj].
    rewrite (Hout j Hj). by apply list_lookup_insert_ne.
  - intros j x Hj E. apply elem_of_cons in Hj as [->|Hj]; [|by eapply Hin].
    rewrite (Hout id Hni), list_lookup_insert_eq in E by (by eapply lookup_lt_Some). by injection E as <-.
Qed.

Lemma swap_sys_inv n s :
  sys_inv n s -> to_write s = [] -> exists s', swap s = Some s' /\ sys_inv n s'.
Proof.
  intros [Hlen Hls Hlisted [Hnd _] Hrange _] Htw. unfold swap.
  rewrite Htw, app_nil_r in Hrange. rewrite list.Forall_forall in Hrange.
  destruct (swap_loop_spec (asyncLoggers_ s) (loggers s) Hnd) as (ls & -> & Hlen' & Hout & Hin).
  { intros id Hid. destruct (lookup_lt_is_Some_2 (loggers s) id) as [l El]; [rewrite Hlen; by apply Hrange|].
    exists l. split; [done|]. specialize (Hls id l El).
    by rewrite Htw, bool_decide_eq_false_2 in Hls by apply not_elem_of_nil. }
  cbn [mbind option_bind]. eexists. split; [done|].
  constructor; cbn; try done.
  - by rewrite Hlen'.
  - intros id l El. case_bool_decide as Hid; [by apply (Hin id)|].
    rewrite Hout in El by done. specialize (Hls id l El).
    by rewrite Htw, bool_decide_eq_false_2 in Hls by apply not_elem_of_nil.
  - intros id l El. split; [by intros ?%elem_of_nil|]. intros Hne. exfalso.
    destruct (decide (id ∈ asyncLoggers_ s)) as [Hid|Hid].
    + destruct (Hin id l Hid El) as [_ ?]. congruence.
    + apply Hid. rewrite Hout in El by done. by apply (Hlisted id l El).
  - split; [constructor|done].
  - by apply list.Forall_forall.
Qed.

Lemma write_sys_inv n id rest s :
  sys_inv n s -> wpc s = WWrite (id :: rest) -> exists s', write id rest s = Some s' /\ sys_inv n s'.
Proof.
  intros [Hlen Hls Hlisted [Hnd1 Hnd2] Hrange Hwait] Hpc. unfold write.
  assert (to_write s = id :: rest) as Htw by (unfold to_write; by rewrite Hpc). rewrite Htw in *.
  apply list.NoDup_cons in Hnd2 as [Hni Hnd2].
  apply Forall_app in Hrange as [Hr1 Hr2]. apply Forall_cons_1 in Hr2 as [Hid Hr2].
  destruct (lookup_lt_is_Some_2 (loggers s) id) as [l El]; [lia|]. rewrite El. cbn [mbind option_bind].
  pose proof (Hls id l El) as Hl. rewrite bool_decide_eq_true_2 in Hl by (by left).
  destruct (appendBuffers_inv (rollSize_ id) (writtenBytes id) (clock id) l Hl) as (l' & -> & Hl' & Hne & _).
  cbn [mbind option_bind]. eexists. split; [done|].
  assert (forall i x, <[id := l']> (loggers s) !! i = Some x ->
    (i = id /\ x = l') \/ (i <> id /\ loggers s !! i = Some x)) as Hins.
  { intros i x E. apply list_lookup_insert_Some in E as [(-> & -> & _)|[? ?]]; auto. }
  constructor; cbn; rewrite ?length_insert; try done.
  - intros i x [[-> ->]|[Hne1 E]]%Hins; [by rewrite bool_decide_eq_false_2|].
    specialize (Hls i x E). rewrite (bool_decide_ext (i ∈ rest) (i ∈ id :: rest)); [done|].
    rewrite elem_of_cons. split; [by right|by intros [?|?]].
  - intros i x [[-> ->]|[_ E]]%Hins; [rewrite Hne|]; by apply Hlisted.
  - by apply Forall_app.
Qed.

Lemma set_wpc_sys_inv n pc s :
  sys_inv n s -> to_write s = [] -> (forall ids, pc <> WWrite ids) -> (pc = WWait -> asyncLoggers_ s = []) ->
  sys_inv n (set_wpc pc s).
Proof.
  intros [Hlen Hls Hlisted [Hnd1 _] Hrange Hwait] Htw Hpc Hw. rewrite Htw in *.
  assert (to_write (set_wpc pc s) = []) as Htw'
    by (unfold to_write; cbn; destruct pc; try done; by specialize (Hpc ids)).
  constructor; rewrite ?Htw'; try done. split; [done|constructor].
Qed.

(** An enabled step makes no illegal access and preserves the invariant. *)
Lemma exec_sys_inv n l s :
  sys_inv n s -> enabled l s = true -> exists s', exec l s = Some s' /\ sys_inv n s'.
Proof.
  intros Hs He. destruct l as [id line| | | |]; cbn [exec enabled] in *.
  - apply bool_decide_eq_true in He. apply append_sys_inv; [done|]. by rewrite <- (sys_length _ _ Hs).
  - destruct (wpc s) as [| | | |[|id rest]|] eqn:Epc; try discriminate He.
    + eexists. split; [done|]. apply set_wpc_sys_inv; try done; [by unfold to_write; rewrite Epc|..];
        by destruct (running_ s).
    + destruct (asyncLoggers_ s) eqn:Ea.
      * eexists. split; [done|]. apply set_wpc_sys_inv; try done. by unfold to_write; rewrite Epc.
      * apply swap_sys_inv; [done|]. by unfold to_write; rewrite Epc.
    + apply swap_sys_inv; [done|]. by unfold to_write; rewrite Epc.
    + eexists. split; [done|]. apply set_wpc_sys_inv; try done. by unfold to_write; rewrite Epc.
    + by apply write_sys_inv.
  - destruct (wpc s) eqn:Epc; try discriminate He. eexists. split; [done|].
    apply set_wpc_sys_inv; try done. by unfold to_write; rewrite Epc.
  - eexists. split; [done|]. by destruct Hs.
  - eexists. split; [done|]. assert (sys_inv n (notify_one s)) as [].
    { unfold notify_one. destruct (wpc s) eqn:Epc; try done. apply set_wpc_sys_inv; try done.
      by unfold to_write; rewrite Epc. }
    by constructor.
Qed.

Lemma reached_sys_inv n s : reached n s -> sys_inv n s.
Proof.
  apply reachable_ind_inv; [intros ? ->; apply make_sys_inv|]. intros s1 s2 H1 (l & He & Ex).
  destruct (exec_sys_inv n l s1 H1 He) as (s' & E & ?). rewrite E in Ex. by injection Ex as <-.
Qed.

(** *** What was accepted *)

(** The bytes of the lines that a schedule appends to a logger, in order,
    without those as large as a buffer. *)
Definition lines_of (id : nat) (ls : list label) : list byte :=
  fold_left (fun acc l => match l with
                          | LAppend id' line => if decide (id' = id) then accept line acc else acc
                          | _ => acc
                          end) ls [].

Lemma lines_of_snoc id ls l :
  lines_of id (ls ++ [l]) =
  match l with
  | LAppend id' line => if decide (id' = id) then accept line (lines_of id ls) else lines_of id ls
  | _ => lines_of id ls
  end.
Proof. unfold lines_of. by rewrite fold_left_app. Qed.

Lemma fmap_accepted_insert (ls : list AsyncLogger.t) id l l' :
  ls !! id = Some l -> accepted l' = accepted l -> accepted <$> <[id := l']> ls = accepted <$> ls.
Proof.
  intros El Ha. rewrite list_fmap_insert, Ha. apply list_insert_id. by rewrite list_lookup_fmap, El.
Qed.

Lemma swap_loop_accepted ids ls ls' :
  swap_loop ids ls = Some ls' -> accepted <$> ls' = accepted <$> ls.
Proof.
  revert ls. induction ids as [|id ids IH]; intros ls E; cbn [swap_loop] in E; [by injection E as <-|].
  apply bind_Some in E as (l & El & E). apply bind_Some in E as (l' & E' & E).
  rewrite (IH _ E). apply (fmap_accepted_insert ls id l); [done|].
  unfold swapBuffersToWrite_locked in E'. apply bind_Some in E' as (cur & _ & E').
  by destruct (0 <? _), (nextBuffer_ l); injection E' as <-.
Qed.

Lemma exec_accepted n l s s' :
  sys_inv n s -> exec l s = Some s' ->
  accepted <$> loggers s' =
  match l with
  | LAppend id line => alter (accept line) id (accepted <$> loggers s)
  | _ => accepted <$> loggers s
  end.
Proof.
  intros Hs Ex. destruct l as [id line| | | |]; cbn [exec] in Ex.
  - unfold append in Ex. apply bind_Some in Ex as (l & El & Ex). apply bind_Some in Ex as (l' & El' & Ex).
    destruct (appendToBuffer_inv _ line l (sys_loggers _ _ Hs id l El)) as (l1 & E1 & _ & _ & Hacc).
    rewrite E1 in El'. injection El' as ->.
    assert (loggers s' = <[id := l']> (loggers s)) as ->
      by (destruct (negb (notEmpty_ l)); [unfold notify_one in Ex; cbn in Ex; destruct (wpc s)|]; by injection Ex as <-).
    rewrite list_fmap_insert, Hacc. apply list_eq. intros i.
    destruct (decide (i = id)) as [->|Hne].
    + rewrite list_lookup_insert_eq by (rewrite length_fmap; by eapply lookup_lt_Some).
      by rewrite list_lookup_alter_eq, list_lookup_fmap, El.
    + by rewrite list_lookup_insert_ne, list_lookup_alter_ne.
  - assert (swap s = Some s' -> accepted <$> loggers s' = accepted <$> loggers s) as Hswap.
    { intros E. unfold swap in E. apply bind_Some in E as (ls & El & E). injection E as <-.
      by eapply swap_loop_accepted. }
    destruct (wpc s) as [| | | |[|id rest]|] eqn:Epc; try (by injection Ex as <-); try (by apply Hswap).
    + destruct (asyncLoggers_ s); [by injection Ex as <-|by apply Hswap].
    + unfold write in Ex. apply bind_Some in Ex as (l & El & Ex). apply bind_Some in Ex as (l' & El' & Ex).
      injection Ex as <-. cbn. apply (fmap_accepted_insert _ id l); [done|].
      pose proof (sys_loggers _ _ Hs id l El) as Hl.
      rewrite bool_decide_eq_true_2 in Hl by (unfold to_write; rewrite Epc; by left).
      destruct (appendBuffers_inv (rollSize_ id) (writtenBytes id) (clock id) l Hl) as (l1 & E1 & _ & _ & Ha).
      rewrite E1 in El'. by injection El' as <-.
  - by injection Ex as <-.
  - by injection Ex as <-.
  - injection Ex as <-. unfold notify_one. by destruct (wpc s).
Qed.

Lemma run_accepted n ls s :
  run ls (make n) = Some s ->
  sys_inv n s /\ forall id l, loggers s !! id = Some l -> accepted l = lines_of id ls.
Proof.
  revert s. induction ls as [|x ls IH] using rev_ind; intros s E.
  - injection E as <-. split; [apply make_sys_inv|]. intros id l El. cbn in El.
    rewrite list_lookup_fmap in El. apply fmap_Some in El as (i & _ & ->).
    unfold AsyncLogger.make, rollFile. cbn. by destruct (0 <? _).
  - assert (exists s1, run ls (make n) = Some s1 /\ enabled x s1 = true /\ exec x s1 = Some s)
      as (s1 & E1 & He & Ex).
    { clear IH. revert E. generalize (make n) as s0. induction ls as [|y ls IH]; intros s0 E; cbn [run app] in *.
      - exists s0. destruct (enabled x s0); [|done]. apply bind_Some in E as (s2 & E2 & E). by injection E as ->.
      - destruct (enabled y s0); [|done]. destruct (exec y s0); [|done]. by apply IH. }
    destruct (IH s1 E1) as [Hs Hacc].
    destruct (exec_sys_inv n x s1 Hs He) as (s2 & E2 & Hs2). rewrite E2 in Ex. injection Ex as ->.
    split; [done|]. intros id l El. pose proof (exec_accepted n x s1 s Hs E2) as Ha.
    assert ((accepted <$> loggers s) !! id = Some (accepted l)) as Hl by (by rewrite list_lookup_fmap, El).
    rewrite lines_of_snoc, Ha in *.
    assert (forall a, (accepted <$> loggers s1) !! id = Some a -> a = lines_of id ls) as Hold.
    { intros a Ea. rewrite list_lookup_fmap in Ea. apply fmap_Some in Ea as (l1 & El1 & ->). by apply Hacc. }
    destruct x as [id' line| | | |]; try (by apply Hold).
    destruct (decide (id' = id)) as [->|Hne].
    + rewrite list_lookup_alter_eq in Hl. apply fmap_Some in Hl as (a & Ea & ->). by rewrite (Hold a Ea).
    + rewrite list_lookup_alter_ne in Hl by done. by apply Hold.
Qed.

(** *** Properties *)

(** C23: in every interleaving of appending threads, the background thread,
    spurious wake-ups and [stop()], every step that can be taken makes no
    illegal access (no null buffer, no [back()] of an empty vector, no missing
    file); what a logger has filed, followed by what its buffers hold, is
    exactly the lines appended to it, in order and without the lines of 4 MiB
    or more; and its files are opened at strictly increasing times. *)
Theorem async_logging_loses_nothing (n : nat) (ls : list label) (s : t) (Hr : run ls (make n) = Some s) :
  (forall l, enabled l s = true -> exists s', exec l s = Some s') /\
  forall id l, loggers s !! id = Some l ->
    filed (tr l) ++ pending l = lines_of id ls /\ StronglySorted Z.lt (opened (tr l)).
Proof.
  destruct (run_accepted n ls s Hr) as [Hs Hacc]. split.
  - intros l He. destruct (exec_sys_inv n l s Hs He) as (s' & ? & _). by exists s'.
  - intros id l El. rewrite <- (Hacc id l El). destruct (sys_loggers _ _ Hs id l El) as [].
    split; [done|tauto].
Qed.

(** C24: no wake-up by [append] is lost: when the background thread sleeps,
    nothing is waiting to be written, and every accepted line is in a file. (That
    of [stop()] can be lost, [stop_can_hang].) *)
Theorem writer_sleeps_only_when_done (n : nat) (ls : list label) (s : t)
  (Hr : run ls (make n) = Some s) (Hw : wpc s = WWait) :
  asyncLoggers_ s = [] /\
  forall id l, loggers s !! id = Some l -> filed (tr l) = lines_of id ls.
Proof.
  destruct (run_accepted n ls s Hr) as [Hs Hacc].
  pose proof (sys_waiting _ _ Hs Hw) as Ha. split; [done|]. intros id l El.
  rewrite <- (Hacc id l El). pose proof (sys_loggers _ _ Hs id l El) as Hl.
  rewrite bool_decide_eq_false_2 in Hl by (unfold to_write; rewrite Hw; apply not_elem_of_nil).
  assert (notEmpty_ l = false) as Hne.
  { destruct (notEmpty_ l) eqn:E; [|done]. apply (sys_listed _ _ Hs id l El) in E.
    rewrite Ha in E. by apply elem_of_nil in E. }
  destruct (inv_quiet _ _ Hl Hne) as [Hb Hc]. rewrite <- (inv_bytes _ _ Hl). unfold pending.
  rewrite (inv_idle _ _ Hl eq_refl), Hb, Hc. by rewrite !app_nil_r.
Qed.

(** *** Findings *)

(** [stop()] can wait for ever: when the background thread has just tested
    [running_], the notification finds nobody waiting, the thread then blocks,
    and only a spurious wake-up or a further append lets [join()] return. *)
Theorem stop_can_hang :
  exists s, run [LWriter; LStop; LNotify; LWriter] (make 0) = Some s /\
    running_ s = false /\ opc s = OJoining /\ wpc s = WWait /\
    forall l, enabled l s = true -> l = LSpurious.
Proof.
  exists (mk false [] [] WWait OJoining). split; [reflexivity|]. split; [done|]. split; [done|].
  split; [done|]. by intros [id line| | | |].
Qed.

(** Lines that are still in memory when [stop()] is called are not
    written. *)
Theorem stop_loses_pending_lines (line : list byte) (Hline : 0 < zlen line < LogBlock.kBufferSize) :
  exists s l, run [LAppend 0 line; LStop; LNotify; LWriter] (make 1) = Some s /\
    loggers s !! 0%nat = Some l /\ wpc s = WExit /\ filed (tr l) = [] /\ pending l = line.
Proof.
  pose proof (logger_make_inv (clock 0%nat) (clock_ok 0%nat)) as Hl0.
  assert (accepted (AsyncLogger.make (clock 0%nat)) = [] /\ notEmpty_ (AsyncLogger.make (clock 0%nat)) = false /\
    filed (tr (AsyncLogger.make (clock 0%nat))) = []) as (Ha & Hn & Hf)
    by (unfold AsyncLogger.make, rollFile; cbn; by destruct (0 <? _)).
  destruct (appendToBuffer_inv _ line _ Hl0) as (l & El & Hl & _ & Hacc).
  assert (tr l = tr (AsyncLogger.make (clock 0%nat))) as Htr.
  { unfold appendToBuffer_locked in El. apply bind_Some in El as (cur & _ & El).
    destruct (_ <? _), (nextBuffer_ _); by injection El as <-. }
  cbn [run enabled exec append]. cbn [make seq fmap list_fmap loggers].
  rewrite bool_decide_eq_true_2 by (cbn; lia). unfold append. cbn [loggers make seq fmap list_fmap lookup list_lookup mbind option_bind].
  rewrite El. cbn [mbind option_bind]. rewrite Hn. cbn.
  do 2 eexists. split; [reflexivity|]. cbn. split; [reflexivity|]. split; [done|].
  pose proof (inv_bytes _ _ Hl) as Hb. rewrite Htr, Hf, Hacc, Ha in Hb. rewrite Htr. split; [done|].
  unfold accept in Hb. by rewrite (proj2 (Z.ltb_lt _ _)) in Hb by lia.
Qed.
End AsyncLogging.

(** ** Witnesses *)

(** Files roll as soon as they hold more than one byte. *)
Definition sample_size (i : nat) : Z := 1.
Definition sample_written (i : nat) (l : AsyncLogger.trace) : Z := zlen (filed l).
Definition sample_clock (i k : nat) : Z := 1000 + Z.of_nat k.

Lemma sample_clock_ok i : 0 < sample_clock i 0.
Proof. done. Qed.

(** Logger 0 gets a line while the thread is writing another one. *)
Definition sample_schedule : list label :=
  [LWriter; LWriter; LAppend 0 [Byte.x61]; LWriter; LAppend 1 [Byte.x78]; LAppend 0 [Byte.x62];
   LWriter; LWriter; LWriter; LWriter; LWriter; LWriter].

Abbreviation sample_run := (run sample_size sample_written sample_clock).

Lemma async_logging_loses_nothing_witness :
  exists s, sample_run sample_schedule (make sample_clock 2) = Some s /\
    (tr <$> loggers s) =
      [[EvOpen 1000; EvAppend [Byte.x61]; EvFlush; EvAppend [Byte.x62]; EvOpen 1001; EvFlush];
       [EvOpen 1000; EvAppend [Byte.x78]; EvFlush]] /\
    (forall l, enabled l s = true -> exists s', exec sample_size sample_written sample_clock l s = Some s') /\
    forall id l, loggers s !! id = Some l ->
      filed (tr l) ++ pending l = lines_of id sample_schedule /\ StronglySorted Z.lt (opened (tr l)).
Proof.
  eexists. split; [vm_compute; reflexivity|]. split; [reflexivity|].
  apply (async_logging_loses_nothing sample_size sample_written sample_clock sample_clock_ok 2 sample_schedule).
  vm_compute. reflexivity.
Defined.

Lemma writer_sleeps_only_when_done_witness :
  let ls := sample_schedule ++ [LWriter; LWriter; LWriter] in
  exists s, sample_run ls (make sample_clock 2) = Some s /\ wpc s = WWait /\
    lines_of 0 ls = [Byte.x61; Byte.x62] /\ asyncLoggers_ s = [] /\
    forall id l, loggers s !! id = Some l -> filed (tr l) = lines_of id ls.
Proof.
  eexists. split; [vm_compute; reflexivity|]. split; [reflexivity|]. split; [reflexivity|].
  apply (writer_sleeps_only_when_done sample_size sample_written sample_clock sample_clock_ok 2);
    [vm_compute; reflexivity|reflexivity].
Defined.

Lemma stop_loses_pending_lines_witness :
  exists s l, sample_run [LAppend 0 [Byte.x61]; LStop; LNotify; LWriter] (make sample_clock 1) = Some s /\
    loggers s !! 0%nat = Some l /\ wpc s = WExit /\ filed (tr l) = [] /\ pending l = [Byte.x61].
Proof.
  apply (stop_loses_pending_lines sample_size sample_written sample_clock sample_clock_ok [Byte.x61]).
  split; vm_compute; reflexivity.
Defined.
End AsyncLogging.
