(* ===== verification/NetServer.v ===== *)
(** [nutty/net/Acceptor.*] and [TcpServer.*]: the listening socket, and the
    server that spreads accepted connections over a pool of loops and owns
    them until they are closed. Results of system calls are functions of what
    the acceptor has done before. *)

From S2P Require Import Prelude BaseWatcher BasePoller BaseThreads.

(** ** [Acceptor] *)

Module Acceptor.

(** [errno] values ([errno.h]). *)
Definition EAGAIN : Z := 11.
Definition ENFILE : Z := 23.
Definition EMFILE : Z := 24.

(** [EvAccept fd err]: [accept4] returned [fd], or -1 with [errno] [err];
    [EvOpen fd]: [open("/dev/null")] returned [fd]; [EvConnection fd]: the
    socket was given to [connectionCallback_]. *)
Inductive event :=
  | EvListen
  | EvAccept (fd err : Z)
  | EvOpen (fd : Z)
  | EvClose (fd : Z)
  | EvConnection (fd : Z).

Abbreviation trace := (list event).

Record env := {
  sys_accept : trace -> Z * Z;
  sys_open : trace -> Z
}.

Section Acceptor.
Context {P : Type} `{!Poller P} (e : env).

(** [connectionCallback_] says whether the callback is set. *)
Record t := mk {
  acceptWatcher_ : Watcher.t;
  listenning_ : bool;
  idleFd_ : Z;
  connectionCallback_ : bool;
  poller : P;
  tr : trace
}.

Definition set_watcher (w : Watcher.t) (p : P) (s : t) : t :=
  mk w (listenning_ s) (idleFd_ s) (connectionCallback_ s) p (tr s).
Definition set_listenning (b : bool) (s : t) : t :=
  mk (acceptWatcher_ s) b (idleFd_ s) (connectionCallback_ s) (poller s) (tr s).
Definition set_idleFd (fd : Z) (s : t) : t :=
  mk (acceptWatcher_ s) (listenning_ s) fd (connectionCallback_ s) (poller s) (tr s).
Definition emit (ev : event) (s : t) : t :=
  mk (acceptWatcher_ s) (listenning_ s) (idleFd_ s) (connectionCallback_ s) (poller s) (tr s ++ [ev]).

(** [::open("/dev/null", ...)] *)
Definition open_idle (s : t) : t :=
  let fd := sys_open e (tr s) in set_idleFd fd (emit (EvOpen fd) s).

(** [Acceptor::Acceptor] for the socket [fd] *)
Definition make (self fd : Z) (p : P) : t :=
  open_idle (mk (Watcher.make self fd) false (-1) false p []).

Definition setConnectionCallback (s : t) : t :=
  mk (acceptWatcher_ s) (listenning_ s) (idleFd_ s) true (poller s) (tr s).

Definition listen (s : t) : option t :=
  if listenning_ s then Some s
  else
    let s1 := emit EvListen (set_listenning true s) in
    '(w, p) ← WatcherOps.enableReading (acceptWatcher_ s1) (poller s1);
    Some (set_watcher w p s1).

(** [acceptSocket_.accept(...)] *)
Definition accept (s : t) : Z * Z * t :=
  let '(fd, err) := sys_accept e (tr s) in (fd, err, emit (EvAccept fd err) s).

(** The destructor of a [Socket]. *)
Definition close_socket (fd : Z) (s : t) : t := if 0 <=? fd then emit (EvClose fd) s else s.

(** [handleRead()], with the socket that is given to [connectionCallback_]. *)
Definition handleRead (s : t) : option Z * t :=
  let '(fd, err, s1) := accept s in
  if fd <? 0 then
    if EAGAIN =? err then (None, s1)
    else if (EMFILE =? err) || (ENFILE =? err) then
      let s2 := emit (EvClose (idleFd_ s1)) s1 in
      let '(fd2, _, s3) := accept s2 in
      let s4 := close_socket fd2 s3 in
      (None, open_idle s4)
    else (None, s1)
  else if connectionCallback_ s1 then (Some fd, emit (EvConnection fd) s1)
  else (None, close_socket fd s1).

(** The destructor. *)
Definition destroy (s : t) : option t :=
  '(w, p) ← WatcherOps.disableAll (acceptWatcher_ s) (poller s);
  Some (emit (EvClose (idleFd_ s)) (set_watcher w p s)).

(** *** Descriptors *)

Definition valid (l : list Z) : list Z := filter (fun fd => 0 <= fd) l.

Definition obtained (l : trace) : list Z :=
  valid (omap (fun ev => match ev with EvAccept fd _ | EvOpen fd => Some fd | _ => None end) l).

Definition released (l : trace) : list Z :=
  valid (omap (fun ev => match ev with EvClose fd | EvConnection fd => Some fd | _ => None end) l).

#[local] Arguments valid : simpl never.

Lemma obtained_snoc l ev :
  obtained (l ++ [ev]) = obtained l ++ valid match ev with EvAccept fd _ | EvOpen fd => [fd] | _ => [] end.
Proof. unfold obtained, valid. rewrite omap_app, list.filter_app. by destruct ev. Qed.

Lemma released_snoc l ev :
  released (l ++ [ev]) = released l ++ valid match ev with EvClose fd | EvConnection fd => [fd] | _ => [] end.
Proof. unfold released, valid. rewrite omap_app, list.filter_app. by destruct ev. Qed.

#[global] Arguments obtained : simpl never.
#[global] Arguments released : simpl never.

(** What was obtained is released or is the idle descriptor. *)
Definition balanced (s : t) : Prop := obtained (tr s) ≡ₚ released (tr s) ++ valid [idleFd_ s].

Lemma make_balanced self fd p : balanced (make self fd p).
Proof. unfold balanced. by change (obtained (tr (make self fd p))) with (valid [sys_open e []]). Qed.

Lemma valid_nonneg fd : 0 <= fd -> valid [fd] = [fd].
Proof. intros. unfold valid. by rewrite filter_cons_True. Qed.

Lemma valid_neg fd : fd < 0 -> valid [fd] = [].
Proof. intros. unfold valid. by rewrite filter_cons_False by lia. Qed.

Lemma valid_nil : valid [] = [].
Proof. done. Qed.

Lemma handleRead_balanced s : balanced s -> balanced (handleRead s).2.
Proof.
  unfold balanced, handleRead, accept, open_idle, close_socket. intros Hb.
  destruct (sys_accept e (tr s)) as [fd err]. cbv zeta. destruct (fd <? 0) eqn:Ef; zbool.
  - destruct (EAGAIN =? err);
      [cbn; rewrite obtained_snoc, released_snoc, (valid_neg fd), valid_nil, !app_nil_r by done; exact Hb|].
    destruct ((EMFILE =? err) || (ENFILE =? err));
      [|cbn; rewrite obtained_snoc, released_snoc, (valid_neg fd), valid_nil, !app_nil_r by done; exact Hb].
    cbn [tr emit idleFd_]. destruct (sys_accept e _) as [fd2 err2]. cbn [snd].
    destruct (0 <=? fd2) eqn:E2; zbool; cbn [tr emit idleFd_ set_idleFd];
      set (x := sys_open e _); rewrite !obtained_snoc, !released_snoc, (valid_neg fd), !valid_nil, !app_nil_r by done.
    + rewrite Hb. rewrite <- !app_assoc. apply Permutation_app_head. apply Permutation_app_head. done.
    + rewrite (valid_neg fd2), !app_nil_r by done. by rewrite Hb.
  - destruct (connectionCallback_ _); cbn [snd tr emit idleFd_];
      [|rewrite (proj2 (Z.leb_le _ _)) by done; cbn [snd tr emit idleFd_]];
      rewrite ?obtained_snoc, ?released_snoc, !valid_nil, !app_nil_r, Hb, <- !app_assoc;
      apply Permutation_app_head, Permutation_app_comm.
Qed.
End Acceptor.
End Acceptor.

(** ** [TcpServer] *)

Module TcpServer.

(** What the server does to its connections, which are numbered in the order
    of their creation. *)
Inductive call := Established (id : nat) | Destroyed (id : nat).

(** A functor queued on the server's own loop. *)
Inductive functor := FListen | FRemove (id : nat).

Section TcpServer.
(** [new_loop i] is the loop of the [i]-th thread of the pool. *)
Context {P L : Type} `{!Poller P} (e : Acceptor.env) (new_loop : nat -> L).

(** [conns] are the connections created so far, each a socket and a loop,
    [closed] those whose close callback was called. [alive] is false once the
    destructor has run. *)
Record t := mk {
  acceptor_ : Acceptor.t (P := P);
  threadPool_ : EventLoopThreadPool.t (L := L);
  started_ : bool;
  connections_ : gset nat;
  functors : list functor;
  conns : list (Z * L);
  calls : list call;
  closed : list nat;
  alive : bool
}.

(** The constructor, for the listening socket [fd] and the loop [base], and
    [setThreadNum(numThreads)]. *)
Definition make (self fd : Z) (p : P) (base : L) (numThreads : Z) : t :=
  mk (Acceptor.setConnectionCallback (Acceptor.make e self fd p))
     (EventLoopThreadPool.setThreadNum numThreads (EventLoopThreadPool.make base))
     false ∅ [] [] [] [] true.

Definition set_acceptor (a : Acceptor.t) (s : t) : t :=
  mk a (threadPool_ s) (started_ s) (connections_ s) (functors s) (conns s) (calls s) (closed s) (alive s).
Definition set_functors (fs : list functor) (s : t) : t :=
  mk (acceptor_ s) (threadPool_ s) (started_ s) (connections_ s) fs (conns s) (calls s) (closed s) (alive s).

(** [loop_->runInLoop(std::bind(&Acceptor::listen, acceptor_.get()))], on the
    loop thread or on another one. *)
Definition acceptor_listen (s : t) : option t :=
  a ← Acceptor.listen (acceptor_ s); Some (set_acceptor a s).

(** [listen()] *)
Definition listen (inLoopThread : bool) (s : t) : option t :=
  if started_ s then Some s
  else
    let s1 := mk (acceptor_ s) (EventLoopThreadPool.start new_loop (threadPool_ s)) true (connections_ s)
                 (functors s) (conns s) (calls s) (closed s) (alive s) in
    if inLoopThread then acceptor_listen s1
    else Some (set_functors (functors s1 ++ [FListen]) s1).

(** [handleConnection(socket, peerAddr)] *)
Definition handleConnection (socket : Z) (s : t) : option t :=
  '(loop, pool) ← EventLoopThreadPool.getLoop (threadPool_ s);
  let id := length (conns s) in
  Some (mk (acceptor_ s) pool (started_ s) ({[id]} ∪ connections_ s) (functors s)
          (conns s ++ [(socket, loop)]) (calls s ++ [Established id]) (closed s) (alive s)).

(** [removeConnectionInLoop(connection)] *)
Definition removeConnectionInLoop (id : nat) (s : t) : t :=
  mk (acceptor_ s) (threadPool_ s) (started_ s) (connections_ s ∖ {[id]}) (functors s) (conns s)
     (calls s ++ [Destroyed id]) (closed s) (alive s).

(** [removeConnection(connection)], the close callback of a connection, called
    on the thread of the connection's loop. *)
Definition removeConnection (inLoopThread : bool) (id : nat) (s0 : t) : t :=
  let s := mk (acceptor_ s0) (threadPool_ s0) (started_ s0) (connections_ s0) (functors s0) (conns s0)
              (calls s0) (closed s0 ++ [id]) (alive s0) in
  if inLoopThread then removeConnectionInLoop id s
  else set_functors (functors s ++ [FRemove id]) s.

(** [Acceptor::handleRead] with the connection callback. *)
Definition handleRead (s : t) : option t :=
  let '(socket, a) := Acceptor.handleRead e (acceptor_ s) in
  let s1 := set_acceptor a s in
  match socket with Some fd => handleConnection fd s1 | None => Some s1 end.

Definition callbacks : Dispatch.callbacks t := Dispatch.mk None None (Some handleRead) None.

(** The destructor: every connection is told, then the members go. *)
Definition destroy (s : t) : option t :=
  a ← Acceptor.destroy (acceptor_ s);
  Some (mk a (threadPool_ s) (started_ s) ∅ (functors s) (conns s)
          (calls s ++ (Destroyed <$> elements (connections_ s))) (closed s) false).

(** What happens next: [listen()] is called, the poller reports the accept
    watcher, the server's loop runs its next functor, a connection calls its
    close callback, the server is destroyed. *)
Inductive input :=
  | IListen (inLoopThread : bool)
  | IEvents (revents : Z)
  | IFunctor
  | IClose (inLoopThread : bool) (id : nat)
  | IDestroy.

(** [None] is a use of the destroyed server, or an access out of bounds. *)
Definition step (i : input) (s : t) : option t :=
  match i with
  | IListen inLoopThread => if alive s then listen inLoopThread s else None
  | IEvents revents =>
      if Watcher.started_ (Acceptor.acceptWatcher_ (acceptor_ s))
      then Dispatch.handleEvents revents callbacks s else Some s
  | IFunctor =>
      match functors s with
      | [] => Some s
      | f :: fs =>
          if alive s then
            match f with
            | FListen => acceptor_listen (set_functors fs s)
            | FRemove id => Some (removeConnectionInLoop id (set_functors fs s))
            end
          else None
      end
  | IClose inLoopThread id =>
      if decide (id < length (conns s))%nat then
        if alive s then Some (removeConnection inLoopThread id s) else None
      else Some s
  | IDestroy => if alive s then destroy s else None
  end.

Fixpoint run (ins : list input) (s : t) : option t :=
  match ins with
  | [] => Some s
  | i :: rest => s1 ← step i s; run rest s1
  end.

(** ** Invariant *)

Definition established (cs : list call) : list nat :=
  omap (fun c => match c with Established id => Some id | _ => None end) cs.

(** The removals performed, and those queued. *)
Definition destroyed (cs : list call) : list nat :=
  omap (fun c => match c with Destroyed id => Some id | _ => None end) cs.
Definition removals (fs : list functor) : list nat :=
  omap (fun f => match f with FRemove id => Some id | _ => None end) fs.

Definition handed (l : Acceptor.trace) : list Z :=
  omap (fun ev => match ev with Acceptor.EvConnection fd => Some fd | _ => None end) l.

(** The loop of the [k]-th connection. *)
Definition loop_of (base : L) (numThreads : Z) (k : nat) : L :=
  if 0 <? numThreads then new_loop (Z.to_nat (Z.of_nat k `mod` numThreads)) else base.

#[local] Arguments handed : simpl never.
#[local] Arguments established : simpl never.
#[local] Arguments destroyed : simpl never.
#[local] Arguments removals : simpl never.

Record inv (base : L) (numThreads : Z) (s : t) : Prop := {
  inv_alive : alive s = true;
  inv_poller : poller_ok (Acceptor.poller (acceptor_ s)) /\
    WatcherOps.synced (Acceptor.acceptWatcher_ (acceptor_ s)) (Acceptor.poller (acceptor_ s));
  inv_balanced : Acceptor.balanced (acceptor_ s);
  inv_callback : Acceptor.connectionCallback_ (acceptor_ s) = true;
  inv_idle : started_ s = false ->
    conns s = [] /\ Watcher.started_ (Acceptor.acceptWatcher_ (acceptor_ s)) = false /\ functors s = [] /\
    threadPool_ s = EventLoopThreadPool.setThreadNum numThreads (EventLoopThreadPool.make base);
  inv_pool : started_ s = true ->
    EventLoopThreadPool.baseLoop_ (threadPool_ s) = base /\
    EventLoopThreadPool.loops_ (threadPool_ s) = new_loop <$> seq 0 (Z.to_nat numThreads) /\
    (0 < numThreads -> EventLoopThreadPool.next_ (threadPool_ s) = Z.of_nat (length (conns s)) `mod` numThreads);
  inv_conns : (conns s).*2 = loop_of base numThreads <$> seq 0 (length (conns s));
  inv_handed : (conns s).*1 = handed (Acceptor.tr (acceptor_ s));
  inv_established : established (calls s) = seq 0 (length (conns s));
  inv_owned id : id ∈ connections_ s <-> (id < length (conns s))%nat /\ Destroyed id ∉ calls s;
  inv_closed : closed s ≡ₚ destroyed (calls s) ++ removals (functors s);
  inv_closed_range : Forall (fun id => (id < length (conns s))%nat) (closed s)
}.

Context (base : L) (numThreads : Z) (Hnum : numThreads < 2147483648).

Abbreviation invariant := (inv base numThreads).

Lemma server_make_inv self fd p :
  poller_ok p -> interest p !! fd = None -> invariant (make self fd p base numThreads).
Proof.
  intros Hp Hi. constructor; try done.
  - apply Acceptor.make_balanced.
  - intros id. cbn. rewrite elem_of_empty. lia.
Qed.

Lemma server_established_snoc cs c :
  established (cs ++ [c]) = established cs ++ match c with Established id => [id] | _ => [] end.
Proof. unfold established. rewrite omap_app. by destruct c. Qed.

Lemma server_destroyed_snoc cs c :
  destroyed (cs ++ [c]) = destroyed cs ++ match c with Destroyed id => [id] | _ => [] end.
Proof. unfold destroyed. rewrite omap_app. by destruct c. Qed.

Lemma server_removals_snoc fs f :
  removals (fs ++ [f]) = removals fs ++ match f with FRemove id => [id] | _ => [] end.
Proof. unfold removals. rewrite omap_app. by destruct f. Qed.

Lemma elem_of_destroyed id cs : id ∈ destroyed cs <-> Destroyed id ∈ cs.
Proof.
  unfold destroyed. rewrite list_elem_of_omap. split; [intros ([] & ? & ?); by simplify_eq|by exists (Destroyed id)].
Qed.

Lemma elem_of_removals id fs : id ∈ removals fs <-> FRemove id ∈ fs.
Proof.
  unfold removals. rewrite list_elem_of_omap. split; [intros ([] & ? & ?); by simplify_eq|by exists (FRemove id)].
Qed.

Lemma closed_iff s id : invariant s -> id ∈ closed s <-> Destroyed id ∈ calls s \/ FRemove id ∈ functors s.
Proof. intros Hs. by rewrite (inv_closed _ _ _ Hs), elem_of_app, elem_of_destroyed, elem_of_removals. Qed.

Lemma seq_snoc n : seq 0 (S n) = seq 0 n ++ [n].
Proof. apply seq_S. Qed.

(** The pool's part of [handleConnection]. *)
Lemma getLoop_inv s :
  invariant s -> started_ s = true ->
  exists pool, EventLoopThreadPool.getLoop (threadPool_ s) = Some (loop_of base numThreads (length (conns s)), pool) /\
    EventLoopThreadPool.baseLoop_ pool = base /\
    EventLoopThreadPool.loops_ pool = new_loop <$> seq 0 (Z.to_nat numThreads) /\
    (0 < numThreads -> EventLoopThreadPool.next_ pool = Z.of_nat (S (length (conns s))) `mod` numThreads).
Proof.
  intros Hs Hst. destruct (inv_pool _ _ _ Hs Hst) as (Hb & Hl & Hn). unfold loop_of.
  destruct (0 <? numThreads) eqn:E; zbool.
  - assert (zlen (EventLoopThreadPool.loops_ (threadPool_ s)) = numThreads) as Hz
      by (rewrite Hl; unfold zlen; rewrite length_fmap, length_seq; lia).
    pose proof (Z.mod_pos_bound (Z.of_nat (length (conns s))) numThreads ltac:(lia)) as Hm.
    destruct (EventLoopThreadPool.getLoop_spec (threadPool_ s)) as (loop & pool & Eg & _ & Hl' & Hloop & Hn').
    + rewrite <- (Hn E) in Hm. split; [lia|]. split; [lia|]. intros _. lia.
    + intros Hnil. rewrite Hnil in Hz. change (zlen []) with 0 in Hz. lia.
    + exists pool. rewrite (Hn E), Hl, list_lookup_fmap, lookup_seq_lt in Hloop by lia.
      injection Hloop as <-. split; [done|].
      assert (EventLoopThreadPool.baseLoop_ pool = base) as Hb'.
      { rewrite <- Hb. unfold EventLoopThreadPool.getLoop in Eg.
        destruct (EventLoopThreadPool.loops_ (threadPool_ s)); [by injection Eg as _ <-|].
        apply bind_Some in Eg as (x & _ & Eg). by injection Eg as _ <-. }
      split; [done|]. split; [by rewrite Hl', Hl|]. intros _.
      rewrite Hn', (Hn E), Hz, Zplus_mod_idemp_l. f_equal. lia.
  - assert (EventLoopThreadPool.loops_ (threadPool_ s) = []) as Hnil
      by (rewrite Hl; by replace (Z.to_nat numThreads) with 0%nat by lia).
    exists (threadPool_ s). unfold EventLoopThreadPool.getLoop. rewrite Hnil, Hb.
    split; [done|]. split; [done|]. rewrite <- Hnil, Hl. split; [done|]. lia.
Qed.

Lemma handleConnection_inv fd s a :
  invariant s -> started_ s = true ->
  poller_ok (Acceptor.poller a) /\ WatcherOps.synced (Acceptor.acceptWatcher_ a) (Acceptor.poller a) ->
  Acceptor.balanced a -> Acceptor.connectionCallback_ a = true ->
  handed (Acceptor.tr a) = handed (Acceptor.tr (acceptor_ s)) ++ [fd] ->
  exists s', handleConnection fd (set_acceptor a s) = Some s' /\ invariant s' /\ started_ s' = true.
Proof.
  intros Hs Hst Ha Hbal Hcb Hh. unfold handleConnection. cbn [threadPool_ set_acceptor conns].
  destruct (getLoop_inv s Hs Hst) as (pool & -> & Hb & Hl & Hn). cbn [mbind option_bind].
  eexists. split; [done|]. split; [|done]. destruct Hs as [Hal _ _ _ _ _ Hc Hhd He Ho Hcl Hr].
  assert (Destroyed (length (conns s)) ∉ calls s) as Hnew.
  { intros Hin. assert (length (conns s) ∈ closed s) as Hx by (rewrite Hcl, elem_of_app, elem_of_destroyed; by left).
    rewrite list.Forall_forall in Hr. specialize (Hr _ Hx). lia. }
  constructor; cbn; try done; rewrite ?length_app, ?Nat.add_1_r; try (by rewrite Hst).
  - rewrite fmap_app, Hc, seq_snoc, fmap_app. done.
  - by rewrite fmap_app, Hhd, Hh.
  - by rewrite server_established_snoc, He, seq_snoc.
  - intros id. rewrite elem_of_union, elem_of_singleton, Ho, elem_of_app, list_elem_of_singleton.
    split.
    + intros [->|[? ?]]; (split; [lia|]); intros [?|?]; done.
    + intros [Hlt Hni]. destruct (decide (id = length (conns s))); [by left|right]. split; [lia|].
      intros ?. apply Hni. by left.
  - by rewrite server_destroyed_snoc, app_nil_r.
  - eapply Forall_impl; [|exact Hr]. cbn. lia.
Qed.

Lemma handed_snoc l ev :
  handed (l ++ [ev]) = handed l ++ match ev with Acceptor.EvConnection fd => [fd] | _ => [] end.
Proof. unfold handed. rewrite omap_app. by destruct ev. Qed.

(** What [Acceptor::handleRead] leaves alone and what it hands over. *)
Lemma acceptor_handleRead_frame (a : Acceptor.t (P := P)) :
  let '(socket, a') := Acceptor.handleRead e a in
  Acceptor.acceptWatcher_ a' = Acceptor.acceptWatcher_ a /\ Acceptor.poller a' = Acceptor.poller a /\
  Acceptor.connectionCallback_ a' = Acceptor.connectionCallback_ a /\
  handed (Acceptor.tr a') = handed (Acceptor.tr a) ++ match socket with Some fd => [fd] | None => [] end.
Proof.
  unfold Acceptor.handleRead, Acceptor.accept, Acceptor.open_idle, Acceptor.close_socket.
  destruct (Acceptor.sys_accept e (Acceptor.tr a)) as [fd err]. cbv zeta.
  destruct (fd <? 0); [destruct (_ =? err); [|destruct (_ || _)]|].
  - cbn. by rewrite handed_snoc.
  - cbn [Acceptor.tr Acceptor.emit Acceptor.idleFd_]. destruct (Acceptor.sys_accept e _) as [fd2 err2].
    destruct (0 <=? fd2); cbn; by rewrite !handed_snoc, !app_nil_r.
  - cbn. by rewrite handed_snoc.
  - cbn [Acceptor.connectionCallback_ Acceptor.emit]. destruct (Acceptor.connectionCallback_ a) eqn:Ec;
      [|destruct (0 <=? fd)]; cbn; by rewrite !handed_snoc, ?app_nil_r.
Qed.

Lemma server_handleRead_inv s :
  invariant s -> started_ s = true ->
  exists s', handleRead s = Some s' /\ invariant s' /\ started_ s' = true.
Proof.
  intros Hs Hst. unfold handleRead. pose proof (acceptor_handleRead_frame (acceptor_ s)) as Hf.
  pose proof (Acceptor.handleRead_balanced e _ (inv_balanced _ _ _ Hs)) as Hb.
  destruct (Acceptor.handleRead e (acceptor_ s)) as [socket a]. destruct Hf as (Hw & Hp & Hc & Hh).
  cbn [snd] in Hb. pose proof (inv_poller _ _ _ Hs) as Hpo. rewrite <- Hw, <- Hp in Hpo.
  pose proof (inv_callback _ _ _ Hs) as Hcb. rewrite <- Hc in Hcb. destruct socket as [fd|].
  - by apply handleConnection_inv.
  - rewrite app_nil_r in Hh. eexists. split; [done|]. split; [|done]. destruct Hs. constructor; try done.
    + cbn. by rewrite Hst.
    + cbn. by rewrite Hh.
Qed.

Lemma acceptor_listen_inv s :
  invariant s -> started_ s = true -> exists s', acceptor_listen s = Some s' /\ invariant s'.
Proof.
  intros Hs Hst. unfold acceptor_listen, Acceptor.listen.
  destruct (Acceptor.listenning_ (acceptor_ s)).
  - cbn. eexists. split; [done|]. by destruct Hs.
  - destruct (inv_poller _ _ _ Hs) as [Hp Hsy].
    destruct (WatcherOps.apply_op_spec WatcherOps.EnableReading _ _ Hp Hsy) as (w & p & E & Hp' & Hsy' & _ & _).
    cbn [WatcherOps.apply_op] in E. cbv zeta.
    cbn [Acceptor.acceptWatcher_ Acceptor.poller Acceptor.emit Acceptor.set_listenning].
    rewrite E. cbn. eexists. split; [done|]. destruct Hs. constructor; try done.
    + unfold Acceptor.balanced. cbn. by rewrite Acceptor.obtained_snoc, Acceptor.released_snoc, !app_nil_r.
    + cbn. by rewrite Hst.
    + cbn. by rewrite handed_snoc, app_nil_r.
Qed.

Lemma owned_remove id n (C : gset nat) cs :
  (forall j, j ∈ C <-> (j < n)%nat /\ Destroyed j ∉ cs) ->
  forall j, j ∈ C ∖ {[id]} <-> (j < n)%nat /\ Destroyed j ∉ cs ++ [Destroyed id].
Proof.
  intros Ho j. rewrite elem_of_difference, elem_of_singleton, Ho, elem_of_app, list_elem_of_singleton.
  split.
  - intros [[? ?] ?]. split; [done|]. intros [?|[= ->]]; done.
  - intros [? Hn]. split; [split; [done|]|]; [by intros ?; apply Hn; left|intros ->; apply Hn; by right].
Qed.

(** The close callback of a connection. *)
Lemma removeConnection_inv b id s :
  invariant s -> (id < length (conns s))%nat -> invariant (removeConnection b id s).
Proof.
  intros Hs Hid. assert (started_ s = true) as Hst.
  { destruct (started_ s) eqn:E; [done|]. destruct (inv_idle _ _ _ Hs E) as [Hc _]. by rewrite Hc in Hid; cbn in Hid; lia. }
  destruct Hs as [Hal Hp Hb Hcb _ Hpool Hc Hh He Ho Hcl Hr].
  assert (Forall (fun j => (j < length (conns s))%nat) (closed s ++ [id])) as Hr' by (by apply Forall_snoc).
  destruct b; constructor; cbn; try done; try (by rewrite Hst).
  - by rewrite server_established_snoc, app_nil_r.
  - by apply owned_remove.
  - rewrite server_destroyed_snoc, Hcl, <- !app_assoc. f_equiv. apply Permutation_app_comm.
  - by rewrite server_removals_snoc, Hcl, app_assoc.
Qed.

(** The functor it queues when it is called on another thread. *)
Lemma functor_remove_inv id fs s :
  invariant s -> functors s = FRemove id :: fs -> invariant (removeConnectionInLoop id (set_functors fs s)).
Proof.
  intros Hs Ef. assert (started_ s = true) as Hst.
  { destruct (started_ s) eqn:E; [done|]. destruct (inv_idle _ _ _ Hs E) as (_ & _ & Hf & _). congruence. }
  destruct Hs as [Hal Hp Hb Hcb _ Hpool Hc Hh He Ho Hcl Hr].
  constructor; cbn; try done; try (by rewrite Hst).
  - by rewrite server_established_snoc, app_nil_r.
  - by apply owned_remove.
  - rewrite server_destroyed_snoc, Hcl, Ef, <- app_assoc. done.
Qed.

(** [listen()] from any thread. *)
Lemma listen_inv b s : invariant s -> exists s', listen b s = Some s' /\ invariant s'.
Proof.
  intros Hs. unfold listen. destruct (started_ s) eqn:Hst; [by exists s|].
  destruct (inv_idle _ _ _ Hs Hst) as (Hc & Hw & Hf & Hpool). cbv zeta. set (s1 := mk _ _ true _ _ _ _ _ _).
  assert (invariant s1) as H1.
  { destruct Hs. constructor; try done. intros _. unfold s1. cbn. rewrite Hpool, Hc. done. }
  destruct b; [by apply acceptor_listen_inv|]. eexists. split; [done|].
  destruct H1 as [? ? ? ? ? ? ? ? ? ? Hcl ?]. constructor; try done.
  cbn in *. by rewrite server_removals_snoc, app_nil_r.
Qed.

Lemma server_step_inv i s :
  i <> IDestroy -> invariant s -> exists s', step i s = Some s' /\ invariant s'.
Proof.
  intros Hi Hs. pose proof (inv_alive _ _ _ Hs) as Hal. destruct i as [b|r| |b id|]; cbn [step].
  - rewrite Hal. by apply listen_inv.
  - destruct (Watcher.started_ _) eqn:Ew; [|by exists s].
    assert (started_ s = true) as Hst.
    { destruct (started_ s) eqn:E; [done|]. destruct (inv_idle _ _ _ Hs E) as (_ & ? & _). congruence. }
    destruct (Dispatch.dispatch_handleEvents_inv (fun s => invariant s /\ started_ s = true) callbacks r s)
      as (s' & ? & ? & _); [|done|by exists s'].
    intros f Hf x [Hx Hsx]. cbn in Hf. destruct Hf as [Hf|[Hf|[Hf|Hf]]]; try discriminate Hf.
    injection Hf as <-. by apply server_handleRead_inv.
  - destruct (functors s) as [|[|id] fs] eqn:Ef; [by exists s|rewrite Hal..].
    + assert (started_ s = true) as Hst.
      { destruct (started_ s) eqn:E; [done|]. destruct (inv_idle _ _ _ Hs E) as (_ & _ & Hf & _). congruence. }
      apply acceptor_listen_inv; [|done].
      destruct Hs as [? ? ? ? Hidle ? ? ? ? ? Hcl ?]. constructor; try done.
      * cbn. by rewrite Hst.
      * cbn. by rewrite Hcl, Ef.
    + eexists. split; [done|]. by apply functor_remove_inv.
  - destruct (decide _); [|by exists s]. rewrite Hal. eexists. split; [done|]. by apply removeConnection_inv.
  - done.
Qed.

Lemma server_run_inv ins s :
  Forall (fun i => i <> IDestroy) ins -> invariant s -> exists s', run ins s = Some s' /\ invariant s'.
Proof.
  intros Hins. revert s. induction Hins as [|i ins Hi _ IH]; intros s Hs; cbn [run]; [by exists s|].
  destruct (server_step_inv i s Hi Hs) as (s1 & -> & H1). by apply IH.
Qed.

(** ** Properties *)

(** C21: before it is destroyed, the server makes no illegal access whatever
    the order of [listen()] calls, reported events, functors and closes from
    any thread. Connections are exactly the sockets the acceptor handed over;
    the [k]-th runs on loop [k mod n] (on the base loop without threads) and is
    established once, in order; the server owns exactly the connections it has
    not told to go away, and for each call of a close callback exactly one
    removal has been performed or is queued. No descriptor is leaked or closed
    twice: those obtained are the ones released or handed over, and the idle
    one. *)
Theorem server_tracks_connections (self fd : Z) (p : P) (ins : list input)
  (Hp : poller_ok p) (Hfd : interest p !! fd = None) (Hins : Forall (fun i => i <> IDestroy) ins) :
  exists s, run ins (make self fd p base numThreads) = Some s /\
    (conns s).*1 = handed (Acceptor.tr (acceptor_ s)) /\
    (conns s).*2 = loop_of base numThreads <$> seq 0 (length (conns s)) /\
    established (calls s) = seq 0 (length (conns s)) /\
    (forall id, id ∈ connections_ s <-> (id < length (conns s))%nat /\ Destroyed id ∉ calls s) /\
    closed s ≡ₚ destroyed (calls s) ++ removals (functors s) /\
    Acceptor.obtained (Acceptor.tr (acceptor_ s)) ≡ₚ
      Acceptor.released (Acceptor.tr (acceptor_ s)) ++ Acceptor.valid [Acceptor.idleFd_ (acceptor_ s)].
Proof.
  destruct (server_run_inv ins _ Hins (server_make_inv self fd p Hp Hfd)) as (s & E & []).
  exists s. do 6 (split; [done|]). done.
Qed.
End TcpServer.

(** ** Witnesses *)

#[local] Instance sample_poller : Poller PollPoller.t :=
  PollPoller.poll_poller (fun i => i) (fun i => eq_refl).

(** Descriptors come in ascending order; the third [accept] finds the process
    out of descriptors. *)
Definition sample_env : Acceptor.env := {|
  Acceptor.sys_accept l :=
    if decide (length l = 6%nat) then (-1, Acceptor.EMFILE) else (20 + zlen l, 0);
  Acceptor.sys_open l := 10 + zlen l
|}.

Definition sample_make : t (P := PollPoller.t) :=
  make sample_env 100 5 PollPoller.make 99%nat 2.

Definition sample_inputs : list input :=
  [IListen false; IListen true; IFunctor; IEvents POLLIN; IEvents POLLIN; IEvents POLLIN; IEvents POLLIN;
   IClose false 1; IClose true 0; IFunctor].

Lemma server_tracks_connections_witness :
  exists s, run sample_env (fun i => i) sample_inputs sample_make = Some s /\
    (conns s, elements (connections_ s), calls s, Acceptor.idleFd_ (acceptor_ s)) =
      ([(22, 0%nat); (24, 1%nat); (31, 0%nat)], [2%nat],
       [Established 0; Established 1; Established 2; Destroyed 0; Destroyed 1], 20) /\
    (conns s).*1 = handed (Acceptor.tr (acceptor_ s)) /\
    Acceptor.obtained (Acceptor.tr (acceptor_ s)) ≡ₚ
      Acceptor.released (Acceptor.tr (acceptor_ s)) ++ Acceptor.valid [Acceptor.idleFd_ (acceptor_ s)].
Proof.
  destruct (server_tracks_connections sample_env (fun i => i) 99%nat 2 ltac:(done) 100 5 PollPoller.make
    sample_inputs) as (s & E & H1 & _ & _ & _ & _ & H2);
    [apply PollPoller.poll_wf_make|reflexivity|by repeat constructor|].
  exists s. split; [exact E|]. split; [|split; [exact H1|exact H2]].
  vm_compute in E. injection E as <-. vm_compute. reflexivity.
Defined.

(** Connections hold a callback to the server that its destructor does not
    take back: one that is closed after the server is gone, before its own
    [destroyed] functor has run, calls into the destroyed server; and so does a
    removal that was queued before. *)
Theorem close_after_destruction_is_undefined :
  exists s, run sample_env (fun i => i) [IListen true; IEvents POLLIN; IEvents POLLIN; IClose false 1; IDestroy]
      sample_make = Some s /\
    (forall b, step sample_env (fun i => i) (IClose b 0) s = None) /\
    step sample_env (fun i => i) IFunctor s = None.
Proof.
  eexists. split; [vm_compute; reflexivity|]. split; [intros b|]; vm_compute; reflexivity.
Qed.
End TcpServer.
