(* ===== verification/NetSystem.v ===== *)
(** A [TcpServer] together with its [TcpConnection]s: the state machine of
    [NetServer] composed with one state machine of [NetTcpConnection] for each
    connection, along the calls [established()], [destroyed()] and
    [removeConnection] that they make to each other. *)

From S2P Require Import Prelude NetBuffer NetByteStream NetReceiveBuffer NetSendBuffer BaseWatcher.
From S2P Require Import BasePoller NetTcpConnection BaseThreads NetServer.

(** ** A connection as its owner sees it *)

Module OwnedConnection.
Import TcpConnection.

#[export] Instance callback_eq_dec : EqDecision callback.
Proof. solve_decision. Defined.

(** The environment of a connection whose close callback is the owner's
    [removeConnection]. On the owner's loop it calls [destroyed()] at once;
    otherwise it only queues a functor there. *)
Definition conn_env (user : env) (inLoopThread : bool) : env := {|
  sys_write := sys_write user;
  sys_read := sys_read user;
  connectCallback_ := connectCallback_ user;
  disconnectCallback_ := disconnectCallback_ user;
  readCallback_ := readCallback_ user;
  closeCallback_ _ := if inLoopThread then [ADestroyed] else []
|}.

(** [destroyed()] is for the owner alone. *)
Definition user_action (a : action) : Prop := a <> ADestroyed.

Record user_ok (user : env) : Prop := {
  user_env : env_ok user;
  user_connect l : Forall user_action (connectCallback_ user l);
  user_disconnect l : Forall user_action (disconnectCallback_ user l);
  user_read l rb : Forall user_action (readCallback_ user l rb)
}.

(** What the user, the poller and the loop do to a connection. *)
Definition by_user (i : input) : Prop :=
  match i with
  | IEvents _ | IFunctor => True
  | IAction a => user_action a
  | IEstablished => False
  | IRemote r => r <> REstablished /\ r <> RDestroyed
  end.

(** How often the close callback was called. *)
Definition closes (l : trace) : nat := length (filter (fun c => c = CbClose) (cbs l)).

Section Connection.
Context {P : Type} `{!Poller P}.
Implicit Types s : t (P := P).

Definition closed s : Prop := CbClose ∈ cbs (tr s).

(** Only a closed connection is disconnected, or told to go away. *)
Definition owned s : Prop := FDestroyed ∈ functors s \/ state_ s = kDisconnected -> closed s.

Lemma closes_closed s : closed s <-> (0 < closes (tr s))%nat.
Proof.
  unfold closed, closes. induction (cbs (tr s)) as [|c cs IH].
  - rewrite elem_of_nil. cbn. lia.
  - rewrite elem_of_cons, IH, filter_cons. case_decide; [subst; cbn; split; [lia|by left]|].
    split; [by intros [?|?]|by right].
Qed.

(** The life of a connection, with respect to closing. *)
Lemma life_closes s : inv s -> (closes (tr s) <= 1)%nat /\ (closed s -> state_ s = kDisconnected).
Proof.
  intros (_ & _ & Hl). unfold closed, closes.
  assert (forall n l, filter (fun c => c = CbClose) (CbConnect :: replicate n CbRead ++ l) =
    filter (fun c => c = CbClose) l) as Hr.
  { intros n l. rewrite filter_cons, decide_False by done.
    induction n as [|n IH]; [done|]. cbn [replicate app]. by rewrite filter_cons, decide_False. }
  assert (forall n, CbClose ∉ CbConnect :: replicate n CbRead) as Hnot.
  { intros n [?|[? _]%elem_of_replicate]%elem_of_cons; done. }
  assert (forall n, (length (filter (fun c => c = CbClose) (CbConnect :: replicate n CbRead)) <= 1)%nat) as Hle.
  { intros n. rewrite <- (app_nil_r (replicate n CbRead)), Hr, filter_nil. apply le_0_n. }
  destruct (state_ s); cbn in Hl.
  - split; [|done]. destruct Hl as [n [->| ->]]; rewrite Hr; vm_compute; repeat constructor.
  - rewrite Hl. split; [apply le_0_n|]. by intros []%elem_of_nil.
  - destruct Hl as [n ->]. split; [apply Hle|]. by intros []%Hnot.
  - destruct Hl as [n ->]. split; [apply Hle|]. by intros []%Hnot.
Qed.

Lemma closed_emit ev s : closed s -> closed (emit ev s).
Proof. unfold closed. cbn. rewrite cbs_app, elem_of_app. by left. Qed.

Lemma closed_preserved e : Preserved (P := P) e closed.
Proof.
  split; try done.
  - unfold closed. by intros s s' ? _ ->.
  - intros ev s ? _ _. by apply closed_emit.
  - intros s ?. unfold shutdownInLoop. case_decide; [|done]. cbv zeta. case_match; [by apply closed_emit|done].
  - intros l avail bytes rb s _ _ _ ?. by apply closed_emit.
  - intros n rb s _ ?. by apply closed_emit.
  - intros s ?. by apply closed_emit.
Qed.

(** A step that neither disconnects nor tells the connection to go away. *)
Definition soft s s' : Prop :=
  (state_ s' = kDisconnected -> state_ s = kDisconnected) /\
  (FDestroyed ∈ functors s' -> FDestroyed ∈ functors s) /\ (closed s -> closed s').

Lemma soft_owned s s' : soft s s' -> owned s -> owned s'.
Proof. unfold soft, owned. tauto. Qed.

Lemma soft_refl s : soft s s.
Proof. done. Qed.

Lemma soft_emit ev s0 s : soft s0 s -> soft s0 (emit ev s).
Proof. intros (? & ? & ?). split; [done|]. split; [done|]. intros. by apply closed_emit; auto. Qed.

Lemma soft_sendBuffer sb s0 s : soft s0 s -> soft s0 (set_sendBuffer sb s).
Proof. done. Qed.

Lemma soft_receiveBuffer rb s0 s : soft s0 s -> soft s0 (set_receiveBuffer rb s).
Proof. done. Qed.

Lemma soft_queue f s0 s : f <> FDestroyed -> soft s0 s -> soft s0 (queueInLoop f s).
Proof.
  intros Hf (? & ? & ?). split; [done|]. split; [|done]. cbn.
  rewrite elem_of_app, list_elem_of_singleton. intros [?|?]; [auto|congruence].
Qed.

Lemma soft_pop f rest s : functors s = f :: rest -> soft s (set_functors rest s).
Proof. intros E. split; [done|]. split; [|done]. rewrite E. cbn. by right. Qed.

Lemma soft_state st s0 s : st <> kDisconnected -> soft s0 s -> soft s0 (setState st s).
Proof. intros ? (? & ? & ?). by split. Qed.

Lemma soft_watcher_op o s0 s s' : watcher_op o s = Some s' -> soft s0 s -> soft s0 s'.
Proof. unfold watcher_op. destruct (WatcherOps.apply_op o _ _) as [[w p]|]; [|done]. by intros [= <-]. Qed.

Lemma soft_write e bytes s0 s r s' : socket_write e bytes s = (r, s') -> soft s0 s -> soft s0 s'.
Proof. intros [= _ <-] ?. by apply soft_emit. Qed.

Lemma soft_shutdown s0 s : soft s0 s -> soft s0 (shutdownInLoop s).
Proof.
  intros ?. unfold shutdownInLoop. case_decide; [|done]. cbv zeta.
  case_match; [apply soft_emit|]; by apply soft_state.
Qed.

Create HintDb soft discriminated.
#[local] Hint Resolve soft_refl soft_emit soft_sendBuffer soft_receiveBuffer soft_shutdown : soft.
#[local] Hint Extern 1 (soft _ (queueInLoop _ _)) => apply soft_queue; [discriminate|] : soft.
#[local] Hint Extern 1 (soft _ (setState _ _)) => apply soft_state; [discriminate|] : soft.

(** Take a successful computation apart. *)
Ltac soft_parts :=
  repeat match goal with
  | H : Some _ = Some _ |- _ => injection H as H; subst
  | H : None = Some _ |- _ => discriminate H
  | H : _ ≫= _ = Some _ |- _ => apply bind_Some in H as (? & ? & H)
  | H : match ?x with _ => _ end = Some _ |- _ => destruct x eqn:?
  | H : watcher_op _ _ = Some _ |- _ => generalize (fun s0 => soft_watcher_op _ s0 _ _ H); clear H; intros H
  | H : socket_write _ _ _ = (_, _) |- _ =>
      generalize (fun s0 => soft_write _ _ s0 _ _ _ H); clear H; intros H
  end; eauto 12 with soft.

Section Environment.
Context (user : env) (Huser : user_ok user) (b : bool).
Abbreviation e := (conn_env user b).

Lemma conn_env_ok : env_ok e.
Proof.
  destruct (user_env _ Huser). split; try done. intros l. cbn. destruct b; by repeat constructor.
Qed.

Lemma sendInLoop_soft buf n s s' : sendInLoop e buf n s = Some s' -> soft s s'.
Proof. intros E. unfold sendInLoop in E. soft_parts. Qed.

Lemma sendInLoop_buffer_soft buf s s' : sendInLoop_buffer e buf s = Some s' -> soft s s'.
Proof. intros E. unfold sendInLoop_buffer, keep_buffer in E. soft_parts. Qed.

Lemma sendInLoop_receive_soft rb s s' : sendInLoop_receive e rb s = Some s' -> soft s s'.
Proof. intros E. unfold sendInLoop_receive in E. soft_parts. Qed.

#[local] Hint Resolve sendInLoop_soft sendInLoop_buffer_soft sendInLoop_receive_soft : soft.

Lemma do_action_soft a s s' : user_action a -> do_action e a s = Some s' -> soft s s'.
Proof. unfold user_action. intros Ha E. destruct a; cbn [do_action] in E; unfold send in E; try done; soft_parts.
Qed.

Lemma soft_trans s1 s2 s3 : soft s1 s2 -> soft s2 s3 -> soft s1 s3.
Proof. unfold soft. tauto. Qed.

Lemma invoke_soft c acts s s' :
  (forall l, Forall user_action (acts l)) -> invoke e c acts s = Some s' -> soft s s'.
Proof.
  intros Hacts. unfold invoke. cbv zeta. specialize (Hacts (tr (emit (EvCallback c) s))).
  assert (soft s (emit (EvCallback c) s)) as H by auto with soft. revert H.
  generalize (emit (EvCallback c) s) at 1 3. induction Hacts as [|a acts0 Ha _ IH]; intros s1 H E; cbn [do_actions] in E.
  - by injection E as <-.
  - apply bind_Some in E as (s2 & E1 & E2). apply (IH s2); [|done].
    eapply soft_trans; [done|]. by eapply do_action_soft.
Qed.

Lemma handleWrite_soft s s' : handleWrite e s = Some s' -> soft s s'.
Proof. intros E. unfold handleWrite in E. soft_parts. case_decide; auto 12 with soft. Qed.

Lemma establishedInLoop_soft s s' : establishedInLoop e s = Some s' -> soft s s'.
Proof.
  intros E. unfold establishedInLoop in E. case_decide; [|soft_parts].
  apply bind_Some in E as (s1 & E1 & E). apply invoke_soft in E; [|apply (user_connect _ Huser)].
  eapply soft_trans; [|done]. eapply soft_watcher_op; [done|]. auto with soft.
Qed.

(** After [handleClose] the close callback has been called. *)
Lemma handleClose_closed s s' : handleClose e s = Some s' -> closed s'.
Proof.
  intros E. unfold handleClose in E. apply bind_Some in E as (s1 & _ & E). apply bind_Some in E as (s2 & _ & E).
  unfold invoke in E. cbv zeta in E. eapply (do_actions_pres e closed (HJ := closed_preserved e)); [exact E|].
  unfold closed. cbn. rewrite cbs_app, elem_of_app. right. by left.
Qed.

(** Either nothing the owner must know has happened, or the close callback was
    called. *)
Definition owner_step s s' : Prop := soft s s' \/ closed s'.

Lemma owner_step_owned s s' : owner_step s s' -> owned s -> owned s'.
Proof. intros [?|?] ?; [by eapply soft_owned|by intros _]. Qed.

Lemma handleRead_owner s s' : handleRead e s = Some s' -> owner_step s s'.
Proof.
  intros E. unfold handleRead in E. cbv zeta in E. destruct (sys_read e (tr s)) as [avail| |err].
  - left. apply bind_Some in E as ([bytes rb] & _ & E). apply invoke_soft in E; [|intros; apply (user_read _ Huser)].
    eapply soft_trans; [|done]. auto with soft.
  - right. by eapply handleClose_closed.
  - left. unfold handleError in E. soft_parts.
Qed.

Lemma owner_trans s1 s2 s3 : owner_step s1 s2 -> owner_step s2 s3 -> (closed s2 -> closed s3) -> owner_step s1 s3.
Proof. intros [?|?] [?|?] ?; [left; by eapply soft_trans|right; auto..]. Qed.

Lemma handleEvents_owner revents s s' :
  Dispatch.handleEvents revents (callbacks e) s = Some s' -> owner_step s s'.
Proof.
  unfold Dispatch.handleEvents, callbacks, handleError.
  cbn [Dispatch.call Dispatch.closeCallback_ Dispatch.errorCallback_ Dispatch.readCallback_ Dispatch.writeCallback_].
  intros E. apply bind_Some in E as (s1 & E1 & E). apply bind_Some in E as (s2 & E2 & E).
  apply bind_Some in E as (s3 & E3 & E).
  assert (s2 = s1) as -> by (destruct (has revents (Z.lor POLLERR POLLNVAL)); congruence).
  assert (owner_step s s1) as H1.
  { destruct (_ && _); [right; by eapply handleClose_closed|left; by injection E1 as <-]. }
  assert (owner_step s1 s3 /\ (closed s1 -> closed s3)) as [H2 H2'].
  { destruct (has revents (Z.lor _ POLLRDHUP)); [|injection E3 as <-; by split; [left|]].
    split; [by apply handleRead_owner|]. by eapply (handleRead_pres e closed (HJ := closed_preserved e)). }
  assert (soft s3 s') as H3 by (destruct (has revents POLLOUT); [by apply handleWrite_soft|by injection E as <-]).
  eapply owner_trans; [by eapply owner_trans|by left|apply H3].
Qed.

(** Being told to go away changes nothing on a closed connection. *)
Lemma destroyed_closed s : inv s -> closed s -> destroyedInLoop e s = Some s.
Proof.
  intros Hinv Hc. unfold destroyedInLoop. rewrite decide_False; [done|].
  rewrite (proj2 (life_closes s Hinv) Hc). done.
Qed.

Lemma do_functor_owner f s s' :
  inv s -> (f = FDestroyed -> closed s) -> do_functor e f s = Some s' -> owner_step s s'.
Proof.
  intros Hinv Hf E. destruct f as [buf| | | |]; cbn [do_functor] in E.
  - left. by eapply sendInLoop_buffer_soft.
  - left. injection E as <-. auto with soft.
  - unfold forceCloseInLoop in E. case_decide; [right; by eapply handleClose_closed|left; by injection E as <-].
  - left. by apply establishedInLoop_soft.
  - left. rewrite destroyed_closed in E by auto. by injection E as <-.
Qed.

Lemma do_remote_soft r s s' : r <> RDestroyed -> do_remote r s = Some s' -> soft s s'.
Proof. intros Hr E. destruct r; cbn [do_remote] in E; try done; soft_parts. Qed.

(** What the owner may count on: every step is defined, the connection stays
    well-formed, and it is disconnected only after its close callback. *)
Lemma connection_step_owned i s :
  inv s -> owned s -> input_ok i -> (by_user i \/ i = IEstablished \/ i = IRemote REstablished \/
    (i = IRemote RDestroyed /\ closed s)) ->
  exists s', step e i s = Some s' /\ inv s' /\ owned s' /\ (closed s -> closed s').
Proof.
  intros Hinv Ho Hok Hi. destruct (connection_step_inv e conn_env_ok i s Hinv Hok) as (s' & E & Hinv').
  assert (closed s -> closed s') as Hmono by by eapply (step_pres e closed (HJ := closed_preserved e)).
  exists s'. split; [done|]. split; [done|]. split; [|done].
  destruct i as [revents| |a| |r]; cbn [step] in E.
  - apply (owner_step_owned s); [|done].
    destruct (Watcher.started_ _); [by eapply handleEvents_owner|left; by injection E as <-].
  - apply (owner_step_owned s); [|done].
    destruct (functors s) as [|f rest] eqn:Ef; [left; by injection E as <-|].
    pose proof (soft_pop f rest s Ef) as Hpop. apply do_functor_owner in E.
    + destruct E as [?|?]; [left; by eapply soft_trans|by right].
    + pose proof Hinv as (Hc & Hst & Hl). pose proof (core_functors _ Hc) as Hf. rewrite Ef in Hf.
      apply Forall_cons_1 in Hf as [_ Hrest]. split; [|done]. destruct Hc. by constructor.
    + intros ->. apply Ho. left. rewrite Ef. by left.
  - apply (soft_owned s); [|done]. apply (do_action_soft a); [|done]. by destruct Hi as [?|[?|[?|[? _]]]].
  - apply (soft_owned s); [|done]. by apply establishedInLoop_soft.
  - assert (r = RDestroyed \/ r <> RDestroyed) as [->|Hr] by (destruct r; auto); [intros _; apply Hmono; by destruct Hi as [[_ ?]|[?|[?|[_ ?]]]]|].
    apply (soft_owned s); [|done]. by apply (do_remote_soft r).
Qed.
End Environment.
End Connection.
End OwnedConnection.

(** ** The server and its connections *)

Module System.
Import OwnedConnection.

Section System.
(** The kernel's side of the acceptor, the loops of the pool, and for each
    connection its user and the kernel. [p0] is the part of a loop's poller
    that concerns a new descriptor: no interest yet. *)
Context {P L : Type} `{!Poller P} `{!EqDecision L} (ae : Acceptor.env) (new_loop : nat -> L).
Context (base : L) (numThreads : Z) (user : nat -> TcpConnection.env) (self : nat -> Z) (p0 : P).

(** The server, and the connections it has created, by number; the set
    [connections_] of the server tells which of them it still owns. *)
Record t := mk {
  server : TcpServer.t (P := P) (L := L);
  connections : list (TcpConnection.t (P := P))
}.

Definition make (listenfd listen_self : Z) (p : P) : t :=
  mk (TcpServer.make ae listen_self listenfd p base numThreads) [].

(** Whether a connection runs on the server's own loop. *)
Definition on_base (id : nat) (s : t) : bool :=
  match TcpServer.conns (server s) !! id with Some (_, loop) => bool_decide (loop = base) | None => true end.

(** A step of connection [id], with the calls of its close callback. On the
    server's loop [removeConnectionInLoop] calls [destroyed()] at once, which
    [conn_env] does. *)
Definition conn_step (id : nat) (i : TcpConnection.input) (s : t) : option t :=
  let b := on_base id s in
  c ← connections s !! id;
  c' ← TcpConnection.step (conn_env (user id) b) i c;
  srv ← TcpServer.run ae new_loop
          (replicate (closes (TcpConnection.tr c') - closes (TcpConnection.tr c)) (TcpServer.IClose b id)) (server s);
  Some (mk srv (<[id := c']> (connections s))).

(** What the server does to a connection: [handleConnection] creates it and
    calls [established()], which runs at once on the server's loop and is
    queued on another; [removeConnectionInLoop] calls [destroyed()]. *)
Definition do_call (c : TcpServer.call) (s : t) : option t :=
  match c with
  | TcpServer.Established id =>
      '(fd, loop) ← TcpServer.conns (server s) !! id;
      conn_step id
        (if decide (loop = base) then TcpConnection.IEstablished
         else TcpConnection.IRemote TcpConnection.REstablished)
        (mk (server s) (connections s ++ [TcpConnection.make (self id) fd p0]))
  | TcpServer.Destroyed id => conn_step id (TcpConnection.IRemote TcpConnection.RDestroyed) s
  end.

Fixpoint do_calls (cs : list TcpServer.call) (s : t) : option t :=
  match cs with
  | [] => Some s
  | c :: rest => s1 ← do_call c s; do_calls rest s1
  end.

(** A step of the server, with the calls it makes. *)
Definition server_step (i : TcpServer.input) (s : t) : option t :=
  srv ← TcpServer.step ae new_loop i (server s);
  do_calls (drop (length (TcpServer.calls (server s))) (TcpServer.calls srv)) (mk srv (connections s)).

Inductive input :=
  | Server (i : TcpServer.input)
  | Connection (id : nat) (i : TcpConnection.input).

Definition step (i : input) (s : t) : option t :=
  match i with
  | Server i => server_step i s
  | Connection id i => if decide (id < length (connections s))%nat then conn_step id i s else Some s
  end.

Fixpoint run (ins : list input) (s : t) : option t :=
  match ins with
  | [] => Some s
  | i :: rest => s1 ← step i s; run rest s1
  end.

(** What happens from outside: the server is not destroyed, close callbacks
    come from the connections and [established()] and [destroyed()] from the
    server. *)
Definition external (i : input) : Prop :=
  match i with
  | Server TcpServer.IDestroy | Server (TcpServer.IClose _ _) => False
  | Server _ => True
  | Connection _ i => TcpConnection.input_ok i /\ by_user i
  end.

(** ** Invariant *)

Abbreviation destroyed := TcpServer.destroyed.
Abbreviation removals := TcpServer.removals.
Abbreviation server_inv := (TcpServer.inv new_loop base numThreads).

Record inv (s : t) : Prop := {
  sys_server : server_inv (server s);
  sys_length : length (connections s) = length (TcpServer.conns (server s));
  sys_conns : Forall (fun c => TcpConnection.inv c /\ owned c) (connections s);
  sys_closed id c : connections s !! id = Some c -> (id ∈ TcpServer.closed (server s) <-> closed c);
  sys_once : NoDup (TcpServer.closed (server s))
}.

#[local] Arguments TcpServer.destroyed : simpl never.
#[local] Arguments TcpServer.removals : simpl never.

(** *** The server alone *)

(** What a step of the server other than a close may do. *)
Inductive progress (s s' : TcpServer.t (P := P) (L := L)) : Prop :=
  | Quiet : TcpServer.conns s' = TcpServer.conns s -> TcpServer.calls s' = TcpServer.calls s ->
      removals (TcpServer.functors s') = removals (TcpServer.functors s) -> progress s s'
  | Accepted fd loop : TcpServer.conns s' = TcpServer.conns s ++ [(fd, loop)] ->
      TcpServer.calls s' = TcpServer.calls s ++ [TcpServer.Established (length (TcpServer.conns s))] ->
      removals (TcpServer.functors s') = removals (TcpServer.functors s) -> progress s s'
  | Removed id : TcpServer.conns s' = TcpServer.conns s ->
      TcpServer.calls s' = TcpServer.calls s ++ [TcpServer.Destroyed id] ->
      removals (TcpServer.functors s) = id :: removals (TcpServer.functors s') -> progress s s'.

Lemma acceptor_listen_quiet (s s' : TcpServer.t (P := P) (L := L)) :
  TcpServer.acceptor_listen s = Some s' ->
  TcpServer.conns s' = TcpServer.conns s /\ TcpServer.calls s' = TcpServer.calls s /\
  TcpServer.functors s' = TcpServer.functors s /\ TcpServer.closed s' = TcpServer.closed s.
Proof. unfold TcpServer.acceptor_listen. intros E. apply bind_Some in E as (a & _ & E). by injection E as <-. Qed.

Lemma server_handleRead_progress (s s' : TcpServer.t (P := P) (L := L)) :
  TcpServer.handleRead ae s = Some s' -> progress s s' /\ TcpServer.closed s' = TcpServer.closed s.
Proof.
  unfold TcpServer.handleRead. destruct (Acceptor.handleRead ae _) as [[fd|] a]; cbv zeta.
  - unfold TcpServer.handleConnection. intros E. apply bind_Some in E as ([loop pool] & _ & E).
    injection E as <-. split; [|done]. by apply (Accepted _ _ fd loop).
  - intros [= <-]. split; [|done]. by apply Quiet.
Qed.

Lemma server_step_progress i (s s' : TcpServer.t (P := P) (L := L)) :
  external (Server i) -> TcpServer.step ae new_loop i s = Some s' ->
  progress s s' /\ TcpServer.closed s' = TcpServer.closed s.
Proof.
  intros Hi E. assert (progress s s) as Hrefl by by apply Quiet.
  destruct i as [b|r| |b id|]; cbn [TcpServer.step] in E; try done.
  - destruct (TcpServer.alive s); [|done]. unfold TcpServer.listen in E.
    destruct (TcpServer.started_ s); [by injection E as <-|]. cbv zeta in E. destruct b.
    + apply acceptor_listen_quiet in E as (Hc & Hca & Hf & Hcl). split; [|done]. apply Quiet; [done..|by rewrite Hf].
    + injection E as <-. split; [|done]. apply Quiet; [done..|]. cbn. by rewrite TcpServer.server_removals_snoc, app_nil_r.
  - destruct (Watcher.started_ _); [|by injection E as <-].
    unfold Dispatch.handleEvents, TcpServer.callbacks in E.
    cbn [Dispatch.call Dispatch.closeCallback_ Dispatch.errorCallback_ Dispatch.readCallback_ Dispatch.writeCallback_] in E.
    apply bind_Some in E as (s1 & E1 & E). apply bind_Some in E as (s2 & E2 & E). apply bind_Some in E as (s3 & E3 & E).
    assert (s1 = s) as -> by (destruct (_ && _); congruence).
    assert (s2 = s) as -> by (destruct (has r (Z.lor POLLERR POLLNVAL)); congruence).
    assert (s' = s3) as -> by (destruct (has r POLLOUT); congruence).
    destruct (has r (Z.lor _ POLLRDHUP)); [by apply server_handleRead_progress|by injection E3 as <-].
  - destruct (TcpServer.functors s) as [|[|id] fs] eqn:Ef; [by injection E as <-|destruct (TcpServer.alive s); [|done]..].
    + apply acceptor_listen_quiet in E as (Hc & Hca & Hf & Hcl). split; [|done]. apply Quiet; [done..|].
      rewrite Hf, Ef. done.
    + injection E as <-. split; [|done]. apply (Removed _ _ id); [done..|]. by rewrite Ef.
Qed.

(** *** One connection *)

(** The close callback of connection [id]. *)
Lemma server_close b id srv :
  server_inv srv -> (id < length (TcpServer.conns srv))%nat -> id ∉ TcpServer.closed srv ->
  NoDup (TcpServer.closed srv) ->
  let srv' := TcpServer.removeConnection b id srv in
  TcpServer.run ae new_loop [TcpServer.IClose b id] srv = Some srv' /\ server_inv srv' /\
  TcpServer.conns srv' = TcpServer.conns srv /\ TcpServer.closed srv' = TcpServer.closed srv ++ [id] /\
  NoDup (TcpServer.closed srv').
Proof.
  intros Hs Hid Hni Hnd srv'. cbn [TcpServer.run TcpServer.step].
  rewrite decide_True, (TcpServer.inv_alive _ _ _ _ Hs) by done. split; [done|].
  split; [by apply TcpServer.removeConnection_inv|].
  assert (TcpServer.closed srv' = TcpServer.closed srv ++ [id]) as E by by destruct b.
  rewrite E. split; [by destruct b|]. split; [done|].
  apply list.NoDup_app. split; [done|]. split; [|by apply NoDup_singleton]. by intros x ? ->%list_elem_of_singleton.
Qed.

(** What may happen to a connection in state [c]. *)
Definition input_for (c : TcpConnection.t (P := P)) (i : TcpConnection.input) : Prop :=
  TcpConnection.input_ok i /\
  (by_user i \/ i = TcpConnection.IEstablished \/ i = TcpConnection.IRemote TcpConnection.REstablished \/
   (i = TcpConnection.IRemote TcpConnection.RDestroyed /\ closed c)).

Context (Huser : forall id, user_ok (user id)).

Lemma conn_step_inv id i s c :
  inv s -> connections s !! id = Some c -> input_for c i -> exists s', conn_step id i s = Some s' /\ inv s'.
Proof.
  intros Hs Hc [Hok Hi]. pose proof Hs as [Hsrv Hlen Hconns Hcl Hnd]. unfold conn_step. rewrite Hc.
  cbn [mbind option_bind]. set (b := on_base id s).
  destruct (proj1 (Forall_lookup _ _) Hconns _ _ Hc) as [Hinv Hown].
  destruct (connection_step_owned (user id) (Huser id) b i c Hinv Hown Hok Hi) as (c' & -> & Hinv' & Hown' & Hmono).
  cbn [mbind option_bind]. pose proof (proj1 (life_closes c' Hinv')) as Hle.
  assert (id < length (connections s))%nat as Hid by by eapply lookup_lt_Some.
  assert (Forall (fun c => TcpConnection.inv c /\ owned c) (<[id:=c']> (connections s))) as Hconns'
    by by apply Forall_insert.
  destruct (decide (closes (TcpConnection.tr c) < closes (TcpConnection.tr c'))%nat) as [Hlt|Hge].
  - replace (closes _ - closes _)%nat with 1%nat by lia. cbn [replicate].
    assert (id ∉ TcpServer.closed (server s)) as Hni.
    { rewrite (Hcl id c Hc), closes_closed. lia. }
    destruct (server_close b id (server s)) as (-> & Hs' & Hconn & Hclosed & Hnd'); [done|by rewrite <- Hlen|done..|].
    eexists. split; [done|]. constructor; cbn [server connections]; try done.
    + by rewrite length_insert, Hconn.
    + intros j cj Hj. rewrite Hclosed, elem_of_app, list_elem_of_singleton.
      apply list_lookup_insert_Some in Hj as [(<- & <- & _)|[Hne Hj]].
      * split; [|by right]. intros _. apply closes_closed. lia.
      * rewrite (Hcl j cj Hj). split; [by intros [?|?]|by left].
  - replace (closes _ - closes _)%nat with 0%nat by lia. cbn [replicate TcpServer.run mbind option_bind].
    eexists. split; [done|]. constructor; cbn [server connections]; try done.
    + by rewrite length_insert.
    + intros j cj Hj. apply list_lookup_insert_Some in Hj as [(<- & <- & _)|[Hne Hj]]; [|by apply Hcl].
      rewrite (Hcl id c Hc). split; [done|]. rewrite !closes_closed. lia.
Qed.

(** *** The system *)

Context (Hnum : numThreads < 2147483648).
Context (Hp0 : poller_ok p0) (Hfresh : forall fd, interest p0 !! fd = None).

Lemma system_make_inv listenfd listen_self p :
  poller_ok p -> interest p !! listenfd = None -> inv (make listenfd listen_self p).
Proof.
  intros. constructor; try done; [by apply TcpServer.server_make_inv|by apply list.NoDup_nil].
Qed.

Lemma make_owned id fd : TcpConnection.inv (TcpConnection.make (self id) fd p0) /\
  owned (TcpConnection.make (self id) fd p0) /\ ~ closed (TcpConnection.make (self id) fd p0).
Proof.
  split; [by apply TcpConnection.connection_make_inv|]. split; [|by intros []%elem_of_nil].
  by intros [[]%elem_of_nil|?].
Qed.

Lemma system_server_step_inv i s : inv s -> external (Server i) -> exists s', server_step i s = Some s' /\ inv s'.
Proof.
  intros Hs Hi. pose proof Hs as [Hsrv Hlen Hconns Hcl Hnd]. unfold server_step.
  pose proof (TcpServer.inv_closed _ _ _ _ Hsrv) as Hp.
  destruct (TcpServer.server_step_inv ae new_loop base numThreads Hnum i (server s)) as (srv & E & Hsrv');
    [by intros ->|done|].
  destruct (server_step_progress i _ _ Hi E) as [Hpr Hclosed]. rewrite E. cbn [mbind option_bind].
  destruct Hpr as [Hco Hca Hf|fd loop Hco Hca Hf|id Hco Hca Hf]; rewrite Hca, ?drop_app_length, ?drop_all; cbn [do_calls].
  - eexists. split; [done|]. constructor; cbn [server connections]; rewrite ?Hclosed, ?Hco; done.
  - cbn [do_call server connections]. rewrite Hco, list_lookup_middle by done. cbn [mbind option_bind].
    set (n := length (TcpServer.conns (server s))) in *.
    destruct (make_owned n fd) as (Hinv & Hown & Hncl). set (c := TcpConnection.make _ fd p0) in *.
    destruct (conn_step_inv n
      (if decide (loop = base) then TcpConnection.IEstablished else TcpConnection.IRemote TcpConnection.REstablished)
      (mk srv (connections s ++ [c])) c) as (s' & -> & Hs'); [| | |by exists s'].
    + constructor; cbn [server connections]; rewrite ?Hclosed; try done.
      * by rewrite !length_app, Hco, length_app, Hlen.
      * by apply Forall_snoc.
      * intros j cj [Hj|[Hj [Hj0 <-]%list_lookup_singleton_Some]]%lookup_app_Some; [by apply Hcl|].
        split; [|done]. intros Hin. pose proof (TcpServer.inv_closed_range _ _ _ _ Hsrv) as Hr.
        rewrite list.Forall_forall in Hr. specialize (Hr _ Hin). lia.
    + cbn [connections]. by apply list_lookup_middle.
    + case_decide; (split; [done|auto]).
  - cbn [do_call].
    assert (id ∈ TcpServer.closed (server s)) as Hin.
    { rewrite Hp, Hf, elem_of_app, elem_of_cons. by right; left. }
    assert (id < length (connections s))%nat as Hid.
    { pose proof (TcpServer.inv_closed_range _ _ _ _ Hsrv) as Hr. rewrite Hlen. rewrite list.Forall_forall in Hr. auto. }
    destruct (lookup_lt_is_Some_2 _ _ Hid) as [c Hc].
    destruct (conn_step_inv id (TcpConnection.IRemote TcpConnection.RDestroyed) (mk srv (connections s)) c)
      as (s' & -> & Hs'); [|done| |by exists s'].
    + constructor; cbn [server connections]; rewrite ?Hclosed, ?Hco; done.
    + split; [done|]. right; right; right. split; [done|]. by apply (Hcl id).
Qed.

Lemma system_step_inv i s : inv s -> external i -> exists s', step i s = Some s' /\ inv s'.
Proof.
  intros Hs Hi. destruct i as [i|id i]; cbn [step]; [by apply system_server_step_inv|].
  case_decide as Hid; [|by exists s]. destruct (lookup_lt_is_Some_2 _ _ Hid) as [c Hc].
  apply (conn_step_inv id i s c Hs Hc). destruct Hi. split; [done|by left].
Qed.

Lemma system_run_inv ins s : inv s -> Forall external ins -> exists s', run ins s = Some s' /\ inv s'.
Proof.
  intros Hs Hins. revert s Hs. induction Hins as [|i ins Hi _ IH]; intros s Hs; cbn [run]; [by exists s|].
  destruct (system_step_inv i s Hs Hi) as (s1 & -> & Hs1). by apply IH.
Qed.

(** C5: a server and its connections together, on whatever loops the
    connections run: in every interleaving of what the poller reports, of the
    functors of the server and of each connection, and of what the users of
    the connections do - but for reports that [revents_ok] excludes, which close
    a connection twice - no step is undefined; a connection is disconnected
    exactly when its close callback has reached the server, which happens at
    most once, and it is taken out of [connections_] and told [destroyed()] at
    most once, and only after that. When the server has run its functors it
    owns exactly the connections that are not disconnected: none is leaked,
    and none is dropped while it is open. *)
Theorem system_releases_closed (listenfd listen_self : Z) (p : P) (ins : list input)
  (Hp : poller_ok p) (Hfd : interest p !! listenfd = None) (Hins : Forall external ins) :
  exists s, run ins (make listenfd listen_self p) = Some s /\
    NoDup (TcpServer.closed (server s)) /\ NoDup (destroyed (TcpServer.calls (server s))) /\
    (forall id, id ∈ destroyed (TcpServer.calls (server s)) -> id ∈ TcpServer.closed (server s)) /\
    (forall id c, connections s !! id = Some c ->
       (TcpConnection.state_ c = TcpConnection.kDisconnected <-> id ∈ TcpServer.closed (server s))) /\
    (TcpServer.functors (server s) = [] -> forall id,
       id ∈ TcpServer.connections_ (server s) <->
       exists c, connections s !! id = Some c /\ TcpConnection.state_ c <> TcpConnection.kDisconnected).
Proof.
  destruct (system_run_inv ins _ (system_make_inv listenfd listen_self p Hp Hfd) Hins)
    as (s & E & [Hsrv Hlen Hconns Hcl Hnd]).
  pose proof (TcpServer.inv_closed _ _ _ _ Hsrv) as Hpe.
  assert (forall id c, connections s !! id = Some c ->
    (TcpConnection.state_ c = TcpConnection.kDisconnected <-> id ∈ TcpServer.closed (server s))) as Hst.
  { intros id c Hc. destruct (proj1 (Forall_lookup _ _) Hconns _ _ Hc) as [Hinv Hown]. rewrite (Hcl id c Hc).
    split; [intros; apply Hown; by right|by apply life_closes]. }
  exists s. split; [done|]. split; [done|]. split; [|split; [|split; [done|]]].
  - rewrite Hpe in Hnd. by apply list.NoDup_app in Hnd as [? _].
  - intros id Hid. rewrite Hpe, elem_of_app. by left.
  - intros Hf id. rewrite (TcpServer.inv_owned _ _ _ _ Hsrv id), <- Hlen.
    pose proof (TcpServer.closed_iff _ _ _ _ id Hsrv) as Hd. rewrite Hf in Hd.
    split.
    + intros [Hid Hn]. destruct (lookup_lt_is_Some_2 _ _ Hid) as [c Hc]. exists c. split; [done|].
      rewrite (Hst id c Hc), Hd. intros [?|[]%elem_of_nil]; done.
    + intros (c & Hc & Hne). split; [by eapply lookup_lt_Some|]. intros ?. apply Hne, (Hst id c Hc), Hd. by left.
Qed.
End System.

(** ** Witnesses *)

#[local] Instance sample_poller : Poller PollPoller.t :=
  PollPoller.poll_poller (fun i => i) (fun i => eq_refl).

Lemma sample_user_ok : user_ok TcpConnection.sample_env.
Proof. constructor; [apply TcpConnection.sample_env_ok|by intros; cbn; repeat constructor..]. Qed.

(** Loop 0 is the server's own, connections alternate between it and loop 1. *)
Definition sample_system : t (P := PollPoller.t) (L := nat) :=
  make TcpServer.sample_env 0%nat 2 5 100 PollPoller.make.

Definition read_twice (id : nat) : list input :=
  [Connection id (TcpConnection.IEvents POLLIN); Connection id (TcpConnection.IEvents POLLIN)].

Definition sample_inputs : list input :=
  [Server (TcpServer.IListen true); Server (TcpServer.IEvents POLLIN); Server (TcpServer.IEvents POLLIN);
   Server (TcpServer.IEvents POLLIN); Server (TcpServer.IEvents POLLIN); Connection 1 TcpConnection.IFunctor] ++
  read_twice 0 ++ read_twice 1 ++
  [Server TcpServer.IFunctor; Connection 0 TcpConnection.IFunctor; Connection 1 TcpConnection.IFunctor].

Definition sample_run : list input -> t (P := PollPoller.t) (L := nat) -> option (t (P := PollPoller.t) (L := nat)) :=
  run TcpServer.sample_env (fun i => i) 0%nat (fun _ => TcpConnection.sample_env) (fun id => Z.of_nat id) PollPoller.make.

Lemma sample_inputs_external : Forall external sample_inputs.
Proof. repeat (apply Forall_cons_2; [split || exact I; try exact I; vm_compute; discriminate|]). apply Forall_nil. Qed.

Definition view (s : t (P := PollPoller.t) (L := nat)) :=
  (TcpServer.closed (server s), TcpServer.calls (server s), elements (TcpServer.connections_ (server s)),
   TcpServer.functors (server s), TcpConnection.state_ <$> connections s).

Lemma system_releases_closed_witness :
  option_map view (sample_run sample_inputs sample_system) =
    Some ([0; 1]%nat,
          [TcpServer.Established 0; TcpServer.Established 1; TcpServer.Established 2; TcpServer.Destroyed 0;
           TcpServer.Destroyed 1], [2%nat], [],
          [TcpConnection.kDisconnected; TcpConnection.kDisconnected; TcpConnection.kConnected]) /\
  exists s, sample_run sample_inputs sample_system = Some s /\
    (TcpServer.functors (server s) = [] -> forall id,
       id ∈ TcpServer.connections_ (server s) <->
       exists c, connections s !! id = Some c /\ TcpConnection.state_ c <> TcpConnection.kDisconnected).
Proof.
  split; [vm_compute; reflexivity|].
  destruct (system_releases_closed TcpServer.sample_env (fun i => i) 0%nat 2 (fun _ => TcpConnection.sample_env)
    (fun id => Z.of_nat id) PollPoller.make (fun _ => sample_user_ok) ltac:(done) PollPoller.poll_wf_make
    (fun _ => eq_refl) 5 100 PollPoller.make sample_inputs PollPoller.poll_wf_make eq_refl sample_inputs_external)
    as (s & E & _ & _ & _ & _ & Hown).
  exists s. split; [exact E|exact Hown].
Defined.
End System.
