(* ===== verification/NetClient.v ===== *)
(** [nutty/net/TcpClient.*]: the client that drives a [Connector] and keeps
    the one connection it yields. What the client does to its connector and its
    connections is recorded. First calls are taken one after the other, then
    those of several threads are interleaved. *)

From S2P Require Import Prelude.

Module TcpClient.

(** Calls of the connector, and of the connections, which are numbered in the
    order of their creation. *)
Inductive call :=
  | Start | Stop | Restart
  | Established (id : nat) | Destroyed (id : nat) | Shutdown (id : nat).

Record t := mk {
  started_ : bool;
  retry_ : bool;
  connection_ : option nat;
  created : nat;
  calls : list call
}.

(** [TcpClient::TcpClient] *)
Definition make : t := mk false false None 0 [].

Definition emit (c : call) (s : t) : t :=
  mk (started_ s) (retry_ s) (connection_ s) (created s) (calls s ++ [c]).

(** [started_.compare_exchange_strong(expected, desired)] *)
Definition compare_exchange (expected desired : bool) (s : t) : bool * t :=
  if Bool.eqb (started_ s) expected
  then (true, mk desired (retry_ s) (connection_ s) (created s) (calls s))
  else (false, s).

Definition enableRetry (s : t) : t := mk (started_ s) true (connection_ s) (created s) (calls s).

Definition connect (s : t) : t :=
  let '(b, s1) := compare_exchange false true s in
  if b then emit Start s1 else s1.

Definition disconnect (s : t) : t :=
  let '(b, s1) := compare_exchange true false s in
  let s2 := if b then emit Stop s1 else s1 in
  match connection_ s2 with Some id => emit (Shutdown id) s2 | None => s2 end.

(** [handleConnection(socket, localAddr)], called by the connector. *)
Definition handleConnection (s : t) : t :=
  let id := created s in
  emit (Established id) (mk (started_ s) (retry_ s) (Some id) (S id) (calls s)).

(** [removeConnection(connection)], the close callback of a connection. *)
Definition removeConnection (id : nat) (s : t) : t :=
  let s1 := emit (Destroyed id) (mk (started_ s) (retry_ s) None (created s) (calls s)) in
  if retry_ s1 && started_ s1 then emit Restart s1 else s1.

(** The destructor. *)
Definition destroy (s : t) : t :=
  let s1 := match connection_ s with Some id => emit (Destroyed id) s | None => s end in
  if started_ s1 then emit Stop s1 else s1.

Inductive op := Connect | Disconnect | EnableRetry | HandleConnection | RemoveConnection (id : nat).

Definition exec (o : op) (s : t) : t :=
  match o with
  | Connect => connect s
  | Disconnect => disconnect s
  | EnableRetry => enableRetry s
  | HandleConnection => handleConnection s
  | RemoveConnection id => removeConnection id s
  end.

Definition run (os : list op) (s : t) : t := fold_left (fun s o => exec o s) os s.

(** ** Invariant *)

(** The state of the connector's switch after its calls: whether the last
    [start()] or [stop()] was a [start()]. *)
Definition switched_on (cs : list call) : bool :=
  fold_left (fun b c => match c with Start => true | Stop => false | _ => b end) cs false.

(** [restart()] is only called while the connector is switched on. *)
Definition restarts_ok (cs : list call) : Prop :=
  forall cs1 cs2, cs = cs1 ++ Restart :: cs2 -> switched_on cs1 = true.

Definition established (cs : list call) : list nat :=
  omap (fun c => match c with Established id => Some id | _ => None end) cs.

Definition destroyed (cs : list call) : list nat :=
  omap (fun c => match c with Destroyed id => Some id | _ => None end) cs.

(** The calls one by one: a connection is closed once, by its own close
    callback, and the connector hands over a new one only after that. *)
Fixpoint one_at_a_time (os : list op) (s : t) : Prop :=
  match os with
  | [] => True
  | o :: rest =>
      match o with
      | HandleConnection => connection_ s = None
      | RemoveConnection id => connection_ s = Some id
      | _ => True
      end /\ one_at_a_time rest (exec o s)
  end.

Record inv (s : t) : Prop := {
  inv_switch : switched_on (calls s) = started_ s;
  inv_restarts : restarts_ok (calls s);
  inv_established : established (calls s) = seq 0 (created s);
  inv_destroyed : destroyed (calls s) = seq 0 (match connection_ s with Some id => id | None => created s end);
  inv_current : match connection_ s with Some id => created s = S id | None => True end
}.

Lemma switched_on_snoc cs c :
  switched_on (cs ++ [c]) = match c with Start => true | Stop => false | _ => switched_on cs end.
Proof. unfold switched_on. by rewrite fold_left_app. Qed.

Lemma client_established_snoc cs c :
  established (cs ++ [c]) = established cs ++ match c with Established id => [id] | _ => [] end.
Proof. unfold established. rewrite omap_app. by destruct c. Qed.

Lemma destroyed_snoc cs c :
  destroyed (cs ++ [c]) = destroyed cs ++ match c with Destroyed id => [id] | _ => [] end.
Proof. unfold destroyed. rewrite omap_app. by destruct c. Qed.

Lemma restarts_ok_snoc cs c :
  restarts_ok cs -> (c = Restart -> switched_on cs = true) -> restarts_ok (cs ++ [c]).
Proof.
  intros Hok Hc cs1 cs2 E. destruct (exists_last_dec cs2) as [->|(cs2' & x & ->)].
  - apply app_inj_tail in E as [<- ->]. by apply Hc.
  - rewrite app_comm_cons, app_assoc in E. apply app_inj_tail in E as [E _]. by eapply Hok.
Qed.

#[local] Arguments switched_on : simpl never.
#[local] Arguments established : simpl never.
#[local] Arguments destroyed : simpl never.
#[local] Arguments seq : simpl never.

(** A call of the connector, or a [shutdown()], leaves the connections alone. *)
Lemma emit_inv started retry conn n cs c :
  inv (mk started retry conn n cs) ->
  match c with Start | Stop | Shutdown _ => True | Restart => started = true | _ => False end ->
  inv (mk (match c with Start => true | Stop => false | _ => started end) retry conn n (cs ++ [c])).
Proof.
  intros [Hsw Hr He Hd Hc] H. cbn in *. constructor; cbn.
  - rewrite switched_on_snoc. by destruct c.
  - apply restarts_ok_snoc; [done|]. intros ->. by rewrite Hsw.
  - rewrite client_established_snoc. destruct c; try done; by rewrite app_nil_r.
  - rewrite destroyed_snoc. destruct c; try done; by rewrite app_nil_r.
  - done.
Qed.

Lemma client_make_inv : inv make.
Proof. constructor; try done. intros [|] cs2 E; discriminate E. Qed.

Lemma exec_inv o s :
  inv s ->
  match o with
  | HandleConnection => connection_ s = None
  | RemoveConnection id => connection_ s = Some id
  | _ => True
  end -> inv (exec o s).
Proof.
  intros Hs Ho. destruct s as [started retry conn n cs]. destruct o as [| | | |id]; cbn [exec].
  - unfold connect, compare_exchange. cbn. destruct started; cbn; [done|]. by apply (emit_inv false _ _ _ _ Start).
  - unfold disconnect, compare_exchange. cbn.
    assert (inv (if started then mk false retry conn n (cs ++ [Stop]) else mk false retry conn n cs)) as H1
      by (destruct started; [by apply (emit_inv true _ _ _ _ Stop)|done]).
    destruct started, conn as [id|]; cbn in *; try done; by apply (emit_inv false _ _ _ _ (Shutdown id)).
  - destruct Hs. by constructor.
  - cbn in Ho. subst conn. destruct Hs as [Hsw Hr He Hd Hc]. cbn in *. constructor; cbn.
    + by rewrite switched_on_snoc.
    + by apply restarts_ok_snoc.
    + by rewrite client_established_snoc, He, seq_S.
    + by rewrite destroyed_snoc, app_nil_r.
    + done.
  - cbn in Ho. subst conn. unfold removeConnection. cbn.
    assert (inv (mk started retry None n (cs ++ [Destroyed id]))) as H1.
    { destruct Hs as [Hsw Hr He Hd Hc]. cbn in *. subst n. constructor; cbn.
      - by rewrite switched_on_snoc.
      - by apply restarts_ok_snoc.
      - by rewrite client_established_snoc, app_nil_r.
      - by rewrite destroyed_snoc, Hd, seq_S.
      - done. }
    destruct (retry && started) eqn:E; [|done]. apply andb_prop in E as [-> ->].
    by apply (emit_inv true _ _ _ _ Restart).
Qed.

Lemma client_run_inv os s : inv s -> one_at_a_time os s -> inv (run os s).
Proof.
  revert s. induction os as [|o os IH]; intros s Hs Ho; [done|]. cbn in Ho. destruct Ho as [Ho1 Ho2].
  unfold run. cbn. apply IH; [|done]. by apply exec_inv.
Qed.

(** ** Properties *)

(** As long as the connector hands over a new connection only after the
    previous one was closed: connections are established once each, in order,
    and destroyed once each, in order, the current one being the only one that
    is not; the connector is switched on exactly while the client is started,
    and [restart()] is only called then, so a client that was disconnected does
    not reconnect. *)
Theorem client_keeps_one_connection (os : list op) (Hos : one_at_a_time os make) :
  let s := run os make in
  established (calls s) = seq 0 (created s) /\
  destroyed (calls s) = seq 0 (match connection_ s with Some id => id | None => created s end) /\
  (forall id, connection_ s = Some id -> created s = S id) /\
  switched_on (calls s) = started_ s /\ restarts_ok (calls s).
Proof.
  destruct (client_run_inv os make client_make_inv Hos) as [Hsw Hr He Hd Hc]. split; [done|]. split; [done|].
  split; [|done]. intros id E. by rewrite E in Hc.
Qed.

Lemma client_keeps_one_connection_witness :
  let os := [EnableRetry; Connect; HandleConnection; RemoveConnection 0; HandleConnection; Disconnect; RemoveConnection 1] in
  calls (run os make) =
    [Start; Established 0; Destroyed 0; Restart; Established 1; Stop; Shutdown 1; Destroyed 1] /\
  (let s := run os make in
   established (calls s) = seq 0 (created s) /\
   destroyed (calls s) = seq 0 (match connection_ s with Some id => id | None => created s end) /\
   (forall id, connection_ s = Some id -> created s = S id) /\
   switched_on (calls s) = started_ s /\ restarts_ok (calls s)).
Proof.
  split; [reflexivity|]. apply client_keeps_one_connection. repeat split.
Defined.

(** That condition is needed: after [disconnect()] and [connect()] the new
    connection can come before the old one has closed. The close of the old
    one then drops the client's only reference to the new one, without having
    told it to go away. *)
Theorem stale_close_drops_new_connection :
  let s := run [Connect; HandleConnection; Disconnect; Connect; HandleConnection; RemoveConnection 0] make in
  connection_ s = None /\ created s = 2%nat /\ destroyed (calls s) = [0%nat] /\ started_ s = true.
Proof. repeat split. Qed.
End TcpClient.

(** ** Callers on several threads

    The steps of [connect], [disconnect] and the loop's callbacks between which
    other threads may run, and the functors that [Connector::start] and [stop]
    queue when they are not called on the loop thread, which is thread 0. *)

Module ClientThreads.
Import TcpClient.

(** What a thread does next: the rest of the function it is in. *)
Inductive pc :=
  | Idle
  | AtStart | AtStop | AtShutdown
  | AtEstablished (id : nat) | AtDestroyed (id : nat) | AtRetry | AtRestart.

(** [connect_] is that of the connector; [queue] holds the functors
    [startInLoop] ([true]) and [stopInLoop] ([false]). *)
Record t := mk {
  client : TcpClient.t;
  pcs : gmap nat pc;
  queue : list bool;
  connect_ : bool
}.

Definition make : t := mk TcpClient.make ∅ [] false.

Definition pc_of (i : nat) (s : t) : pc := default Idle (pcs s !! i).
Definition go (i : nat) (c : pc) (cl : TcpClient.t) (s : t) : t := mk cl (<[i := c]> (pcs s)) (queue s) (connect_ s).

(** [connector_->start()] and [stop()]: [runInLoop]. *)
Definition switch (i : nat) (b : bool) (s : t) : t :=
  if decide (i = 0)%nat then mk (client s) (pcs s) (queue s) b
  else mk (client s) (pcs s) (queue s ++ [b]) (connect_ s).

(** The first step of a call, up to its first effect on another object. The
    callbacks come on the loop thread. *)
Definition enter (i : nat) (o : op) (s : t) : option t :=
  let c := client s in
  match o with
  | Connect => let '(b, c1) := compare_exchange false true c in Some (go i (if b then AtStart else Idle) c1 s)
  | Disconnect => let '(b, c1) := compare_exchange true false c in Some (go i (if b then AtStop else AtShutdown) c1 s)
  | EnableRetry => Some (go i Idle (enableRetry c) s)
  | HandleConnection =>
      if decide (i = 0)%nat then
        Some (go i (AtEstablished (created c))
          (TcpClient.mk (started_ c) (retry_ c) (Some (created c)) (S (created c)) (calls c)) s)
      else None
  | RemoveConnection id =>
      if decide (i = 0)%nat then
        Some (go i (AtDestroyed id) (TcpClient.mk (started_ c) (retry_ c) None (created c) (calls c)) s)
      else None
  end.

(** The next step of a thread. *)
Definition next (i : nat) (s : t) : option t :=
  let c := client s in
  match pc_of i s with
  | Idle => None
  | AtStart => Some (switch i true (go i Idle (emit Start c) s))
  | AtStop => Some (switch i false (go i AtShutdown (emit Stop c) s))
  | AtShutdown => Some (go i Idle (match connection_ c with Some id => emit (Shutdown id) c | None => c end) s)
  | AtEstablished id => Some (go i Idle (emit (Established id) c) s)
  | AtDestroyed id => Some (go i AtRetry (emit (Destroyed id) c) s)
  | AtRetry => Some (go i (if retry_ c && started_ c then AtRestart else Idle) c s)
  | AtRestart => Some (go i Idle (emit Restart c) s)
  end.

(** A thread enters a function or goes on in one; the loop runs the next
    functor. [None] is what cannot happen. *)
Inductive event := Enter (i : nat) (o : op) | Next (i : nat) | Loop.

Definition step (ev : event) (s : t) : option t :=
  match ev with
  | Enter i o => match pc_of i s with Idle => enter i o s | _ => None end
  | Next i => next i s
  | Loop =>
      match pc_of 0 s, queue s with
      | Idle, b :: rest => Some (mk (client s) (pcs s) rest b)
      | _, _ => None
      end
  end.

Fixpoint run (evs : list event) (s : t) : option t :=
  match evs with
  | [] => Some s
  | ev :: rest => s1 ← step ev s; run rest s1
  end.

Lemma caller_pc_of_go i j c cl s : pc_of j (go i c cl s) = if decide (j = i) then c else pc_of j s.
Proof.
  unfold pc_of. cbn. case_decide as E; [subst; by rewrite lookup_insert_eq|by rewrite lookup_insert_ne].
Qed.

Lemma pc_of_switch i j b s : pc_of j (switch i b s) = pc_of j s.
Proof. unfold switch. by case_decide. Qed.

(** *** A call that is not interrupted *)

(** Thread [i] runs alone to the end of the function it is in. *)
Definition finishes (i : nat) (s s' : t) : Prop := exists n, run (repeat (Next i) n) s = Some s'.

(** What is left to do at each point. *)
Definition rest_of (c : pc) (cl : TcpClient.t) : TcpClient.t :=
  let shut cl := match connection_ cl with Some id => emit (Shutdown id) cl | None => cl end in
  let again cl := if retry_ cl && started_ cl then emit Restart cl else cl in
  match c with
  | Idle => cl
  | AtStart => emit Start cl
  | AtStop => shut (emit Stop cl)
  | AtShutdown => shut cl
  | AtEstablished id => emit (Established id) cl
  | AtDestroyed id => again (emit (Destroyed id) cl)
  | AtRetry => again cl
  | AtRestart => emit Restart cl
  end.

(** Alone, a thread that is at [c] comes to an end with [rest_of c]. *)
Definition ends (i : nat) (s : t) (cl : TcpClient.t) : Prop :=
  exists s', finishes i s s' /\ pc_of i s' = Idle /\ client s' = cl /\ forall j, j <> i -> pc_of j s' = pc_of j s.

Lemma ends_idle i s : pc_of i s = Idle -> ends i s (client s).
Proof. intros. exists s. split; [by exists 0%nat|done]. Qed.

Lemma ends_next i s s1 cl :
  next i s = Some s1 -> (forall j, j <> i -> pc_of j s1 = pc_of j s) -> ends i s1 cl -> ends i s cl.
Proof.
  intros E Hj (s' & [n En] & Hp & Hc & Hj'). exists s'. split; [|split; [done|split; [done|]]].
  - exists (S n). cbn [repeat run step]. by rewrite E.
  - intros j Hne. by rewrite Hj', Hj.
Qed.

Lemma go_others i c cl s j : j <> i -> pc_of j (go i c cl s) = pc_of j s.
Proof. intros. by rewrite caller_pc_of_go, decide_False. Qed.

Lemma go_self i c cl s : pc_of i (go i c cl s) = c.
Proof. by rewrite caller_pc_of_go, decide_True. Qed.

Lemma client_switch i b s : client (switch i b s) = client s.
Proof. unfold switch. by case_decide. Qed.

Lemma rest_ends i s c : pc_of i s = c -> ends i s (rest_of c (client s)).
Proof.
  assert (forall s1 cl, pc_of i s1 = Idle -> client s1 = cl -> ends i s1 cl) as Hidle
    by (intros s1 cl ? <-; by apply ends_idle).
  assert (forall s1, pc_of i s1 = AtShutdown -> ends i s1 (rest_of AtShutdown (client s1))) as Hshut.
  { intros s1 E. eapply ends_next; [unfold next; rewrite E; reflexivity|intros; by apply go_others|].
    apply Hidle; [apply go_self|done]. }
  assert (forall s1, pc_of i s1 = AtRestart -> ends i s1 (rest_of AtRestart (client s1))) as Hrestart.
  { intros s1 E. eapply ends_next; [unfold next; rewrite E; reflexivity|intros; by apply go_others|].
    apply Hidle; [apply go_self|done]. }
  assert (forall s1, pc_of i s1 = AtRetry -> ends i s1 (rest_of AtRetry (client s1))) as Hretry.
  { intros s1 E. eapply ends_next; [unfold next; rewrite E; reflexivity|intros; by apply go_others|].
    cbn [rest_of]. destruct (retry_ (client s1) && started_ (client s1)); [apply (Hrestart (go _ _ _ _)); apply go_self|].
    apply Hidle; [apply go_self|done]. }
  intros E. destruct c; try (by auto);
    (eapply ends_next; [unfold next; rewrite E; reflexivity|intros; rewrite ?pc_of_switch; by apply go_others|]).
  - apply Hidle; rewrite ?pc_of_switch, ?client_switch; [apply go_self|done].
  - set (s1 := switch _ _ _). assert (client s1 = emit Stop (client s)) as E1 by apply client_switch.
    cbn [rest_of]. rewrite <- E1. apply Hshut. unfold s1. rewrite pc_of_switch. apply go_self.
  - apply Hidle; [apply go_self|done].
  - apply (Hretry (go _ _ _ _)). apply go_self.
Qed.

(** The detailed steps implement the calls of [TcpClient]: a function that runs
    to its end without other threads is one [exec]. *)
Theorem uninterrupted_calls_are_atomic (i : nat) (o : op) (s : t)
  (Hidle : pc_of i s = Idle)
  (Hloop : match o with HandleConnection | RemoveConnection _ => i = 0%nat | _ => True end) :
  exists n s', run (Enter i o :: repeat (Next i) n) s = Some s' /\ pc_of i s' = Idle /\
    client s' = exec o (client s) /\ forall j, j <> i -> pc_of j s' = pc_of j s.
Proof.
  assert (forall c cl, step (Enter i o) s = Some (go i c cl s) -> rest_of c cl = exec o (client s) ->
    exists n s', run (Enter i o :: repeat (Next i) n) s = Some s' /\ pc_of i s' = Idle /\
      client s' = exec o (client s) /\ forall j, j <> i -> pc_of j s' = pc_of j s) as H.
  { intros c cl E Hr. destruct (rest_ends i (go i c cl s) c (go_self _ _ _ _)) as (s' & [n En] & Hp & Hc & Hj).
    exists n, s'. cbn [run]. rewrite E. split; [done|]. split; [done|]. split; [by rewrite Hc, <- Hr|].
    intros j Hne. by rewrite Hj, go_others. }
  cbn [step] in H. rewrite Hidle in H. destruct o as [| | | |id]; cbn [enter] in H.
  - unfold compare_exchange in H. destruct (started_ (client s)) eqn:Es; cbn in H; eapply H; try done;
      cbn [exec]; unfold connect, compare_exchange; by rewrite Es.
  - unfold compare_exchange in H. destruct (started_ (client s)) eqn:Es; cbn in H; eapply H; try done;
      cbn [exec]; unfold disconnect, compare_exchange; by rewrite Es.
  - by eapply H.
  - rewrite decide_True in H by done. by eapply H.
  - rewrite decide_True in H by done. by eapply H.
Qed.

(** *** One caller *)

(** Only thread [i] calls [connect()] and [disconnect()]. *)
Definition only (i : nat) (ev : event) : Prop :=
  match ev with Enter j Connect | Enter j Disconnect => j = i | _ => True end.

(** The calls of [start] and [stop] that are still to be made. *)
Definition pending (c : pc) : list bool :=
  match c with AtStart => [true] | AtStop => [false] | _ => [] end.

Record single (i : nat) (s : t) : Prop := {
  single_others j : j <> i -> pending (pc_of j s) = [];
  single_queue : i = 0%nat -> queue s = [];
  single_switch : default (connect_ s) (last (queue s ++ pending (pc_of i s))) = started_ (client s)
}.

Lemma default_last_cons (b c : bool) l : default c (last (b :: l)) = default b (last l).
Proof. rewrite last_cons. by destruct (last l). Qed.

(** A step that makes no call of [start] or [stop] leaves the switch alone. *)
Lemma single_quiet i j c cl s :
  single i s -> (j = i -> pending (pc_of i s) = []) -> pending c = [] ->
  started_ cl = started_ (client s) -> single i (go j c cl s).
Proof.
  intros [Ho Hq Hs] Hj Hc Hst. constructor.
  - intros k Hk. rewrite caller_pc_of_go. case_decide; [done|by apply Ho].
  - done.
  - cbn [queue connect_ client go]. rewrite Hst, <- Hs, caller_pc_of_go. case_decide as E; [|done].
    by rewrite Hc, Hj.
Qed.

Lemma single_step i ev s s' : single i s -> only i ev -> step ev s = Some s' -> single i s'.
Proof.
  intros Hs Hev E. pose proof Hs as [Ho Hq Hsw]. destruct ev as [j o|j|]; cbn [step] in E.
  - destruct (pc_of j s) eqn:Ej; try done.
    assert (j = i -> pending (pc_of i s) = []) as Hpi by (intros <-; by rewrite Ej).
    destruct o as [| | | |id]; cbn [enter] in E.
    + cbn in Hev. subst j. unfold compare_exchange in E.
      destruct (started_ (client s)) eqn:Es; cbn in E; injection E as <-.
      * by apply single_quiet.
      * constructor; [intros k Hk; rewrite caller_pc_of_go, decide_False by done; by apply Ho|done|].
        rewrite go_self. cbn [queue connect_ client go pending started_]. by rewrite last_snoc.
    + cbn in Hev. subst j. unfold compare_exchange in E.
      destruct (started_ (client s)) eqn:Es; cbn in E; injection E as <-.
      * constructor; [intros k Hk; rewrite caller_pc_of_go, decide_False by done; by apply Ho|done|].
        rewrite go_self. cbn [queue connect_ client go pending started_]. by rewrite last_snoc.
      * by apply single_quiet.
    + injection E as <-. by apply single_quiet.
    + case_decide; [|done]. injection E as <-. by apply single_quiet.
    + case_decide; [|done]. injection E as <-. by apply single_quiet.
  - unfold next in E. destruct (decide (j = i)) as [->|Hne].
    + assert (forall (b : bool) (cl : TcpClient.t) (c : pc), pc_of i s = (if b then AtStart else AtStop) -> pending c = [] ->
        started_ cl = started_ (client s) -> single i (switch i b (go i c cl s))) as Hswitch.
      { intros b cl c Ei Hc Hcl. rewrite Ei in Hsw. constructor.
        - intros k Hk. rewrite pc_of_switch, caller_pc_of_go, decide_False by done. by apply Ho.
        - intros ->. unfold switch. rewrite decide_True by done. by apply Hq.
        - rewrite client_switch, pc_of_switch, go_self, Hc, app_nil_r. cbn [client go]. rewrite Hcl, <- Hsw.
          unfold switch. case_decide as E0; cbn [queue connect_ go].
          + rewrite (Hq E0). by destruct b.
          + rewrite last_snoc. by destruct b; cbn [pending]; rewrite last_snoc. }
      destruct (pc_of i s) eqn:Ei; try done; injection E as <-;
        first [by apply (Hswitch true) | by apply (Hswitch false) | apply single_quiet; try done; try (by rewrite Ei); by repeat case_match].
    + specialize (Ho j Hne). destruct (pc_of j s) eqn:Ej; try done; injection E as <-;
        apply single_quiet; try done; by repeat case_match.
  - destruct (pc_of 0 s) eqn:E0; try done. destruct (queue s) as [|b rest] eqn:Eq; [done|]. injection E as <-.
    constructor; [done| |].
    + intros ->. by specialize (Hq eq_refl).
    + cbn [queue connect_ client pcs]. change (pc_of i (mk _ (pcs s) _ _)) with (pc_of i s).
      rewrite <- Hsw. cbn [app]. by rewrite default_last_cons.
Qed.

(** However the callbacks of the loop and the functors are interleaved with
    them, calls of [connect()] and [disconnect()] that one thread makes, the
    loop's or another one, decide: when it is in neither of them and the loop
    has run the functors that they queued, the connector is switched on exactly
    when the client is started. *)
Theorem one_caller_decides (i : nat) (evs : list event) (s : t)
  (Hevs : Forall (only i) evs) (Hrun : run evs make = Some s)
  (Hidle : pc_of i s = Idle) (Hqueue : queue s = []) :
  connect_ s = started_ (client s).
Proof.
  assert (single i s) as Hs; [|by destruct Hs as [_ _ E]; rewrite Hidle, Hqueue in E].
  assert (single i make) as H0 by by constructor.
  revert Hrun H0. generalize make. induction Hevs as [|ev evs Hev _ IH]; intros s0 E H0; cbn [run] in E.
  - by injection E as <-.
  - apply bind_Some in E as (s1 & E1 & E). apply (IH s1 E). by eapply single_step.
Qed.

(** Thread 1 connects, disconnects and connects again, the loop loses the
    connection in between. *)
Definition one_caller : list event :=
  [Enter 1 EnableRetry; Enter 1 Connect; Next 1; Loop; Enter 0 HandleConnection; Enter 1 Disconnect; Next 0; Next 1;
   Next 1; Enter 0 (RemoveConnection 0); Enter 1 Connect; Next 0; Next 0; Next 1; Next 0; Loop; Loop].

Definition view (s : t) := (connect_ s, started_ (client s), calls (client s)).

Lemma one_caller_decides_witness :
  option_map view (run one_caller make) =
    Some (true, true, [Start; Established 0; Stop; Shutdown 0; Destroyed 0; Start; Restart]) /\
  forall s, run one_caller make = Some s -> connect_ s = started_ (client s).
Proof.
  split; [vm_compute; reflexivity|]. intros s E. apply (one_caller_decides 1 one_caller s); [by repeat constructor|done| |];
    vm_compute in E; injection E as <-; reflexivity.
Defined.

(** Two callers can leave the connector on while the client is stopped: the
    second one's [stop] overtakes the first one's [start], either because it
    runs between the exchange of [started_] and the [start], or because it is
    called on the loop thread, where it does not wait in the queue. No later
    [disconnect()] can stop the connector then. *)
Theorem callers_can_disagree :
  option_map view (run [Enter 1 Connect; Enter 2 Disconnect; Next 2; Next 2; Next 1; Loop; Loop] make) =
    Some (true, false, [Stop; Start]) /\
  option_map view (run [Enter 1 Connect; Next 1; Enter 0 Disconnect; Next 0; Next 0; Loop] make) =
    Some (true, false, [Start; Stop]) /\
  option_map view (run [Enter 1 Connect; Next 1; Enter 0 Disconnect; Next 0; Next 0; Loop; Enter 0 Disconnect; Next 0] make) =
    Some (true, false, [Start; Stop]).
Proof. split; [|split]; vm_compute; reflexivity. Qed.
End ClientThreads.
