(* ===== verification/NetClientSystem.v ===== *)
(** A [TcpClient] together with its [Connector] and its [TcpConnection]s, on
    the loop whose thread makes all calls: the state machines of [NetClient],
    [NetConnector] and [NetTcpConnection] composed along the calls that they
    make to each other, in the rounds of [EventLoop::loop] and with the one
    queue of functors that the connector and the connections share. *)

From S2P Require Import Prelude NetBuffer NetByteStream NetReceiveBuffer NetSendBuffer BaseWatcher.
From S2P Require Import BasePoller NetTcpConnection NetConnector BaseThreads NetServer NetSystem NetClient.

Module ClientSystem.
Import OwnedConnection.

#[export] Instance connector_event_eq_dec : EqDecision Connector.event.
Proof. solve_decision. Defined.

(** How often the connector handed a socket to its callback. *)
Definition connected (l : Connector.trace) : nat := length (filter (fun ev => ev = Connector.EvConnected) l).
#[local] Arguments connected : simpl never.

(** ** The connector as its client sees it *)

Section Driven.
Context {P : Type} `{!Poller P} (e : Connector.env).
Context (Hquiet : forall l, Connector.connectionCallback_ e l = []).
Context (base : gmap Z (Z * Z)) (Hfd : forall l, base !! Connector.sys_socket e l = None).
Implicit Types k : Connector.t (P := P).
Import Connector.

Lemma connected_snoc l ev : connected (l ++ [ev]) = (connected l + if decide (ev = EvConnected) then 1 else 0)%nat.
Proof. unfold connected. rewrite list.filter_app, length_app, filter_cons, filter_nil. by case_decide. Qed.

(** A started connector is at work, unless it gave up. *)
Definition trying k : Prop := connect_ k = true -> connecting_ k = true \/ retry_ k = true \/ gave_up (tr k).

Lemma trying_not_connected k : ctl k -> last (tr k) <> Some EvConnected -> trying k.
Proof. intros Hc Hl Hk. destruct (ctl_live _ Hc Hk) as [?|[?|[?|?]]]; auto. Qed.

(** What [connect()] and [retry()] leave behind. *)
Lemma retry_facts k :
  connecting_ (retry k) = connecting_ k /\ connect_ (retry k) = connect_ k /\
  connected (tr (retry k)) = connected (tr k) /\
  (last (tr k) <> Some EvConnected -> last (tr (retry k)) <> Some EvConnected).
Proof.
  unfold retry. cbv zeta. cbn [connect_ set_socket]. destruct (connect_ k) eqn:E; [|done]. cbn.
  rewrite connected_snoc, last_snoc. cbn. by rewrite Nat.add_0_r.
Qed.

Lemma connect_facts k k' :
  connect e k = Some k' -> connect_ k' = connect_ k /\ connected (tr k') = connected (tr k) /\
  last (tr k') <> Some EvConnected.
Proof.
  unfold connect. cbv zeta. cbn [tr set_socket]. set (err := sys_connect e (tr k)). set (k1 := emit (EvConnect err) _).
  assert (connected (tr k1) = connected (tr k)) as Hk by (cbn; by rewrite connected_snoc, Nat.add_0_r).
  assert (last (tr k1) <> Some EvConnected) as Hl by (cbn; by rewrite last_snoc).
  intros E. destruct (in_progress err); [|destruct (transient err)].
  - unfold connecting in E. apply bind_Some in E as (fd & _ & E). apply bind_Some in E as ([w q] & _ & E).
    by injection E as <-.
  - destruct (retry_facts k1) as (_ & Hcn & Hc & Hl'). injection E as <-. rewrite Hcn, Hc. split; [done|]. auto.
  - by injection E as <-.
Qed.

(** A new attempt, from a state in which none is under way. *)
Lemma attempt k :
  inv base k -> connecting_ k = false -> retry_ k = false -> connect_ k = true ->
  exists k', connect e k = Some k' /\ inv base k' /\ functors k' = functors k /\ connect_ k' = true /\ trying k' /\
  connected (tr k') = connected (tr k).
Proof.
  intros [Hs Hc] Hg Hr Hcn.
  destruct (connect_spec e base Hfd k) as (k' & E & Hk' & Hf);
    [by apply safe_idle|apply Hc|exact (ctl_idle_timers _ Hc Hr)|done|done|].
  destruct (connect_facts k k' E) as (Hc' & Hn & Hl). exists k'. split; [done|]. split; [done|]. split; [done|].
  split; [congruence|]. split; [|done]. apply trying_not_connected; [apply Hk'|done].
Qed.

(** [start()] on a stopped connector. *)
Lemma start_driven k :
  inv base k -> connect_ k = false ->
  exists k', startInLoop e k = Some k' /\ inv base k' /\ functors k' = functors k /\ connect_ k' = true /\ trying k' /\
  connected (tr k') = connected (tr k).
Proof.
  intros Hk Hc. destruct (startInLoop_inv e base Hfd k Hk) as (k1 & E & Hk1). unfold startInLoop in *. rewrite Hc in *.
  cbn [negb retry_ set_connect] in *. destruct (retry_ k) eqn:Er; cbn [negb] in *.
  - injection E as <-. eexists. split; [done|]. split; [done|]. do 2 (split; [done|]). split; [|done].
    intros _. right. by left.
  - assert (connecting_ k = false) as Hg.
    { destruct (connecting_ k) eqn:E'; [|done]. destruct (ctl_connecting _ (proj2 Hk) E'). congruence. }
    destruct Hk as [Hs Hct].
    destruct (connect_spec e base Hfd (set_connect true k)) as (k' & E' & Hk' & Hf);
      [by apply (safe_idle base k)|apply Hct|exact (ctl_idle_timers _ Hct Er)|done|done|].
    destruct (connect_facts _ _ E') as (Hc' & Hn & Hl). exists k'. split; [done|]. split; [done|]. split; [done|].
    split; [done|]. split; [|done]. apply trying_not_connected; [apply Hk'|done].
Qed.

(** The object at address [a] is the connector's watcher. *)
Definition watched (a : Z) k : Prop := exists w, watcher_ k = Some w /\ Watcher.self w = a.

Lemma stopAndResetWatcher_watched k k' a : safe base k -> connecting_ k = true ->
  stopAndResetWatcher k = Some k' -> watched a k -> watched a k'.
Proof.
  intros [Hp Hw] Hc E (w & Ew & Ha). rewrite Hc in Hw. destruct Hw as (fd & a' & r & Hs & Hb & Hw & Hi).
  unfold stopAndResetWatcher in E. rewrite Hw in E, Ew. injection Ew as <-. cbn [mbind option_bind] in E.
  destruct (WatcherOps.apply_op_spec WatcherOps.DisableAll (Watcher.mk a' fd POLLOUT r true) (poller k))
    as (w' & p' & E' & Hp' & _ & Hw' & Hi'); [done| |].
  { split; [done|]. cbn. split; [done|]. by rewrite Hi, lookup_insert_eq. }
  cbn [WatcherOps.apply_op] in E'. rewrite E' in E. cbn [mbind option_bind] in E. injection E as <-.
  exists w'. split; [done|]. by rewrite Hw'.
Qed.

(** [stop()] on a started connector. *)
Lemma stop_driven k :
  inv base k -> connect_ k = true ->
  exists k', stopInLoop k = Some k' /\ inv base k' /\ connect_ k' = false /\ connecting_ k' = false /\
    retry_ k' = retry_ k /\ functors k' = functors k ++ (if connecting_ k then [FReset] else []) /\
    (forall a, watched a k -> watched a k') /\ tr k' = tr k.
Proof.
  intros Hk Hc. destruct (stopInLoop_inv base k Hk) as (k' & E & Hk'). exists k'. split; [done|]. split; [done|].
  unfold stopInLoop in E. rewrite Hc in E. cbn [connecting_ set_connect] in E. destruct (connecting_ k) eqn:Eg.
  - apply bind_Some in E as (k2 & E2 & E). assert (safe base (set_connect false k)) as Hs by by destruct Hk as [[? ?] _].
    pose proof (fun a => stopAndResetWatcher_watched _ _ a Hs Eg E2) as Ha.
    destruct (stopAndResetWatcher_spec base _ Hs Eg) as (k3 & E3 & _ & _ & _ & _ & Hg & Hcn & Hr & _ & _ & Ht & Hf).
    rewrite E3 in E2. injection E2 as <-. injection E as <-. by split.
  - injection E as <-. rewrite app_nil_r. done.
Qed.

Lemma restart_driven k :
  inv base k -> connecting_ k = false -> retry_ k = false -> connect_ k = true ->
  exists k', restart e k = Some k' /\ inv base k' /\ functors k' = functors k /\ connect_ k' = true /\ trying k'.
Proof.
  intros Hk Hg Hr Hc. unfold restart. rewrite Hc, Hg, Hr. cbn [negb andb].
  destruct (attempt (set_delay kInitRetryDelayMs k)) as (k' & E & Hk' & Hf & Hc' & Ht & _); try done.
  { destruct Hk as [[? ?] [? ? ? ?]]. split; constructor; try done. }
  by exists k'.
Qed.

Lemma timer_driven k :
  inv base k ->
  exists k', step e ITimer k = Some k' /\ inv base k' /\ functors k' = functors k /\ connect_ k' = connect_ k /\
    (trying k -> trying k') /\ (retry_ k = false -> k' = k).
Proof.
  intros Hk. destruct (connector_step_inv e base Hfd ITimer k Hk I) as [[? _]|(k' & E & Hk')]; [done|].
  exists k'. split; [done|]. split; [done|]. cbn [step] in E. pose proof (ctl_timers _ (proj2 Hk)) as Hl.
  destruct (timers k) as [|d ts] eqn:Et; [by injection E as <-|]. destruct (retry_ k) eqn:Er; [|done].
  unfold retrying in E. cbv zeta in E. cbn [connect_ set_retry set_timers] in E. destruct (connect_ k) eqn:Ec.
  - destruct ts; [|done]. assert (connecting_ k = false) as Hg.
    { destruct (connecting_ k) eqn:E'; [|done]. destruct (ctl_connecting _ (proj2 Hk) E'). congruence. }
    destruct Hk as [Hs Hct].
    destruct (connect_spec e base Hfd (set_retry false (set_timers [] k))) as (k2 & E2 & _ & Hf);
      [by apply (safe_idle base k)|apply Hct|done|done|done|].
    rewrite E in E2. injection E2 as <-. destruct (connect_facts _ _ E) as (Hc' & _ & Hl').
    split; [done|]. split; [by rewrite Hc'|]. split; [|done]. intros _. apply trying_not_connected; [apply Hk'|done].
  - injection E as <-. split; [done|]. split; [done|]. split; [|done]. intros _ H. cbn in H. congruence.
Qed.

(** A queued [resetWatcher] that no later attempt has overtaken. *)
Lemma reset_driven k fs :
  inv base k -> functors k = FReset :: fs -> connecting_ k = false ->
  exists k', step e IFunctor k = Some k' /\ inv base k' /\ functors k' = fs /\ connect_ k' = connect_ k /\
    retry_ k' = retry_ k /\ connecting_ k' = false /\ tr k' = tr k.
Proof.
  intros Hk Hf Hg. destruct (connector_step_inv e base Hfd IFunctor k Hk I) as [(_ & ? & _)|(k' & E & Hk')]; [congruence|].
  exists k'. split; [done|]. split; [done|]. cbn [step] in E. rewrite Hf in E. by injection E as <-.
Qed.

(** What the events of the connector's watcher can do. *)
Inductive outcome k : Connector.t (P := P) -> Prop :=
  | Unchanged : outcome k k
  | Failed k' :
      connecting_ k = true -> connecting_ k' = false -> functors k' = functors k ++ [FReset] ->
      trying k' -> connected (tr k') = connected (tr k) -> outcome k k'
  | Succeeded k' :
      connecting_ k = true -> connecting_ k' = false -> retry_ k' = false -> functors k' = functors k ++ [FReset] ->
      connected (tr k') = S (connected (tr k)) -> outcome k k'.

Lemma getError_facts k err k' : getError e k = Some (err, k') -> k' = emit (EvGetError err) k.
Proof. unfold getError. intros E. apply bind_Some in E as (? & _ & E). by injection E as <- <-. Qed.

(** Both handlers begin with [stopAndResetWatcher] and [getError]. *)
Lemma attempt_ends k :
  inv base k -> connecting_ k = true ->
  exists k1 err, stopAndResetWatcher k = Some k1 /\ getError e k1 = Some (err, emit (EvGetError err) k1) /\
    connecting_ k1 = false /\ connect_ k1 = connect_ k /\ retry_ k1 = false /\ functors k1 = functors k ++ [FReset] /\
    tr k1 = tr k /\ (forall a, watched a k -> watched a k1).
Proof.
  intros Hk Hc. destruct (attempt_over e base k Hk Hc) as (k1 & err & E & Eg & _ & _ & _ & Hr & Hf).
  destruct (stopAndResetWatcher_spec base k (proj1 Hk) Hc) as (k2 & E2 & _ & _ & _ & _ & Hg & Hcn & _ & _ & _ & Ht & _).
  rewrite E in E2. injection E2 as <-. exists k1, err. do 7 (split; [done|]).
  intros a. exact (stopAndResetWatcher_watched k k1 a (proj1 Hk) Hc E).
Qed.

Definition driven k k' : Prop :=
  inv base k' /\ connect_ k' = connect_ k /\ (forall a, watched a k -> watched a k') /\ outcome k k'.

(** After a failed attempt. *)
Lemma retry_driven k k1 err :
  connecting_ k = true -> connecting_ k1 = false -> connect_ k1 = connect_ k -> functors k1 = functors k ++ [FReset] ->
  tr k1 = tr k -> (forall a, watched a k -> watched a k1) ->
  inv base (retry (emit (EvGetError err) k1)) -> driven k (retry (emit (EvGetError err) k1)).
Proof.
  intros Hc Hg Hcn Hf Ht Hw Hk. set (k2 := emit _ _) in *. destruct (retry_facts k2) as (Hg' & Hcn' & Hn & Hl).
  split; [done|]. split; [by rewrite Hcn'|]. split.
  { intros a Ha. destruct (Hw a Ha) as (w & ? & ?). exists w. split; [|done]. unfold retry. cbv zeta. by destruct (connect_ _). }
  apply Failed; [done|by rewrite Hg'| | |].
  - rewrite <- Hf. unfold retry. cbv zeta. by destruct (connect_ _).
  - apply trying_not_connected; [apply Hk|]. apply Hl. cbn. by rewrite last_snoc.
  - rewrite Hn. cbn. by rewrite connected_snoc, Ht, Nat.add_0_r.
Qed.

Lemma driven_refl k : inv base k -> driven k k.
Proof. intros Hk. by split_and!; try done; apply Unchanged. Qed.

Lemma handleError_driven k : inv base k -> exists k', handleError e k = Some k' /\ driven k k'.
Proof.
  intros Hk. destruct (handleError_inv e base k Hk) as (k' & E & Hk' & _). exists k'. split; [done|].
  unfold handleError in E. destruct (connecting_ k) eqn:Hc; [|injection E as <-; by apply driven_refl].
  destruct (attempt_ends k Hk Hc) as (k1 & err & E1 & E2 & Hg & Hcn & Hr & Hf & Ht & Hw). rewrite E1 in E. cbn in E.
  rewrite E2 in E. cbn in E. injection E as <-. by apply retry_driven.
Qed.

Lemma handleWrite_driven k : inv base k -> exists k', handleWrite e k = Some k' /\ driven k k'.
Proof.
  intros Hk. destruct (connector_handleWrite_inv e base Hfd k Hk) as (k' & E & Hk'). exists k'. split; [done|].
  unfold handleWrite in E. destruct (connecting_ k) eqn:Hc; [|injection E as <-; by apply driven_refl].
  destruct (attempt_ends k Hk Hc) as (k1 & err & E1 & E2 & Hg & Hcn & Hr & Hf & Ht & Hw). rewrite E1 in E. cbn in E.
  rewrite E2 in E. cbn [mbind option_bind] in E. destruct (negb (err =? 0)); [injection E as <-; by apply retry_driven|].
  destruct (sys_self e _); [injection E as <-; by apply retry_driven|]. rewrite Hquiet in E. injection E as <-.
  split; [done|]. split; [done|]. split; [done|]. apply Succeeded; try done. cbn.
  by rewrite !connected_snoc, Ht, Nat.add_0_r, Nat.add_1_r.
Qed.

(** The events of the connector's watcher: the error handler, then the write
    handler, which finds nothing to do after a failure. *)
Lemma events_driven revents k :
  inv base k -> exists k', Dispatch.handleEvents revents (callbacks e) k = Some k' /\ driven k k'.
Proof.
  intros Hk. unfold Dispatch.handleEvents. cbv [callbacks Dispatch.call Dispatch.closeCallback_ Dispatch.errorCallback_
    Dispatch.readCallback_ Dispatch.writeCallback_].
  assert (forall b : bool, (if b then Some k else Some k) = Some k) as Hb by by intros [].
  rewrite Hb. cbn [mbind option_bind].
  assert (exists k1, (if has revents (Z.lor POLLERR POLLNVAL) then handleError e k else Some k) = Some k1 /\ driven k k1)
    as (k1 & -> & H1) by (case_match; [by apply handleError_driven|by exists k; split; [|apply driven_refl]]).
  cbn [mbind option_bind]. replace (if has revents _ then Some k1 else Some k1) with (Some k1) by by case_match.
  cbn [mbind option_bind]. destruct (has revents POLLOUT); [|by exists k1].
  pose proof H1 as (_ & _ & _ & Ho). inversion Ho; subst; [by apply handleWrite_driven| |];
    (exists k1; split; [|done]); unfold handleWrite; by case_match.
Qed.
(** A connect that the kernel takes up. *)
Lemma connect_connecting k k' :
  in_progress (sys_connect e (tr k)) = true -> connect e k = Some k' -> connecting_ k' = true /\ tr k `prefix_of` tr k'.
Proof.
  intros Hin E. unfold connect in E. cbv zeta in E. cbn [tr set_socket] in E. rewrite Hin in E. unfold connecting in E.
  apply bind_Some in E as (x & _ & E). apply bind_Some in E as ([w q] & _ & E). injection E as <-.
  split; [done|]. by eexists.
Qed.

(** An attempt that succeeds. *)
Lemma writable_succeeds k :
  inv base k -> connecting_ k = true -> sys_getError e (tr k) = 0 ->
  (forall l, tr k `prefix_of` l -> sys_self e l = false) ->
  exists k', Dispatch.handleEvents POLLOUT (callbacks e) k = Some k' /\ driven k k' /\
    connected (tr k') = S (connected (tr k)).
Proof.
  intros Hk Hc He Hself. destruct (events_driven POLLOUT k Hk) as (k' & E & Hd). exists k'. split; [done|]. split; [done|].
  change (handleWrite e k = Some k') in E. unfold handleWrite in E. rewrite Hc in E.
  destruct (attempt_ends k Hk Hc) as (k1 & err & E1 & E2 & _ & _ & _ & _ & Ht & _). rewrite E1 in E. cbn in E.
  rewrite E2 in E. cbn in E. assert (err = 0) as ->.
  { unfold getError in E2. apply bind_Some in E2 as (? & _ & E2). rewrite Ht, He in E2. by injection E2 as <-. }
  cbn in E. rewrite Ht, Hself, Hquiet in E by by eexists. injection E as <-. cbn. by rewrite !connected_snoc, Ht, Nat.add_0_r, Nat.add_1_r.
Qed.
End Driven.

(** ** The system *)

(** The watchers that the loop may find active. *)
Inductive source := OfConnector (self : Z) | OfConnection (id : nat).

Inductive place := Top | Handling | Running.

(** The connector's environment: what its callback does follows the step. *)
Definition connector_env (kernel : Connector.env) : Connector.env := {|
  Connector.sys_socket := Connector.sys_socket kernel;
  Connector.sys_connect := Connector.sys_connect kernel;
  Connector.sys_getError := Connector.sys_getError kernel;
  Connector.sys_self := Connector.sys_self kernel;
  Connector.connectionCallback_ _ := []
|}.

Section System.
(** [base] is the loop's poller without the connector's registration, [p0]
    the part of it that concerns a new descriptor. The user's disconnect
    callback may call [client.disconnect()], as [leaves] says. *)
Context {P : Type} `{!Poller P} (kernel : Connector.env) (user : nat -> TcpConnection.env) (self : nat -> Z) (p0 : P).
Context (leaves : nat -> TcpConnection.trace -> bool).

(** [batch] and [pending] hold the object each functor is bound to, [None] for
    the connector; which functor it is stands at the head of the object's own
    [functors]. [active] are the watchers of this round that are still to be
    handled, with their events. *)
Record t := mk {
  client : TcpClient.t;
  connector : Connector.t (P := P);
  connections : list (TcpConnection.t (P := P));
  pc : place;
  active : list (source * Z);
  batch : list (option nat);
  pending : list (option nat)
}.

Definition make (p : P) : t := mk (TcpClient.enableRetry TcpClient.make) (Connector.make p) [] Top [] [] [].

Definition set_loop (c : place) (act : list (source * Z)) (run pend : list (option nat)) (s : t) : t :=
  mk (client s) (connector s) (connections s) c act run pend.
Definition set_client (c : TcpClient.t) (s : t) : t :=
  mk c (connector s) (connections s) (pc s) (active s) (batch s) (pending s).

(** Code of the connector runs, given as a function of its state; [before] is
    the number of functors that this code leaves in its queue. *)
Definition on_connector (f : Connector.t (P := P) -> option (Connector.t (P := P))) (before : nat) (s : t) : option t :=
  k ← f (connector s);
  Some (mk (client s) k (connections s) (pc s) (active s) (batch s)
    (pending s ++ replicate (length (Connector.functors k) - before) None)).

(** Code of connection [id] runs. *)
Definition on_connection (id : nat) (i : TcpConnection.input) (s : t) : option t :=
  c ← connections s !! id;
  c' ← TcpConnection.step (conn_env (user id) false) i c;
  let before := match i with TcpConnection.IFunctor => length (tail (TcpConnection.functors c))
                | _ => length (TcpConnection.functors c) end in
  Some (mk (client s) (connector s) (<[id := c']> (connections s)) (pc s) (active s) (batch s)
    (pending s ++ replicate (length (TcpConnection.functors c') - before) (Some id))).

(** What the client does to its connector and connections. On the loop's thread
    [start], [stop] and [established] run at once; [destroyed] queues. *)
Definition do_call (c : TcpClient.call) (s : t) : option t :=
  let n := length (Connector.functors (connector s)) in
  match c with
  | TcpClient.Start => on_connector (Connector.startInLoop (connector_env kernel)) n s
  | TcpClient.Stop => on_connector Connector.stopInLoop n s
  | TcpClient.Restart => on_connector (Connector.restart (connector_env kernel)) n s
  | TcpClient.Established id => on_connection id TcpConnection.IEstablished s
  | TcpClient.Destroyed id => on_connection id (TcpConnection.IRemote TcpConnection.RDestroyed) s
  | TcpClient.Shutdown id => on_connection id (TcpConnection.IAction TcpConnection.AShutdown) s
  end.

Fixpoint do_calls (cs : list TcpClient.call) (s : t) : option t :=
  match cs with
  | [] => Some s
  | c :: rest => s1 ← do_call c s; do_calls rest s1
  end.

(** A method of the client with the calls it makes. *)
Definition client_op (o : TcpClient.op) (s : t) : option t :=
  let cl := TcpClient.exec o (client s) in
  do_calls (drop (length (TcpClient.calls (client s))) (TcpClient.calls cl)) (set_client cl s).

(** A step of connection [id], followed by what its close callback,
    [removeConnection], does, and before that the disconnect callback. *)
Definition connection_step (id : nat) (i : TcpConnection.input) (s : t) : option t :=
  c ← connections s !! id;
  s1 ← on_connection id i s;
  c' ← connections s1 !! id;
  if decide (closes (TcpConnection.tr c) < closes (TcpConnection.tr c'))%nat then
    s2 ← (if leaves id (TcpConnection.tr c') then client_op TcpClient.Disconnect s1 else Some s1);
    client_op (TcpClient.RemoveConnection id) s2
  else Some s1.

(** [handleEvents] of the connector's watcher at address [a]: [None] when that
    object has been destroyed. When the socket is connected it is handed to
    [handleConnection]. *)
Definition connector_events (a revents : Z) (s : t) : option t :=
  w ← Connector.watcher_ (connector s);
  if Watcher.self w =? a then
    s1 ← on_connector (Dispatch.handleEvents revents (Connector.callbacks (connector_env kernel)))
           (length (Connector.functors (connector s))) s;
    if decide (connected (Connector.tr (connector s)) < connected (Connector.tr (connector s1)))%nat then
      fd ← Connector.connectSocket_ (connector s);
      client_op TcpClient.HandleConnection
        (mk (client s1) (connector s1) (connections s1 ++ [TcpConnection.make (self (length (connections s1))) fd p0])
           (pc s1) (active s1) (batch s1) (pending s1))
    else Some s1
  else None.

(** [LPoll rs]: [poll] reports the watchers [rs]. [Connect] and [Disconnect]
    are called by any code of the loop, [Act] by any code for a connection,
    [Remote] by another thread; [Timer] is the expiry of the retry timer. *)
Inductive event :=
  | LPoll (rs : list (source * Z))
  | LHandle
  | LSwap
  | LFunctor
  | LTop
  | Connect
  | Disconnect
  | Act (id : nat) (a : TcpConnection.action)
  | Remote (id : nat) (m : TcpConnection.remote)
  | Timer.

Definition step (ev : event) (s : t) : option t :=
  match ev with
  | LPoll rs => match pc s with Top => Some (set_loop Handling rs (batch s) (pending s) s) | _ => Some s end
  | LHandle =>
      match pc s, active s with
      | Handling, (OfConnector a, r) :: rest =>
          connector_events a r (set_loop Handling rest (batch s) (pending s) s)
      | Handling, (OfConnection id, r) :: rest =>
          connection_step id (TcpConnection.IEvents r) (set_loop Handling rest (batch s) (pending s) s)
      | _, _ => Some s
      end
  | LSwap =>
      match pc s, active s with
      | Handling, [] => Some (set_loop Running [] (pending s) [] s)
      | _, _ => Some s
      end
  | LFunctor =>
      match pc s, batch s with
      | Running, None :: rest =>
          on_connector (Connector.step (connector_env kernel) Connector.IFunctor)
            (length (tail (Connector.functors (connector s)))) (set_loop Running (active s) rest (pending s) s)
      | Running, Some id :: rest =>
          connection_step id TcpConnection.IFunctor (set_loop Running (active s) rest (pending s) s)
      | _, _ => Some s
      end
  | LTop =>
      match pc s, batch s with Running, [] => Some (set_loop Top (active s) [] (pending s) s) | _, _ => Some s end
  | Connect => client_op TcpClient.Connect s
  | Disconnect => client_op TcpClient.Disconnect s
  | Act id a => connection_step id (TcpConnection.IAction a) s
  | Remote id m => connection_step id (TcpConnection.IRemote m) s
  | Timer => on_connector (Connector.step (connector_env kernel) Connector.ITimer)
               (length (Connector.functors (connector s))) s
  end.

Fixpoint run (evs : list event) (s : t) : option t :=
  match evs with
  | [] => Some s
  | ev :: rest => s1 ← step ev s; run rest s1
  end.

(** ** What may happen *)

(** The loop's queue, and how many [resetWatcher]s are in it. *)
Definition queue (s : t) : list (option nat) := batch s ++ pending s.
Definition resets (q : list (option nat)) : nat := length (filter (fun x => x = None) q).

(** [poll] reports what is registered, but nothing that
    [TcpConnection.revents_ok] excludes. Nobody calls [connect()] on a stopped
    client before its old connection is closed and the connector's old watcher
    is destroyed, and no retry timer, whose delay is at least half a second,
    expires before that. The code does not ensure these two: runs that the
    conditions exclude end in undefined steps ([impatient_client_is_undefined]) or
    lose a connection ([TcpClient.stale_close_drops_new_connection]). *)
Definition event_ok (ev : event) (s : t) : Prop :=
  match ev with
  | LPoll rs => pc s = Top -> Forall (fun x =>
      match x.1 with
      | OfConnector a => Connector.connecting_ (connector s) = true /\ watched a (connector s)
      | OfConnection id => (id < length (connections s))%nat /\ TcpConnection.revents_ok x.2
      end) rs
  | Connect => TcpClient.started_ (client s) = true \/
      (TcpClient.connection_ (client s) = None /\ resets (queue s) = 0%nat)
  | Act id a => (id < length (connections s))%nat /\ user_action a /\ TcpConnection.input_ok (TcpConnection.IAction a)
  | Remote id m => (id < length (connections s))%nat /\ by_user (TcpConnection.IRemote m) /\
      TcpConnection.input_ok (TcpConnection.IRemote m)
  | Timer => resets (queue s) = 0%nat
  | _ => True
  end.

Fixpoint run_ok (evs : list event) (s : t) : Prop :=
  match evs with
  | [] => True
  | ev :: rest => event_ok ev s /\ forall s', step ev s = Some s' -> run_ok rest s'
  end.

(** ** Invariant *)

(** A [resetWatcher] is queued before everything connection [id] has queued. *)
Definition first_reset (id : nat) (q : list (option nat)) : Prop :=
  exists q1 q2, q = q1 ++ None :: q2 /\ Some id ∉ q1.

Context (base : gmap Z (Z * Z)).

(** [x] is the connection that is not closed: the client's, except for the
    time between a close and the end of [removeConnection]. *)
Record inv (x : option nat) (s : t) : Prop := {
  inv_connector : Connector.inv base (connector s);
  inv_functors : Connector.functors (connector s) = replicate (resets (queue s)) Connector.FReset;
  inv_once : (resets (queue s) <= 1)%nat;
  inv_single : TcpClient.connection_ (client s) <> None ->
    Connector.connecting_ (connector s) = false /\ Connector.retry_ (connector s) = false;
  inv_fresh : Connector.connecting_ (connector s) = true -> resets (queue s) = 0%nat;
  inv_order id : resets (queue s) <> 0%nat -> TcpClient.connection_ (client s) = Some id ->
    (forall r, (OfConnection id, r) ∉ active s) /\ pc s <> Top /\
    (pc s = Running -> resets (pending s) = 0%nat) /\ first_reset id (queue s);
  inv_conns id c : connections s !! id = Some c ->
    TcpConnection.inv c /\ owned c /\ (closed c <-> x <> Some id);
  inv_created : TcpClient.created (client s) = length (connections s);
  inv_client : TcpClient.inv (client s);
  inv_switch : Connector.connect_ (connector s) = TcpClient.started_ (client s);
  inv_trying : TcpClient.connection_ (client s) = None -> trying (connector s);
  inv_retry : TcpClient.retry_ (client s) = true;
  inv_batch : pc s <> Running -> batch s = [];
  inv_active : Forall (fun y =>
    match y.1 with
    | OfConnector a => watched a (connector s) /\
        (Connector.connecting_ (connector s) = true \/ resets (queue s) <> 0%nat)
    | OfConnection id => (id < length (connections s))%nat /\ TcpConnection.revents_ok y.2
    end) (active s);
  inv_handling : pc s <> Handling -> active s = [];
  inv_ids id : Some id ∈ queue s -> (id < length (connections s))%nat
}.

Definition good (s : t) : Prop := inv (TcpClient.connection_ (client s)) s.

Lemma resets_app q1 q2 : resets (q1 ++ q2) = (resets q1 + resets q2)%nat.
Proof. unfold resets. by rewrite list.filter_app, length_app. Qed.

Lemma resets_cons y q : resets (y :: q) = ((if decide (y = None) then 1 else 0) + resets q)%nat.
Proof. unfold resets. rewrite filter_cons. by case_decide. Qed.

Lemma resets_own n id : resets (replicate n (Some id)) = 0%nat.
Proof. induction n as [|n IH]; [done|]. cbn [replicate]. by rewrite resets_cons. Qed.

Lemma resets_queue s n id : resets (batch s ++ pending s ++ replicate n (Some id)) = resets (queue s).
Proof. unfold queue. by rewrite !resets_app, resets_own, Nat.add_0_r. Qed.

#[local] Arguments resets : simpl never.

Lemma first_reset_app id q q' : first_reset id q -> first_reset id (q ++ q').
Proof. intros (q1 & q2 & -> & Hq). exists q1, (q2 ++ q'). split; [|done]. by rewrite <- app_assoc. Qed.

(** *** Connections *)

(** A step of connection [id]. *)
Lemma inv_add x x' id c c' n s :
  inv x s -> connections s !! id = Some c -> TcpConnection.inv c' -> owned c' -> (closed c' <-> x' <> Some id) ->
  (forall j, j <> id -> x' <> Some j <-> x <> Some j) ->
  inv x' (mk (client s) (connector s) (<[id := c']> (connections s)) (pc s) (active s) (batch s)
    (pending s ++ replicate n (Some id))).
Proof.
  intros [] Hc Hi Ho Hcl Hx. constructor; unfold queue;
    cbn [client connector connections pc active batch pending]; rewrite ?resets_queue, ?length_insert; try done.
  - intros j Hr Hj. destruct (inv_order0 j Hr Hj) as (Ha & Ht & Hp & Hq). split; [done|]. split; [done|]. split.
    + intros H. rewrite resets_app, resets_own, Nat.add_0_r. by apply Hp.
    + rewrite app_assoc. by apply first_reset_app.
  - intros j cj Hj. apply list_lookup_insert_Some in Hj as [(<- & <- & _)|[Hne Hj]]; [done|].
    rewrite Hx by done. by apply inv_conns0.
  - intros j. rewrite app_assoc, elem_of_app. intros [?|[[= ->] _]%elem_of_replicate]; [by apply inv_ids0|].
    by eapply lookup_lt_Some.
Qed.

Context (Huser : forall id, user_ok (user id)).

(** What neither the poller nor a functor causes does not close a connection. *)
Definition steady (i : TcpConnection.input) (c : TcpConnection.t (P := P)) : Prop :=
  match i with
  | TcpConnection.IEvents _ | TcpConnection.IFunctor => False
  | TcpConnection.IRemote TcpConnection.RDestroyed => closed c
  | TcpConnection.IEstablished => True
  | _ => by_user i
  end.

Lemma steady_step id i c :
  TcpConnection.inv c -> owned c -> steady i c -> TcpConnection.input_ok i ->
  exists c', TcpConnection.step (conn_env (user id) false) i c = Some c' /\
    TcpConnection.inv c' /\ owned c' /\ (closed c' <-> closed c).
Proof.
  intros Hi Ho Hs Hok.
  destruct (connection_step_owned (user id) (Huser id) false i c Hi Ho Hok) as (c' & E & Hi' & Ho' & Hm).
  { destruct i as [| |a| |[]]; try done; cbn in Hs; auto; tauto. }
  exists c'. split; [done|]. split; [done|]. split; [done|]. split; [|done]. intros Hc.
  assert (soft c c' \/ closed c) as [(Hst & _ & _)|?]; [| |done].
  - destruct i as [| |a| |r]; try done; cbn [TcpConnection.step] in E.
    + left. by eapply do_action_soft.
    + left. by apply (establishedInLoop_soft (user id) (Huser id) false).
    + destruct r; try (by right); left; (eapply do_remote_soft; [|exact E]; done).
  - apply Ho. right. by apply Hst, (life_closes c' Hi').
Qed.

(** The calls of the client, and of any other code, leave all else alone. *)
Lemma on_connection_inv x id i s :
  inv x s -> (id < length (connections s))%nat -> TcpConnection.input_ok i ->
  (forall c, connections s !! id = Some c -> steady i c) ->
  exists s', on_connection id i s = Some s' /\ inv x s' /\ client s' = client s /\ resets (queue s') = resets (queue s) /\
    (forall c', connections s' !! id = Some c' -> exists c, connections s !! id = Some c /\ (closed c' <-> closed c)).
Proof.
  intros Hs Hid Hok Hst. destruct (lookup_lt_is_Some_2 _ _ Hid) as [c Hc].
  destruct (inv_conns x s Hs id c Hc) as (Hi & Ho & Hcl).
  destruct (steady_step id i c Hi Ho (Hst c Hc) Hok) as (c' & E & Hi' & Ho' & Hcc).
  unfold on_connection. rewrite Hc. cbn [mbind option_bind]. rewrite E. cbn [mbind option_bind].
  eexists. split; [done|]. split; [apply (inv_add x x id c c' _ s); try done; by rewrite Hcc|]. split; [done|].
  split; [exact (resets_queue s _ id)|]. intros c2 H2. cbn [connections] in H2. rewrite list_lookup_insert_eq in H2 by done.
  injection H2 as <-. by exists c.
Qed.

(** The calls on connections do not look at the client. *)
Lemma on_connection_client id i cl s : on_connection id i (set_client cl s) = set_client cl <$> on_connection id i s.
Proof.
  unfold on_connection. change (connections (set_client cl s)) with (connections s).
  destruct (connections s !! id) as [c|]; [|done]. cbn [mbind option_bind]. by destruct (TcpConnection.step _ i c).
Qed.

Lemma set_client_same s : set_client (client s) s = s.
Proof. by destruct s. Qed.

(** *** The connector *)

Abbreviation e := (connector_env kernel).

(** The state after code of the connector. *)
Definition after_connector (cl : TcpClient.t) (k' : Connector.t (P := P)) (s : t) : t :=
  mk cl k' (connections s) (pc s) (active s) (batch s)
    (pending s ++ replicate (length (Connector.functors k') - length (Connector.functors (connector s))) None).

(** The client may change in what does not concern the invariant. *)
Definition client_like (cl : TcpClient.t) (s : t) : Prop :=
  TcpClient.created cl = TcpClient.created (client s) /\
  TcpClient.retry_ cl = true /\ TcpClient.inv cl.

(** A new attempt, or a new retry. *)
Lemma attempt_inv x cl k' s :
  inv x s -> resets (queue s) = 0%nat -> Connector.connecting_ (connector s) = false ->
  client_like cl s -> TcpClient.connection_ cl = None -> Connector.connect_ k' = TcpClient.started_ cl ->
  Connector.inv base k' -> Connector.functors k' = Connector.functors (connector s) -> trying k' ->
  inv x (after_connector cl k' s).
Proof.
  intros [] Hr Hg (Hn & Hret & Hcl) Hnone Hsw Hk Hf Ht. unfold after_connector. rewrite Hf, Nat.sub_diag.
  cbn [replicate]. rewrite app_nil_r.
  constructor; unfold queue; cbn [client connector connections pc active batch pending];
    change (batch s ++ pending s) with (queue s); try done; try congruence.
  eapply list.Forall_impl; [exact inv_active0|]. intros [[a|id] r]; [|done]. cbn. intros [_ [?|?]]; congruence.
Qed.

(** The end of an attempt: the watcher is to be reset. *)
Lemma over_inv x x' cl k' conns s :
  inv x s -> Connector.connecting_ (connector s) = true ->
  Connector.inv base k' -> Connector.connecting_ k' = false ->
  Connector.functors k' = Connector.functors (connector s) ++ [Connector.FReset] ->
  (forall a, watched a (connector s) -> watched a k') ->
  TcpClient.inv cl -> TcpClient.retry_ cl = true -> Connector.connect_ k' = TcpClient.started_ cl ->
  TcpClient.created cl = length conns -> (length (connections s) <= length conns)%nat ->
  (forall id c, conns !! id = Some c -> TcpConnection.inv c /\ owned c /\ (closed c <-> x' <> Some id)) ->
  match TcpClient.connection_ cl with
  | Some id => Connector.retry_ k' = false /\ pc s = Handling /\ (length (connections s) <= id)%nat
  | None => trying k'
  end -> inv x' (mk cl k' conns (pc s) (active s) (batch s) (pending s ++ [None])).
Proof.
  intros [] Eg Hk Hg Hf Hw Hcl Hret Hcn Hcr Hlen Hconns Hcur. specialize (inv_fresh0 Eg).
  assert (resets (batch s ++ pending s ++ [None]) = 1%nat) as Hq.
  { unfold queue in inv_fresh0. rewrite app_assoc, resets_app, inv_fresh0. done. }
  constructor; unfold queue; cbn [client connector connections pc active batch pending]; rewrite ?Hq; try done; try congruence.
  - rewrite Hf, inv_functors0, inv_fresh0. done.
  - destruct (TcpClient.connection_ cl); [|done]. by destruct Hcur.
  - intros id _ Hid. rewrite Hid in Hcur. destruct Hcur as (_ & Hpc & Hle). split; [|split; [by rewrite Hpc|split; [by rewrite Hpc|]]].
    + intros r Hr. apply (proj1 (list.Forall_forall _ _) inv_active0) in Hr as [Hlt _]. cbn in Hlt. lia.
    + exists (queue s), []. unfold queue. rewrite <- app_assoc. split; [done|]. intros Hin. apply inv_ids0 in Hin. lia.
  - intros E. by rewrite E in Hcur.
  - eapply list.Forall_impl; [exact inv_active0|]. intros [[a|id] r]; cbn; [intros [? _]; split; [by apply Hw|by right]|].
    intros [? ?]. split; [lia|done].
  - intros id. rewrite app_assoc, elem_of_app, list_elem_of_singleton. intros [H|?]; [|done].
    apply inv_ids0 in H. lia.
Qed.

(** [stop()]. *)
Lemma stop_inv x cl k' s :
  inv x s -> client_like cl s -> TcpClient.connection_ cl = TcpClient.connection_ (client s) ->
  TcpClient.started_ cl = false -> Connector.inv base k' ->
  Connector.connect_ k' = false -> Connector.connecting_ k' = false -> Connector.retry_ k' = Connector.retry_ (connector s) ->
  Connector.functors k' = Connector.functors (connector s) ++
    (if Connector.connecting_ (connector s) then [Connector.FReset] else []) ->
  (forall a, watched a (connector s) -> watched a k') -> inv x (after_connector cl k' s).
Proof.
  intros Hs (Hn & Hret & Hcl) Hc Hst Hk Hcn Hg Hr Hf Hw. unfold after_connector. rewrite Hf, length_app.
  rewrite (Nat.add_comm (length _)), Nat.add_sub. pose proof Hs as [].
  assert (trying k') as Ht by (intros H; congruence).
  destruct (Connector.connecting_ (connector s)) eqn:Eg; cbn [length replicate].
  - assert (TcpClient.connection_ (client s) = None) as Hno.
    { destruct (TcpClient.connection_ (client s)) eqn:E; [|done]. destruct (inv_single0 ltac:(done)). congruence. }
    apply (over_inv x x cl k' (connections s) s); try done; [congruence..|]. by rewrite Hc, Hno.
  - rewrite app_nil_r in *. constructor; unfold queue; cbn [client connector connections pc active batch pending];
      change (batch s ++ pending s) with (queue s); try done; try congruence.
    + rewrite Hc, Hr. intros H. by destruct (inv_single0 H).
    + rewrite Hc. done.
    + eapply list.Forall_impl; [exact inv_active0|]. intros [[a|id] r]; [|done]. cbn. intros [? [?|?]]; [done|]. by auto.
Qed.

Lemma set_client_inv x cl s :
  inv x s -> client_like cl s -> TcpClient.connection_ cl = TcpClient.connection_ (client s) ->
  TcpClient.started_ cl = TcpClient.started_ (client s) -> inv x (set_client cl s).
Proof.
  intros [] (Hn & Hret & Hcl) Hc Hst.
  constructor; cbn [client connector connections pc active batch pending set_client]; rewrite ?Hc; try done; congruence.
Qed.

(** *** The client's methods *)

Context (Hfd : forall l, base !! Connector.sys_socket kernel l = None).

(** One more call, after those of before. *)
Lemma client_op_calls o s cs :
  TcpClient.calls (TcpClient.exec o (client s)) = TcpClient.calls (client s) ++ cs ->
  client_op o s = do_calls cs (set_client (TcpClient.exec o (client s)) s).
Proof. intros E. unfold client_op. cbv zeta. by rewrite E, drop_app_length. Qed.

Lemma connect_inv s : good s -> event_ok Connect s -> exists s', client_op TcpClient.Connect s = Some s' /\ good s'.
Proof.
  intros Hs Hok. pose proof Hs as []. destruct (TcpClient.started_ (client s)) eqn:Est.
  - exists s. split; [|done].
    assert (TcpClient.exec TcpClient.Connect (client s) = client s) as E.
    { cbn. unfold TcpClient.connect, TcpClient.compare_exchange. by rewrite Est. }
    rewrite (client_op_calls _ s []); rewrite E; [by rewrite set_client_same|by rewrite app_nil_r].
  - destruct Hok as [?|[Hno Hr]]; [congruence|]. set (cl := TcpClient.exec TcpClient.Connect (client s)).
    assert (cl = TcpClient.mk true (TcpClient.retry_ (client s)) (TcpClient.connection_ (client s))
      (TcpClient.created (client s)) (TcpClient.calls (client s) ++ [TcpClient.Start])) as E.
    { unfold cl. cbn. unfold TcpClient.connect, TcpClient.compare_exchange. by rewrite Est. }
    rewrite (client_op_calls _ s [TcpClient.Start]); fold cl; rewrite E; [|done]. rewrite <- E.
    destruct (start_driven e base Hfd (connector s)) as (k' & Ek & Hk & Hf & Hcn & Ht & _); [done|congruence|].
    exists (after_connector cl k' s). cbn [do_calls do_call]. unfold on_connector.
    change (connector (set_client cl s)) with (connector s). rewrite Ek. split; [done|]. unfold good.
    change (client (after_connector cl k' s)) with cl.
    assert (TcpClient.connection_ cl = TcpClient.connection_ (client s)) as -> by by rewrite E.
    apply attempt_inv; try done.
    + destruct (Connector.connecting_ (connector s)) eqn:Eg; [|done].
      destruct (Connector.ctl_connecting _ (proj2 inv_connector0) Eg). congruence.
    + split; [by rewrite E|]. split; [by rewrite E|]. by apply TcpClient.exec_inv.
    + by rewrite E.
    + by rewrite E, Hcn.
Qed.

(** The switching-off half of [disconnect()]. *)
Lemma disconnect_stop_inv x cl s :
  inv x s -> client_like cl s -> TcpClient.connection_ cl = TcpClient.connection_ (client s) ->
  TcpClient.started_ cl = false ->
  exists s', do_calls (if TcpClient.started_ (client s) then [TcpClient.Stop] else []) (set_client cl s) = Some s' /\
    inv x s' /\ client s' = cl /\ connections s' = connections s /\
    (TcpClient.connection_ (client s) <> None -> resets (queue s') = resets (queue s)).
Proof.
  intros Hs Hcl Hc Hst. pose proof Hs as []. destruct (TcpClient.started_ (client s)) eqn:Es.
  - destruct (stop_driven base (connector s)) as (k' & Ek & Hk & Hcn & Hg & Hr & Hf & Hw & _); [done|congruence|].
    exists (after_connector cl k' s). cbn [do_calls do_call]. unfold on_connector.
    change (connector (set_client cl s)) with (connector s). rewrite Ek. split; [done|].
    split; [by apply stop_inv|]. split; [done|]. split; [done|]. intros Hno.
    destruct (inv_single0 Hno) as [Eg _]. rewrite Eg, app_nil_r in Hf. unfold queue, after_connector. cbn [batch pending].
    by rewrite Hf, Nat.sub_diag, app_nil_r.
  - exists (set_client cl s). split; [done|]. split; [apply set_client_inv; try done; congruence|done].
Qed.

Lemma do_calls_app cs1 cs2 s : do_calls (cs1 ++ cs2) s = do_calls cs1 s ≫= do_calls cs2.
Proof.
  revert s. induction cs1 as [|c cs1 IH]; intros s; [done|]. cbn [app do_calls].
  destruct (do_call c s) as [s1|]; [apply IH|done].
Qed.

(** The client's connection is the newest. *)
Lemma current_length x s id :
  inv x s -> TcpClient.connection_ (client s) = Some id -> length (connections s) = S id.
Proof. intros [] E. pose proof (TcpClient.inv_current _ inv_client0) as H. rewrite E in H. congruence. Qed.

Lemma disconnect_inv x s :
  inv x s ->
  exists s', client_op TcpClient.Disconnect s = Some s' /\ inv x s' /\
    TcpClient.connection_ (client s') = TcpClient.connection_ (client s) /\
    (TcpClient.connection_ (client s) <> None -> resets (queue s') = resets (queue s)).
Proof.
  intros Hs. pose proof Hs as []. set (cl := TcpClient.exec TcpClient.Disconnect (client s)).
  set (stops := if TcpClient.started_ (client s) then [TcpClient.Stop] else []).
  set (shuts := match TcpClient.connection_ (client s) with Some id => [TcpClient.Shutdown id] | None => [] end).
  assert (cl = TcpClient.mk false (TcpClient.retry_ (client s)) (TcpClient.connection_ (client s))
    (TcpClient.created (client s)) (TcpClient.calls (client s) ++ stops ++ shuts)) as E.
  { unfold cl, stops, shuts. destruct (client s) as [[] retry [id|] n cs]; cbn;
      unfold TcpClient.emit; cbn; by rewrite <- ?app_assoc, ?app_nil_r. }
  rewrite (client_op_calls _ s (stops ++ shuts)); fold cl; [|by rewrite E]. rewrite do_calls_app.
  destruct (disconnect_stop_inv x cl s Hs) as (s1 & E1 & Hs1 & Hc1 & Hn1 & Hr1); [|by rewrite E..|].
  { split; [by rewrite E|]. split; [by rewrite E|]. by apply TcpClient.exec_inv. }
  fold stops in E1. rewrite E1. cbn [mbind option_bind]. unfold shuts.
  destruct (TcpClient.connection_ (client s)) as [id|] eqn:Eid.
  - cbn [do_calls do_call].
    destruct (on_connection_inv x id (TcpConnection.IAction TcpConnection.AShutdown) s1)
      as (s2 & -> & Hs2 & Hc2 & Hr2 & _); [done| |done|done|].
    { rewrite Hn1, (current_length x s id Hs Eid). lia. }
    exists s2. split; [done|]. split; [done|]. split; [by rewrite Hc2, Hc1, E|]. intros H. by rewrite Hr2, Hr1.
  - exists s1. split; [done|]. split; [done|]. split; [by rewrite Hc1, E|done].
Qed.

(** The client's connection has closed. *)
Lemma remove_inv id s :
  inv None s -> TcpClient.connection_ (client s) = Some id -> resets (queue s) = 0%nat ->
  exists s', client_op (TcpClient.RemoveConnection id) s = Some s' /\ good s'.
Proof.
  intros Hs Hid Hr. pose proof Hs as []. set (cl := TcpClient.exec (TcpClient.RemoveConnection id) (client s)).
  set (again := if TcpClient.started_ (client s) then [TcpClient.Restart] else []).
  assert (cl = TcpClient.mk (TcpClient.started_ (client s)) true None
    (TcpClient.created (client s)) (TcpClient.calls (client s) ++ TcpClient.Destroyed id :: again)) as E.
  { unfold cl, again. cbn. unfold TcpClient.removeConnection. cbn. rewrite inv_retry0. cbn.
    destruct (TcpClient.started_ (client s)); unfold TcpClient.emit; cbn; by rewrite <- ?app_assoc. }
  rewrite (client_op_calls _ s (TcpClient.Destroyed id :: again)); fold cl; [|by rewrite E].
  cbn [do_calls do_call]. rewrite on_connection_client.
  destruct (on_connection_inv None id (TcpConnection.IRemote TcpConnection.RDestroyed) s)
    as (s2 & -> & Hs2 & Hc2 & Hr2 & _); [done|rewrite (current_length None s id Hs Hid); lia|done| |].
  { intros c Hc. cbn. by apply (inv_conns0 id c Hc). }
  assert (client_like cl s2) as Hlike.
  { unfold client_like. rewrite Hc2. split; [by rewrite E|]. split; [by rewrite E|]. by apply TcpClient.exec_inv. }
  pose proof Hs2 as Hinv2. destruct Hs2.
  destruct (inv_single1 ltac:(by rewrite Hc2, Hid)) as [Hg Hre].
  cbn [mbind option_bind fmap option_fmap option_map]. unfold again. destruct (TcpClient.started_ (client s)) eqn:Est.
  - destruct (restart_driven e base Hfd (connector s2)) as (k' & Ek & Hk & Hf & Hcn & Ht); [done..|by rewrite inv_switch1, Hc2|].
    exists (after_connector cl k' s2). cbn [do_calls do_call]. unfold on_connector.
    change (connector (set_client cl s2)) with (connector s2). rewrite Ek. split; [done|]. unfold good.
    change (client (after_connector cl k' s2)) with cl. replace (TcpClient.connection_ cl) with (@None nat) by by rewrite E.
    apply attempt_inv; try done; [congruence|by rewrite E|by rewrite E, Hcn].
  - exists (set_client cl s2). split; [done|]. unfold good. cbn [client set_client].
    replace (TcpClient.connection_ cl) with (@None nat) by by rewrite E. destruct Hlike as (Hn & Hret & Hcl).
    constructor; cbn [client connector connections pc active batch pending set_client];
      change (queue (set_client cl s2)) with (queue s2); try done.
    + intros j _ H. by rewrite E in H.
    + congruence.
    + by rewrite inv_switch1, Hc2, Est, E.
    + intros _ H. rewrite inv_switch1, Hc2 in H. congruence.
Qed.

(** A step of a connection, with what its close callback makes the client do.
    The current one does not close while a [resetWatcher] is queued. *)
Lemma csystem_connection_inv id i s :
  good s -> (id < length (connections s))%nat -> TcpConnection.input_ok i -> by_user i ->
  (TcpClient.connection_ (client s) = Some id -> resets (queue s) = 0%nat \/ forall c, steady i c) ->
  exists s', connection_step id i s = Some s' /\ good s'.
Proof.
  intros Hs Hid Hok Hi Hr. destruct (lookup_lt_is_Some_2 _ _ Hid) as [c Hc].
  destruct (inv_conns _ s Hs id c Hc) as (Hci & Hco & Hcl).
  destruct (connection_step_owned (user id) (Huser id) false i c Hci Hco Hok (or_introl Hi)) as (c' & E & Hi' & Ho' & Hm).
  unfold connection_step, on_connection. rewrite Hc. cbn [mbind option_bind]. rewrite E. cbn [mbind option_bind].
  set (s1 := mk _ _ _ _ _ _ _). assert (connections s1 !! id = Some c') as -> by by apply list_lookup_insert_eq.
  cbn [mbind option_bind]. pose proof (proj1 (life_closes c' Hi')) as Hle. case_decide as Hlt.
  - assert (~ closed c) as Hnc by (rewrite closes_closed; lia).
    assert (closed c') as Hc' by (rewrite closes_closed; lia).
    assert (TcpClient.connection_ (client s) = Some id) as Hcur.
    { destruct (decide (TcpClient.connection_ (client s) = Some id)) as [|Hne]; [done|]. by apply Hcl in Hne. }
    assert (resets (queue s) = 0%nat) as Hr0.
    { destruct (Hr Hcur) as [?|Hst]; [done|].
      destruct (steady_step id i c Hci Hco (Hst c) Hok) as (c2 & E2 & _ & _ & Hcc).
      rewrite E in E2. injection E2 as <-. by apply Hcc in Hc'. }
    assert (inv None s1) as Hs1.
    { apply (inv_add (TcpClient.connection_ (client s)) None id c c' _ s); try done. intros j Hj. rewrite Hcur. split; congruence. }
    assert (resets (queue s1) = 0%nat) as Hr1 by (rewrite <- Hr0; exact (resets_queue s _ id)).
    destruct (leaves id (TcpConnection.tr c')).
    + destruct (disconnect_inv None s1 Hs1) as (s2 & -> & Hs2 & Hc2 & Hr2). cbn [mbind option_bind].
      apply remove_inv; [done|by rewrite Hc2|]. rewrite Hr2; [done|]. cbn. by rewrite Hcur.
    + by apply remove_inv.
  - exists s1. split; [done|]. apply (inv_add (TcpClient.connection_ (client s)) _ id c c' _ s); try done.
    split; [rewrite closes_closed; intros; apply Hcl, closes_closed; lia|intros H; by apply Hm, Hcl].
Qed.

(** *** The rounds of the loop *)

Lemma act_inv id i s :
  good s -> (id < length (connections s))%nat -> TcpConnection.input_ok i -> by_user i -> (forall c, steady i c) ->
  exists s', connection_step id i s = Some s' /\ good s'.
Proof. intros. apply csystem_connection_inv; auto. Qed.

Lemma after_connector_same s : after_connector (client s) (connector s) s = s.
Proof. unfold after_connector. rewrite Nat.sub_diag, app_nil_r. by destruct s. Qed.

Lemma timer_inv s : good s -> resets (queue s) = 0%nat -> exists s', step Timer s = Some s' /\ good s'.
Proof.
  intros Hs Hr. pose proof Hs as []. cbn [step]. unfold on_connector.
  destruct (timer_driven e base Hfd (connector s)) as (k' & -> & Hk & Hf & Hcn & Ht & Hsame); [done|].
  exists (after_connector (client s) k' s). split; [done|]. destruct (Connector.retry_ (connector s)) eqn:Er.
  - assert (TcpClient.connection_ (client s) = None) as Hno.
    { destruct (TcpClient.connection_ (client s)) eqn:E; [|done]. destruct (inv_single0 ltac:(done)). congruence. }
    assert (Connector.connecting_ (connector s) = false) as Hg.
    { destruct (Connector.connecting_ (connector s)) eqn:E; [|done].
      destruct (Connector.ctl_connecting _ (proj2 inv_connector0) E). congruence. }
    apply attempt_inv; try done; [congruence|auto].
  - rewrite Hsame by done. by rewrite after_connector_same.
Qed.

(** The next watcher is taken from the active ones. *)
Lemma pop_active x y rest s :
  inv x s -> pc s = Handling -> active s = y :: rest -> inv x (set_loop Handling rest (batch s) (pending s) s).
Proof.
  intros [] Hpc Ha. rewrite Ha in *. apply list.Forall_cons in inv_active0 as [_ Hrest].
  constructor; cbn [client connector connections pc active batch pending set_loop]; try done; rewrite <- ?Hpc; try done.
  intros id Hr Hid. destruct (inv_order0 id Hr Hid) as (H & ?). split; [|done]. intros r Hin. apply (H r). by right.
Qed.

Context (Hp0 : poller_ok p0) (Hfresh : forall fd, interest p0 !! fd = None).

Lemma new_connection a fd : TcpConnection.inv (TcpConnection.make a fd p0) /\
  owned (TcpConnection.make a fd p0) /\ ~ closed (TcpConnection.make a fd p0).
Proof.
  split; [by apply TcpConnection.connection_make_inv|]. split; [|by intros []%elem_of_nil].
  by intros [[]%elem_of_nil|?].
Qed.

(** The connector hands over a socket. *)
Lemma handover_inv fd k' s :
  good s -> pc s = Handling -> Connector.connecting_ (connector s) = true ->
  Connector.inv base k' -> Connector.connecting_ k' = false -> Connector.retry_ k' = false ->
  Connector.connect_ k' = Connector.connect_ (connector s) ->
  Connector.functors k' = Connector.functors (connector s) ++ [Connector.FReset] ->
  (forall a, watched a (connector s) -> watched a k') ->
  exists s', client_op TcpClient.HandleConnection
    (mk (client s) k' (connections s ++ [TcpConnection.make (self (length (connections s))) fd p0])
       (pc s) (active s) (batch s) (pending s ++ [None])) = Some s' /\ good s' /\
    TcpClient.connection_ (client s') = Some (length (connections s)).
Proof.
  intros Hs Hpc Hc Hk Hg Hr Hcn Hf Hw. pose proof Hs as []. set (n := length (connections s)).
  set (c := TcpConnection.make _ fd p0). set (s1 := mk _ _ _ _ _ _ _).
  set (cl := TcpClient.exec TcpClient.HandleConnection (client s)).
  assert (TcpClient.connection_ (client s) = None) as Hno.
  { destruct (TcpClient.connection_ (client s)) eqn:E; [|done]. destruct (inv_single0 ltac:(done)). congruence. }
  assert (TcpClient.connection_ cl = Some n) as Hcur by (cbn; by rewrite inv_created0).
  assert (inv (Some n) (set_client cl s1)) as Hs1.
  { apply (over_inv (TcpClient.connection_ (client s)) (Some n) cl k' (connections s ++ [c]) s); try done.
    - by apply TcpClient.exec_inv.
    - by rewrite Hcn, inv_switch0.
    - rewrite length_app, Nat.add_1_r. cbn. by rewrite inv_created0.
    - rewrite length_app. lia.
    - rewrite Hno in *. intros id cj [Hj|[Hj [Hj0 <-]%list_lookup_singleton_Some]]%lookup_app_Some.
      + destruct (inv_conns0 id cj Hj) as (? & ? & Hcl). split; [done|]. split; [done|].
        split; [|intros; by apply Hcl]. intros _ [= <-]. apply lookup_lt_Some in Hj. unfold n in Hj. lia.
      + replace id with n by (unfold n; lia). destruct (new_connection (self n) fd) as (? & ? & ?).
        split; [done|]. split; [done|]. split; [done|]. by intros [].
    - rewrite Hcur. split; [done|]. split; [done|]. unfold n. lia. }
  rewrite (client_op_calls _ s1 [TcpClient.Established (TcpClient.created (client s))]) by done.
  change (TcpClient.exec TcpClient.HandleConnection (client s1)) with cl. rewrite inv_created0. fold n. cbn [do_calls do_call].
  destruct (on_connection_inv (Some n) n TcpConnection.IEstablished (set_client cl s1)) as (s2 & -> & Hs2 & Hc2 & _ & _);
    [done| |done|done|].
  { cbn. rewrite length_app. unfold n. cbn. lia. }
  exists s2. split; [done|]. unfold good. rewrite Hc2. change (client (set_client cl s1)) with cl. by rewrite Hcur.
Qed.

Lemma connector_events_connect a r fd k' s :
  watched a (connector s) -> Connector.connectSocket_ (connector s) = Some fd ->
  Dispatch.handleEvents r (Connector.callbacks e) (connector s) = Some k' ->
  connected (Connector.tr k') = S (connected (Connector.tr (connector s))) ->
  Connector.functors k' = Connector.functors (connector s) ++ [Connector.FReset] ->
  connector_events a r s = client_op TcpClient.HandleConnection
    (mk (client s) k' (connections s ++ [TcpConnection.make (self (length (connections s))) fd p0])
       (pc s) (active s) (batch s) (pending s ++ [None])).
Proof.
  intros (w & Ew & Ha) Hs E Hn Hf. unfold connector_events, on_connector. rewrite Ew. cbn [mbind option_bind].
  rewrite Ha, Z.eqb_refl, E. cbn [mbind option_bind]. cbn [connector client connections pc active batch pending].
  rewrite decide_True by lia. rewrite Hs. cbn [mbind option_bind].
  by rewrite Hf, length_app, (Nat.add_comm (length _)), Nat.add_sub.
Qed.

(** The events of the connector's watcher. *)
Lemma connector_inv a r s :
  good s -> pc s = Handling -> watched a (connector s) ->
  exists s', connector_events a r s = Some s' /\ good s'.
Proof.
  intros Hs Hpc Ha. pose proof Hs as [].
  destruct (events_driven e (fun _ => eq_refl) base Hfd r (connector s)) as (k' & E & Hk & Hcn & Hw & Ho); [done|].
  destruct (decide (connected (Connector.tr (connector s)) < connected (Connector.tr k'))%nat) as [Hlt|Hge].
  - inversion Ho as [|? ? ? ? ? Hn|? Hc Hg Hr Hf Hn]; subst; [lia..|].
    pose proof (Connector.safe_watcher _ _ (proj1 inv_connector0)) as Hsw. rewrite Hc in Hsw.
    destruct Hsw as (fd & ? & ? & Hfd' & _). rewrite (connector_events_connect a r fd k') by done.
    destruct (handover_inv fd k' s Hs Hpc Hc Hk Hg Hr Hcn Hf Hw) as (s' & ? & ? & _). by exists s'.
  - destruct Ha as (w & Ew & Ha). unfold connector_events, on_connector. rewrite Ew. cbn [mbind option_bind].
    rewrite Ha, Z.eqb_refl, E. cbn [mbind option_bind connector]. rewrite decide_False by done.
    eexists. split; [done|]. inversion Ho as [|? Hc Hg Hf Ht _|? ? ? ? ? Hn]; subst; [|rewrite Hf|lia].
    + change (good (after_connector (client s) (connector s) s)). by rewrite after_connector_same.
    + rewrite length_app, Nat.add_comm, Nat.add_sub. cbn [length replicate].
      assert (TcpClient.connection_ (client s) = None) as Hno.
      { destruct (TcpClient.connection_ (client s)) eqn:E'; [|done]. destruct (inv_single0 ltac:(done)). congruence. }
      apply (over_inv (TcpClient.connection_ (client s)) _ (client s) k' (connections s) s); try done; [congruence|].
      by rewrite Hno.
Qed.

(** The next functor is taken from the batch. *)
Lemma pop_functor x id rest s :
  inv x s -> pc s = Running -> batch s = Some id :: rest ->
  inv x (set_loop Running (active s) rest (pending s) s) /\
  (TcpClient.connection_ (client s) = Some id -> resets (queue s) = 0%nat) /\ (id < length (connections s))%nat /\
  resets (rest ++ pending s) = resets (queue s).
Proof.
  intros Hs Hpc Hb. pose proof Hs as [].
  assert (resets (rest ++ pending s) = resets (queue s)) as Hq by (unfold queue; rewrite Hb; cbn [app]; by rewrite resets_cons).
  assert (forall j, resets (queue s) <> 0%nat -> TcpClient.connection_ (client s) = Some j -> j <> id /\
    first_reset j (rest ++ pending s)) as Hfirst.
  { intros j Hr Hj. destruct (inv_order0 j Hr Hj) as (_ & _ & _ & ([|y q1] & q2 & E & Hn)).
    - unfold queue in E. by rewrite Hb in E.
    - unfold queue in E. rewrite Hb in E. cbn in E. injection E as <- E. split.
      + intros ->. apply Hn. by left.
      + exists q1, q2. split; [done|]. intros H. apply Hn. by right. }
  split; [|split; [|split; [|done]]].
  - constructor; unfold queue in *; cbn [client connector connections pc active batch pending set_loop]; rewrite ?Hq; try done.
    + intros j Hr Hj. destruct (inv_order0 j Hr Hj) as (? & ? & Hp & _). rewrite Hpc in Hp. split; [done|]. split; [done|].
      split; [done|]. by apply Hfirst.
    + intros _. apply inv_handling0. by rewrite Hpc.
    + intros j Hj. apply inv_ids0. rewrite Hb. cbn. by right.
  - intros Hj. destruct (decide (resets (queue s) = 0%nat)) as [|Hr]; [done|]. by destruct (Hfirst id Hr Hj).
  - apply inv_ids0. unfold queue. rewrite Hb. by left.
Qed.

(** A [resetWatcher] runs: its attempt was the last one. *)
Lemma reset_inv rest s :
  good s -> pc s = Running -> batch s = None :: rest ->
  exists s', step LFunctor s = Some s' /\ good s'.
Proof.
  intros Hs Hpc Hb. pose proof Hs as []. cbn [step]. rewrite Hpc, Hb. unfold on_connector.
  assert (resets (queue s) = S (resets (rest ++ pending s))) as Hq by (unfold queue; rewrite Hb; cbn [app]; by rewrite resets_cons).
  assert (resets (rest ++ pending s) = 0%nat) as Hr0 by lia.
  assert (Connector.connecting_ (connector s) = false) as Hg.
  { destruct (Connector.connecting_ (connector s)); [|done]. specialize (inv_fresh0 eq_refl). lia. }
  rewrite Hq, Hr0 in inv_functors0. cbn [replicate] in inv_functors0.
  destruct (reset_driven e base Hfd (connector s) [] inv_connector0 inv_functors0 Hg)
    as (k' & Ek & Hk & Hf & Hcn & Hr & Hg' & Ht). cbn [connector set_loop]. rewrite Ek, inv_functors0.
  cbn [mbind option_bind]. eexists. split; [done|]. rewrite Hf. cbn [length tail Nat.sub replicate]. rewrite app_nil_r.
  constructor; unfold queue; cbn [client connector connections pc active batch pending set_loop]; rewrite ?Hr0; try done; try congruence.
  - lia.
  - intros H. rewrite Hr. by destruct (inv_single0 H).
  - intros H. unfold trying. rewrite Hcn, Hg', Hr, Ht, <- Hg. by apply inv_trying0.
  - rewrite inv_handling0 by by rewrite Hpc. done.
  - intros _. apply inv_handling0. by rewrite Hpc.
  - intros id Hin. apply inv_ids0. unfold queue. rewrite Hb. cbn. by right.
Qed.

(** The loop goes on to the next part of a round. *)
Lemma round_inv ev s :
  good s -> event_ok ev s -> match ev with LPoll _ | LSwap | LTop => True | _ => False end ->
  exists s', step ev s = Some s' /\ good s'.
Proof.
  intros Hs Hok Hev. pose proof Hs as []. destruct ev as [rs| | | | | | | | |]; try done; cbn [step].
  - destruct (pc s) eqn:Hpc; [|by exists s..]. eexists. split; [done|]. specialize (Hok Hpc).
    constructor; cbn [client connector connections pc active batch pending set_loop];
      change (queue (set_loop Handling rs (batch s) (pending s) s)) with (queue s); try done.
    + intros id Hr Hid. by destruct (inv_order0 id Hr Hid) as (_ & ? & _).
    + intros _. by apply inv_batch0.
    + eapply list.Forall_impl; [exact Hok|]. intros [[a|id] r]; cbn; [|done]. intros [? ?]. split; [done|by left].
  - destruct (pc s) eqn:Hpc; [by exists s| |by exists s]. destruct (active s) as [|] eqn:Ha; [|by exists s].
    eexists. split; [done|].
    assert (queue (set_loop Running [] (pending s) [] s) = queue s) as Hq.
    { unfold queue. cbn. rewrite inv_batch0 by done. by rewrite app_nil_r. }
    constructor; cbn [client connector connections pc active batch pending set_loop]; rewrite ?Hq; try done.
    intros id Hr Hid. destruct (inv_order0 id Hr Hid) as (_ & _ & _ & ?).
    split; [by intros r []%elem_of_nil|]. done.
  - destruct (pc s) eqn:Hpc; [by exists s..|]. destruct (batch s) as [|] eqn:Hb; [|by exists s].
    eexists. split; [done|].
    assert (queue (set_loop Top (active s) [] (pending s) s) = queue s) as Hq by (unfold queue; cbn; by rewrite Hb).
    constructor; cbn [client connector connections pc active batch pending set_loop]; rewrite ?Hq; try done.
    + intros id Hr Hid. destruct (inv_order0 id Hr Hid) as (_ & _ & Hp & _). specialize (Hp eq_refl).
      unfold queue in Hr. rewrite Hb in Hr. by destruct Hr.
    + intros _. by apply inv_handling0.
Qed.

Lemma csystem_step_inv ev s : good s -> event_ok ev s -> exists s', step ev s = Some s' /\ good s'.
Proof.
  intros Hs Hok. destruct ev as [rs| | | | | | |id a|id m|]; try (by apply round_inv); cbn [step].
  - destruct (pc s) eqn:Hpc; [by exists s| |by exists s]. destruct (active s) as [|[[a|id] r] rest] eqn:Ha; [by exists s|..];
      pose proof (pop_active _ _ _ s Hs Hpc Ha) as Hs1; pose proof (inv_active _ _ Hs) as Hact; rewrite Ha in Hact;
      apply list.Forall_cons in Hact as [Hhead _]; cbn in Hhead.
    + apply connector_inv; [done|done|apply Hhead].
    + destruct Hhead as [Hid Hrev]. apply csystem_connection_inv; try done. intros Hcur. left.
      destruct (decide (resets (queue s) = 0%nat)) as [?|Hr]; [done|].
      destruct (inv_order _ _ Hs id Hr Hcur) as (Hn & _). destruct (Hn r). rewrite Ha. by left.
  - destruct (pc s) eqn:Hpc; [by exists s..|]. destruct (batch s) as [|[id|] rest] eqn:Hb; [by exists s| |].
    + destruct (pop_functor _ id rest s Hs Hpc Hb) as (Hs1 & Hcur & Hid & Hq). apply csystem_connection_inv; try done.
      intros Hc. left. unfold queue. cbn [batch pending set_loop]. rewrite Hq. by apply Hcur.
    + destruct (reset_inv rest s Hs Hpc Hb) as (s' & E & ?). exists s'. split; [|done]. cbn [step] in E. by rewrite Hpc, Hb in E.
  - by apply connect_inv.
  - destruct (disconnect_inv _ s Hs) as (s' & E & Hs' & Hc & _). exists s'. split; [done|]. unfold good. by rewrite Hc.
  - destruct Hok as (Hid & Ha & Hok). by apply act_inv.
  - destruct Hok as (Hid & Ha & Hok). apply act_inv; try done. by intros c; destruct m; cbn in Ha; destruct Ha.
  - by apply timer_inv.
Qed.

Lemma csystem_run_inv evs s : good s -> run_ok evs s -> exists s', run evs s = Some s' /\ good s'.
Proof.
  revert s. induction evs as [|ev evs IH]; intros s Hs Hok; cbn [run]; [by exists s|].
  destruct Hok as [Hev Hok]. destruct (csystem_step_inv ev s Hs Hev) as (s1 & E & Hs1). rewrite E. cbn [mbind option_bind].
  apply IH; [done|]. by apply Hok.
Qed.

Lemma client_make_good p : poller_ok p -> interest p = base -> good (make p).
Proof.
  intros Hp Hb. pose proof (Connector.connector_make_inv p Hp) as Hk. rewrite Hb in Hk.
  constructor; try done.
  - vm_compute. lia.
  - apply (TcpClient.exec_inv TcpClient.EnableRetry TcpClient.make); [apply TcpClient.client_make_inv|done].
  - by intros id ?%elem_of_nil.
Qed.

(** *** Connecting *)

Lemma run_app evs1 evs2 s : run (evs1 ++ evs2) s = run evs1 s ≫= run evs2.
Proof.
  revert s. induction evs1 as [|ev evs1 IH]; intros s; [done|]. cbn [app run].
  destruct (step ev s) as [s1|]; [apply IH|done].
Qed.

Lemma run_ok_app evs1 evs2 s s1 : run_ok evs1 s -> run evs1 s = Some s1 -> run_ok evs2 s1 -> run_ok (evs1 ++ evs2) s.
Proof.
  revert s. induction evs1 as [|ev evs1 IH]; intros s Hok E Hok2; cbn [run] in E; [by injection E as ->|].
  destruct Hok as [Hev Hok]. split; [done|]. intros s' E'. rewrite E' in E. by apply IH; [apply Hok|..].
Qed.

(** With the network taking up connects, a started client gets an attempt under
    way. *)
Lemma gets_connecting s :
  good s -> resets (queue s) = 0%nat -> TcpClient.started_ (client s) = true ->
  TcpClient.connection_ (client s) = None -> ~ Connector.gave_up (Connector.tr (connector s)) ->
  Connector.in_progress (Connector.sys_connect kernel (Connector.tr (connector s))) = true ->
  let evs := if Connector.retry_ (connector s) then [Timer] else [] in
  exists s1, run_ok evs s /\ run evs s = Some s1 /\ good s1 /\ pc s1 = pc s /\
    Connector.connecting_ (connector s1) = true /\ connections s1 = connections s /\
    Connector.tr (connector s) `prefix_of` Connector.tr (connector s1).
Proof.
  intros Hs Hr0 Hstarted Hnone Hnot Hin. pose proof Hs as []. destruct (Connector.retry_ (connector s)) eqn:Er.
  - destruct (timer_inv s Hs Hr0) as (s1 & E & Hs1). exists s1. split; [by split|]. cbn [run]. rewrite E. split; [done|].
    split; [done|].
    cbn [step] in E. unfold on_connector in E. apply bind_Some in E as (k' & Ek & E). injection E as <-.
    split; [done|]. cbn [connector connections]. cbn [Connector.step] in Ek.
    pose proof (Connector.ctl_timers _ (proj2 inv_connector0)) as Hl. rewrite Er in Hl.
    destruct (Connector.timers (connector s)); [done|]. unfold Connector.retrying in Ek. cbv zeta in Ek.
    cbn [Connector.connect_ Connector.set_retry Connector.set_timers] in Ek. rewrite inv_switch0, Hstarted in Ek.
    apply connect_connecting in Ek; [by destruct Ek|done].
  - exists s. split; [done|]. split; [done|]. split; [done|]. split; [done|]. split; [|done].
    destruct (inv_trying0 Hnone) as [?|[?|?]]; [congruence|done|congruence|done].
Qed.

(** One report of the connector's watcher makes the connection. *)
Lemma round_connects s :
  good s -> pc s = Top -> Connector.connecting_ (connector s) = true ->
  (forall l, Connector.tr (connector s) `prefix_of` l ->
     Connector.sys_getError kernel l = 0 /\ Connector.sys_self kernel l = false) ->
  exists a s', run_ok [LPoll [(OfConnector a, POLLOUT)]; LHandle] s /\
    run [LPoll [(OfConnector a, POLLOUT)]; LHandle] s = Some s' /\
    TcpClient.connection_ (client s') = Some (length (connections s)).
Proof.
  intros Hs Ht Hc Hwell. pose proof (Connector.safe_watcher _ _ (proj1 (inv_connector _ _ Hs))) as Hw.
  rewrite Hc in Hw. destruct Hw as (fd & a & r & Hfd' & _ & Hw & _).
  assert (watched a (connector s)) as Ha by by eexists.
  assert (event_ok (LPoll [(OfConnector a, POLLOUT)]) s) as Hev by by repeat constructor.
  destruct (csystem_step_inv _ s Hs Hev) as (s1 & E1 & Hs1). exists a. cbn [run_ok run]. rewrite E1. cbn [mbind option_bind].
  cbn [step] in E1. rewrite Ht in E1. injection E1 as <-. set (s1 := set_loop _ _ _ _ _) in *.
  destruct (writable_succeeds e (fun _ => eq_refl) base Hfd (connector s)) as (k' & Ek & (Hk & Hcn & Hwk & Ho) & Hn);
    [apply Hs|done|by apply Hwell|by intros; apply Hwell|].
  inversion Ho as [|? ? ? ? ? Hn'|? _ Hg Hr Hf _]; subst; [lia|lia|].
  destruct (handover_inv fd k' (set_loop Handling [] (batch s) (pending s) s)) as (s' & E & _ & Hid); try done.
  { by apply (pop_active _ (OfConnector a, POLLOUT) [] s1). }
  exists s'. split; [by split; [|intros ? [= <-]]|]. split; [|done].
  change (connector_events a POLLOUT (set_loop Handling [] (batch s) (pending s) s) ≫= Some = Some s').
  rewrite (connector_events_connect a POLLOUT fd k'); try done.
  cbn [client connections pc active batch pending connector set_loop] in *. by rewrite E.
Qed.

(** ** Properties *)

(** C9: a client that reconnects, with its connector and its connections on one
    loop, in every order of rounds, functors, calls and timers in which
    [connect()] is called on a stopped client only when its old connection is gone
    and no [resetWatcher] is queued, and no retry timer expires while one is
    ([event_ok]; without it, [impatient_client_is_undefined]): no step is
    undefined; connections come one at a time, each is established and told
    [destroyed()] once, and the one that is not disconnected is the client's;
    the connector is switched on exactly while the client is started, rests
    while there is a connection, and otherwise has an attempt under way or a
    retry pending, unless an attempt failed with an error that it does not
    retry. A [resetWatcher] never meets a later attempt. *)
Theorem client_keeps_trying (p : P) (evs : list event)
  (Hp : poller_ok p) (Hbase : interest p = base) (Hok : run_ok evs (make p)) :
  exists s, run evs (make p) = Some s /\
    TcpClient.established (TcpClient.calls (client s)) = seq 0 (length (connections s)) /\
    TcpClient.destroyed (TcpClient.calls (client s)) =
      seq 0 (match TcpClient.connection_ (client s) with Some id => id | None => length (connections s) end) /\
    (forall id c, connections s !! id = Some c ->
       TcpConnection.state_ c <> TcpConnection.kDisconnected <-> TcpClient.connection_ (client s) = Some id) /\
    Connector.connect_ (connector s) = TcpClient.started_ (client s) /\
    match TcpClient.connection_ (client s) with
    | Some _ => Connector.connecting_ (connector s) = false /\ Connector.retry_ (connector s) = false
    | None => TcpClient.started_ (client s) = true ->
        Connector.connecting_ (connector s) = true \/ Connector.retry_ (connector s) = true \/
        Connector.gave_up (Connector.tr (connector s))
    end /\
    Connector.safe base (connector s) /\ Connector.ctl (connector s) /\
    (Connector.connecting_ (connector s) = true -> ~ Connector.stale_reset Connector.IFunctor (connector s)).
Proof.
  destruct (csystem_run_inv evs _ (client_make_good p Hp Hbase) Hok) as (s & E & Hs). exists s. split; [done|].
  destruct Hs. split; [|split; [|split; [|split; [done|split; [|split; [apply inv_connector0|split; [apply inv_connector0|]]]]]]].
  - rewrite <- inv_created0. apply inv_client0.
  - rewrite <- inv_created0. apply inv_client0.
  - intros id c Hc. destruct (inv_conns0 id c Hc) as (Hi & Ho & Hcl). split.
    + intros Hst. destruct (decide (TcpClient.connection_ (client s) = Some id)) as [|Hne]; [done|].
      destruct Hst. by apply (life_closes c Hi), Hcl.
    + intros Hid Hst. assert (closed c) as H by (apply Ho; by right). by apply Hcl in H.
  - destruct (TcpClient.connection_ (client s)); [by apply inv_single0|]. intros Hst. apply inv_trying0; [done|congruence].
  - intros Hc (_ & _ & fs & Hf). rewrite inv_functors0, inv_fresh0 in Hf by done. done.
Qed.

(** C10: whenever such a client, in a run as in C9, is between two rounds, with
    nothing queued, started, not connected and not giving up, and the network is
    well: after the retry timer, if it is running, one report of the connector's
    watcher makes the connection. *)
Theorem client_connects (p : P) (before : list event) (s : t)
  (Hp : poller_ok p) (Hbase : interest p = base) (Hok : run_ok before (make p)) (Hrun : run before (make p) = Some s)
  (Htop : pc s = Top) (Hpending : pending s = [])
  (Hstarted : TcpClient.started_ (client s) = true) (Hnone : TcpClient.connection_ (client s) = None)
  (Hnot : ~ Connector.gave_up (Connector.tr (connector s)))
  (Hwell : forall l, Connector.tr (connector s) `prefix_of` l ->
     Connector.in_progress (Connector.sys_connect kernel l) = true /\
     Connector.sys_getError kernel l = 0 /\ Connector.sys_self kernel l = false) :
  exists a s', let evs :=
    (if Connector.retry_ (connector s) then [Timer] else []) ++ [LPoll [(OfConnector a, POLLOUT)]; LHandle] in
    run_ok evs s /\ run evs s = Some s' /\ TcpClient.connection_ (client s') = Some (length (connections s)).
Proof.
  destruct (csystem_run_inv before _ (client_make_good p Hp Hbase) Hok) as (s0 & E0 & Hs).
  rewrite Hrun in E0. injection E0 as <-.
  destruct (gets_connecting s Hs) as (s1 & Hok1 & E1 & Hs1 & Ht1 & Hc1 & Hn1 & Hpre); try done.
  { unfold queue. rewrite (inv_batch _ _ Hs), Hpending by by rewrite Htop. done. }
  { by apply Hwell. }
  destruct (round_connects s1 Hs1) as (a & s' & Hok2 & E2 & Hid); [congruence|done| |].
  { intros l Hl. destruct (Hwell l) as (_ & ? & ?); [by etrans|done]. }
  exists a, s'. split; [by eapply run_ok_app|]. split; [|by rewrite <- Hn1]. rewrite run_app, E1. done.
Qed.
End System.

(** ** Witnesses *)

#[local] Instance sample_poller : Poller PollPoller.t :=
  PollPoller.poll_poller (fun i => i) (fun i => eq_refl).

Definition refused_kernel (err : Z) : Connector.env := {|
  Connector.sys_socket l := 9;
  Connector.sys_connect l := match l with [] => Connector.ECONNREFUSED | _ => Connector.EINPROGRESS end;
  Connector.sys_getError l := err;
  Connector.sys_self l := false;
  Connector.connectionCallback_ l := []
|}.

Abbreviation system := (t (P := PollPoller.t)).

Definition sample_run (err : Z) : list event -> system -> option system :=
  run (refused_kernel err) (fun _ => TcpConnection.sample_env) (fun id => Z.of_nat id) PollPoller.make (fun _ _ => false).

Definition sample_ok (err : Z) : list event -> system -> Prop :=
  run_ok (refused_kernel err) (fun _ => TcpConnection.sample_env) (fun id => Z.of_nat id) PollPoller.make (fun _ _ => false).

#[local] Instance revents_ok_dec r : Decision (TcpConnection.revents_ok r).
Proof. unfold TcpConnection.revents_ok. apply _. Defined.

(** [event_ok] for concrete runs without calls on connections. *)
Definition event_okb (ev : event) (s : system) : bool :=
  match ev with
  | LPoll rs => forallb (fun x =>
      match x.1 with
      | OfConnector a => Connector.connecting_ (connector s) &&
          match Connector.watcher_ (connector s) with Some w => Watcher.self w =? a | None => false end
      | OfConnection id => (id <? length (connections s))%nat && bool_decide (TcpConnection.revents_ok x.2)
      end) rs
  | Connect => TcpClient.started_ (client s) ||
      (match TcpClient.connection_ (client s) with None => true | Some _ => false end && (resets (queue s) =? 0)%nat)
  | Act _ _ | Remote _ _ => false
  | Timer => (resets (queue s) =? 0)%nat
  | _ => true
  end.

Lemma client_event_okb_ok ev s : event_okb ev s = true -> event_ok ev s.
Proof.
  intros H. destruct ev as [rs| | | | | | |id a|id m|]; cbn [event_okb event_ok] in *; try done.
  - intros _. apply List.Forall_forall. intros x Hx. apply (proj1 (forallb_forall _ _) H) in Hx.
    destruct x as [[a|id] r]; cbn in *; apply andb_prop in Hx as [H1 H2].
    + split; [done|]. unfold watched. destruct (Connector.watcher_ (connector s)) as [w|]; [|done].
      exists w. split; [done|]. by apply Z.eqb_eq.
    + apply Nat.ltb_lt in H1. by apply bool_decide_eq_true in H2.
  - apply orb_prop in H as [H|H]; [by left|right]. apply andb_prop in H as [H1 H2]. apply Nat.eqb_eq in H2.
    split; [|done]. by destruct (TcpClient.connection_ (client s)).
  - by apply Nat.eqb_eq.
Qed.

Fixpoint run_okb (err : Z) (evs : list event) (s : system) : bool :=
  match evs with
  | [] => true
  | ev :: rest => event_okb ev s && match sample_run err [ev] s with Some s' => run_okb err rest s' | None => true end
  end.

Lemma client_run_okb_ok err evs s : run_okb err evs s = true -> sample_ok err evs s.
Proof.
  revert s. induction evs as [|ev evs IH]; intros s H; cbn [run_okb] in H; [done|].
  apply andb_prop in H as [H1 H2]. split; [by apply client_event_okb_ok|]. intros s' E. apply IH.
  unfold sample_run in H2. cbn [run] in H2. rewrite E in H2. done.
Qed.

(** The first connect is refused, the second one succeeds. The peer closes the
    connection, the client reconnects, and is disconnected. *)
Definition sample_events : list event :=
  [Connect; Timer; LPoll [(OfConnector 3, POLLOUT)]; LHandle; LSwap; LFunctor; LTop;
   LPoll [(OfConnection 0, POLLIN)]; LHandle; LSwap; LTop; LPoll [(OfConnection 0, POLLIN)]; LHandle; LSwap; LFunctor; LTop;
   LPoll [(OfConnector 6, POLLOUT)]; LHandle; Disconnect; LSwap; LFunctor; LTop].

Definition view (s : system) :=
  (TcpClient.calls (client s), TcpConnection.state_ <$> connections s, Connector.tr (connector s), pc s, active s,
   batch s, pending s, Connector.connect_ (connector s)).

Lemma client_sample_fresh l : interest PollPoller.make !! Connector.sys_socket (refused_kernel 0) l = None.
Proof. done. Qed.

Lemma client_poller_ok : poller_ok PollPoller.make.
Proof. exact PollPoller.poll_wf_make. Qed.

Lemma client_poller_empty fd : interest PollPoller.make !! fd = None.
Proof. done. Qed.

Lemma sample_events_ok : sample_ok 0 sample_events (make PollPoller.make).
Proof. apply client_run_okb_ok. vm_compute. reflexivity. Qed.

Lemma client_keeps_trying_witness :
  option_map view (sample_run 0 sample_events (make PollPoller.make)) =
    Some ([TcpClient.Start; TcpClient.Established 0; TcpClient.Destroyed 0; TcpClient.Restart; TcpClient.Established 1;
           TcpClient.Stop; TcpClient.Shutdown 1],
          [TcpConnection.kDisconnected; TcpConnection.kDisconnecting],
          [Connector.EvConnect Connector.ECONNREFUSED; Connector.EvTimer 500; Connector.EvConnect Connector.EINPROGRESS;
           Connector.EvGetError 0; Connector.EvConnected; Connector.EvConnect Connector.EINPROGRESS;
           Connector.EvGetError 0; Connector.EvConnected],
          Top, [], [], [], false) /\
  exists s, sample_run 0 sample_events (make PollPoller.make) = Some s /\
    Connector.connect_ (connector s) = TcpClient.started_ (client s).
Proof.
  split; [vm_compute; reflexivity|].
  destruct (client_keeps_trying (refused_kernel 0) (fun _ => TcpConnection.sample_env) (fun id => Z.of_nat id) PollPoller.make
    (fun _ _ => false) (interest PollPoller.make) (fun _ => System.sample_user_ok) client_sample_fresh
    client_poller_ok client_poller_empty PollPoller.make sample_events client_poller_ok eq_refl
    sample_events_ok) as (s & E & _ & _ & _ & H & _).
  exists s. split; [exact E|exact H].
Defined.

(** After the refused connect. *)
Lemma client_connects_witness :
  exists s, sample_run 0 [Connect] (make PollPoller.make) = Some s /\
    Connector.tr (connector s) = [Connector.EvConnect Connector.ECONNREFUSED; Connector.EvTimer 500] /\
    exists a s', sample_run 0 [Timer; LPoll [(OfConnector a, POLLOUT)]; LHandle] s = Some s' /\
      TcpClient.connection_ (client s') = Some 0%nat.
Proof.
  eexists. split; [reflexivity|]. split; [reflexivity|].
  edestruct (client_connects (refused_kernel 0) (fun _ => TcpConnection.sample_env) (fun id => Z.of_nat id) PollPoller.make
    (fun _ _ => false) (interest PollPoller.make) (fun _ => System.sample_user_ok) client_sample_fresh
    client_poller_ok client_poller_empty PollPoller.make [Connect])
    as (a & s' & _ & E & H); [apply client_poller_ok|reflexivity|by apply client_run_okb_ok|reflexivity|reflexivity..| | |].
  - by intros (err & [=] & _).
  - intros l [l' ->]. done.
  - exists a, s'. split; [exact E|exact H].
Defined.

(** The conditions on [Connect] and [Timer] are needed: a client that is
    disconnected and connected again within one round, and a retry timer that
    expires in the round in which its attempt failed (the loop having been busy
    for half a second), leave the connector without the watcher of its attempt. The
    next [disconnect()] dereferences a null pointer, the next report of that
    watcher a destroyed object. *)
Theorem impatient_client_is_undefined :
  let again := [Connect; Timer; Disconnect; Connect; LPoll []; LSwap; LFunctor; LTop] in
  let late := [Connect; Timer; LPoll [(OfConnector 3, POLLOUT)]; LHandle; Timer; LSwap; LFunctor; LTop] in
  option_map (fun s => (Connector.connecting_ (connector s), Connector.watcher_ (connector s)))
    (sample_run 0 again (make PollPoller.make)) = Some (true, None) /\
  sample_run 0 (again ++ [Disconnect]) (make PollPoller.make) = None /\
  option_map (fun s => (Connector.connecting_ (connector s), Connector.watcher_ (connector s), interest (Connector.poller (connector s)) !! 9))
    (sample_run Connector.ECONNREFUSED late (make PollPoller.make)) = Some (true, None, Some (POLLOUT, 6)) /\
  sample_run Connector.ECONNREFUSED (late ++ [LPoll [(OfConnector 6, POLLOUT)]; LHandle]) (make PollPoller.make) = None.
Proof. split_and!; vm_compute; reflexivity. Qed.
End ClientSystem.
