(* ===== verification/ChatCodec.v ===== *)
(** The length-prefixed messages of [examples/chat/codec.h] on top of a
    connection's receive buffer, and the two programs that exchange them,
    [examples/chat/server.cpp] and [examples/chat/client.cpp]. *)

From S2P Require Import Prelude NetBuffer NetByteStream NetReceiveBuffer.

(** ** 32-bit integers in memory

    The host is little-endian; [htobe32] and [be32toh] both reverse the four
    bytes of their argument. *)

Definition byte_of (z : Z) : byte := default Byte.x00 (Byte.of_N (Z.to_N (z `mod` 256))).
Definition byte_val (b : byte) : Z := Z.of_N (Byte.to_N b).

(** The bytes of a [uint32_t] object. *)
Definition le_bytes (v : Z) : list byte :=
  [byte_of v; byte_of (v / 256); byte_of (v / 65536); byte_of (v / 16777216)].

(** The value of a [uint32_t] object that consists of these bytes. *)
Fixpoint le_value (bytes : list byte) : Z :=
  match bytes with
  | [] => 0
  | b :: rest => byte_val b + 256 * le_value rest
  end.

Definition bswap32 (v : Z) : Z := le_value (rev (le_bytes v)).
Definition htobe32 (v : Z) : Z := bswap32 v.
Definition be32toh (v : Z) : Z := bswap32 v.

Lemma byte_val_range b : 0 <= byte_val b < 256.
Proof. unfold byte_val. pose proof (Byte.to_N_bounded b). lia. Qed.

Lemma byte_val_of z : byte_val (byte_of z) = z `mod` 256.
Proof.
  unfold byte_of, byte_val. pose proof (Z.mod_pos_bound z 256 ltac:(lia)).
  destruct (Byte.of_N _) as [b|] eqn:E; cbn.
  - apply Byte.to_of_N in E. rewrite E. lia.
  - apply Byte.of_N_None_iff in E. lia.
Qed.

Lemma byte_of_val b : byte_of (byte_val b) = b.
Proof.
  unfold byte_of, byte_val. pose proof (Byte.to_N_bounded b).
  rewrite Z.mod_small, N2Z.id by lia. by rewrite Byte.of_to_N.
Qed.

Lemma le_value_bytes v : 0 <= v < 4294967296 -> le_value (le_bytes v) = v.
Proof.
  intros. cbn. rewrite !byte_val_of.
  pose proof (Z.div_mod v 256 ltac:(lia)). pose proof (Z.div_mod (v / 256) 256 ltac:(lia)).
  pose proof (Z.div_mod (v / 65536) 256 ltac:(lia)).
  rewrite Z.div_div in * by lia.
  assert (v / 16777216 < 256) by (apply Z.div_lt_upper_bound; lia).
  assert (0 <= v / 16777216) by (apply Z.div_pos; lia).
  rewrite (Z.mod_small (v / 16777216)) by lia. change (256 * 256) with 65536 in *.
  change (65536 * 256) with 16777216 in *. lia.
Qed.

Lemma byte_of_split b v : byte_of (byte_val b + 256 * v) = b.
Proof.
  rewrite <- (byte_of_val b) at 2. unfold byte_of.
  by rewrite (Z.mul_comm 256 v), Z.mod_add by lia.
Qed.

Lemma le_bytes_value a b c d : le_bytes (le_value [a; b; c; d]) = [a; b; c; d].
Proof.
  cbn [le_value]. unfold le_bytes.
  assert (forall x v, (byte_val x + 256 * v) / 256 = v) as Hd.
  { intros x v. pose proof (byte_val_range x).
    rewrite (Z.mul_comm 256), Z.div_add, Z.div_small by lia. lia. }
  change 65536 with (256 * 256). change 16777216 with (256 * 256 * 256).
  rewrite <- !Z.div_div by lia. rewrite !Hd, !byte_of_split.
  pose proof (byte_of_split d 0) as E. by rewrite Z.mul_0_r in *.
Qed.

Lemma le_value_range4 a b c d : 0 <= le_value [a; b; c; d] < 4294967296.
Proof.
  cbn. pose proof (byte_val_range a). pose proof (byte_val_range b).
  pose proof (byte_val_range c). pose proof (byte_val_range d). lia.
Qed.

Lemma u32_small_id x : 0 <= x < 4294967296 -> u32 x = x.
Proof. apply Z.mod_small. Qed.

(** Signed to unsigned and back. *)
Lemma u32_i32 x : u32 (i32 x) = u32 x.
Proof.
  unfold u32, i32. rewrite Zminus_mod_idemp_l. f_equal. lia.
Qed.

Lemma i32_small x : -2147483648 <= x < 2147483648 -> i32 x = x.
Proof. intros. unfold i32. rewrite Z.mod_small by lia. lia. Qed.

Lemma i32_u32 x : i32 (u32 x) = i32 x.
Proof. unfold u32, i32. rewrite Zplus_mod_idemp_l. done. Qed.

Module Codec.

Definition kHeaderLen : Z := 4.

(** What [onRead] does, in order: it takes bytes from the buffer, hands a
    message to [messageCallback_], or calls [conn->shutdown()]. *)
Inductive effect := Retrieve (n : Z) | Message (m : list byte) | Shutdown.

(** [int32_t be32; peek(&be32, sizeof(int32_t)); be32toh(be32)]. The object is
    not initialised, but [peek] overwrites all of its bytes. *)
Definition peek_len (rb : ReceiveBuffer.t) : option Z :=
  be32 ← ReceiveBuffer.peek (replicate 4 Byte.x00) kHeaderLen rb;
  Some (i32 (be32toh (le_value be32))).

(** The [while] loop of [onRead]. *)
Fixpoint onRead_loop (fuel : nat) (rb : ReceiveBuffer.t) (effs : list effect)
  : option (ReceiveBuffer.t * list effect) :=
  if kHeaderLen <=? ReceiveBuffer.size rb then
    match fuel with
    | O => None
    | S fuel' =>
        len ← peek_len rb;
        if (65536 <? len) || (len <? 0) then Some (rb, effs ++ [Shutdown])
        else if u64 (len + kHeaderLen) <=? ReceiveBuffer.size rb then
          rb1 ← ReceiveBuffer.retrieve kHeaderLen rb;
          message ← ReceiveBuffer.peek_string [] len rb1;
          rb2 ← ReceiveBuffer.retrieve (u64 (len + kHeaderLen)) rb1;
          onRead_loop fuel' rb2
            (effs ++ [Retrieve kHeaderLen; Message message; Retrieve (u64 (len + kHeaderLen))])
        else Some (rb, effs)
    end
  else Some (rb, effs).

(** [onRead(conn, receiveBuffer)]. Every round but the last takes bytes. *)
Definition onRead (rb : ReceiveBuffer.t) : option (ReceiveBuffer.t * list effect) :=
  onRead_loop (Z.to_nat (ReceiveBuffer.size rb)) rb [].

(** [std::string::max_size()]: a larger [reserve] throws. *)
Definition max_size : Z := 9223372036854775807.

(** The string [send(conn, message)] passes to [conn->send]; [None] is the
    exception. *)
Definition frame (message : list byte) : option (list byte) :=
  let len := i32 (zlen message) in
  let be32 := i32 (htobe32 (u32 len)) in
  if max_size <? u64 (len + kHeaderLen) then None
  else Some (le_bytes (u32 be32) ++ message).

(** ** Reference decoder

    What reading the bytes [l] amounts to, without buffers: the effects, and the
    bytes left. It is the decoder the code implements, not the one the protocol
    asks for: after a message it goes on four bytes too far, since the code
    retrieves the header a second time with the body. *)

(** The length field at the front of [l]. *)
Definition header (l : list byte) : Z := i32 (le_value (rev (ztake kHeaderLen l))).

Inductive decodes : list byte -> list effect -> list byte -> Prop :=
  | decodes_short l : zlen l < kHeaderLen -> decodes l [] l
  | decodes_bad l :
      kHeaderLen <= zlen l -> (65536 < header l \/ header l < 0) -> decodes l [Shutdown] l
  | decodes_wait l :
      kHeaderLen <= zlen l -> 0 <= header l <= 65536 -> zlen l < header l + kHeaderLen ->
      decodes l [] l
  | decodes_frame l effs rest :
      kHeaderLen <= zlen l -> 0 <= header l <= 65536 -> header l + kHeaderLen <= zlen l ->
      decodes (zdrop (header l + kHeaderLen) (zdrop kHeaderLen l)) effs rest ->
      decodes l (Retrieve kHeaderLen :: Message (slice kHeaderLen (header l) l)
                   :: Retrieve (header l + kHeaderLen) :: effs) rest.

Lemma decodes_det l effs1 rest1 effs2 rest2 :
  decodes l effs1 rest1 -> decodes l effs2 rest2 -> effs1 = effs2 /\ rest1 = rest2.
Proof.
  intros H. revert effs2 rest2.
  induction H as [l|l|l|l effs rest ? ? ? ? IH]; intros effs2 rest2 Hd2;
    inversion Hd2; subst; try lia; try done.
  by edestruct IH as [-> ->].
Qed.

(** ** The loop implements the decoder *)

Lemma list_4 (l : list byte) : zlen l = 4 -> exists a b c d, l = [a; b; c; d].
Proof.
  unfold zlen. destruct l as [|a [|b [|c [|d [|]]]]]; cbn; try lia. eauto.
Qed.

Lemma be32toh_value l : zlen l = 4 -> be32toh (le_value l) = le_value (rev l).
Proof.
  intros (a & b & c & d & ->)%list_4. unfold be32toh, bswap32. by rewrite le_bytes_value.
Qed.

Lemma size_zlen rb :
  ReceiveBuffer.wf rb -> in_u64 (zlen (ReceiveBuffer.contents rb)) ->
  ReceiveBuffer.size rb = zlen (ReceiveBuffer.contents rb).
Proof. intros (_ & _ & E) ?. unfold ReceiveBuffer.size. by rewrite E, u64_small. Qed.

Lemma peek_len_spec rb :
  ReceiveBuffer.wf rb -> kHeaderLen <= zlen (ReceiveBuffer.contents rb) ->
  peek_len rb = Some (header (ReceiveBuffer.contents rb)).
Proof.
  unfold kHeaderLen. intros Hwf Hl. unfold peek_len, header, kHeaderLen.
  rewrite ReceiveBuffer.peek_spec; [|done|unfold in_u64; lia|rewrite zlen_replicate; lia].
  cbn [mbind option_bind].
  rewrite splice_all by (rewrite zlen_replicate; zlia).
  by rewrite be32toh_value by zlia.
Qed.

Lemma onRead_loop_spec fuel rb effs0 :
  ReceiveBuffer.wf rb -> in_u64 (zlen (ReceiveBuffer.contents rb)) ->
  zlen (ReceiveBuffer.contents rb) <= Z.of_nat fuel ->
  exists rb' effs, onRead_loop fuel rb effs0 = Some (rb', effs0 ++ effs) /\
    ReceiveBuffer.wf rb' /\ decodes (ReceiveBuffer.contents rb) effs (ReceiveBuffer.contents rb').
Proof.
  revert rb effs0. induction fuel as [|fuel IH]; intros rb effs0 Hwf H64 Hf;
    cbn [onRead_loop]; rewrite size_zlen by done; set (l := ReceiveBuffer.contents rb) in *.
  { unfold kHeaderLen. rewrite (proj2 (Z.leb_gt _ _)) by lia. exists rb, [].
    rewrite app_nil_r. split; [done|]. split; [done|]. apply decodes_short. unfold kHeaderLen. subst l. lia. }
  case_if; cycle 1.
  { exists rb, []. rewrite app_nil_r. split; [done|]. split; [done|]. by apply decodes_short. }
  rewrite peek_len_spec by done. fold l. cbn [mbind option_bind].
  destruct ((65536 <? header l) || (header l <? 0)) eqn:Eb.
  { exists rb, [Shutdown]. split; [done|]. split; [done|]. apply decodes_bad; [done|].
    apply orb_true_iff in Eb as [?|?]; zbool; auto. }
  apply orb_false_iff in Eb as [? ?]. zbool. unfold kHeaderLen in *.
  rewrite (u64_small (header l + 4)) by (unfold in_u64; lia). case_if; cycle 1.
  { exists rb, []. rewrite app_nil_r. split; [done|]. split; [done|].
    apply decodes_wait; unfold kHeaderLen; subst l; lia. }
  destruct (ReceiveBuffer.retrieve_spec rb 4 Hwf) as (rb1 & -> & Hwf1 & Hc1); [unfold in_u64; lia|].
  cbn [mbind option_bind]. rewrite ReceiveBuffer.peek_string_spec by (done || unfold in_u64; lia).
  cbn [mbind option_bind].
  destruct (ReceiveBuffer.retrieve_spec rb1 (header l + 4) Hwf1) as (rb2 & -> & Hwf2 & Hc2);
    [unfold in_u64; lia|].
  cbn [mbind option_bind]. fold l in Hc1. rewrite Hc1 in Hc2 |- *.
  destruct (IH rb2 (effs0 ++ [Retrieve 4; Message ([] ++ ztake (header l) (zdrop 4 l)); Retrieve (header l + 4)]))
    as (rb' & effs & -> & Hwf' & Hd); [done|rewrite Hc2; zlia|rewrite Hc2; zlia|].
  exists rb'. eexists. rewrite <- app_assoc. split; [reflexivity|]. split; [done|].
  apply decodes_frame; unfold kHeaderLen; try lia. by rewrite <- Hc2.
Qed.

Lemma onRead_spec rb :
  ReceiveBuffer.wf rb -> in_u64 (zlen (ReceiveBuffer.contents rb)) ->
  exists rb' effs, onRead rb = Some (rb', effs) /\
    ReceiveBuffer.wf rb' /\ decodes (ReceiveBuffer.contents rb) effs (ReceiveBuffer.contents rb').
Proof.
  intros. unfold onRead. apply (onRead_loop_spec _ rb []); [done|done|].
  rewrite size_zlen by done. pose proof (zlen_nonneg (ReceiveBuffer.contents rb)). lia.
Qed.
(** ** Frames *)

Lemma frame_spec m :
  zlen m <= 2147483643 -> frame m = Some (rev (le_bytes (zlen m)) ++ m).
Proof.
  intros Hm. pose proof (zlen_nonneg m). unfold frame, kHeaderLen, max_size.
  rewrite i32_small, (u64_small (zlen m + 4)), (proj2 (Z.ltb_ge _ _)) by (unfold in_u64; lia).
  rewrite u32_i32, (u32_small_id (zlen m)) by lia.
  rewrite u32_small_id by apply le_value_range4.
  unfold htobe32, bswap32, le_bytes at 2. cbn [rev app]. by rewrite le_bytes_value.
Qed.

Lemma zlen_frame m f : zlen m <= 2147483643 -> frame m = Some f -> zlen f = kHeaderLen + zlen m.
Proof. intros Hm. rewrite frame_spec by done. intros E%(inj Some). by rewrite <- E, zlen_app. Qed.

(** What stands at the front of a buffer that starts with a frame. *)
Lemma frame_front m f l :
  zlen m <= 65536 -> frame m = Some f ->
  header (f ++ l) = zlen m /\ slice kHeaderLen (zlen m) (f ++ l) = m /\
  zdrop kHeaderLen (f ++ l) = m ++ l.
Proof.
  intros Hm. rewrite frame_spec by lia. intros <-%(inj Some). pose proof (zlen_nonneg m).
  assert (zdrop kHeaderLen ((rev (le_bytes (zlen m)) ++ m) ++ l) = m ++ l) as Hd by done.
  split; [|split; [|done]].
  - unfold header.
    change (ztake kHeaderLen ((rev (le_bytes (zlen m)) ++ m) ++ l)) with (rev (le_bytes (zlen m))).
    rewrite rev_involutive, le_value_bytes by lia. apply i32_small. lia.
  - unfold slice. rewrite Hd, ztake_app_le, ztake_all by lia. done.
Qed.

(** A proper prefix of a frame is left alone. *)
Lemma decodes_partial m f k :
  zlen m <= 65536 -> frame m = Some f -> k < zlen f -> decodes (ztake k f) [] (ztake k f).
Proof.
  intros Hm Hf Hk. pose proof (zlen_frame m f ltac:(lia) Hf) as Hl. pose proof (zlen_nonneg m).
  destruct (decide (k < kHeaderLen)) as [?|Hge].
  { apply decodes_short. unfold kHeaderLen in *. zlia. }
  assert (header (ztake k f) = zlen m) as Hh.
  { destruct (frame_front m f [] Hm Hf) as (Hh & _ & _). rewrite app_nil_r in Hh.
    rewrite <- Hh. unfold header. rewrite ztake_ztake. do 4 f_equal. unfold kHeaderLen in *. lia. }
  apply decodes_wait; rewrite ?Hh; unfold kHeaderLen in *; zlia.
Qed.

(** [onRead] is determined by the contents of the buffer. *)
Lemma onRead_decodes rb effs l :
  ReceiveBuffer.wf rb -> in_u64 (zlen (ReceiveBuffer.contents rb)) ->
  decodes (ReceiveBuffer.contents rb) effs l ->
  exists rb', onRead rb = Some (rb', effs) /\ ReceiveBuffer.wf rb' /\ ReceiveBuffer.contents rb' = l.
Proof.
  intros Hwf H64 Hd. destruct (onRead_spec rb Hwf H64) as (rb' & effs' & E & Hwf' & Hd').
  destruct (decodes_det _ _ _ _ _ Hd Hd') as [-> ->]. by exists rb'.
Qed.

Lemma onRead_wf rb rb' effs :
  ReceiveBuffer.wf rb -> in_u64 (zlen (ReceiveBuffer.contents rb)) ->
  onRead rb = Some (rb', effs) -> ReceiveBuffer.wf rb'.
Proof. intros Hwf H64 E. destruct (onRead_spec rb Hwf H64) as (rb2 & effs2 & E2 & ? & _). congruence. Qed.

Lemma decodes_nil : decodes [] [] [].
Proof. by apply decodes_short. Qed.

Definition messages (effs : list effect) : list (list byte) :=
  omap (fun e => match e with Message m => Some m | _ => None end) effs.

(** A whole frame at the front of the buffer: its message is delivered, and the
    decoder goes on four bytes into what follows. *)
Lemma front_frame_decodes m f l rb :
  zlen m <= 65536 -> frame m = Some f -> ReceiveBuffer.wf rb ->
  in_u64 (zlen (ReceiveBuffer.contents rb)) -> ReceiveBuffer.contents rb = f ++ l ->
  exists rb' effs effs_l, onRead rb = Some (rb', effs) /\ ReceiveBuffer.wf rb' /\
    messages effs = m :: messages effs_l /\ decodes (zdrop kHeaderLen l) effs_l (ReceiveBuffer.contents rb').
Proof.
  intros Hm Hf Hwf H64 Hc. pose proof (zlen_frame m f ltac:(lia) Hf) as Hl. pose proof (zlen_nonneg m).
  destruct (onRead_spec rb Hwf H64) as (rb' & effs & E & Hwf' & Hd). rewrite Hc in Hd.
  destruct (frame_front m f l Hm Hf) as (Hh & Hsl & Hz).
  inversion Hd as [? Hs|? ? Hbad|? ? ? Hw|l' effs' rest ? ? ? Hd']; subst;
    rewrite ?Hh, ?Hsl, ?Hz in *; unfold kHeaderLen in *; try (rewrite zlen_app in *; zlia).
  exists rb', (Retrieve 4 :: Message m :: Retrieve (zlen m + 4) :: effs'), effs'.
  split; [done|]. split; [done|]. split; [done|]. rewrite zdrop_app_ge in Hd' by lia.
  by replace (zlen m + 4 - zlen m) with 4 in Hd' by lia.
Qed.

(** A whole frame, alone in the buffer. *)
Lemma whole_frame_decodes m f rb :
  zlen m <= 65536 -> frame m = Some f -> ReceiveBuffer.wf rb -> ReceiveBuffer.contents rb = f ->
  exists rb' effs, onRead rb = Some (rb', effs) /\ messages effs = [m] /\
    ReceiveBuffer.contents rb' = [].
Proof.
  intros Hm Hf Hwf Hc. pose proof (zlen_frame m f ltac:(lia) Hf) as Hl. unfold kHeaderLen in Hl.
  destruct (front_frame_decodes m f [] rb Hm Hf Hwf) as (rb' & effs & effs_l & E & _ & Hms & Hd);
    [rewrite Hc; zlia|by rewrite app_nil_r|].
  destruct (decodes_det _ _ _ _ _ Hd decodes_nil) as [-> Hr]. by exists rb', effs.
Qed.

(** ** Theorems *)

(** C25: [Codec::onRead] returns for every well-formed receive buffer, without
    reading outside of it, and its effects and the bytes it leaves are those
    of the reference decoder: they depend on the bytes received only, not on
    how they are spread over the segments of the buffer. *)
Theorem onRead_implements_decoder (rb : ReceiveBuffer.t) (Hwf : ReceiveBuffer.wf rb)
  (H64 : in_u64 (zlen (ReceiveBuffer.contents rb))) :
  exists rb' effs, onRead rb = Some (rb', effs) /\ ReceiveBuffer.wf rb' /\
    decodes (ReceiveBuffer.contents rb) effs (ReceiveBuffer.contents rb') /\
    (forall effs' l, decodes (ReceiveBuffer.contents rb) effs' l ->
       effs' = effs /\ l = ReceiveBuffer.contents rb').
Proof.
  destruct (onRead_spec rb Hwf H64) as (rb' & effs & E & Hwf' & Hd).
  exists rb', effs. split; [done|]. split; [done|]. split; [done|].
  intros effs' l Hd'. by apply (decodes_det _ _ _ _ _ Hd' Hd).
Qed.

(** C26: round trip of the chat protocol, for a message of at most 65536 bytes
    whose frame is at the front of the receive buffer. While its bytes arrive,
    [onRead] waits and takes nothing; once all have arrived it delivers exactly
    that message first, and if nothing else is in the buffer it delivers nothing
    more and leaves nothing. Bytes that follow the frame are not decoded from
    where they start but four bytes further on
    ([second_message_loses_header]). *)
Theorem codec_round_trip (m f l : list byte) (k : Z) (rb : ReceiveBuffer.t)
  (Hm : zlen m <= 65536) (Hf : frame m = Some f)
  (Hwf : ReceiveBuffer.wf rb) (H64 : in_u64 (zlen (ReceiveBuffer.contents rb)))
  (Hc : ReceiveBuffer.contents rb = ztake k (f ++ l)) :
  exists rb' effs, onRead rb = Some (rb', effs) /\ ReceiveBuffer.wf rb' /\
    if k <? zlen f
    then effs = [] /\ ReceiveBuffer.contents rb' = ztake k f
    else let after := ztake (k - zlen f) l in
      (exists effs_l, messages effs = m :: messages effs_l /\
         decodes (zdrop kHeaderLen after) effs_l (ReceiveBuffer.contents rb')) /\
      (after = [] -> messages effs = [m] /\ ReceiveBuffer.contents rb' = []).
Proof.
  case_if.
  - rewrite ztake_app_le in Hc by lia.
    destruct (onRead_decodes rb [] (ztake k f)) as (rb' & ? & ? & ?);
      [done|done|rewrite Hc; by eapply decodes_partial|]. by exists rb', [].
  - rewrite ztake_app_ge in Hc by lia.
    destruct (front_frame_decodes m f _ rb Hm Hf Hwf H64 Hc) as (rb' & effs & effs_l & E & Hwf' & Hms & Hd).
    exists rb', effs. split; [done|]. split; [done|]. split; [by exists effs_l|].
    intros Hz. rewrite Hz in Hd. destruct (decodes_det _ _ _ _ _ Hd decodes_nil) as [-> Hr]. done.
Qed.

(** When two messages are in the buffer at once, [onRead] delivers the
    first and retrieves the header of the second with it ([retrieve] is called
    for the header, and then for header and body): it goes on decoding at the
    body of the second message, whose text is taken for a header. *)
Theorem second_message_loses_header (a b fa fb : list byte) (rb : ReceiveBuffer.t)
  (Ha : zlen a <= 65536) (Hb : zlen b <= 65536) (Hfa : frame a = Some fa) (Hfb : frame b = Some fb)
  (Hwf : ReceiveBuffer.wf rb) (Hc : ReceiveBuffer.contents rb = fa ++ fb) :
  exists rb' effs, onRead rb = Some (rb', effs) /\
    exists effs_b, messages effs = a :: messages effs_b /\
      decodes b effs_b (ReceiveBuffer.contents rb').
Proof.
  pose proof (zlen_frame a fa ltac:(lia) Hfa). pose proof (zlen_frame b fb ltac:(lia) Hfb).
  destruct (front_frame_decodes a fa fb rb Ha Hfa Hwf) as (rb' & effs & effs_b & E & _ & Hms & Hd);
    [rewrite Hc; unfold kHeaderLen in *; zlia|done|].
  destruct (frame_front b fb [] Hb Hfb) as (_ & _ & Hz). rewrite !app_nil_r in Hz. rewrite Hz in Hd.
  exists rb', effs. split; [done|]. by exists effs_b.
Qed.

(** C39: a length that is negative or above 65536 makes [onRead] shut the
    connection down and leave the buffer as it is; so every further read event
    sees the same length again and delivers nothing. *)
Theorem bad_length_is_refused (rb : ReceiveBuffer.t) (Hwf : ReceiveBuffer.wf rb)
  (H64 : in_u64 (zlen (ReceiveBuffer.contents rb)))
  (Hl : kHeaderLen <= zlen (ReceiveBuffer.contents rb))
  (Hbad : 65536 < header (ReceiveBuffer.contents rb) \/ header (ReceiveBuffer.contents rb) < 0)
  (more : list byte) (rb2 : ReceiveBuffer.t) (Hwf2 : ReceiveBuffer.wf rb2)
  (H64' : in_u64 (zlen (ReceiveBuffer.contents rb2)))
  (Hc2 : ReceiveBuffer.contents rb2 = ReceiveBuffer.contents rb ++ more) :
  (exists rb', onRead rb = Some (rb', [Shutdown]) /\
     ReceiveBuffer.contents rb' = ReceiveBuffer.contents rb) /\
  (exists rb', onRead rb2 = Some (rb', [Shutdown]) /\
     ReceiveBuffer.contents rb' = ReceiveBuffer.contents rb2).
Proof.
  split.
  - destruct (onRead_decodes rb [Shutdown] (ReceiveBuffer.contents rb)) as (rb' & ? & _ & ?);
      [done|done|by apply decodes_bad|]. by exists rb'.
  - destruct (onRead_decodes rb2 [Shutdown] (ReceiveBuffer.contents rb2)) as (rb' & ? & _ & ?);
      [done|done| |by exists rb'].
    apply decodes_bad; rewrite Hc2; unfold header in *.
    + rewrite zlen_app. pose proof (zlen_nonneg more). lia.
    + by rewrite ztake_app_le.
Qed.

(** *** Witnesses *)

(** A receive buffer that has just received [bytes]. *)
Definition filled (bytes : list byte) : ReceiveBuffer.t :=
  match ReceiveBuffer.receive bytes ReceiveBuffer.make with
  | Some (_, rb) => rb
  | None => ReceiveBuffer.make
  end.

Lemma filled_spec bytes :
  bytes <> [] -> zlen bytes <= 8192 ->
  ReceiveBuffer.wf (filled bytes) /\ ReceiveBuffer.contents (filled bytes) = bytes /\
  in_u64 (zlen (ReceiveBuffer.contents (filled bytes))).
Proof.
  intros Hne Hl. unfold filled.
  destruct (ReceiveBuffer.receive_accepts ReceiveBuffer.make bytes ReceiveBuffer.rb_wf_make Hne)
    as (rb' & E & Hwf & Hc & _).
  pose proof (ReceiveBuffer.prepareReceive_bounds _ ReceiveBuffer.rb_wf_make) as [[Hb _] _].
  unfold ReceiveBuffer.kReceiveSize in Hb. rewrite E.
  rewrite ztake_all in Hc by lia. change (ReceiveBuffer.contents ReceiveBuffer.make) with (@nil byte) in Hc.
  split; [exact Hwf|]. rewrite Hc. split; [reflexivity|zlia].
Qed.

Definition hi : list byte := [Byte.x68; Byte.x69].
Definition framed_hi : list byte := [Byte.x00; Byte.x00; Byte.x00; Byte.x02; Byte.x68; Byte.x69].

Lemma onRead_implements_decoder_witness :
  exists rb' effs, onRead (filled framed_hi) = Some (rb', effs) /\
    decodes framed_hi effs (ReceiveBuffer.contents rb').
Proof.
  destruct (filled_spec framed_hi) as (Hwf & Hc & H64); [discriminate|vm_compute; discriminate|].
  destruct (onRead_implements_decoder (filled framed_hi) Hwf H64) as (rb' & effs & E & _ & Hd & _).
  exists rb', effs. split; [exact E|]. rewrite Hc in Hd. exact Hd.
Defined.

Lemma codec_round_trip_witness :
  frame hi = Some framed_hi /\
  exists rb' effs, onRead (filled framed_hi) = Some (rb', effs) /\ messages effs = [hi] /\
    ReceiveBuffer.contents rb' = [].
Proof.
  split; [vm_compute; reflexivity|].
  destruct (filled_spec framed_hi) as (Hwf & Hc & _); [discriminate|vm_compute; discriminate|].
  destruct (codec_round_trip hi framed_hi [] 6 (filled framed_hi)) as (rb' & effs & E & _ & _ & H);
    [vm_compute; discriminate|vm_compute; reflexivity|exact Hwf|rewrite Hc; vm_compute; intuition discriminate|rewrite Hc; reflexivity|].
  exists rb', effs. split; [exact E|]. apply H. reflexivity.
Defined.

(** The second "hi" is left behind as the start of another header. *)
Lemma second_message_loses_header_witness :
  exists rb' effs, onRead (filled (framed_hi ++ framed_hi)) = Some (rb', effs) /\
    messages effs = [hi] /\ ReceiveBuffer.contents rb' = hi.
Proof.
  destruct (filled_spec (framed_hi ++ framed_hi)) as (Hwf & Hc & _);
    [discriminate|vm_compute; discriminate|].
  destruct (second_message_loses_header hi hi framed_hi framed_hi (filled (framed_hi ++ framed_hi)))
    as (rb' & effs & E & effs_b & Hm & Hd);
    [vm_compute; discriminate|vm_compute; discriminate|vm_compute; reflexivity|vm_compute; reflexivity
    |exact Hwf|exact Hc|].
  exists rb', effs. split; [exact E|].
  assert (decodes hi [] hi) as Hd' by (apply decodes_short; reflexivity).
  destruct (decodes_det _ _ _ _ _ Hd Hd') as [-> ->]. split; [exact Hm|reflexivity].
Defined.

Definition negative : list byte := [Byte.xff; Byte.x00; Byte.x00; Byte.x00].

Lemma bad_length_is_refused_witness :
  exists rb', onRead (filled (negative ++ framed_hi)) = Some (rb', [Shutdown]) /\
    ReceiveBuffer.contents rb' = negative ++ framed_hi.
Proof.
  destruct (filled_spec negative) as (Hwf & Hc & H64); [discriminate|vm_compute; discriminate|].
  destruct (filled_spec (negative ++ framed_hi)) as (Hwf2 & Hc2 & H642); [discriminate|vm_compute; discriminate|].
  destruct (bad_length_is_refused (filled negative) Hwf H64) with (more := framed_hi) (rb2 := filled (negative ++ framed_hi))
    as [_ (rb' & E & Hr)]; [rewrite Hc; vm_compute; discriminate|right; rewrite Hc; vm_compute; reflexivity|exact Hwf2|exact H642|
    rewrite Hc, Hc2; reflexivity|].
  exists rb'. split; [exact E|]. rewrite Hr. exact Hc2.
Defined.
End Codec.

(** ** [ChatServer] *)

Module ChatServer.

(** Connections are numbered; [connections_] is an [unordered_set]. *)
Record t := mk { connections_ : gset nat }.

Definition make : t := mk ∅.

Definition onConnect (conn : nat) (s : t) : t := mk ({[conn]} ∪ connections_ s).
Definition onDisconnect (conn : nat) (s : t) : t := mk (connections_ s ∖ {[conn]}).

(** [onMessage(conn, message)]: the calls [conn->send(buffer)] it makes. *)
Definition onMessage (message : list byte) (s : t) : option (list (nat * list byte)) :=
  mapM (fun conn => buffer ← Codec.frame message; Some (conn, buffer)) (elements (connections_ s)).

(** The read callback: [Codec::onRead] with [onMessage]. No call made by
    [onMessage] changes [connections_] or the receive buffer. *)
Definition onRead (rb : ReceiveBuffer.t) (s : t) : option (ReceiveBuffer.t * list (nat * list byte)) :=
  '(rb', effs) ← Codec.onRead rb;
  sends ← mapM (fun message => onMessage message s) (Codec.messages effs);
  Some (rb', mjoin sends).
End ChatServer.

(** ** [ChatClient] *)

Module ChatClient.

(** [printed] is what was written to the standard output. *)
Record t := mk { connection_ : option nat; printed : list byte }.

Definition make : t := mk None [].

(** Each of these holds [mutex_] throughout. *)
Definition onConnect (conn : nat) (s : t) : t := mk (Some conn) (printed s).
Definition onDisconnect (s : t) : t := mk None (printed s).

(** [send(message)]: the call [conn->send(buffer)] it makes, if any. *)
Definition send (message : list byte) (s : t) : option (option (nat * list byte)) :=
  match connection_ s with
  | Some conn => buffer ← Codec.frame message; Some (Some (conn, buffer))
  | None => Some None
  end.

(** [printf("<<< %s\n", message.c_str())]; [%s] stops at the first NUL. *)
Definition onMessage (message : list byte) (s : t) : t :=
  mk (connection_ s)
     (printed s ++ [Byte.x3c; Byte.x3c; Byte.x3c; Byte.x20] ++ c_str message ++ [Byte.x0a]).

Definition onRead (rb : ReceiveBuffer.t) (s : t) : option (ReceiveBuffer.t * t) :=
  '(rb', effs) ← Codec.onRead rb;
  Some (rb', foldl (fun s message => onMessage message s) s (Codec.messages effs)).
End ChatClient.

(** ** The programs together *)

Module Chat.

Lemma mapM_pair (conns : list nat) (buffer : list byte) :
  mapM (fun conn => Some (conn, buffer)) conns = Some ((fun conn => (conn, buffer)) <$> conns).
Proof. induction conns as [|c conns IH]; [done|]. cbn. by rewrite IH. Qed.

(** C29: a line of at most 65536 bytes that a connected chat client sends, when
    its frame is alone in the server's receive buffer, is sent on to every
    connection the server has, once each, and to nobody else; and every client
    in whose receive buffer that frame is alone prints the line, up to its first
    NUL. (Of two frames in a buffer the second is lost,
    [second_message_loses_header].) *)
Theorem chat_delivers (message : list byte) (client : ChatClient.t) (conn : nat)
  (server : ChatServer.t) (rb : ReceiveBuffer.t) (f : list byte)
  (Hm : zlen message <= 65536)
  (Hconn : ChatClient.connection_ client = Some conn)
  (Hsend : ChatClient.send message client = Some (Some (conn, f)))
  (Hwf : ReceiveBuffer.wf rb) (Hc : ReceiveBuffer.contents rb = f) :
  exists rb' sends, ChatServer.onRead rb server = Some (rb', sends) /\
    ReceiveBuffer.contents rb' = [] /\ NoDup sends.*1 /\
    (forall d buffer, (d, buffer) ∈ sends <-> d ∈ ChatServer.connections_ server /\ buffer = f) /\
    forall receiver rb2, ReceiveBuffer.wf rb2 -> ReceiveBuffer.contents rb2 = f ->
      exists rb2' receiver', ChatClient.onRead rb2 receiver = Some (rb2', receiver') /\
        ReceiveBuffer.contents rb2' = [] /\
        ChatClient.printed receiver' =
          ChatClient.printed receiver ++ [Byte.x3c; Byte.x3c; Byte.x3c; Byte.x20] ++ c_str message ++ [Byte.x0a].
Proof.
  unfold ChatClient.send in Hsend. rewrite Hconn in Hsend.
  destruct (Codec.frame message) as [f'|] eqn:Hf; [|done]. cbn in Hsend. injection Hsend as ->.
  destruct (Codec.whole_frame_decodes message f rb Hm Hf Hwf Hc) as (rb' & effs & E & Hmsg & Hr).
  unfold ChatServer.onRead, ChatServer.onMessage. rewrite E. cbn [mbind option_bind].
  rewrite Hmsg. cbn -[elements mapM]. unfold mapM at 1. cbn -[elements mapM].
  rewrite Hf. cbn -[elements mapM]. rewrite mapM_pair. cbn -[elements].
  do 2 eexists. split; [reflexivity|]. split; [done|]. rewrite app_nil_r.
  split; [rewrite <- list_fmap_compose, list_fmap_id; apply NoDup_elements|]. split.
  - intros d buffer. rewrite list_elem_of_fmap. setoid_rewrite elem_of_elements. naive_solver.
  - intros receiver rb2 Hwf2 Hc2.
    destruct (Codec.whole_frame_decodes message f rb2 Hm Hf Hwf2 Hc2) as (rb2' & effs2 & E2 & Hmsg2 & Hr2).
    unfold ChatClient.onRead. rewrite E2. cbn [mbind option_bind]. rewrite Hmsg2. cbn [foldl].
    do 2 eexists. split; [reflexivity|]. by split.
Qed.

Lemma chat_delivers_witness :
  exists rb' sends,
    ChatServer.onRead (Codec.filled Codec.framed_hi)
      (ChatServer.onDisconnect 1 (ChatServer.onConnect 2 (ChatServer.onConnect 1 ChatServer.make)))
      = Some (rb', sends) /\ (2%nat, Codec.framed_hi) ∈ sends.
Proof.
  destruct (Codec.filled_spec Codec.framed_hi) as (Hwf & Hc & _); [discriminate|vm_compute; discriminate|].
  destruct (chat_delivers Codec.hi (ChatClient.onConnect 0 ChatClient.make) 0
    (ChatServer.onDisconnect 1 (ChatServer.onConnect 2 (ChatServer.onConnect 1 ChatServer.make)))
    (Codec.filled Codec.framed_hi) Codec.framed_hi) as (rb' & sends & E & _ & _ & Hs & _);
    [vm_compute; discriminate|reflexivity|vm_compute; reflexivity|exact Hwf|exact Hc|].
  exists rb', sends. split; [exact E|]. apply Hs. split; [|reflexivity].
  apply (bool_decide_unpack _). vm_compute. exact I.
Defined.
End Chat.
