(* ===== verification/ExampleEcho.v ===== *)
(** The programs of [examples/simple/echo] and [examples/pingpong], composed
    with the connection of [NetTcpConnection]: two servers that send back what
    they receive, and the session of a client that does the same. A program is
    the actions its callbacks perform; the kernel stays a parameter. *)

From S2P Require Import Prelude NetBuffer NetByteStream NetReceiveBuffer NetSendBuffer BaseWatcher.
From S2P Require Import BasePoller NetTcpConnection NetPipe.

Import TcpConnection.

(** ** The callbacks of the programs *)

(** [examples/simple/echo/echo.cpp] *)
Module EchoServer.
Definition onConnect : list action := [].
Definition onDisconnect : list action := [].
Definition onRead (receiveBuffer : ReceiveBuffer.t) : list action := [ASendReceive receiveBuffer].
End EchoServer.

(** [examples/pingpong/server.cpp] *)
Module PingPongServer.
Definition onConnect : list action := [].
Definition onDisconnect : list action := [].
Definition onRead (receiveBuffer : ReceiveBuffer.t) : list action :=
  [ASendReceive receiveBuffer; ARetrieveAll].
End PingPongServer.

(** The calls a [Session] of [examples/pingpong/client.cpp] makes on its
    connection; its counters are in [ExamplePingPong]. *)
Module Session.
Definition onConnect (message : list byte) : list action := [ASend message].
Definition onDisconnect : list action := [].
Definition onRead (receiveBuffer : ReceiveBuffer.t) : list action :=
  [ASendReceive receiveBuffer; ARetrieveAll].
End Session.

(** A connection whose owner, a [TcpServer] or [TcpClient], destroys it once
    it is closed. *)
Definition program (write : trace -> list byte -> wresult) (read : trace -> rresult)
  (onConnect onDisconnect : list action) (onRead : ReceiveBuffer.t -> list action) : env := {|
  sys_write := write;
  sys_read := read;
  connectCallback_ _ := onConnect;
  disconnectCallback_ _ := onDisconnect;
  readCallback_ _ rb := onRead rb;
  closeCallback_ _ := [ADestroyed]
|}.

(** Inputs that neither send nor take bytes: those of the poller, of the loop,
    of the owner, [shutdown()] - which [Session::stop()] calls - and
    [forceClose()]. *)
Definition plain (i : input) : Prop :=
  match i with
  | IEvents r => revents_ok r
  | IFunctor | IEstablished => True
  | IAction a => a = AShutdown \/ a = AForceClose \/ a = ADestroyed
  | IRemote r => r = RShutdown \/ r = RForceClose \/ r = REstablished \/ r = RDestroyed
  end.

Section Echo.
Context {P : Type} `{!Poller P}.
Context (write : trace -> list byte -> wresult) (read : trace -> rresult).

(** A kernel with room for everything that is written, until the socket is shut
    down for writing. *)
Context (write_all : forall l bytes, Pipe.shut l = false -> write l bytes = Wrote (zlen bytes)).
Context (write_some : forall l bytes n, write l bytes = Wrote n -> 0 <= n <= zlen bytes).
Context (read_some : forall l avail, read l = RData avail -> avail <> []).

Implicit Types s : t (P := P).

Lemma program_ok onConnect onDisconnect onRead :
  Forall action_ok onConnect -> Forall action_ok onDisconnect ->
  (forall rb, ReceiveBuffer.wf rb -> Forall action_ok (onRead rb)) ->
  env_ok (program write read onConnect onDisconnect onRead).
Proof.
  intros Hc Hd Hr. constructor; cbn; try done. by repeat constructor.
Qed.

Section Sending.
Context (e : env) (Hwrite : sys_write e = write).

(** What [send] does when the kernel takes everything. *)
Lemma sendInLoop_receive_all rb s :
  state_ s = kConnected -> isWriting s = false -> ReceiveBuffer.wf rb ->
  in_u64 (zlen (ReceiveBuffer.contents rb)) -> ReceiveBuffer.contents rb <> [] ->
  Pipe.shut (tr s) = false ->
  let bytes := ReceiveBuffer.contents rb in
  sendInLoop_receive e rb s =
    Some (emit (EvSend bytes (zlen bytes)) (emit (EvWrite bytes (Wrote (zlen bytes))) s)).
Proof.
  intros Hs Hw Hrb H64 Hne Hsh bytes. unfold sendInLoop_receive.
  rewrite decide_False by (by rewrite Hs). rewrite Hw.
  assert (ReceiveBuffer.size rb = zlen bytes) as ->.
  { pose proof Hrb as (_ & _ & E). unfold ReceiveBuffer.size. by rewrite E, u64_small. }
  assert (0 < zlen bytes) as Hpos by (unfold bytes; destruct (ReceiveBuffer.contents rb); [done|zlia]).
  rewrite (proj2 (Z.ltb_lt _ _)) by done. cbn [negb andb].
  rewrite SendBuffer.gather_receive by done. cbn [mbind option_bind]. unfold socket_write.
  rewrite Hwrite, write_all by done. by rewrite (proj2 (Z.ltb_lt _ _)), Z.ltb_irrefl.
Qed.

Lemma send_all data s :
  state_ s = kConnected -> isWriting s = false -> zlen data < 4294967296 -> Pipe.shut (tr s) = false ->
  exists s', send e data s = Some s' /\ written (tr s') = written (tr s) ++ data /\
    received (tr s') = received (tr s) /\ state_ s' = state_ s /\ watcher_ s' = watcher_ s /\
    receiveBuffer_ s' = receiveBuffer_ s /\ functors s' = functors s /\ Pipe.shut (tr s') = false.
Proof.
  intros Hs Hw Hl Hsh. pose proof (zlen_nonneg data). unfold send, sendInLoop, u32.
  rewrite decide_True, decide_False, Hw, Z.mod_small by (done || lia || by rewrite Hs).
  cbn [negb andb]. destruct (0 <? zlen data) eqn:E0; zbool.
  - rewrite load_ok by lia. cbn [mbind option_bind]. unfold socket_write. rewrite Hwrite, slice_all, write_all by done.
    rewrite (proj2 (Z.ltb_lt _ _)), Z.ltb_irrefl by done. eexists. split; [done|]. cbn.
    rewrite !written_app, !received_snoc, written_write, written_send, !app_nil_r, !Pipe.shut_snoc, Hsh. cbn.
    by rewrite ztake_all by done.
  - eexists. split; [done|]. cbn.
    by rewrite (zlen_0_nil data), written_app, received_snoc, !app_nil_r, Pipe.shut_snoc, Hsh by lia.
Qed.
End Sending.

(** *** An echoing connection *)

Section Answering.
Context (greeting : list byte) (Hgreeting : zlen greeting < 4294967296) (onConnect : list action).
Context (Hconnect : onConnect = [ASend greeting] \/ onConnect = [] /\ greeting = []).

(** A program that greets its peer with a message, or not, and sends what it
    reads. *)
Definition answering : env := program write read onConnect [] Session.onRead.

Lemma answering_ok : env_ok answering.
Proof.
  apply program_ok; [by destruct Hconnect as [->|[-> _]]; repeat constructor|by constructor|]. intros rb Hrb.
  constructor; [exact Hrb|]. constructor; [exact I|constructor].
Qed.

Lemma answering_write : sys_write answering = write.
Proof. done. Qed.

(** No data is queued, neither by another thread nor for the kernel. *)
Definition no_data (f : functor) : Prop :=
  match f with FSend _ => False | _ => True end.

(** Nothing waits to be sent and everything received has been taken; what has
    been written is the greeting and what was received - up to the shutdown,
    after which the connection goes on receiving and answers no more. *)
Record echoing s : Prop := {
  echo_inv : inv s;
  echo_idle : isWriting s = false;
  echo_empty : ReceiveBuffer.contents (receiveBuffer_ s) = [];
  echo_functors : Forall no_data (functors s);
  echo_prefix : written (tr s) `prefix_of`
    (if decide (state_ s = kConnecting) then [] else greeting) ++ received (tr s);
  echo_bytes : Pipe.shut (tr s) = false -> written (tr s) =
    (if decide (state_ s = kConnecting) then [] else greeting) ++ received (tr s);
  echo_fresh : state_ s = kConnecting -> received (tr s) = [];
  echo_unshut : state_ s = kConnecting \/ state_ s = kConnected -> Pipe.shut (tr s) = false;
  echo_shut : state_ s = kDisconnecting -> Pipe.shut (tr s) = true
}.

Lemma echoing_open s : echoing s -> open s -> Pipe.shut (tr s) = false -> state_ s = kConnected.
Proof. intros Hs [?|Hd] Hsh; [done|]. pose proof (echo_shut s Hs Hd). congruence. Qed.

(** A step that neither receives nor sends. *)
Lemma echoing_silent s s' :
  echoing s -> inv s' -> isWriting s' = false ->
  ReceiveBuffer.contents (receiveBuffer_ s') = [] -> Forall no_data (functors s') ->
  written (tr s') = written (tr s) -> received (tr s') = received (tr s) ->
  (state_ s' = kConnecting <-> state_ s = kConnecting) ->
  Pipe.shut (tr s') = Pipe.shut (tr s) ->
  state_ s' = state_ s \/ state_ s' = kDisconnected -> echoing s'.
Proof.
  intros [_ _ _ _ Hp Hb Hf Hu Hd] ? ? ? ? Hw Hr Hst Hsh Hss.
  assert ((if decide (state_ s' = kConnecting) then [] else greeting) =
    (if decide (state_ s = kConnecting) then [] else greeting)) as Hg by (by repeat case_decide; tauto).
  constructor; try done; rewrite ?Hw, ?Hr, ?Hg, ?Hsh; try done.
  - tauto.
  - destruct Hss as [->|E]; [done|]. intros [?|?]; congruence.
  - destruct Hss as [->|E]; [done|]. congruence.
Qed.

Lemma handleClose_echoing s :
  echoing s -> open s -> exists s', handleClose answering s = Some s' /\ echoing s' /\ ~ open s' /\
    Pipe.shut (tr s') = Pipe.shut (tr s).
Proof.
  intros Hs Ho. pose proof (echo_inv s Hs) as Hinv. pose proof Hinv as (Hc & Hst & _).
  destruct (handleClose_inv answering answering_ok s Hinv Ho) as (s' & E & Hinv' & Hno).
  exists s'. split; [done|].
  pose proof E as E'. unfold handleClose in E'.
  destruct (disable_all s Hc Ho) as (w & p & Ew & _). rewrite Ew in E'. cbn in E'. injection E' as E'.
  assert (state_ s' = kDisconnected) as Hd by by rewrite <- E'.
  assert (Pipe.shut (tr s') = Pipe.shut (tr s)) as Hsh
    by (rewrite <- E'; cbn; by rewrite !Pipe.shut_snoc, !orb_false_r).
  split; [|done]. apply (echoing_silent s); try done.
  - by apply isWriting_closed; [apply Hinv'|].
  - rewrite <- E'. apply Hs.
  - rewrite <- E'. apply Forall_snoc; [apply Hs|done].
  - rewrite <- E'. cbn. by rewrite !written_app, !app_nil_r.
  - rewrite <- E'. cbn. by rewrite !received_snoc, !app_nil_r.
  - rewrite Hd. by destruct Ho as [->| ->].
  - by right.
Qed.

(** A read that delivers nothing. *)
Lemma echoing_prepared r s :
  echoing s ->
  echoing (set_receiveBuffer (ReceiveBuffer.prepareReceive (receiveBuffer_ s)).1 (emit (EvRead r) s)).
Proof.
  intros Hs. pose proof (echo_inv s Hs) as (Hc & Hst & Hl).
  destruct (emit_silent (EvRead r) s) as (Hc1 & Hst1 & Hcb1); [done..|].
  destruct (ReceiveBuffer.prepareReceive_wf _ (core_rb _ Hc)) as [Hrb' Hc'].
  apply (echoing_silent s); try apply Hs; try done.
  - split; [by apply core_set_receiveBuffer|]. split; [done|].
    change (life (state_ s) (cbs (tr (emit (EvRead r) s)))). by rewrite Hcb1.
  - cbn. rewrite Hc'. apply Hs.
  - cbn. by rewrite written_app, app_nil_r.
  - cbn. by rewrite received_snoc, app_nil_r.
  - cbn. by rewrite Pipe.shut_snoc, orb_false_r.
  - by left.
Qed.

(** Reading: what arrives goes back at once. *)
Lemma handleRead_echoing s :
  echoing s -> open s -> exists s', handleRead answering s = Some s' /\ echoing s' /\
    Pipe.shut (tr s') = Pipe.shut (tr s).
Proof.
  intros Hs Ho.
  destruct (connection_handleRead_inv answering answering_ok s (echo_inv s Hs) Ho) as (s' & E & Hinv').
  pose proof (core_rb _ (proj1 (echo_inv s Hs))) as Hrb.
  destruct (ReceiveBuffer.prepareReceive_wf _ Hrb) as [Hrb' Hc'].
  unfold handleRead in E |- *. change (sys_read answering (tr s)) with (read (tr s)) in *.
  destruct (read (tr s)) as [avail| |err] eqn:Er; cbn [receiveBuffer_ emit] in *.
  - destruct (ReceiveBuffer.receive_accepts _ avail Hrb (read_some _ _ Er)) as (rb & Erb & Hwf & Hcon' & Hmin).
    rewrite (echo_empty s Hs) in Hcon'. cbn [app] in Hcon'.
    pose proof (ReceiveBuffer.prepareReceive_bounds _ Hrb) as [[_ Htot] _].
    set (bytes := ztake _ avail) in *. unfold ReceiveBuffer.kReceiveSize in *.
    assert (0 < zlen avail) by (pose proof (read_some _ _ Er); destruct avail; [done|zlia]).
    assert (zlen bytes < 24576) by (unfold bytes; zlia).
    rewrite Erb in *. cbn [mbind option_bind] in *. exists s'. split; [done|].
    assert (ReceiveBuffer.contents (ReceiveBuffer.retrieveAll rb) = []) by by apply ReceiveBuffer.retrieveAll_spec.
    unfold invoke in E. cbn [readCallback_ answering program Session.onRead do_actions do_action] in E.
    pose proof Hs as [_ Hwr _ Hfs Hpre Hby _ Hun Hsh].
    destruct Ho as [Hcon|Hdis]; [rewrite decide_True in E by done|rewrite decide_False in E by (cbn; congruence)].
    + rewrite (sendInLoop_receive_all answering answering_write) in E; [|done|done|done|rewrite Hcon'; zlia| |].
      2:{ rewrite Hcon'. intros Hnil. rewrite Hnil in Hmin. change (zlen []) with 0 in Hmin. lia. }
      2:{ cbn. rewrite !Pipe.shut_snoc, !orb_false_r. auto. }
      cbn in E. injection E as <-. rewrite Hcon' in Hinv' |- *. specialize (Hun (or_intror Hcon)). specialize (Hby Hun).
      rewrite decide_False in Hby by congruence.
      split; [|by cbn; rewrite !Pipe.shut_snoc, !orb_false_r].
      constructor; try done; cbn; rewrite ?Hcon, ?written_app, ?received_snoc, ?written_write, ?Pipe.shut_snoc, ?Hby, ?Hun, ?app_nil_r;
        cbn; rewrite ?ztake_all, <- ?app_assoc by done; done.
    + cbn in E. injection E as <-.
      split; [|by cbn; rewrite !Pipe.shut_snoc, !orb_false_r].
      constructor; try done; cbn; rewrite ?Hdis, ?written_app, ?received_snoc, ?Pipe.shut_snoc, ?app_nil_r, ?orb_false_r; try done.
      * rewrite Hdis in Hpre. cbn in Hpre |- *. etrans; [exact Hpre|]. rewrite app_assoc. by eexists.
      * rewrite Hsh by done. done.
      * by intros [?|?].
      * auto.
  - destruct (handleClose_echoing _ (echoing_prepared REof s Hs)) as (s2 & E2 & Hs2 & _ & Hsh2); [exact Ho|].
    exists s2. split; [done|]. split; [done|]. rewrite Hsh2. cbn. by rewrite Pipe.shut_snoc, orb_false_r.
  - injection E as <-. eexists. split; [done|]. split; [by apply echoing_prepared|].
    cbn. by rewrite Pipe.shut_snoc, orb_false_r.
Qed.

Lemma greets s :
  state_ s = kConnected -> isWriting s = false -> Pipe.shut (tr s) = false ->
  exists s', do_actions answering onConnect s = Some s' /\ written (tr s') = written (tr s) ++ greeting /\
    received (tr s') = received (tr s) /\ state_ s' = state_ s /\ watcher_ s' = watcher_ s /\
    receiveBuffer_ s' = receiveBuffer_ s /\ functors s' = functors s /\ Pipe.shut (tr s') = false.
Proof.
  intros Hs Hw Hsh. destruct Hconnect as [->|[-> ->]]; cbn [do_actions do_action].
  - destruct (send_all answering answering_write greeting s) as (s' & E & Hs'); [done..|].
    exists s'. by rewrite E.
  - exists s. by rewrite app_nil_r.
Qed.

Lemma establishedInLoop_echoing s :
  echoing s -> exists s', establishedInLoop answering s = Some s' /\ echoing s'.
Proof.
  intros Hs. pose proof (echo_inv s Hs) as Hinv. pose proof Hinv as (Hc & Hst & Hl).
  destruct (establishedInLoop_inv answering answering_ok s Hinv) as (s' & E & Hinv').
  exists s'. split; [done|]. unfold establishedInLoop in E. case_decide as Hcon; [|by simplify_eq].
  destruct (watcher_op_spec WatcherOps.EnableReading s Hc) as (w & p & Ew & _ & _ & Hev & _).
  unfold watcher_op in E, Ew. cbn [watcher_ poller setState] in E.
  destruct (WatcherOps.apply_op _ _ _) as [[w' p']|]; [|done]. cbn in Ew. injection Ew as -> ->.
  pose proof (core_events _ Hc) as Hev0. rewrite Hcon in Hev0. cbn in Hev0. rewrite Hev0 in Hev.
  cbn [mbind option_bind] in E. unfold invoke in E.
  cbn [connectCallback_ answering program] in E.
  set (s1 := emit (EvCallback CbConnect) _) in E.
  assert (isWriting s1 = false) as Hw1 by (unfold isWriting, Watcher.isWriting; cbn; by rewrite Hev).
  destruct (greets s1)
    as (s2 & E2 & Hw2 & Hr2 & Hst2 & Hwa2 & Hrb2 & Hf2 & Hu2);
      [done|done|by cbn; rewrite Pipe.shut_snoc, (echo_unshut s Hs) by auto|].
  rewrite E2 in E. injection E as <-.
  assert (written (tr s2) = greeting ++ received (tr s2)) as Hb2.
  { rewrite Hw2, Hr2. unfold s1. cbn. rewrite written_app, received_snoc, (echo_bytes s Hs) by (apply Hs; auto).
    rewrite decide_True, (echo_fresh s Hs) by done. cbn. by rewrite !app_nil_r. }
  constructor; rewrite ?Hst2, ?Hrb2, ?Hf2, ?Hb2; try done; try apply Hs.
  unfold isWriting in *. by rewrite Hwa2.
Qed.

Lemma destroyedInLoop_echoing s :
  echoing s -> exists s', destroyedInLoop answering s = Some s' /\ echoing s'.
Proof.
  intros Hs. pose proof (echo_inv s Hs) as Hinv. pose proof Hinv as (Hc & _).
  destruct (destroyedInLoop_inv answering answering_ok s Hinv) as (s' & E & Hinv').
  exists s'. split; [done|]. unfold destroyedInLoop in E. case_decide as Hcon; [|by simplify_eq].
  destruct (disable_all s Hc (or_introl Hcon)) as (w & p & Ew & _). rewrite Ew in E. cbn in E.
  injection E as E.
  assert (state_ s' = kDisconnected) as Hd by by rewrite <- E.
  apply (echoing_silent s); try done; rewrite <- ?E; try apply Hs; cbn; try done.
  - rewrite E. apply isWriting_closed; [apply Hinv'|]. intros [?|?]; congruence.
  - by rewrite written_app, app_nil_r.
  - by rewrite received_snoc, app_nil_r.
  - by rewrite Hcon.
  - by rewrite Pipe.shut_snoc, orb_false_r.
  - by right.
Qed.

(** From here on the connection answers no more. *)
Lemma shutdownInLoop_echoing s : echoing s -> echoing (shutdownInLoop s).
Proof.
  intros Hs. destruct (connection_step_inv answering answering_ok (IAction AShutdown) s (echo_inv s Hs) I) as (s' & E & Hinv').
  injection E as <-. unfold shutdownInLoop in *. case_decide as Hcon; [|done]. cbv zeta in *.
  change (isWriting (setState kDisconnecting s)) with (isWriting s) in *. rewrite (echo_idle s Hs) in *. cbn [negb] in *.
  pose proof Hs as [_ Hwr He Hfs Hpre _ _ _ _]. rewrite decide_False in Hpre by congruence.
  constructor; try done; cbn; rewrite ?written_app, ?received_snoc, ?Pipe.shut_snoc, ?orb_true_r, ?app_nil_r; try done.
  by intros [?|?].
Qed.

Lemma forceCloseInLoop_echoing s :
  echoing s -> exists s', forceCloseInLoop answering s = Some s' /\ echoing s'.
Proof.
  intros Hs. unfold forceCloseInLoop. case_decide as Ho; [|by exists s].
  destruct (handleClose_echoing s Hs Ho) as (s' & ? & ? & _). by exists s'.
Qed.

Lemma handleEvents_echoing revents s :
  echoing s -> open s -> revents_ok revents ->
  exists s', Dispatch.handleEvents revents (callbacks answering) s = Some s' /\ echoing s'.
Proof.
  intros Hs Ho Hrev.
  assert (forall x, echoing x -> handleWrite answering x = Some x) as Hwr
    by (intros x Hx; unfold handleWrite; by rewrite (echo_idle x Hx)).
  unfold Dispatch.handleEvents, callbacks, handleError.
  cbn [Dispatch.call Dispatch.closeCallback_ Dispatch.errorCallback_ Dispatch.readCallback_ Dispatch.writeCallback_].
  assert (exists s1, (if has revents POLLHUP && negb (has revents POLLIN) then handleClose answering s else Some s)
    = Some s1 /\ echoing s1 /\ (open s1 \/ has revents (Z.lor (Z.lor POLLIN POLLPRI) POLLRDHUP) = false))
    as (s1 & -> & Hs1 & Hor).
  { destruct (has revents POLLHUP && negb (has revents POLLIN)) eqn:Eh; [|by exists s; auto].
    destruct (handleClose_echoing s Hs Ho) as (s1 & ? & ? & _). exists s1. auto. }
  cbn [mbind option_bind].
  replace (if has revents (Z.lor POLLERR POLLNVAL) then Some s1 else Some s1) with (Some s1)
    by by destruct (has revents (Z.lor POLLERR POLLNVAL)).
  cbn [mbind option_bind].
  assert (exists s2, (if has revents (Z.lor (Z.lor POLLIN POLLPRI) POLLRDHUP) then handleRead answering s1
    else Some s1) = Some s2 /\ echoing s2) as (s2 & -> & Hs2).
  { destruct (has revents (Z.lor (Z.lor POLLIN POLLPRI) POLLRDHUP)); [|by exists s1].
    destruct Hor as [Ho1|?]; [|done].
    destruct (handleRead_echoing s1 Hs1 Ho1) as (s2 & ? & ? & _). by exists s2. }
  cbn [mbind option_bind]. exists s2. split; [|done]. rewrite Hwr by done. by case_match.
Qed.

(** A functor other than a send is taken from or put into the queue. *)
Lemma echoing_functors fs s :
  echoing s -> Forall no_data fs -> Forall (functor_ok (state_ s)) fs -> echoing (set_functors fs s).
Proof.
  intros Hs Hfs Hok. apply (echoing_silent s); try done; try apply Hs; [|by left].
  destruct (echo_inv s Hs) as (Hc & Hst & Hl). split; [|done]. destruct Hc. by constructor.
Qed.

Lemma no_data_ok st fs : Forall no_data fs -> Forall (functor_ok st) fs.
Proof. apply Forall_impl. by intros []. Qed.

Lemma echoing_queue f s : echoing s -> no_data f -> echoing (queueInLoop f s).
Proof.
  intros Hs Hf. assert (Forall no_data (functors s ++ [f])) by (apply Forall_snoc; [apply Hs|done]).
  apply echoing_functors; [done|done|by apply no_data_ok].
Qed.

Lemma step_echoing i s :
  echoing s -> plain i -> exists s', step answering i s = Some s' /\ echoing s'.
Proof.
  intros Hs Hi. destruct i as [revents| |a| |r]; cbn [step].
  - destruct (Watcher.started_ (watcher_ s)) eqn:E; [|by exists s].
    apply handleEvents_echoing; [done| |done]. apply started_open; [apply (echo_inv s Hs)|done].
  - destruct (functors s) as [|f rest] eqn:E; [by exists s|].
    pose proof (echo_functors s Hs) as Hf. rewrite E in Hf. apply Forall_cons_1 in Hf as [Hf Hrest].
    assert (echoing (set_functors rest s)) by (apply echoing_functors; [done|done|by apply no_data_ok]).
    destruct f; cbn in Hf; try done; cbn [do_functor].
    + eexists. split; [done|]. by apply shutdownInLoop_echoing.
    + by apply forceCloseInLoop_echoing.
    + by apply establishedInLoop_echoing.
    + by apply destroyedInLoop_echoing.
  - destruct Hi as [->|[->| ->]]; (eexists; split; [reflexivity|]); [by apply shutdownInLoop_echoing|by apply echoing_queue..].
  - by apply establishedInLoop_echoing.
  - destruct Hi as [->|[->|[->| ->]]]; (eexists; split; [reflexivity|by apply echoing_queue]).
Qed.

(** A readable event shuts nothing down. *)
Lemma pollin_unshut s s' :
  echoing s -> step answering (IEvents POLLIN) s = Some s' -> Pipe.shut (tr s') = Pipe.shut (tr s).
Proof.
  intros Hs E. destruct (Watcher.started_ (watcher_ s)) eqn:Ew.
  - assert (open s) as Ho by (apply started_open; [apply (echo_inv s Hs)|done]).
    rewrite (step_pollin answering s (proj1 (echo_inv s Hs)) Ho) in E.
    destruct (handleRead_echoing s Hs Ho) as (s1 & E1 & _ & Hsh). by rewrite E1 in E; injection E as <-.
  - cbn [step] in E. rewrite Ew in E. by injection E as <-.
Qed.

Lemma make_echoing self fd (p : P) :
  poller_ok p -> interest p !! fd = None -> echoing (make self fd p).
Proof. intros Hp Hfd. by constructor; [apply connection_make_inv|..]. Qed.

End Answering.

(** *** The two ends of the ping-pong program *)

Inductive role := AsSession (message : list byte) | AsServer.

Definition pingpong (r : role) : env :=
  match r with
  | AsSession message => program write read (Session.onConnect message) Session.onDisconnect Session.onRead
  | AsServer => program write read PingPongServer.onConnect PingPongServer.onDisconnect PingPongServer.onRead
  end.

(** A session greets the server with a message, the server does not greet. *)
Definition greeting (r : role) : list byte := match r with AsSession message => message | AsServer => [] end.

Lemma sys_read_pingpong r : sys_read (pingpong r) = read.
Proof. by destruct r. Qed.

Section Roles.
Context (r : role) (Hgreeting : zlen (greeting r) < 4294967296).

Lemma pingpong_ok : env_ok (pingpong r).
Proof. destruct r as [m|]; [apply (answering_ok m); by left|apply (answering_ok []); by right]. Qed.

Lemma step_pingpong i s :
  echoing (greeting r) s -> plain i -> exists s', step (pingpong r) i s = Some s' /\ echoing (greeting r) s'.
Proof.
  destruct r as [m|].
  - apply (step_echoing m Hgreeting [ASend m]). by left.
  - apply (step_echoing [] Hgreeting []). by right.
Qed.

Lemma pollin_pingpong s s' :
  echoing (greeting r) s -> step (pingpong r) (IEvents POLLIN) s = Some s' -> Pipe.shut (tr s') = Pipe.shut (tr s).
Proof.
  destruct r as [m|].
  - apply (pollin_unshut m [ASend m]). by left.
  - apply (pollin_unshut [] []). by right.
Qed.

Lemma run_pingpong ins s :
  echoing (greeting r) s -> Forall plain ins ->
  exists s', run (pingpong r) ins s = Some s' /\ echoing (greeting r) s'.
Proof.
  intros Hs Hok. revert s Hs. induction Hok as [|i ins Hi _ IH]; intros s Hs; cbn [run]; [by exists s|].
  destruct (step_pingpong i s Hs Hi) as (s1 & -> & Hs1). cbn. by apply IH.
Qed.

(** With a kernel that always has room, each end of the ping-pong program
    answers exactly what it receives: whatever the poller reports and the loop
    and the other threads do, short of sending something else, the bytes
    written are the greeting followed by the bytes received, in order - by all
    of them until the end shuts down - and nothing is left over in either
    buffer. *)
Theorem pingpong_echoes (self fd : Z) (p : P) (ins : list input)
  (Hp : poller_ok p) (Hfd : interest p !! fd = None) (Hins : Forall plain ins) :
  exists s, run (pingpong r) ins (make self fd p) = Some s /\
    ReceiveBuffer.contents (receiveBuffer_ s) = [] /\
    written (tr s) `prefix_of` (if decide (state_ s = kConnecting) then [] else greeting r) ++ received (tr s) /\
    (Pipe.shut (tr s) = false ->
     written (tr s) = (if decide (state_ s = kConnecting) then [] else greeting r) ++ received (tr s)).
Proof.
  destruct (run_pingpong ins _ (make_echoing (greeting r) self fd p Hp Hfd) Hins) as (s & E & Hs).
  exists s. split; [done|]. split; [apply Hs|]. split; apply Hs.
Qed.
End Roles.

(** *** The echo server *)

Definition echo_server : env :=
  program write read EchoServer.onConnect EchoServer.onDisconnect EchoServer.onRead.

Lemma echo_server_ok : env_ok echo_server.
Proof. apply program_ok; [by constructor|by constructor|]. intros rb Hrb. by constructor; [|constructor]. Qed.

(** One read event: all that is in the buffer goes out, and stays there. *)
Lemma echo_server_read s avail :
  inv s -> state_ s = kConnected -> isWriting s = false -> Pipe.shut (tr s) = false -> read (tr s) = RData avail ->
  zlen (ReceiveBuffer.contents (receiveBuffer_ s)) < 4294967296 ->
  exists s' bytes, step echo_server (IEvents POLLIN) s = Some s' /\ inv s' /\
    state_ s' = kConnected /\ isWriting s' = false /\ Pipe.shut (tr s') = false /\ bytes <> [] /\ zlen bytes < 24576 /\
    received (tr s') = received (tr s) ++ bytes /\
    ReceiveBuffer.contents (receiveBuffer_ s') = ReceiveBuffer.contents (receiveBuffer_ s) ++ bytes /\
    written (tr s') = written (tr s) ++ ReceiveBuffer.contents (receiveBuffer_ s) ++ bytes.
Proof.
  intros Hinv Hcon Hw Hsh Er Hlen. pose proof Hinv as (Hc & _).
  rewrite step_pollin by (done || by left).
  destruct (connection_handleRead_inv echo_server echo_server_ok s Hinv (or_introl Hcon)) as (s' & E & Hinv').
  pose proof (core_rb _ Hc) as Hrb. unfold handleRead in E |- *.
  change (sys_read echo_server (tr s)) with (read (tr s)) in *. rewrite Er in *. cbn [receiveBuffer_ emit] in *.
  destruct (ReceiveBuffer.receive_accepts _ avail Hrb (read_some _ _ Er)) as (rb & Erb & Hwf & Hrcv & Hmin).
  pose proof (ReceiveBuffer.prepareReceive_bounds _ Hrb) as [[_ Htot] _].
  set (bytes := ztake _ avail) in *. unfold ReceiveBuffer.kReceiveSize in *.
  assert (0 < zlen avail) by (pose proof (read_some _ _ Er); destruct avail; [done|zlia]).
  assert (zlen bytes < 24576) by (unfold bytes; zlia).
  assert (bytes <> []) by (intros Hnil; rewrite Hnil in Hmin; change (zlen []) with 0 in Hmin; lia).
  rewrite Erb in *. cbn [mbind option_bind] in *. exists s', bytes. split; [done|]. split; [done|].
  unfold invoke in E. cbn [readCallback_ echo_server program EchoServer.onRead do_actions do_action] in E.
  rewrite decide_True in E by done.
  rewrite (sendInLoop_receive_all echo_server eq_refl) in E; [|done|done|done|rewrite Hrcv; zlia| |].
  2:{ rewrite Hrcv. by intros [_ ?]%app_eq_nil. }
  2:{ cbn. by rewrite !Pipe.shut_snoc, Hsh. }
  cbn in E. injection E as <-. rewrite Hrcv.
  split; [done|]. split; [done|]. split; [by cbn; rewrite !Pipe.shut_snoc, Hsh|].
  split; [done|]. split; [done|]. cbn.
  rewrite !written_app, !received_snoc, written_write, !app_nil_r. cbn. by rewrite ztake_all by done.
Qed.

(** The echo server never takes what it has answered out of the receive
    buffer, so every read event sends everything received so far once more:
    after two events with data, the first part has been sent twice. *)
Theorem echo_server_repeats s (Hr : reached echo_server s)
  (Hcon : state_ s = kConnected) (Hw : isWriting s = false) (Hsh : Pipe.shut (tr s) = false)
  (Hempty : ReceiveBuffer.contents (receiveBuffer_ s) = [])
  (Hdata : forall l, exists avail, read l = RData avail) :
  exists s' a b, run echo_server [IEvents POLLIN; IEvents POLLIN] s = Some s' /\
    a <> [] /\ b <> [] /\ received (tr s') = received (tr s) ++ a ++ b /\
    written (tr s') = written (tr s) ++ a ++ (a ++ b).
Proof.
  pose proof (connection_reached_inv echo_server echo_server_ok s Hr) as Hinv.
  destruct (Hdata (tr s)) as [avail1 H1].
  destruct (echo_server_read s avail1) as (s1 & a & E1 & Hinv1 & Hcon1 & Hw1 & Hsh1 & Ha & Hla & Hr1 & Hb1 & Hwr1);
    [done..|by rewrite Hempty|]. rewrite Hempty in *. cbn [app] in *.
  destruct (Hdata (tr s1)) as [avail2 H2].
  destruct (echo_server_read s1 avail2) as (s2 & b & E2 & _ & _ & _ & _ & Hb & _ & Hr2 & _ & Hwr2);
    [done..|rewrite Hb1; lia|].
  exists s2, a, b. split; [cbn [run]; rewrite E1; cbn [mbind option_bind]; by rewrite E2|].
  split; [done|]. split; [done|]. rewrite Hr2, Hr1, Hwr2, Hwr1, Hb1. by rewrite <- !app_assoc.
Qed.
End Echo.

(** *** Witnesses *)

#[local] Instance echo_poller : Poller PollPoller.t :=
  PollPoller.poll_poller (fun i => i) (fun i => eq_refl).

Definition roomy_write (l : trace) (bytes : list byte) : wresult := Wrote (zlen bytes).
Lemma roomy_write_all l bytes : Pipe.shut l = false -> roomy_write l bytes = Wrote (zlen bytes).
Proof. done. Qed.

Lemma roomy_write_some l bytes n : roomy_write l bytes = Wrote n -> 0 <= n <= zlen bytes.
Proof. intros [= <-]. pose proof (zlen_nonneg bytes). lia. Qed.

Definition xy_read (l : trace) : rresult := RData [Byte.x78; Byte.x79].

Lemma xy_read_some l avail : xy_read l = RData avail -> avail <> [].
Proof. by intros [= <-]. Qed.

Definition echo_connected : t :=
  match run (echo_server roomy_write xy_read) [IEstablished] (make 100 5 PollPoller.make) with
  | Some s => s
  | None => make 100 5 PollPoller.make
  end.

Lemma echo_make_ok : poller_ok PollPoller.make /\ interest PollPoller.make !! 5 = None.
Proof. apply sample_make_ok. Qed.

Lemma pingpong_echoes_witness :
  exists s, run (pingpong roomy_write xy_read (AsSession [Byte.x61]))
      [IEstablished; IEvents POLLIN; IEvents POLLIN; IRemote RShutdown; IFunctor; IEvents POLLIN]
      (make 100 5 PollPoller.make) = Some s /\
    ReceiveBuffer.contents (receiveBuffer_ s) = [] /\
    written (tr s) `prefix_of` (if decide (state_ s = kConnecting) then [] else [Byte.x61]) ++ received (tr s).
Proof.
  destruct echo_make_ok as [Hp Hfd].
  destruct (pingpong_echoes roomy_write xy_read roomy_write_all roomy_write_some xy_read_some (AsSession [Byte.x61])
    eq_refl 100 5 PollPoller.make [IEstablished; IEvents POLLIN; IEvents POLLIN; IRemote RShutdown; IFunctor; IEvents POLLIN])
    as (s & E & He & Hw & _); [exact Hp|exact Hfd| |].
  - repeat constructor; cbn; try (intros H; vm_compute in H; discriminate H); auto.
  - exists s. split; [exact E|]. split; [exact He|exact Hw].
Defined.

Lemma echo_server_repeats_witness :
  exists s' a b, run (echo_server roomy_write xy_read) [IEvents POLLIN; IEvents POLLIN] echo_connected = Some s' /\
    a <> [] /\ b <> [] /\ written (tr s') = a ++ (a ++ b).
Proof.
  destruct (echo_server_repeats roomy_write xy_read roomy_write_all roomy_write_some xy_read_some echo_connected)
    as (s' & a & b & E & Ha & Hb & _ & Hw).
  - exists 100, 5, PollPoller.make, [IEstablished]. destruct echo_make_ok as [Hp Hfd].
    split; [exact Hp|]. split; [exact Hfd|]. split; [repeat constructor|vm_compute; reflexivity].
  - vm_compute. reflexivity.
  - vm_compute. reflexivity.
  - vm_compute. reflexivity.
  - vm_compute. reflexivity.
  - intros l. eexists. reflexivity.
  - exists s', a, b. split; [exact E|]. split; [exact Ha|]. split; [exact Hb|exact Hw].
Defined.
