(* ===== verification/ExampleRally.v ===== *)
(** The two programs of [examples/pingpong/] at the two ends of one connection:
    the session of [client.cpp] and the server of [server.cpp], each with its
    state machine of [NetTcpConnection], joined by the network of [NetPipe]. *)

From S2P Require Import Prelude NetBuffer NetByteStream NetReceiveBuffer NetSendBuffer BaseWatcher.
From S2P Require Import BasePoller NetTcpConnection NetPipe ExampleEcho.

Module Rally.
Import TcpConnection Pipe.

(** ** Repetitions of a message *)

(** A list that continues itself after [m] repeats [m]. *)
Lemma prefix_repeats (m l : list byte) :
  m <> [] -> l `prefix_of` m ++ l -> exists k, l `prefix_of` mjoin (replicate k m).
Proof.
  intros Hm. remember (length l) as n eqn:Hn. revert l Hn. induction n as [n IH] using lt_wf_ind.
  intros l Hn Hl. destruct (prefix_weak_total l m (m ++ l)) as [H|[k ->]]; [done|by apply prefix_app_r| |].
  { exists 1%nat. cbn. by rewrite app_nil_r. }
  apply prefix_app_inv in Hl. destruct (IH (length k)) with (l := k) as [j Hj]; [|done..|].
  { rewrite length_app in Hn. destruct m; [done|cbn in Hn; lia]. }
  exists (S j). by apply prefix_app.
Qed.

Section Rally.
Context {P : Type} `{!Poller P}.
Context (message : list byte) (Hmessage : zlen message < 4294967296) (Hne : message <> []).
Implicit Types s : Pipe.t (P := P).

(** The session is on the left. *)
Definition plays (x : side) : role := match x with L => AsSession message | R => AsServer end.

Lemma greeting_small x : zlen (greeting (plays x)) < 4294967296.
Proof. by destruct x. Qed.

(** A kernel that has room for all that is written, and the network behind it. *)
Record roomy (write : trace -> list byte -> wresult) (read : trace -> rresult) (wire : list byte) (over : bool)
  : Prop := {
  roomy_all l bytes : shut l = false -> write l bytes = Wrote (zlen bytes);
  roomy_some l bytes n : write l bytes = Wrote n -> 0 <= n <= zlen bytes;
  roomy_shut l bytes n : shut l = true -> write l bytes <> Wrote n;
  roomy_read l avail : read l = RData avail -> avail <> [] /\ avail `prefix_of` zdrop (zlen (received l)) wire;
  roomy_eof l : read l = REof -> over = true /\ zdrop (zlen (received l)) wire = []
}.

(** An event at one end, whose program answers with what it reads. *)
Definition rally_event (ev : event) (s : Pipe.t (P := P)) : Prop :=
  match ev with
  | At x e i => destroyed s x = false /\ plain i /\ exists write read,
      e = pingpong write read (plays x) /\
      roomy write read (written (tr (conn s (other x)))) (ended (other x) s)
  | Destroy _ => True
  end.

Fixpoint rally_ok (evs : list event) (s : Pipe.t (P := P)) : Prop :=
  match evs with
  | [] => True
  | ev :: rest => rally_event ev s /\ forall s', step ev s = Some s' -> rally_ok rest s'
  end.

Lemma pingpong_env_ok write read wire over x :
  roomy write read wire over -> env_ok (pingpong write read (plays x)).
Proof. intros [? ? ? H ?]. apply pingpong_ok; [done| |apply greeting_small]. intros l avail Hr. by apply (H l). Qed.

Lemma pingpong_delivers write read wire over x :
  roomy write read wire over -> delivers (pingpong write read (plays x)) wire over.
Proof. intros [? ? ? H ?]. destruct x; (split; cbn; [|done..]); intros l avail Hr; by apply (H l). Qed.

Lemma plain_ok i : plain i -> input_ok i.
Proof. destruct i as [r| |a| |r]; cbn; [done..|by intros [->|[->| ->]]|done|by intros [->|[->|[->| ->]]]]. Qed.

Lemma rally_event_ok ev s : rally_event ev s -> event_ok ev s.
Proof.
  destruct ev as [x e i|x]; [|done]. intros (Hd & Hi & write & read & -> & Hn).
  split; [done|]. split; [by apply plain_ok|].
  split; [by eapply pingpong_env_ok|by apply pingpong_delivers].
Qed.

(** ** Invariant *)

Definition echoes s : Prop := forall x, echoing (greeting (plays x)) (conn s x).

Lemma echoes_at x write read wire over i s s' :
  echoes s -> plain i -> roomy write read wire over ->
  step (At x (pingpong write read (plays x)) i) s = Some s' -> echoes s'.
Proof.
  intros Hs Hi Hn E. cbn [step] in E. destruct (destroyed s x); [done|].
  destruct (step_pingpong write read (roomy_all _ _ _ _ Hn) (roomy_some _ _ _ _ Hn)
    (fun l avail Hr => proj1 (roomy_read _ _ _ _ Hn l avail Hr)) (plays x) (greeting_small x) i (conn s x) (Hs x) Hi)
    as (c & Ec & Hc).
  rewrite Ec in E. injection E as <-.
  change (forall y, echoing (greeting (plays y)) (upd x c (conn s) y)).
  apply (both _ x); [by rewrite upd_same|rewrite upd_other; apply Hs].
Qed.

Lemma rally_run_inv evs s :
  Pipe.inv s -> echoes s -> rally_ok evs s -> exists s', run evs s = Some s' /\ Pipe.inv s' /\ echoes s'.
Proof.
  revert s. induction evs as [|ev evs IH]; intros s Hs Hech Hok; cbn [run]; [by exists s|].
  destruct Hok as [Hev Hok]. destruct (pipe_step_inv ev s Hs (rally_event_ok ev s Hev)) as (s1 & E & Hs1).
  rewrite E. cbn [mbind option_bind]. apply IH; [done| |by apply Hok].
  destruct ev as [x e i|x]; [|by injection E as <-].
  destruct Hev as (_ & Hi & write & read & -> & Hn). by eapply echoes_at.
Qed.

Lemma rally_make self fd p :
  (forall x, poller_ok (p x)) -> (forall x, interest (p x) !! fd x = None) -> echoes (Pipe.make self fd p).
Proof. intros Hp Hfd x. by apply make_echoing. Qed.

(** What one end has written and the other not yet received. *)
Definition under_way x s : list byte :=
  zdrop (zlen (received (tr (conn s (other x))))) (written (tr (conn s x))).

Lemma wire_split x s :
  Pipe.inv s -> written (tr (conn s x)) = received (tr (conn s (other x))) ++ under_way x s.
Proof. intros Hs. apply prefix_zdrop, (inv_wire s Hs x). Qed.

(** The end has not been shut down for writing. *)
Definition unshut x s : Prop := shut (tr (conn s x)) = false.

(** What the session has sent of its own accord. *)
Definition served s : list byte := if decide (state_ (conn s L) = kConnecting) then [] else message.

Lemma session_written s :
  echoes s -> written (tr (conn s L)) `prefix_of` served s ++ received (tr (conn s L)) /\
    (unshut L s -> written (tr (conn s L)) = served s ++ received (tr (conn s L))).
Proof. intros Hs. pose proof (Hs L) as [_ _ _ _ Hp Hb _ _ _]. by split. Qed.

Lemma server_written s :
  echoes s -> written (tr (conn s R)) `prefix_of` received (tr (conn s R)) /\
    (unshut R s -> written (tr (conn s R)) = received (tr (conn s R))).
Proof.
  intros Hs. pose proof (Hs R) as [_ _ _ _ Hp Hb _ _ _]. cbn [plays greeting] in *.
  by destruct (decide (state_ (conn s R) = kConnecting)).
Qed.

(** What the session receives follows its own message. *)
Lemma rally_stream s :
  Pipe.inv s -> echoes s -> received (tr (conn s L)) `prefix_of` received (tr (conn s R)) /\
    received (tr (conn s R)) `prefix_of` served s ++ received (tr (conn s L)).
Proof.
  intros Hs Hech. split.
  - etrans; [apply (inv_wire s Hs R)|apply (server_written s Hech)].
  - etrans; [apply (inv_wire s Hs L)|apply (session_written s Hech)].
Qed.

(** C30: the message is in the network: whatever the network, the two loops and
    other threads do - shutting an end down and closing it included, but short
    of sending something else or taking received bytes away - no byte of it is added:
    what is under way in both directions together is at most one message, and
    nothing before the session has connected. No byte is lost either: until an
    end shuts down, it is exactly one message. And each end receives nothing but
    repetitions of it. *)
Theorem rally_conserves (self fd : side -> Z) (p : side -> P) (evs : list event)
  (Hp : forall x, poller_ok (p x)) (Hfd : forall x, interest (p x) !! fd x = None)
  (Hok : rally_ok evs (Pipe.make self fd p)) :
  exists s, run evs (Pipe.make self fd p) = Some s /\
    zlen (under_way L s) + zlen (under_way R s) <=
      (if decide (state_ (conn s L) = kConnecting) then 0 else zlen message) /\
    ((forall x, shut (tr (conn s x)) = false) ->
     zlen (under_way L s) + zlen (under_way R s) =
       (if decide (state_ (conn s L) = kConnecting) then 0 else zlen message)) /\
    forall x, exists k, received (tr (conn s x)) `prefix_of` mjoin (replicate k message).
Proof.
  destruct (rally_run_inv evs _ (pipe_make_inv self fd p Hp Hfd) (rally_make self fd p Hp Hfd) Hok)
    as (s & E & Hs & Hech).
  exists s. split; [done|].
  destruct (session_written s Hech) as [HL HLe], (server_written s Hech) as [HR HRe].
  pose proof (wire_split L s Hs) as WL. pose proof (wire_split R s Hs) as WR. cbn [other] in WL, WR.
  assert (zlen (served s) = if decide (state_ (conn s L) = kConnecting) then 0 else zlen message) as Hz
    by (unfold served; by case_decide).
  apply (f_equal zlen) in WL, WR. rewrite zlen_app in WL, WR. rewrite <- Hz. split; [|split].
  - apply zlen_prefix in HL, HR. rewrite zlen_app in HL. lia.
  - intros Hsh. rewrite (HLe (Hsh L)), zlen_app in WL. rewrite (HRe (Hsh R)) in WR. lia.
  - destruct (rally_stream s Hs Hech) as [H1 H2].
    assert (received (tr (conn s R)) `prefix_of` message ++ received (tr (conn s L))) as H3.
    { unfold served in H2. case_decide as Hc; [|done]. rewrite (echo_fresh _ _ (Hech L) Hc) in *.
      apply prefix_nil_inv in H2 as ->. apply prefix_nil. }
    destruct (prefix_repeats message (received (tr (conn s L))) Hne) as [k Hk]; [by etrans|].
    intros [|]; [by exists k|]. exists (S k). etrans; [exact H3|]. by apply prefix_app.
Qed.

(** *** The rally goes on *)

(** A network that delivers. *)
Context (write : list byte -> bool -> trace -> list byte -> wresult) (read : list byte -> bool -> trace -> rresult).
Context (network : forall wire over, roomy (write wire over) (read wire over) wire over).
Context (arrives : forall wire over l,
  zdrop (zlen (received l)) wire <> [] -> exists avail, read wire over l = RData avail).

(** A readable event at one end. *)
Definition readable x s : event :=
  let wire := written (tr (conn s (other x))) in
  let over := ended (other x) s in
  At x (pingpong (write wire over) (read wire over) (plays x)) (IEvents POLLIN).

Lemma plain_pollin : plain (IEvents POLLIN).
Proof. by intros H. Qed.

Lemma readable_unshut x s s1 s' :
  echoes s -> step (readable x s1) s = Some s' -> shut (tr (conn s' x)) = shut (tr (conn s x)).
Proof.
  intros Hs E. unfold readable in E. cbn [step] in E. destruct (destroyed s x); [done|].
  apply bind_Some in E as (c & Ec & E). injection E as <-. cbn [conn]. rewrite upd_same.
  pose proof (network (written (tr (conn s1 (other x)))) (ended (other x) s1)) as [? ? _ Hrd _].
  eapply pollin_pingpong; [..|exact Ec]; [done|done| |apply greeting_small|apply Hs].
  intros l avail Hr. by apply (Hrd l).
Qed.

Lemma echoes_replicate x n s s1 s' :
  echoes s -> run (replicate n (readable x s1)) s = Some s' ->
  echoes s' /\ shut (tr (conn s' x)) = shut (tr (conn s x)).
Proof.
  revert s. induction n as [|n IH]; intros s Hs; cbn [replicate run]; [by intros [= <-]|].
  destruct (step (readable x s1) s) as [s2|] eqn:E; [|done]. cbn [mbind option_bind]. intros Er.
  rewrite <- (readable_unshut x s s1 s2 Hs E). apply IH; [|done].
  eapply echoes_at; [done|apply plain_pollin|apply network|exact E].
Qed.

Record rallying s : Prop := {
  rally_inv : Pipe.inv s;
  rally_echoes : echoes s;
  rally_open x : state_ (conn s x) = kConnected /\ destroyed s x = false
}.

(** One end reads all that is under way. *)
Lemma rally_stroke x s :
  rallying s -> exists n s', run (replicate n (readable x s)) s = Some s' /\ rallying s' /\
    received (tr (conn s' x)) = written (tr (conn s (other x))) /\ conn s' (other x) = conn s (other x).
Proof.
  intros [Hs Hech Ho]. destruct (Ho x) as [Hst Hd]. pose proof (or_introl Hst : open (conn s x)) as Hox.
  pose proof (fun l => arrives (written (tr (conn s (other x)))) (ended (other x) s) l) as Harr.
  rewrite <- (sys_read_pingpong (write (written (tr (conn s (other x)))) (ended (other x) s)) _ (plays x)) in Harr.
  destruct (pipe_drains x _ s _ Hs Hd Hox (pingpong_env_ok _ _ _ _ x (network _ _))
    (pingpong_delivers _ _ _ _ x (network _ (ended (other x) s))) Harr (le_n _))
    as (n & s' & E & Hs' & Hc & Hrec & Ho' & Hd').
  destruct (echoes_replicate x n s s s' Hech E) as [Hech' Hsh].
  exists n, s'. split; [done|]. split; [|done]. constructor; [done..|].
  rewrite Hd'. apply (both _ x); [|rewrite Hc; apply Ho]. split; [|done].
  apply (echoing_open _ _ (Hech' x)); [done|]. rewrite Hsh. apply (echo_unshut _ _ (Hech x)). auto.
Qed.

Lemma pipe_run_app evs1 evs2 s s1 : run evs1 s = Some s1 -> run (evs1 ++ evs2) s = run evs2 s1.
Proof.
  revert s. induction evs1 as [|ev evs1 IH]; intros s; cbn [run app]; [by intros [= ->]|].
  destruct (step ev s) as [s2|]; [|done]. apply IH.
Qed.

Lemma rallying_unshut x s : rallying s -> unshut x s.
Proof.
  intros Hs. destruct (rally_open s Hs x) as [Ho _]. apply (echo_unshut _ _ (rally_echoes s Hs x)). auto.
Qed.

Lemma rallying_L s : rallying s -> written (tr (conn s L)) = message ++ received (tr (conn s L)).
Proof.
  intros Hs. destruct (session_written s (rally_echoes s Hs)) as [_ ->]; [|by apply rallying_unshut].
  destruct (rally_open s Hs L) as [Ho _]. unfold served. by rewrite decide_False by (rewrite Ho; done).
Qed.

(** The events of a run of the poller alone. *)
Definition reads_only (evs : list event) : Prop :=
  Forall (fun ev => exists x e, ev = At x e (IEvents POLLIN)) evs.

Lemma reads_only_readable x n s : reads_only (replicate n (readable x s)).
Proof. apply Forall_replicate. by eexists _, _. Qed.

(** There and back. *)
Lemma rally_round s :
  rallying s -> exists evs s', run evs s = Some s' /\ reads_only evs /\ rallying s' /\
    received (tr (conn s' L)) = message ++ received (tr (conn s L)) /\
    received (tr (conn s' R)) = written (tr (conn s L)).
Proof.
  intros Hs. destruct (rally_stroke R s Hs) as (n1 & s1 & E1 & H1 & Hr1 & Hc1).
  destruct (rally_stroke L s1 H1) as (n2 & s2 & E2 & H2 & Hr2 & Hc2). cbn [other] in *.
  exists (replicate n1 (readable R s) ++ replicate n2 (readable L s1)), s2.
  split; [by rewrite (pipe_run_app _ _ _ _ E1)|].
  split; [apply Forall_app_2; apply reads_only_readable|]. split; [done|].
  destruct (server_written s1 (rally_echoes s1 H1)) as [_ Hw1].
  by rewrite Hr2, Hc2, Hw1, Hr1, (rallying_L s Hs) by (by apply rallying_unshut).
Qed.

Lemma rally_rounds n s :
  rallying s -> exists evs s', run evs s = Some s' /\ reads_only evs /\ rallying s' /\
    received (tr (conn s' L)) = mjoin (replicate n message) ++ received (tr (conn s L)).
Proof.
  induction n as [|n IH] in s |- *; intros Hs.
  { exists [], s. split; [done|]. split; [by constructor|done]. }
  destruct (IH s Hs) as (evs1 & s1 & E1 & Hev1 & Hs1 & Hr1).
  destruct (rally_round s1 Hs1) as (evs2 & s2 & E2 & Hev2 & Hs2 & Hr2 & _).
  exists (evs1 ++ evs2), s2. split; [by rewrite (pipe_run_app _ _ _ _ E1)|].
  split; [by apply Forall_app_2|]. split; [done|]. rewrite Hr2, Hr1. cbn [replicate mjoin list_join].
  by rewrite <- app_assoc.
Qed.

(** C31: as long as the network delivers, the rally goes on: whatever happened
    before, when both ends are connected - established, and neither shut down nor
    closed - then readable events alone bring the session its message back, any
    number of times, and leave both ends connected. *)
Theorem rally_continues (self fd : side -> Z) (p : side -> P) (before : list event) (s : Pipe.t) (n : nat)
  (Hp : forall x, poller_ok (p x)) (Hfd : forall x, interest (p x) !! fd x = None)
  (Hok : rally_ok before (Pipe.make self fd p)) (Hrun : run before (Pipe.make self fd p) = Some s)
  (Hopen : forall x, state_ (conn s x) = kConnected /\ destroyed s x = false) :
  exists evs s', run evs s = Some s' /\ reads_only evs /\ (forall x, state_ (conn s' x) = kConnected) /\
    received (tr (conn s' L)) = mjoin (replicate n message) ++ received (tr (conn s L)).
Proof.
  destruct (rally_run_inv before _ (pipe_make_inv self fd p Hp Hfd) (rally_make self fd p Hp Hfd) Hok)
    as (s0 & E & Hs & Hech). simplify_eq.
  destruct (rally_rounds n s) as (evs & s' & E & Hev & Hs' & Hrec); [done|].
  exists evs, s'. split; [done|]. split; [done|]. split; [|done]. intros x. apply (rally_open s' Hs').
Qed.
End Rally.

(** ** Witnesses *)

#[local] Instance rally_poller : Poller PollPoller.t :=
  PollPoller.poll_poller (fun i => i) (fun i => eq_refl).

(** The network of [NetPipe], two bytes per read, with a kernel that has room. *)
Definition rally_write (wire : list byte) (over : bool) (l : trace) (bytes : list byte) : wresult :=
  if shut l then WFail EPIPE else Wrote (zlen bytes).
Definition rally_read (wire : list byte) (over : bool) : trace -> rresult := sys_read (sample_end wire over).

Lemma rally_network wire over : roomy (rally_write wire over) (rally_read wire over) wire over.
Proof.
  destruct (sample_end_delivers wire over) as [Hn He _]. split; unfold rally_write.
  - by intros l bytes ->.
  - intros l bytes n. destruct (shut l); [done|]. intros [= <-]. pose proof (zlen_nonneg bytes). lia.
  - by intros l bytes n ->.
  - intros l avail Hr. split; [by eapply (read_ok _ (sample_end_ok wire over))|by apply Hn].
  - apply He.
Qed.

Definition xyz : list byte := [Byte.x78; Byte.x79; Byte.x7a].

Abbreviation rally := (Pipe.t (P := PollPoller.t)).

(** The events in which the ends do [moves] over this network. *)
Fixpoint rally_events (moves : list (side * input)) (s : rally) : list event :=
  match moves with
  | [] => []
  | (x, i) :: rest =>
      let wire := written (tr (conn s (other x))) in
      let over := ended (other x) s in
      let ev := At x (pingpong (rally_write wire over) (rally_read wire over) (plays xyz x)) i in
      ev :: match step ev s with Some s' => rally_events rest s' | None => [] end
  end.

Lemma rally_events_ok moves (s : rally) :
  Forall (fun mv => plain mv.2) moves -> (forall x, destroyed s x = false) -> rally_ok xyz (rally_events moves s) s.
Proof.
  intros Hm. induction Hm as [|[x i] moves Hi _ IH] in s |- *; intros Hd; cbn [rally_events rally_ok]; [done|].
  split.
  - split; [apply Hd|]. split; [done|]. eexists _, _. split; [done|apply rally_network].
  - intros s' E. rewrite E. apply IH. intros y. cbn [step] in E. rewrite Hd in E.
    destruct (TcpConnection.step _ _ _); [|done]. cbn in E. injection E as <-. apply Hd.
Qed.

Definition rally_start : list (side * input) := [(L, IEstablished); (R, IEstablished)].
Definition rally_moves : list (side * input) :=
  rally_start ++ [(R, IEvents POLLIN); (L, IEvents POLLIN); (R, IEvents POLLIN); (L, IEvents POLLIN)].

(** ... and the session stops while a byte is on its way. *)
Definition rally_stop : list (side * input) :=
  rally_moves ++ [(L, IAction AShutdown); (R, IEvents POLLIN); (L, IEvents POLLIN)].

Lemma rally_stop_plain : Forall (fun mv => plain mv.2) rally_stop.
Proof. repeat constructor; by intros H. Qed.

Definition rally_view (s : rally) :=
  (zlen (under_way L s), zlen (under_way R s), zlen (received (tr (conn s R))), zlen (received (tr (conn s L)))).

Lemma xyz_small : zlen xyz < 4294967296 /\ xyz <> [].
Proof. by split. Qed.

Lemma rally_conserves_witness :
  option_map rally_view (run (rally_events rally_moves sample_make) sample_make) = Some (3, 0, 4, 4) /\
  option_map rally_view (run (rally_events rally_stop sample_make) sample_make) = Some (1, 0, 6, 6) /\
  exists s, run (rally_events rally_stop sample_make) sample_make = Some s /\
    zlen (under_way L s) + zlen (under_way R s) <= (if decide (state_ (conn s L) = kConnecting) then 0 else zlen xyz) /\
    (exists k, received (tr (conn s L)) `prefix_of` mjoin (replicate k xyz)).
Proof.
  split; [vm_compute; reflexivity|]. split; [vm_compute; reflexivity|].
  destruct sample_ends as [Hp Hfd]. destruct xyz_small as [Hm Hne].
  destruct (rally_conserves xyz Hm Hne (fun _ => 100) (fun _ => 5) (fun _ => PollPoller.make) _ Hp Hfd
    (rally_events_ok rally_stop sample_make rally_stop_plain (fun _ => eq_refl))) as (s & E & H1 & _ & H).
  exists s. split; [exact E|]. split; [exact H1|exact (H L)].
Defined.

Lemma rally_start_plain : Forall (fun mv => plain mv.2) rally_start.
Proof. by repeat constructor. Qed.

Lemma rally_continues_witness :
  exists s evs s', run (rally_events rally_start sample_make) sample_make = Some s /\
    run evs s = Some s' /\ received (tr (conn s' L)) = xyz ++ xyz ++ received (tr (conn s L)).
Proof.
  destruct sample_ends as [Hp Hfd]. destruct xyz_small as [Hm Hne].
  pose proof (rally_events_ok rally_start sample_make rally_start_plain (fun _ => eq_refl)) as Hok.
  destruct (run (rally_events rally_start sample_make) sample_make) as [s|] eqn:E; [|vm_compute in E; discriminate E].
  assert (option_map (fun s => (state_ (conn s L), state_ (conn s R), destroyed s L, destroyed s R)) (Some s) =
    Some (kConnected, kConnected, false, false)) as Hv by (rewrite <- E; vm_compute; reflexivity).
  injection Hv as H1 H2 H3 H4.
  destruct (rally_continues xyz Hm rally_write rally_read rally_network
    (fun wire over l => sample_end_arrives wire over l) (fun _ => 100) (fun _ => 5) (fun _ => PollPoller.make)
    _ s 2 Hp Hfd Hok E) as (evs & s' & Er & _ & _ & Hrec).
  { intros [|]; [rewrite H3|rewrite H4]; (split; [assumption|reflexivity]). }
  exists s, evs, s'. split; [reflexivity|]. split; [exact Er|]. rewrite Hrec. reflexivity.
Defined.
End Rally.
