(* ===== verification/ExamplePingPong.v ===== *)
(** The bookkeeping of [examples/pingpong/client.cpp]: a [Client] with its
    [Session]s, which count connections, reads and bytes on several loops. What
    a session does to its connection is in [ExampleEcho]. *)

From S2P Require Import Prelude.

Module PingPongClient.

(** A [Session]: whether [conn_] is set, and the counters. *)
Record session := mk_session {
  conn_ : bool;
  bytesRead_ : Z;
  bytesWritten_ : Z;
  countRead_ : Z
}.

(** [Session::Session] *)
Definition make_session : session := mk_session false 0 0 0.

(** The lines [Client] prints: all sessions are connected, or disconnected,
    then with the totals its other lines are computed from. *)
Inductive output := AllConnected | AllDisconnected (totalBytesRead totalCountRead : Z).

(** What the client does to its sessions' connections and its loop. *)
Inductive call := Send (i : nat) (message : list byte) | Stop (i : nat) (shutdown : bool) | Quit.

Record t := mk {
  sessionCount_ : Z;
  message_ : list byte;
  sessions_ : list session;
  numConnected_ : Z;
  out : list output;
  calls : list call
}.

(** [static_cast<char>(i % 128)] for [i] below [blockSize] *)
Definition message (blockSize : nat) : list byte :=
  (fun i => default Byte.x00 (Byte.of_N (N.of_nat i `mod` 128))) <$> seq 0 blockSize.

(** [Client::Client] *)
Definition make (blockSize sessionCount : nat) : t :=
  mk (Z.of_nat sessionCount) (message blockSize) (replicate sessionCount make_session) 0 [] [].

(** [int64_t] totals: [bytesRead()] and [countRead()] convert. *)
Definition i64 (x : Z) : Z := (x + 9223372036854775808) `mod` 18446744073709551616 - 9223372036854775808.

Definition total (f : session -> Z) (ss : list session) : Z :=
  foldl (fun acc s => i64 (acc + i64 (f s))) 0 ss.

(** [Session::onConnect] of the [i]-th session, with [Client::onConnect] *)
Definition onConnect (i : nat) (s : session) (c : t) : t :=
  let n := i32 (numConnected_ c + 1) in
  mk (sessionCount_ c) (message_ c)
     (<[i := mk_session true (bytesRead_ s) (bytesWritten_ s) (countRead_ s)]> (sessions_ c)) n
     (if n =? sessionCount_ c then out c ++ [AllConnected] else out c)
     (calls c ++ [Send i (message_ c)]).

(** [Session::onDisconnect], with [Client::onDisconnect] before [conn_.reset()] *)
Definition onDisconnect (i : nat) (s : session) (c : t) : t :=
  let n := i32 (numConnected_ c - 1) in
  let ss := <[i := mk_session false (bytesRead_ s) (bytesWritten_ s) (countRead_ s)]> (sessions_ c) in
  if n =? 0 then
    mk (sessionCount_ c) (message_ c) ss n
       (out c ++ [AllDisconnected (total bytesRead_ (sessions_ c)) (total countRead_ (sessions_ c))])
       (calls c ++ [Quit])
  else mk (sessionCount_ c) (message_ c) ss n (out c) (calls c).

(** [Session::onRead] with [size] bytes in the buffer; the calls on the
    connection are [Session.onRead]. *)
Definition onRead (i : nat) (size : Z) (s : session) (c : t) : t :=
  mk (sessionCount_ c) (message_ c)
     (<[i := mk_session (conn_ s) (u64 (bytesRead_ s + size)) (u64 (bytesWritten_ s + size))
               (u64 (countRead_ s + 1))]> (sessions_ c))
     (numConnected_ c) (out c) (calls c).

(** [Client::handleTimeout]: every session is stopped. *)
Definition handleTimeout (c : t) : t :=
  mk (sessionCount_ c) (message_ c) (sessions_ c) (numConnected_ c) (out c)
     (calls c ++ imap (fun i s => Stop i (conn_ s)) (sessions_ c)).

(** The callbacks of a connection come in the order of its life. *)
Inductive input := OnConnect (i : nat) | OnDisconnect (i : nat) | OnRead (i : nat) (size : Z) | Timeout.

Definition step (ev : input) (c : t) : option t :=
  match ev with
  | OnConnect i => s ← sessions_ c !! i; if conn_ s then None else Some (onConnect i s c)
  | OnDisconnect i => s ← sessions_ c !! i; if conn_ s then Some (onDisconnect i s c) else None
  | OnRead i size =>
      s ← sessions_ c !! i; if conn_ s && (0 <? size) then Some (onRead i size s c) else None
  | Timeout => Some (handleTimeout c)
  end.

Fixpoint run (evs : list input) (c : t) : option t :=
  match evs with
  | [] => Some c
  | ev :: rest => c1 ← step ev c; run rest c1
  end.

(** *** Specification *)

Fixpoint sum (l : list Z) : Z := match l with [] => 0 | x :: rest => x + sum rest end.

(** The sizes of all reads. *)
Definition reads (evs : list input) : list Z :=
  omap (fun ev => match ev with OnRead _ size => Some size | _ => None end) evs.

Definition connected (c : t) : Z := sum ((fun s => if conn_ s then 1 else 0) <$> sessions_ c).

Lemma sum_nonneg l : Forall (fun x => 0 <= x) l -> 0 <= sum l.
Proof. induction 1; cbn; lia. Qed.

Lemma sum_app l k : sum (l ++ k) = sum l + sum k.
Proof. induction l; cbn; lia. Qed.

(** Updating one element changes the sum by the difference. *)
Lemma sum_insert {A} (f : A -> Z) l i x y :
  l !! i = Some x -> sum (f <$> <[i := y]> l) = sum (f <$> l) - f x + f y.
Proof.
  revert i. induction l as [|a l IH]; intros [|i] H; cbn in *; try done.
  - injection H as ->. lia.
  - rewrite IH by done. lia.
Qed.

Lemma sum_lookup {A} (f : A -> Z) l i x :
  Forall (fun a => 0 <= f a) l -> l !! i = Some x -> f x <= sum (f <$> l).
Proof.
  intros Hl. revert i. induction Hl as [|a l Ha Hl IH]; intros [|i] H; cbn in *; try done.
  - injection H as ->. assert (0 <= sum (f <$> l)); [|lia]. apply sum_nonneg. by apply Forall_fmap.
  - specialize (IH i H). lia.
Qed.

Lemma i64_small x : 0 <= x < 9223372036854775808 -> i64 x = x.
Proof. intros. unfold i64. rewrite Z.mod_small by lia. lia. Qed.

Lemma total_sum f ss :
  Forall (fun s => 0 <= f s) ss -> sum (f <$> ss) < 9223372036854775808 -> total f ss = sum (f <$> ss).
Proof.
  intros Hss Hs. unfold total.
  enough (forall acc, 0 <= acc -> acc + sum (f <$> ss) < 9223372036854775808 ->
    foldl (fun acc s => i64 (acc + i64 (f s))) acc ss = acc + sum (f <$> ss)) as H by by rewrite H.
  clear Hs. induction Hss as [|s ss Hf Hss IH]; intros acc Hacc Hs; cbn in *; [lia|].
  assert (0 <= sum (f <$> ss)) by (apply sum_nonneg; by apply Forall_fmap).
  rewrite (i64_small (f s)), i64_small by lia. rewrite IH by lia. lia.
Qed.

Record inv (n : nat) (past : list Z) (c : t) : Prop := {
  inv_sessions : length (sessions_ c) = n;
  inv_count : sessionCount_ c = Z.of_nat n;
  inv_connected : numConnected_ c = connected c;
  inv_nonneg : Forall (fun s => 0 <= bytesRead_ s /\ 0 <= countRead_ s) (sessions_ c);
  inv_bytes : sum (bytesRead_ <$> sessions_ c) = sum past;
  inv_reads : sum (countRead_ <$> sessions_ c) = zlen past
}.

Lemma connected_range c : 0 <= connected c <= zlen (sessions_ c).
Proof.
  unfold connected. induction (sessions_ c) as [|s ss IH]; cbn; [zlia|].
  rewrite zlen_cons. destruct (conn_ s); lia.
Qed.

Lemma connected_insert c i s s' :
  sessions_ c !! i = Some s ->
  sum ((fun s => if conn_ s then 1 else 0) <$> <[i := s']> (sessions_ c)) =
  connected c - (if conn_ s then 1 else 0) + (if conn_ s' then 1 else 0).
Proof. intros H. unfold connected. by rewrite (sum_insert _ _ _ _ _ H). Qed.

Lemma i32_id x : -2147483648 <= x < 2147483648 -> i32 x = x.
Proof. intros. unfold i32. rewrite Z.mod_small by lia. lia. Qed.

Section Invariant.
Context (n : nat) (Hn : Z.of_nat n < 2147483648).

Definition small (past : list Z) : Prop :=
  sum past < 9223372036854775808 /\ zlen past < 9223372036854775808.

Lemma session_bounds past c i s :
  inv n past c -> sessions_ c !! i = Some s ->
  0 <= bytesRead_ s <= sum past /\ 0 <= countRead_ s <= zlen past.
Proof.
  intros [_ _ _ Hnn Hb Hr] Hi. rewrite <- Hb, <- Hr.
  pose proof (Forall_lookup_1 _ _ _ _ Hnn Hi) as [? ?].
  split; (split; [done|]); eapply sum_lookup; try exact Hi; (eapply Forall_impl; [|exact Hnn]; cbn; tauto).
Qed.

(** A session changes, the counters of the others stay. *)
Lemma inv_update past c i s s' past' c' :
  inv n past c -> sessions_ c !! i = Some s -> sessions_ c' = <[i := s']> (sessions_ c) ->
  sessionCount_ c' = sessionCount_ c ->
  numConnected_ c' = connected c - (if conn_ s then 1 else 0) + (if conn_ s' then 1 else 0) ->
  0 <= bytesRead_ s' /\ 0 <= countRead_ s' ->
  sum past' = sum past - bytesRead_ s + bytesRead_ s' ->
  zlen past' = zlen past - countRead_ s + countRead_ s' -> inv n past' c'.
Proof.
  intros [Hl Hc Hco Hnn Hb Hr] Hi Hss Hsc Hnum H0 Hsum Hlen.
  constructor; unfold connected; rewrite ?Hss; try congruence.
  - by rewrite length_insert.
  - by rewrite (connected_insert _ _ _ _ Hi).
  - by apply Forall_insert.
  - rewrite (sum_insert _ _ _ _ _ Hi). lia.
  - rewrite (sum_insert _ _ _ _ _ Hi). lia.
Qed.

Lemma client_step_inv past ev c c' :
  inv n past c -> step ev c = Some c' -> small (past ++ reads [ev]) -> inv n (past ++ reads [ev]) c'.
Proof.
  intros Hinv E [Hsum Hlen]. pose proof (connected_range c) as Hr. pose proof Hinv as [Hl Hc Hco _ _ _].
  assert (zlen (sessions_ c) = Z.of_nat n) as Hz by (unfold zlen; lia). rewrite Hz in Hr.
  destruct ev as [i|i|i size|]; cbn [step reads omap list_omap] in *; rewrite ?app_nil_r in *.
  4:{ injection E as <-. destruct Hinv. by constructor. }
  all: apply bind_Some in E as (s & Hi & E); pose proof (session_bounds past c i s Hinv Hi) as [Hb Hk].
  - destruct (conn_ s) eqn:Es; [done|]. injection E as <-.
    assert (connected c + 1 <= Z.of_nat n).
    { pose proof (connected_range (onConnect i s c)) as Hr'. unfold connected in Hr'.
      cbn [sessions_ onConnect] in Hr'. rewrite (connected_insert _ _ _ _ Hi), Es in Hr'.
      unfold zlen in *. rewrite length_insert in Hr'. cbn in Hr'. lia. }
    eapply (inv_update past); [exact Hinv|exact Hi|reflexivity|reflexivity| |cbn; lia|cbn; lia|cbn; lia].
    rewrite Es. cbn. rewrite i32_id by lia. lia.
  - destruct (conn_ s) eqn:Es; [|done]. injection E as <-.
    eapply (inv_update past) with (s' := mk_session false (bytesRead_ s) (bytesWritten_ s) (countRead_ s));
      [exact Hinv|exact Hi| | | |cbn; lia|cbn; lia|cbn; lia];
      unfold onDisconnect; destruct (_ =? 0); try reflexivity; rewrite Es; cbn; rewrite i32_id by lia; lia.
  - destruct (conn_ s) eqn:Es; [|done]. destruct (0 <? size) eqn:E0; [|done]. zbool. injection E as <-.
    rewrite sum_app, zlen_app in *. cbn in Hsum, Hlen. change (zlen [size]) with 1 in *.
    eapply (inv_update past); [exact Hinv|exact Hi|reflexivity|reflexivity| |cbn|cbn|cbn].
    + cbn. rewrite Es. lia.
    + u64_simpl. lia.
    + rewrite sum_app. cbn. u64_simpl. lia.
    + rewrite zlen_app. change (zlen [size]) with 1. u64_simpl. lia.
Qed.

Lemma step_reads ev c c' : step ev c = Some c' -> Forall (fun x => 0 < x) (reads [ev]).
Proof.
  intros E. destruct ev as [i|i|i size|]; cbn in *; try constructor; [|constructor].
  apply bind_Some in E as (s & _ & E). destruct (conn_ s); [|done]. cbn in E.
  destruct (0 <? size) eqn:E0; [by zbool|done].
Qed.

Lemma run_reads evs c c' : run evs c = Some c' -> Forall (fun x => 0 < x) (reads evs).
Proof.
  revert c. induction evs as [|ev evs IH]; intros c E; cbn [run] in E; [constructor|].
  apply bind_Some in E as (c1 & E1 & E). change (ev :: evs) with ([ev] ++ evs). unfold reads.
  rewrite omap_app. apply Forall_app. split; [by eapply step_reads|by eapply IH].
Qed.

Lemma pingpong_client_run_inv evs past c c' :
  inv n past c -> run evs c = Some c' -> small (past ++ reads evs) -> inv n (past ++ reads evs) c'.
Proof.
  revert past c. induction evs as [|ev evs IH]; intros past c Hinv E Hs.
  - cbn in *. injection E as <-. by rewrite app_nil_r.
  - pose proof (run_reads _ _ _ E) as Hpos. cbn [run] in E. apply bind_Some in E as (c1 & E1 & E).
    assert (reads (ev :: evs) = reads [ev] ++ reads evs) as Hreads by (unfold reads; by rewrite <- omap_app).
    rewrite Hreads, app_assoc in *. apply IH with c1; [|done|done].
    apply client_step_inv with c; [done|done|]. destruct Hs as [Hs1 Hs2].
    assert (0 <= sum (reads evs)).
    { apply sum_nonneg. apply Forall_app in Hpos as [_ Hpos]. eapply Forall_impl; [|exact Hpos]. cbn. lia. }
    rewrite sum_app in Hs1. rewrite zlen_app in Hs2. split; zlia.
Qed.

Lemma pingpong_client_make_inv blockSize : inv n [] (make blockSize n).
Proof.
  assert (forall f : session -> Z, f make_session = 0 -> sum (f <$> replicate n make_session) = 0) as H0.
  { intros f Hf. induction n as [|k IH]; [done|]. cbn. rewrite IH by lia. lia. }
  constructor; cbn; try done.
  - by rewrite length_replicate.
  - unfold connected. cbn. by rewrite H0.
  - by apply Forall_replicate.
  - by apply H0.
  - by apply H0.
Qed.
End Invariant.

(** In whatever order the sessions' connections open, read and close,
    [numConnected_] is the number of sessions that are connected; the client
    asks its loop to quit exactly when the last connected session disconnects,
    and the totals it then prints are the number and the sizes of all reads of
    all sessions. *)
Theorem pingpong_client_reports (blockSize n : nat) (evs : list input) (c : t)
  (Hn : Z.of_nat n < 2147483648) (Hrun : run evs (make blockSize n) = Some c)
  (Hbytes : sum (reads evs) < 9223372036854775808) (Hreads : zlen (reads evs) < 9223372036854775808) :
  numConnected_ c = connected c /\
  forall i c', step (OnDisconnect i) c = Some c' ->
    if connected c =? 1
    then out c' = out c ++ [AllDisconnected (sum (reads evs)) (zlen (reads evs))] /\
         calls c' = calls c ++ [Quit]
    else out c' = out c /\ calls c' = calls c.
Proof.
  pose proof (pingpong_client_run_inv n Hn evs [] _ c (pingpong_client_make_inv n Hn blockSize) Hrun (conj Hbytes Hreads)) as Hinv.
  pose proof Hinv as [Hl _ Hco Hnn Hb Hr]. cbn [app] in Hb, Hr. split; [done|]. intros i c' E. cbn [step] in E.
  apply bind_Some in E as (s & Hi & E). destruct (conn_ s) eqn:Es; [|done]. injection E as <-.
  pose proof (connected_range c) as Hrange. unfold zlen in Hrange. rewrite Hl in Hrange.
  unfold onDisconnect. rewrite i32_id, Hco by lia.
  rewrite !total_sum, Hb, Hr; try (eapply Forall_impl; [|exact Hnn]; cbn; tauto); rewrite ?Hb, ?Hr; try done.
  destruct (decide (connected c = 1)) as [->|Hne]; [done|].
  rewrite (proj2 (Z.eqb_neq (connected c) 1)), (proj2 (Z.eqb_neq _ _)) by lia. done.
Qed.

Lemma pingpong_client_reports_witness :
  exists c, run [OnConnect 0; OnConnect 1; OnRead 0 4; OnDisconnect 1; OnRead 0 3] (make 16 2) = Some c /\
    forall c', step (OnDisconnect 0) c = Some c' -> out c' = [AllConnected; AllDisconnected 7 2].
Proof.
  eexists. split; [vm_compute; reflexivity|]. intros c' E.
  destruct (pingpong_client_reports 16 2 [OnConnect 0; OnConnect 1; OnRead 0 4; OnDisconnect 1; OnRead 0 3] _
    eq_refl eq_refl eq_refl eq_refl) as [_ H].
  exact (proj1 (H 0%nat c' E)).
Defined.
End PingPongClient.
