(* ===== verification/UtilFile.v ===== *)
(** [nutty/util/FileUtil.*]: reading a file into a string, in pieces. The
    kernel is a parameter: what [open] and [read] return is a function of the
    calls made before. *)

From S2P Require Import Prelude.

Module FileReader.

(** What [read] returns: the bytes it stored, none at the end of the file, or
    -1 and [errno]. *)
Inductive rresult := RBytes (bytes : list byte) | RFail (err : Z).

Inductive event :=
  | EvOpen (fd err : Z)
  | EvRead (fd n : Z) (r : rresult)
  | EvClose (fd : Z).

Abbreviation trace := (list event).

(** [sys_open filename] is the descriptor and [errno]. *)
Record env := {
  sys_open : list byte -> Z * Z;
  sys_read : trace -> Z -> rresult
}.

(** The bytes that were read. *)
Definition delivered (l : trace) : list byte :=
  mjoin (omap (fun ev => match ev with EvRead _ _ (RBytes bytes) => Some bytes | _ => None end) l).

Definition closed (l : trace) : list Z :=
  omap (fun ev => match ev with EvClose fd => Some fd | _ => None end) l.

#[global] Arguments delivered : simpl never.
#[global] Arguments closed : simpl never.

Section FileReader.
Context (e : env).

Record t := mk { fd_ : Z; err_ : Z; tr : trace }.

Definition emit (ev : event) (s : t) : t := mk (fd_ s) (err_ s) (tr s ++ [ev]).

(** [FileReader::FileReader] *)
Definition make (filename : list byte) : t :=
  let '(fd, err) := sys_open e filename in
  mk fd (if fd <? 0 then err else 0) [EvOpen fd err].

(** [FileReader::~FileReader] *)
Definition destroy (s : t) : t := if 0 <=? fd_ s then emit (EvClose (fd_ s)) s else s.

(** [char buf[65536]] *)
Definition buf_size : Z := 65536.

(** The [while] loop of [readToString]; [None] is a store or a load outside
    of [buf], or the end of the fuel. *)
Fixpoint read_loop (fuel : nat) (content : list byte) (size : Z) (s : t) : option (Z * list byte * t) :=
  if zlen content <? size then
    match fuel with
    | O => None
    | S fuel' =>
        let toRead := Z.min (u64 (size - zlen content)) buf_size in
        let r := sys_read e (tr s) toRead in
        let s1 := emit (EvRead (fd_ s) toRead r) s in
        match r with
        | RBytes bytes =>
            buf ← memcpy (replicate (Z.to_nat buf_size) Byte.x00) 0 (bytes, 0) (zlen bytes);
            if 0 <? zlen bytes then
              piece ← load (buf, 0) (zlen bytes);
              read_loop fuel' (content ++ piece) size s1
            else Some (err_ s1, content, s1)
        | RFail err => Some (err, content, s1)
        end
    end
  else Some (err_ s, content, s).

(** [readToString(content, size)]: the result, [content] and the reader after
    the call. Every round but the last makes [content] longer. *)
Definition readToString (content : list byte) (size : Z) (s : t) : option (Z * list byte * t) :=
  if fd_ s <? 0 then Some (err_ s, content, s)
  else read_loop (Z.to_nat (size - zlen content)) content size s.

(** [FileReader::readFile(filename, content, size)] *)
Definition readFile (filename content : list byte) (size : Z) : option (Z * list byte * trace) :=
  '(err, content', s) ← readToString content size (make filename);
  Some (err, content', tr (destroy s)).

(** ** Specification *)

(** [read] stores at most what was asked for. *)
Definition env_ok : Prop := forall l n bytes, 0 <= n -> sys_read e l n = RBytes bytes -> zlen bytes <= n.

Lemma delivered_snoc l ev :
  delivered (l ++ [ev]) =
    delivered l ++ match ev with EvRead _ _ (RBytes bytes) => bytes | _ => [] end.
Proof.
  unfold delivered. rewrite omap_app, join_app. f_equal.
  destruct ev as [|? ? [bytes|]|]; cbn; by rewrite ?app_nil_r.
Qed.

Lemma closed_snoc l ev :
  closed (l ++ [ev]) = closed l ++ match ev with EvClose fd => [fd] | _ => [] end.
Proof. unfold closed. rewrite omap_app. by destruct ev. Qed.

(** Through the buffer on the stack the bytes reach [content] unchanged. *)
Lemma through_buf bytes :
  zlen bytes <= buf_size ->
  exists buf, memcpy (replicate (Z.to_nat buf_size) Byte.x00) 0 (bytes, 0) (zlen bytes) = Some buf /\
    load (buf, 0) (zlen bytes) = Some bytes.
Proof.
  intros Hl. pose proof (zlen_nonneg bytes).
  assert (zlen (replicate (Z.to_nat buf_size) Byte.x00) = buf_size) as Hb by (rewrite zlen_replicate; unfold buf_size; lia).
  rewrite memcpy_ok, slice_all by lia. eexists. split; [done|].
  rewrite load_ok by (rewrite ?zlen_splice; lia). f_equal.
  apply slice_splice_same; lia.
Qed.

(** How a call of [readToString] on an open file ends: everything asked for is
    there, the file ended, or [read] failed. *)
Inductive outcome (size : Z) (content' : list byte) (s s' : t) : Z -> Prop :=
  | out_full : size <= zlen content' -> outcome size content' s s' (err_ s)
  | out_eof l n : tr s' = l ++ [EvRead (fd_ s) n (RBytes [])] -> outcome size content' s s' (err_ s)
  | out_error l n err : tr s' = l ++ [EvRead (fd_ s) n (RFail err)] -> outcome size content' s s' err.

Lemma read_loop_spec (He : env_ok) fuel content size s :
  size - zlen content <= Z.of_nat fuel -> in_u64 size ->
  exists err content' s', read_loop fuel content size s = Some (err, content', s') /\
    fd_ s' = fd_ s /\ closed (tr s') = closed (tr s) /\
    (exists bytes, content' = content ++ bytes /\ delivered (tr s') = delivered (tr s) ++ bytes) /\
    zlen content' <= Z.max size (zlen content) /\ outcome size content' s s' err.
Proof.
  revert content s. induction fuel as [|fuel IH]; intros content s Hf Hsz; cbn [read_loop];
    destruct (zlen content <? size) eqn:E; zbool; [lia| | |];
    try (exists (err_ s), content, s; split; [done|]; split; [done|]; split; [done|];
         split; [exists []; by rewrite !app_nil_r|]; split; [lia|by apply out_full]).
  unfold in_u64 in Hsz. pose proof (zlen_nonneg content). rewrite u64_small by (unfold in_u64; lia).
  set (toRead := Z.min _ buf_size). set (r := sys_read e (tr s) toRead).
  destruct r as [bytes|err] eqn:Er.
  - pose proof (He _ toRead _ ltac:(unfold toRead, buf_size; lia) Er) as Hb. destruct (through_buf bytes) as (buf & -> & Hload); [unfold toRead in *; lia|].
    cbn [mbind option_bind]. destruct (0 <? zlen bytes) eqn:E0; zbool.
    + rewrite Hload. cbn [mbind option_bind].
      destruct (IH (content ++ bytes) (emit (EvRead (fd_ s) toRead (RBytes bytes)) s))
        as (err & content' & s' & -> & Hfd & Hcl & (more & Hc & Hd) & Hmax & Hout); [zlia|done|].
      exists err, content', s'. split; [done|]. split; [done|]. cbn in Hcl, Hd.
      rewrite closed_snoc, app_nil_r in Hcl. split; [done|].
      split; [exists (bytes ++ more); rewrite Hc, Hd, delivered_snoc; by rewrite <- !app_assoc|].
      split; [zlia|]. by destruct Hout; [apply (out_full _ _ s)|eapply (out_eof _ _ s)|eapply (out_error _ _ s)].
    + rewrite (zlen_0_nil bytes) in * by lia.
      exists (err_ s), content, (emit (EvRead (fd_ s) toRead (RBytes [])) s).
      split; [done|]. split; [done|]. cbn. rewrite closed_snoc, delivered_snoc, !app_nil_r. split; [done|].
      split; [exists []; by rewrite !app_nil_r|]. split; [lia|]. by eapply out_eof.
  - exists err, content, (emit (EvRead (fd_ s) toRead (RFail err)) s).
    split; [done|]. split; [done|]. cbn. rewrite closed_snoc, delivered_snoc, !app_nil_r. split; [done|].
    split; [exists []; by rewrite !app_nil_r|]. split; [lia|]. by eapply out_error.
Qed.

(** ** Theorems *)

(** C32: [readFile] terminates, whatever the kernel does, and never leaves its
    buffer. It appends to [content] exactly what was read, which does not make
    it longer than [size]; a file that was opened is closed exactly once; and
    the result is the [errno] of the call that failed, or 0 when there was
    enough to read or the file ended. *)
Theorem readFile_returns (filename content : list byte) (size : Z) (He : env_ok) (Hsize : in_u64 size) :
  exists err content' l, readFile filename content size = Some (err, content', l) /\
    content' = content ++ delivered l /\ zlen content' <= Z.max size (zlen content) /\
    let '(fd, open_err) := sys_open e filename in
    if fd <? 0 then err = open_err /\ content' = content /\ closed l = []
    else closed l = [fd] /\
      ((err = 0 /\ size <= zlen content') \/
       (exists l' n, err = 0 /\ l = l' ++ [EvRead fd n (RBytes []); EvClose fd]) \/
       (exists l' n, l = l' ++ [EvRead fd n (RFail err); EvClose fd])).
Proof.
  unfold readFile, readToString, make. destruct (sys_open e filename) as [fd open_err].
  cbn [fd_ err_]. destruct (fd <? 0) eqn:Efd; zbool.
  - cbn [mbind option_bind]. unfold destroy. cbn [fd_]. rewrite (proj2 (Z.leb_gt 0 fd)) by lia.
    do 3 eexists. split; [done|]. split; [by rewrite app_nil_r|]. split; [lia|done].
  - destruct (read_loop_spec He (Z.to_nat (size - zlen content)) content size (mk fd 0 [EvOpen fd open_err]))
      as (err & content' & s' & -> & Hfd & Hcl & (bytes & Hc & Hd) & Hmax & Hout); [lia|done|].
    cbn [mbind option_bind fd_ err_ tr] in *. unfold destroy. rewrite Hfd, (proj2 (Z.leb_le 0 fd)) by lia.
    do 3 eexists. split; [done|]. cbn. rewrite delivered_snoc, closed_snoc, Hcl, Hd, app_nil_r.
    split; [done|]. split; [done|]. split; [done|].
    destruct Hout as [?|l n Hl|l n err Hl]; [by left|right; left|right; right]; cbn in Hl;
      exists l, n; rewrite Hl, <- app_assoc; done.
Qed.

End FileReader.

(** *** A regular file *)

(** A file with these bytes, of which [read] returns at most [chunk] at a time
    from where it stopped. *)
Definition file_env (fd : Z) (file : list byte) (chunk : trace -> Z) : env := {|
  sys_open _ := (fd, 0);
  sys_read l n := RBytes (ztake (Z.min n (Z.max 1 (chunk l))) (zdrop (zlen (delivered l)) file))
|}.

Lemma file_env_ok fd file chunk : env_ok (file_env fd file chunk).
Proof. intros l n bytes Hn [= <-]. zlia. Qed.

Section RegularFile.
Context (fd : Z) (Hfd : 0 <= fd) (file : list byte) (chunk : trace -> Z).

Lemma ztake_zlen n (l : list byte) : ztake (zlen (ztake n l)) l = ztake n l.
Proof.
  destruct (decide (zlen l <= n)); [by rewrite !ztake_all by zlia|].
  destruct (decide (n <= 0)); [by rewrite !(ztake_nonpos n) by done|]. f_equal. zlia.
Qed.

(** One more piece of the file. *)
Lemma prefix_more (past : list byte) (m : Z) :
  0 <= m -> past = ztake (zlen past) file ->
  past ++ ztake m (zdrop (zlen past) file) = ztake (zlen (past ++ ztake m (zdrop (zlen past) file))) file.
Proof.
  intros Hm Hp. pose proof (zlen_nonneg past).
  assert (past ++ ztake m (zdrop (zlen past) file) = ztake (zlen past + m) file) as E.
  { pose proof (slice_app 0 (zlen past) m file) as Hs. unfold slice in Hs. rewrite zdrop_0 in Hs.
    rewrite <- Hp in Hs. rewrite Z.add_0_l in Hs. by apply Hs. }
  by rewrite E, ztake_zlen.
Qed.

(** What was read so far is the beginning of the file. *)
Lemma read_loop_prefix fuel content size s err content' s' :
  delivered (tr s) = ztake (zlen (delivered (tr s))) file -> in_u64 size ->
  read_loop (file_env fd file chunk) fuel content size s = Some (err, content', s') ->
  delivered (tr s') = ztake (zlen (delivered (tr s'))) file /\ err = err_ s /\
  (size <= zlen content' \/ zlen file <= zlen (delivered (tr s'))).
Proof.
  revert content s. induction fuel as [|fuel IH]; intros content s Hpre Hsz E; cbn [read_loop] in E;
    destruct (zlen content <? size) eqn:E0; zbool; [done| | |];
    try (injection E as <- <- <-; split; [done|]; split; [done|]; by left).
  pose proof (zlen_nonneg content). unfold in_u64 in Hsz. rewrite u64_small in E by (unfold in_u64; lia).
  set (toRead := Z.min _ buf_size) in E. cbn [sys_read file_env] in E.
  set (past := delivered (tr s)) in *. set (m := Z.min toRead _) in E. set (bytes := ztake m _) in E.
  assert (0 < m <= buf_size) as Ht by (unfold m, toRead, buf_size; lia).
  destruct (through_buf bytes) as (buf & Hm & Hload); [unfold bytes; zlia|].
  rewrite Hm in E. cbn [mbind option_bind] in E.
  pose proof (prefix_more past m ltac:(lia) Hpre) as Hpre'. fold bytes in Hpre'.
  destruct (0 <? zlen bytes) eqn:E1; zbool.
  - rewrite Hload in E. cbn [mbind option_bind] in E.
    apply IH in E; [exact E| |done]. cbn. by rewrite delivered_snoc.
  - injection E as <- <- <-. cbn. rewrite delivered_snoc. split; [exact Hpre'|]. split; [reflexivity|].
    right. fold past. unfold bytes in *. zlia.
Qed.

(** On a regular file [readFile] is the reference "append the first
    [size - content.size()] bytes of the file", however few bytes each [read]
    returns, and reports success. *)
Theorem readFile_reads_prefix (filename content : list byte) (size : Z) (Hsize : in_u64 size) :
  exists l, readFile (file_env fd file chunk) filename content size =
      Some (0, content ++ ztake (size - zlen content) file, l) /\ closed l = [fd].
Proof.
  unfold readFile, readToString, make. cbn [sys_open file_env fd_ err_].
  rewrite (proj2 (Z.ltb_ge fd 0)) by done. cbn [fd_].
  destruct (read_loop_spec _ (file_env_ok fd file chunk) (Z.to_nat (size - zlen content)) content size
    (mk fd 0 [EvOpen fd 0])) as (err & content' & s' & E & Hfd' & Hcl & (bytes & Hc & Hd) & Hmax & _); [lia|done|].
  destruct (read_loop_prefix _ _ _ (mk fd 0 [EvOpen fd 0]) _ _ _ eq_refl Hsize E) as (Hpre & Herr & Hend).
  rewrite E. cbn [mbind option_bind fd_ err_ tr] in *. unfold destroy. rewrite Hfd', (proj2 (Z.leb_le 0 fd)) by lia.
  exists (tr s' ++ [EvClose fd]). split; [|by rewrite closed_snoc, Hcl]. cbn in Hd. rewrite Herr, Hc, Hd in *.
  change (delivered [EvOpen fd 0]) with (@nil byte) in *. cbn [app] in *.
  enough (bytes = ztake (size - zlen content) file) as <- by done.
  rewrite zlen_app in *. pose proof (zlen_nonneg bytes). rewrite Hpre.
  destruct (decide (size <= zlen content)); [by rewrite !ztake_nonpos by lia|].
  destruct (decide (zlen file <= zlen bytes)); [by rewrite !ztake_all by lia|]. f_equal. lia.
Qed.
End RegularFile.

Definition hello : list byte := [Byte.x68; Byte.x65; Byte.x6c; Byte.x6c; Byte.x6f].

(** Two bytes at a time. *)
Definition hello_env : env := file_env 3 hello (fun _ => 2).

Lemma readFile_returns_witness :
  exists err content' l, readFile hello_env [] [] 4 = Some (err, content', l) /\ closed l = [3] /\ zlen content' <= 4.
Proof.
  destruct (readFile_returns hello_env [] [] 4 (file_env_ok 3 hello _)) as (err & content' & l & E & _ & Hmax & H);
    [vm_compute; split; [discriminate|reflexivity]|].
  exists err, content', l. split; [exact E|]. split; [exact (proj1 H)|exact Hmax].
Defined.

Lemma readFile_reads_prefix_witness :
  exists l, readFile hello_env [] [Byte.x3e] 5 = Some (0, Byte.x3e :: ztake 4 hello, l) /\ closed l = [3].
Proof.
  apply (readFile_reads_prefix 3 ltac:(lia) hello (fun _ => 2) [] [Byte.x3e] 5).
  vm_compute. split; [discriminate|reflexivity].
Defined.
End FileReader.
